(* ===== verification/_CoqProject ===== *)
-Q . S2P
Prelude.v
Hostcall.v
Bytes.v
Block.v
BlockDev.v
Fdtab.v
FdSpec.v
Fatfs.v
FileStack.v
Ipv4.v
Text.v
TapSetup.v
Socket.v
SocketSpec.v
SocketProps.v
InodeTab.v
RcoreInit.v
RcoreSpec.v
Libos.v
Mpk.v
Metric.v
IsolTable.v
Threads.v
Visor.v
VisorSpec.v
Buffers.v
BuffersSpec.v
Mmap.v
MmapSpec.v
WasmPlatform.v
AsStd.v
NetApi.v
Httpd.v
AsStdSpec.v
Trampoline.v
DataFiles.v
DataFilesSpec.v
SimpleFile.v
Slots.v
FileInputs.v
Contracts.v
Entry.v
SortFuncs.v
SortSpec.v
SortFlow.v
ParallelSort.v
VisorFlow.v
VisorSeq.v
PassArgs.v
SortVisor.v
LongChain.v
MemSlots.v
SortMemory.v
WordCount.v
WordCountSpec.v
WordCountFlow.v
CountVisor.v
Rux.v
RuxSpec.v
Ext4.v
Ext4Spec.v
Wasi.v
WasiLink.v
WasiSpec.v
WasiCalls.v
WasiDir.v
WasiLimits.v
WasmBuffer.v
WasiCuts.v
WasmFuncs.v
WasmFuncsSpec.v
