(* ===== verification/Prelude.v ===== *)
(** * AlloyStack: a verification development

    AlloyStack runs serverless workflows inside one address space.  The visor
    (libasvisor, started by bins/asvisor) reads a configuration, builds an
    _isolation_ for it and loads functions (user code) and library OS services
    (common_service) as dynamic libraries, each in its own link namespace.  A
    module learns of its isolation through a context (as_std/init_context.rs) and
    reaches the services by host calls: the [libos!] macro (as_std/libos) asks the
    visor for the address of a call once, the visor finds the service it belongs
    to (as_hostcall), loads it if need be, and gives the address back.  Functions
    of one group run in parallel threads, groups one after the other, and a
    function hands its result to the next one in a buffer of the mm service.

    ** The files

    - Prelude: outcomes ([Ret], [Panic], [Deadlock], [NoFuel]), Rust's [Result],
      the state-passing program monad [prog] and its notations, checked machine
      arithmetic, the hint database and lemmas on lists, loops and maps.
    - Hostcall: as_hostcall/src/{lib,types}.rs; names, routing, shared data.
    - Bytes: byte buffers, slices that panic out of range, little-endian codecs.
    - Block, BlockDev: the block-driver trait with its contract, the RAM disk and
      the disk over an image file (ramdisk/driver_block), and the byte-addressed
      devices two file systems put over any block driver
      (rcore_sfsfdtab/src/sfs_apis.rs, ext4fdtab/src/ext4_apis.rs).
    - Fdtab, FdSpec: common_service/fdtab and its contract, a step relation on
      finite maps that every call is proved to refine over any service below, one
      whose calls panic or block included ([fd_runs]).
    - Fatfs, FileStack: common_service/fatfs over the fatfs crate (dropping a file of
      the crate flushes it), and the stack of fdtab over fatfs as the isolation
      composes them.
    - Ipv4, Text, TapSetup: numbers and addresses as text, what the functions use of
      [str] and [char], and the commands that make and remove the tap device
      (socket/src/setup_tap.rs).
    - Socket, SocketSpec, SocketProps: common_service/socket over the smoltcp
      crate: its state and calls, the laws of the crate with the lemmas about each
      loop, and the theorems with a scripted network on which they are run.
    - InodeTab, RcoreInit, RcoreSpec: rcorefdtab and rcore_sfsfdtab, the two
      services over in-memory inodes, with the unpacking of the image; a call that
      blocks under the table's spin lock keeps it, so that later calls block too.
    - Ext4, Ext4Spec: common_service/ext4fdtab over the ext4_rs crate.
    - Rux, RuxSpec: common_service/ruxfdtab over the ruxfs and ruxfdtable crates.
    - Libos: as_std/src/{init_context.rs,libos/}; the context and address cache.
    - Mpk: libasvisor/src/{mpk,utils}.rs and as_std/src/mpk.rs; protection keys.
    - Metric: libasvisor/src/metric.rs; time marks of isolations and modules.
    - IsolTable: ISOL_TABLE of libasvisor/src/isolation/mod.rs.
    - Threads: interleaved threads as resumptions run by a schedule.
    - Visor, VisorSpec: libasvisor/src/isolation and libasvisor/src/service:
      configuration, loading, argument passing, groups, host-call handlers.
    - Buffers, BuffersSpec: mm/src/faas_buffer, as_std/src/agent.rs and the
      fingerprint derived by as_std_proc_macro.
    - Mmap, MmapSpec: mm/src/mmap.rs, as_std/src/mm.rs and mmap_file_backend, whose
      handler thread may panic, leaving its pipe and a poisoned lock;
      WasmPlatform: what wasmtime asks of its embedder, over them and the signal
      service (user/wasmtime_hello/src/capis.rs, common_service/signal).
    - AsStd, AsStdSpec: as_std/src/{fs,io,args,time}.rs, what functions link to.
    - Trampoline: the assembly with which the visor calls a function on its own stack
      (invoke_elf_symbol of elf_service.rs), on a machine with registers and memory.
    - DataFiles, DataFilesSpec: the buffers of the file-based build (agent.rs), over
      the File API and the FAT service with the names the fatfs crate accepts
      ([fat_name], compared without regard to letter case); SimpleFile:
      user/simple_file over the same.
    - Slots: the interface a function sees of data buffers and input files, with its
      laws; FileInputs: the input files on the FAT disk.
    - Contracts: groups of functions over that interface, what each is asked for and
      what a group then does under any schedule; Entry: [rust_main] of as_std/src/lib.rs,
      which the visor calls and which calls a function's [main].
    - SortFuncs, SortSpec, SortFlow, ParallelSort: the parallel sort
      (user/file_reader, sorter, splitter, merger, checker): its functions, what they
      compute, the contracts they meet, and the workflow over any slots.
    - VisorFlow, SortVisor: groups of functions as the visor runs them, loaded when
      needed, with their argument lists and time marks, and the parallel sort from a
      new isolation to its end; MemSlots, SortMemory: slots as the mm service's
      buffers, and that run over them and the files of the FAT service.
    - LongChain: user/array_sum, a chain of groups of any length under the visor;
      VisorSeq, PassArgs: functions without groups, and user/func_a and func_b.
    - WordCount, WordCountSpec, WordCountFlow: the word count (user/mapper, reducer),
      and CountVisor: it under the visor.
    - NetApi: as_std/src/net.rs, and streams followed through fdtab into the TCP
      service; Httpd: user/httpd over them.
    - Wasi: wasmtime_wasi_api/src/wasi.rs, every call a WebAssembly guest can make,
      over the guest's memory ([WasmMemory]) and the host's calls ([WasiHost]), and
      WasiLink the names a module imports them under (lib.rs), the two functions of
      data_buffer.rs among them.
      WasiSpec puts it over the file stack; WasiCalls has the vectors of
      arguments, WasiDir directories, WasiLimits clocks, random bytes, addresses
      and file status, WasiCuts how data is cut into buffers.  WasmBuffer:
      data_buffer.rs over the isolation's memory, buffers shared by guests.
    - WasmFuncs, WasmFuncsSpec: the functions that run a WebAssembly module
      (user/wasmtime_sorter and its siblings), statement by statement, with their
      guests' calls of the WASI interface, under any schedule of the instances.

    A service's operations keep the names they have in the source and sit in a
    Module named after the crate where two crates use the same name
    ([Fdtab.read], [Fatfs.read_loop], [InodeTab.read], [Ext4.read]); those of
    ruxfdtab are at the top of their file ([Rux.read]).

    ** How code becomes definitions

    A Rust function over shared state is a [prog S A], a function from the state
    to an [outcome] and a new state: [?] is the bind on [result], [unwrap], index
    errors and [panic!] are [Panic], locking a [spin::Mutex] the thread already
    holds is [Deadlock], and a [std::sync::Mutex] carries its poison flag, which a
    panic under the lock sets.  Integers are [Z] with their width written out;
    [checked w] is arithmetic of the debug profile, which panics on overflow, and
    wrapping operations are written as such.  Code outside the repository is a
    class of operations with a class of laws beside it, e.g. [FatCrate] and
    [FatCrateSpec]; theorems about files are proved from the laws, and every
    class of laws has a concrete instance, at which the witnesses run.  Interfaces between
    the repository's own components are classes as well ([BlockDriver],
    [FdBackend], [ModuleCode]); there the other component discharges the laws.

    Loops that are not structural take fuel.  The fuel given is a bound the
    code itself implies (the length of the buffer or of the rest of the file for the
    read and write loops of BlockDev, Fatfs and AsStd), and the theorems about them
    give the loop's result, so none of them ends in [NoFuel].  The loops that wait
    for the network are given any number of polls: the theorems say after how many
    they return, over which networks, or that they never do.  Parallel code is a [thread]: a schedule is any list of thread
    indices, invariants are proved for all of them, and [group_completes] shows
    that any schedule that gives each thread its steps finishes the group.

    ** What the theorems show

    - Files.  fdtab follows its specification for every sequence of calls on any
      service below ([fdtab_refines]); written bytes are read back through fdtab
      and fatfs and through the File API ([write_seek_read], [file_round_trip]);
      the loops end and are complete ([fatfs_read_complete]); descriptors do not
      share handles ([no_shared_handles]) and those of the inode services are never
      used again ([closed_fd_stays_invalid]).  The ruxos service gives files back
      ([rux_file_round_trip]), each with one owner ([rux_one_owner]).  The device adapters implement flat
      byte arrays ([ext4_write_offset_flat], [ext4_read_offset_flat]).
    - Network.  What a stream is given reaches the socket ([stream_write_all]); a web
      server answers a client through all layers ([httpd_answers]);
      what arrives is taken in order ([recv_takes_prefix]); the loops end over a
      network that moves; handles stay good on the thread that brought
      the service up ([handles_stay_valid]; a second thread does not work,
      [second_thread_kills]); a listener goes on listening ([incoming_next_accepts]); addresses are read as
      they are written ([socket_addr_round_trip]).
    - WebAssembly guests.  Vectors of buffers are written and filled in order
      ([fd_write_gathers], [fd_read_scatters]); arguments and directories arrive
      whole ([args_round_trip], [readdir_lists_all]), the guests of a group each
      get their own arguments ([wasm_sort_arguments]), and a guest that asks for a
      registered buffer gets the bytes the other's memory holds
      ([guests_share_memory]).
    - Visor.  A module is loaded once under every interleaving ([loaded_once]);
      groups come to an end under fair schedules ([group_completes]) and their result
      is that of their threads ([join_all_result]); the end is marked once
      ([completes_once]); host calls are served by the service they name
      ([find_host_call_served]); the call of a function switches stacks, registers and rights and back
      ([stack_switch]); argument pages, precedence of arguments and the table of
      isolations behave as stated there.
    - Data between functions.  A value arrives exactly once whatever other threads
      do ([handover]); in the file-based build it arrives at every receiver
      ([file_handover]), unless a longer one was in the slot ([slot_reuse_mixes]); a page fault is served with the file's page
      ([fault_serves_page]); the fault handler's lock protocol is invariant
      ([handler_invariant]).
    - Workflows.  The parallel sort sorts, provided that each sorter's numbers reach
      past all pivots but the last ([reaches]; if not, [short_sort_fails]), over any
      implementation of the slots ([parallel_sort]), and, with the mm service's
      buffers and the FAT disk below, from the making of an isolation through loading,
      argument lists and time marks to the end of its run ([sort_in_memory]); the word
      count agrees with a reference count ([count_under_visor]); a chain hands its buffer through
      all of its functions ([function_chain]), and functions without groups run in
      their order ([complex_args]); simple_file finds what it wrote
      ([simple_file_result]) when the file was not longer before.
    - Where the code falls short of its purpose the theorem states what it does:
      [create_deadlocks], [drop_order_matters], [new_handle_lost], [region_lost],
      [libos_switch_keeps_permission], [pkey_alloc_reaches_libos_key],
      [mm_heaps_overlap], [buffers_never_freed], [handover_type_check],
      [fatfs_write_hides_errors], [stat_is_frozen], [args_reach_function],
      [second_thread_kills], [send_waits_for_ever], [recv_ignores_last_data],
      [cleanup_leaves_rules], [seek_is_ignored], [first_file_is_root],
      [clock_time_overruns], [random_is_fixed], [high_addresses_panic],
      [std_stream_taken_over], [short_sort_fails], [exit_needs_buffer],
      [remapped_memory_faults], [shipped_chain_panics].

    ** What is not modelled, and why

    The kernel (dlmopen, mmap, userfaultfd, pkey system calls) and third-party crates
    are parameters.  The visor's model calls a function as a thread; that the call
    keeps the caller's registers and memory is Trampoline, which knows the function
    by the calling convention only and leaves vector registers out.  Text that is only printed, JSON reading and writing, and loggers
    are left out.  The model is of the default features, without [enable_mpk] in
    the visor, [namespace] and [serviceV2]; of the buffers both builds are
    modelled, the file-based one for single calls: its buffers take several file calls
    each, and a whole workflow whose functions interleave between them is not
    modelled.  Memory is sequentially consistent, and the steps of a thread are
    the sections the code runs under one lock.

    A function is a parameter of the visor ([ModuleCode]).  The workflows under user/
    are threads over [Slots]; a group of them is run by any runner of the class
    [RunsGroups], plainly or by the visor ([visor_runs]).  Under the visor the slots
    and files are in the world the isolation's host has: the mm service and the file
    services themselves in SortMemory; the addresses of their host calls are not
    resolved again there (that is Libos and [find_host_call_served]).  A buffer is published where its value has its last form,
    since no one takes it before the group has ended, and an input file is read in
    one step, since no function writes it.  Of the functions that run a WebAssembly
    module, wasmtime_longchain, whose buffer outlives its function, is left out, and
    what wasmtime does with a module's bytes is a parameter. *)
From Stdlib Require Export ZArith Lia.
From stdpp Require Export base decidable option list gmap strings pretty.
Export List.ListNotations.

#[export] Set Warnings "-clear-no-such-hyp".

Declare Scope alloy_scope.
Delimit Scope alloy_scope with alloy.
#[global] Open Scope alloy_scope.
#[global] Open Scope Z_scope.

Create HintDb alloy.

(** ** Outcomes, results and the program monad *)

(** What running a piece of Rust can do: return a value, unwind by a panic, or
    block for ever on a lock the same thread already holds.  [NoFuel] is not a
    behaviour of the code: it is what a loop of the model returns when the fuel
    it was given runs out, so a proof that a program does not end in [NoFuel] is
    a proof that its loops terminate. *)
Inductive outcome (A : Type) : Type :=
  | Ret (a : A)
  | Panic
  | Deadlock
  | NoFuel.
Arguments Ret {A} a.
Arguments Panic {A}.
Arguments Deadlock {A}.
Arguments NoFuel {A}.

(** Rust's [Result<T, E>]. *)
Inductive result (T E : Type) : Type :=
  | Ok (t : T)
  | Err (e : E).
Arguments Ok {T E} t.
Arguments Err {T E} e.

#[global] Instance outcome_eq_dec {A} `{EqDecision A} : EqDecision (outcome A).
Proof. solve_decision. Defined.
#[global] Instance result_eq_dec {T E} `{EqDecision T} `{EqDecision E} :
  EqDecision (result T E).
Proof. solve_decision. Defined.

(** The outcome of code that uses a call's value, and of code whose call did not
    return; [None] when it did. *)
Definition outcome_map {A B : Type} (f : A → B) (o : outcome A) : outcome B :=
  match o with Ret a => Ret (f a) | Panic => Panic | Deadlock => Deadlock | NoFuel => NoFuel end.
Definition stops {A B : Type} (o : outcome A) : option (outcome B) :=
  match o with Ret _ => None | Panic => Some Panic | Deadlock => Some Deadlock | NoFuel => Some NoFuel end.

Definition map_err {T E F : Type} (f : E → F) (r : result T E) : result T F :=
  match r with Ok t => Ok t | Err e => Err (f e) end.

Definition is_ok {T E : Type} (r : result T E) : bool :=
  match r with Ok _ => true | Err _ => false end.

(** Code over a state [S]: the state is kept when the code panics, since Rust
    unwinds without undoing the writes already made. *)
Definition prog (S A : Type) : Type := S → outcome A * S.

#[global] Instance prog_mret {S} : MRet (prog S) := λ A a s, (Ret a, s).
#[global] Instance prog_mbind {S} : MBind (prog S) := λ A B k m s,
  match m s with
  | (Ret a, s') => k a s'
  | (Panic, s') => (Panic, s')
  | (Deadlock, s') => (Deadlock, s')
  | (NoFuel, s') => (NoFuel, s')
  end.
#[global] Instance prog_fmap {S} : FMap (prog S) := λ A B f m,
  m ≫= λ a, mret (f a).

Definition gets {S A : Type} (f : S → A) : prog S A := λ s, (Ret (f s), s).
Definition modify {S : Type} (f : S → S) : prog S () := λ s, (Ret (), f s).
Definition panic {S A : Type} : prog S A := λ s, (Panic, s).
Definition deadlock {S A : Type} : prog S A := λ s, (Deadlock, s).
Definition out_of_fuel {S A : Type} : prog S A := λ s, (NoFuel, s).

(** [Option::unwrap]/[expect] and [Result::unwrap]/[expect]. *)
Definition unwrap {S A : Type} (o : option A) : prog S A :=
  match o with Some a => mret a | None => panic end.
Definition unwrap_ok {S T E : Type} (r : result T E) : prog S T :=
  match r with Ok t => mret t | Err _ => panic end.

(** [assert!(b)]. *)
Definition assert {S : Type} (b : bool) : prog S () :=
  if b then mret () else panic.

(** A [lazy_static] cell: a panic in its initialiser poisons it, and from then
    on it panics. *)
Inductive LazyCell : Type := Uninit | Ready | LazyPoisoned.

(** Its dereference, with the initialiser [init] and the cell at [get]/[put]. *)
Definition force {S : Type} (get : S → LazyCell) (put : LazyCell → S → S) (init : prog S ()) :
    prog S () := λ s,
  match get s with
  | Ready => (Ret (), s)
  | LazyPoisoned => (Panic, s)
  | Uninit =>
      match init s with
      | (Ret _, s') => (Ret (), put Ready s')
      | (Panic, s') => (Panic, put LazyPoisoned s')
      | r => r
      end
  end.

(** The [?] operator. *)
Definition try_bind {S T U E : Type} (m : prog S (result T E))
    (k : T → prog S (result U E)) : prog S (result U E) :=
  m ≫= λ r, match r with Ok t => k t | Err e => mret (Err e) end.

Notation "x ←? m ; k" := (try_bind m (λ x, k))
  (at level 20, m at level 100, k at level 200, right associativity) : alloy_scope.
Notation "m ;;? k" := (try_bind m (λ _, k))
  (at level 100, k at level 200, right associativity) : alloy_scope.

(** Code over a component's state run on a larger state that holds it. *)
Definition on {S T A : Type} (get : S → T) (put : T → S → S) (m : prog T A) :
    prog S A := λ s,
  let '(o, t) := m (get s) in (o, put t s).

(** [for a in l { body }] *)
Fixpoint forM {S A : Type} (l : list A) (body : A → prog S ()) : prog S () :=
  match l with
  | [] => mret ()
  | a :: l => body a ;; forM l body
  end.

(** [l.map(f).collect()] with an effectful [f]. *)
Fixpoint traverse {S A B : Type} (f : A → prog S B) (l : list A) :
    prog S (list B) :=
  match l with
  | [] => mret []
  | a :: l => b ← f a; bs ← traverse f l; mret (b :: bs)
  end.

(** [wp m Q s]: run from [s], [m] returns and [Q] holds of the value and the
    final state.  Panics and deadlocks are excluded: it is total correctness. *)
Definition wp {S A : Type} (m : prog S A) (Q : A → S → Prop) (s : S) : Prop :=
  match m s with
  | (Ret a, s') => Q a s'
  | _ => False
  end.

(** ** Machine words *)

(** [x as uN] of a value that may not fit. *)
Definition wrap (w x : Z) : Z := x mod 2 ^ w.
Definition U32_MAX : Z := 2 ^ 32 - 1.
Definition USIZE_MAX : Z := 2 ^ 64 - 1.
(** Reinterpreting an unsigned value as a signed one ([x as iN]). *)
Definition as_signed (w x : Z) : Z :=
  let y := x mod 2 ^ w in if y <? 2 ^ (w - 1) then y else y - 2 ^ w.
(** [!x] at width [w]. *)
Definition unot (w x : Z) : Z := 2 ^ w - 1 - x.
Definition fits (w x : Z) : Prop := 0 ≤ x < 2 ^ w.
Definition fitsb (w x : Z) : bool := (0 <=? x) && (x <? 2 ^ w).

(** Checked arithmetic of the debug profile: overflow panics. *)
Definition checked {S : Type} (w x : Z) : prog S Z :=
  if fitsb w x then mret x else panic.

(** ** Laws of the monad *)
Section monad_laws.
Context {S : Type}.

Lemma bind_ret_l {A B} (a : A) (k : A → prog S B) s : (mret a ≫= k) s = k a s.
Proof. reflexivity. Qed.

Lemma bind_ret_r {A} (m : prog S A) s : (m ≫= mret) s = m s.
Proof. unfold mbind, prog_mbind. by destruct (m s) as [[]]. Qed.

Lemma bind_assoc {A B C} (m : prog S A) (k : A → prog S B) (h : B → prog S C) s :
  ((m ≫= k) ≫= h) s = (m ≫= λ a, k a ≫= h) s.
Proof. unfold mbind, prog_mbind. by destruct (m s) as [[]]. Qed.

Lemma bind_Ret {A B} (m : prog S A) (k : A → prog S B) s a s' :
  m s = (Ret a, s') → (m ≫= k) s = k a s'.
Proof. unfold mbind, prog_mbind. by intros ->. Qed.

Lemma fmap_Ret {A B} (f : A → B) (m : prog S A) s a s' :
  m s = (Ret a, s') → (f <$> m) s = (Ret (f a), s').
Proof. unfold fmap, prog_fmap, mbind, prog_mbind. by intros ->. Qed.

Lemma try_bind_Ok {T U E} (m : prog S (result T E)) (k : T → prog S (result U E)) s t s' :
  m s = (Ret (Ok t), s') → try_bind m k s = k t s'.
Proof. unfold try_bind, mbind, prog_mbind. by intros ->. Qed.

Lemma bind_Panic {A B} (m : prog S A) (k : A → prog S B) s s' :
  m s = (Panic, s') → (m ≫= k) s = (Panic, s').
Proof. unfold mbind, prog_mbind. by intros ->. Qed.

Lemma bind_Ret_inv {A B} (m : prog S A) (k : A → prog S B) s b s'' :
  (m ≫= k) s = (Ret b, s'') → ∃ a s', m s = (Ret a, s') ∧ k a s' = (Ret b, s'').
Proof.
  unfold mbind, prog_mbind. destruct (m s) as [[a| | |] s'] eqn:E; try done. eauto.
Qed.

Lemma forM_app {A} (l1 l2 : list A) (body : A → prog S ()) s :
  forM (l1 ++ l2) body s = (forM l1 body ;; forM l2 body) s.
Proof.
  revert s. induction l1 as [|a l1 IH]; intros s; [done|]. cbn [app forM].
  rewrite bind_assoc. unfold mbind, prog_mbind in *.
  destruct (body a s) as [[]]; [apply IH|done..].
Qed.

Lemma wp_ret {A} (a : A) (Q : A → S → Prop) s : Q a s → wp (mret a) Q s.
Proof. done. Qed.

Lemma wp_bind {A B} (m : prog S A) (k : A → prog S B) Q s :
  wp m (λ a s', wp (k a) Q s') s → wp (m ≫= k) Q s.
Proof. unfold wp, mbind, prog_mbind. by destruct (m s) as [[]]. Qed.

Lemma wp_try_bind {T U E} (m : prog S (result T E)) (k : T → prog S (result U E))
    (Q : result U E → S → Prop) s :
  wp m (λ r s', match r with Ok t => wp (k t) Q s' | Err e => Q (Err e) s' end) s →
  wp (try_bind m k) Q s.
Proof. unfold wp, try_bind, mbind, prog_mbind. by destruct (m s) as [[[]| | |]]. Qed.

Lemma wp_gets {A} (f : S → A) (Q : A → S → Prop) s : Q (f s) s → wp (gets f) Q s.
Proof. done. Qed.

Lemma wp_modify (f : S → S) (Q : () → S → Prop) s : Q () (f s) → wp (modify f) Q s.
Proof. done. Qed.

Lemma wp_mono {A} (m : prog S A) (P Q : A → S → Prop) s :
  wp m P s → (∀ a s', P a s' → Q a s') → wp m Q s.
Proof. unfold wp. destruct (m s) as [[]]; naive_solver. Qed.

Lemma wp_inv {A} (m : prog S A) (Q : A → S → Prop) s :
  wp m Q s → ∃ a s', m s = (Ret a, s') ∧ Q a s'.
Proof. unfold wp. destruct (m s) as [[]]; naive_solver. Qed.

Lemma wp_forM {A} (body : A → prog S ()) (I : list A → S → Prop) l s :
  I l s →
  (∀ a l s, I (a :: l) s → wp (body a) (λ _ s', I l s') s) →
  wp (forM l body) (λ _ s', I [] s') s.
Proof.
  intros HI Hstep. revert s HI. induction l as [|a l IH]; intros s HI; simpl.
  - by apply wp_ret.
  - apply wp_bind. eapply wp_mono; [by apply Hstep|]. naive_solver.
Qed.
End monad_laws.

Lemma wp_checked {S} w x (Q : Z → S → Prop) s :
  fits w x → Q x s → wp (checked w x) Q s.
Proof.
  unfold fits, checked, fitsb. intros Hx HQ.
  by replace ((0 <=? x) && (x <? 2 ^ w)) with true by lia.
Qed.

Lemma wp_unwrap {S A} (o : option A) a (Q : A → S → Prop) s :
  o = Some a → Q a s → wp (unwrap o) Q s.
Proof. by intros -> HQ. Qed.

Lemma wp_unwrap_ok {S T E} (r : result T E) t (Q : T → S → Prop) s :
  r = Ok t → Q t s → wp (unwrap_ok r) Q s.
Proof. by intros -> HQ. Qed.

Lemma checked_fits {S} w x (s : S) : fits w x → checked w x s = (Ret x, s).
Proof.
  unfold fits, checked, fitsb. intros Hx.
  by replace ((0 <=? x) && (x <? 2 ^ w)) with true by lia.
Qed.

Lemma checked_overflow {S} w x (s : S) : ¬ fits w x → checked w x s = (Panic, s).
Proof.
  unfold fits, checked, fitsb. intros Hx.
  by replace ((0 <=? x) && (x <? 2 ^ w)) with false by lia.
Qed.

Lemma fits_mono w x y : fits w y → 0 ≤ x ≤ y → fits w x.
Proof. unfold fits. lia. Qed.

#[export] Hint Resolve wp_ret wp_gets wp_modify wp_checked : alloy.

Lemma unot_land w x : fits w x → 0 ≤ w → unot w x = Z.land (Z.lnot x) (Z.ones w).
Proof.
  unfold fits, unot. intros Hx Hw. rewrite Z.land_ones by lia. unfold Z.lnot.
  apply Z.mod_unique with (q := -1); lia.
Qed.

Lemma testbit_unot w x i : fits w x → 0 ≤ i < w →
  Z.testbit (unot w x) i = negb (Z.testbit x i).
Proof.
  intros Hx Hi. rewrite unot_land by (done || lia).
  rewrite Z.land_spec, Z.lnot_spec, Z.testbit_ones by lia.
  replace ((0 <=? i) && (i <? w)) with true by lia. by rewrite andb_true_r.
Qed.

(** [x & !(2^k - 1)] rounds [x] down to a multiple of [2^k]. *)
Lemma land_unot_ones w k x :
  0 ≤ k ≤ w → fits w x → Z.land x (unot w (2 ^ k - 1)) = x / 2 ^ k * 2 ^ k.
Proof.
  intros Hk Hx.
  assert (0 < 2 ^ k ≤ 2 ^ w)
    by (split; [apply Z.pow_pos_nonneg|apply Z.pow_le_mono_r]; lia).
  rewrite unot_land by (unfold fits; lia).
  replace (2 ^ k - 1) with (Z.ones k) by (rewrite Z.ones_equiv; lia).
  rewrite (Z.land_comm (Z.lnot _)), Z.land_assoc, Z.land_ones by lia.
  rewrite Z.mod_small by done. rewrite <- Z.ldiff_land, Z.ldiff_ones_r by lia.
  by rewrite Z.shiftl_mul_pow2, Z.shiftr_div_pow2 by lia.
Qed.

(** ** Tactics *)

(** Step through a program: peel one bind at a time. *)
Ltac wp_step :=
  lazymatch goal with
  | |- wp (mbind _ _) _ _ => apply wp_bind
  | |- wp (try_bind _ _) _ _ => apply wp_try_bind
  | |- wp (mret _) _ _ => apply wp_ret
  | |- wp (gets _) _ _ => apply wp_gets
  | |- wp (modify _) _ _ => apply wp_modify
  | |- wp (checked _ _) _ _ => apply wp_checked; [try (unfold fits; lia)|]
  end; cbn beta iota.
Ltac wp_steps := repeat wp_step.

(** Evaluate one [match] of the goal on a scrutinee, keeping its equation. *)
Ltac case_match_goal :=
  match goal with
  | |- context [match ?x with _ => _ end] => destruct x eqn:?
  end.

(** ** Lists and options *)
Section lists.
Context {A : Type}.

Lemma lookup_app_here (l : list A) a : (l ++ [a]) !! length l = Some a.
Proof. by rewrite lookup_app_r, Nat.sub_diag by lia. Qed.

Lemma insert_at_length (l1 l2 : list A) a b :
  <[length l1 := b]> (l1 ++ a :: l2) = l1 ++ b :: l2.
Proof. by rewrite insert_app_r_alt, Nat.sub_diag by lia. Qed.
End lists.

(** ** Strings *)

Lemma length_append (s t : string) : String.length (s +:+ t) = (String.length s + String.length t)%nat.
Proof.
  induction s as [|c s IH]; [done|].
  change (S (String.length (s +:+ t)) = S (String.length s + String.length t)). by rewrite IH.
Qed.
Lemma append_inj_r (t : string) : ∀ s s' : string, s +:+ t = s' +:+ t → s = s'.
Proof.
  induction s as [|a s IH]; intros [|b s'] H; [done|..].
  - apply (f_equal String.length) in H. rewrite !length_append in H. cbn [String.length] in H. lia.
  - apply (f_equal String.length) in H. rewrite !length_append in H. cbn [String.length] in H. lia.
  - injection H as -> H. f_equal. by apply IH.
Qed.
