(* ===== verification/Hostcall.v ===== *)
(** * The host-call interface (as_hostcall)

    The names under which the library OS services export their operations, the
    service each of them belongs to, and the data types and error types the
    services share.  [fdtab_exports] and its siblings list the [#[no_mangle]]
    functions of the default service crates, so that the routing table of the
    host calls can be checked against what the crates really export. *)
From S2P Require Import Prelude.
Local Open Scope string_scope.

Inductive CommonHostCall : Type :=
  | Metric | FsImage | SpawnFaultThread
  | Write | Read | Open | Close | Lseek | Stat_ | ReadDir
  | Connect | Socket | Bind | Accept
  | Stdout
  | FatfsOpen | FatfsWrite | FatfsRead | FatfsClose | FatfsSeek | FatfsStat
  | SmoltcpAddrInfo | SmoltcpConnect | SmoltcpSend | SmoltcpRecv
  | SmoltcpBind | SmoltcpAccept | SmoltcpClose
  | BufferAlloc | AccessBuffer | BufferDealloc | Mmap | Munmap | Mprotect
  | RegisterFileBackend | UnregisterFileBackend | FilePageFaultHandler
  | GetTime | NanoSleep
  | SigAction.

#[global] Instance CommonHostCall_eq_dec : EqDecision CommonHostCall.
Proof. solve_decision. Defined.

(** Every host call, in declaration order. *)
Definition all_hostcalls : list CommonHostCall :=
  [Metric; FsImage; SpawnFaultThread;
   Write; Read; Open; Close; Lseek; Stat_; ReadDir;
   Connect; Socket; Bind; Accept; Stdout;
   FatfsOpen; FatfsWrite; FatfsRead; FatfsClose; FatfsSeek; FatfsStat;
   SmoltcpAddrInfo; SmoltcpConnect; SmoltcpSend; SmoltcpRecv;
   SmoltcpBind; SmoltcpAccept; SmoltcpClose;
   BufferAlloc; AccessBuffer; BufferDealloc; Mmap; Munmap; Mprotect;
   RegisterFileBackend; UnregisterFileBackend; FilePageFaultHandler;
   GetTime; NanoSleep; SigAction].

(** The derived [Display] of [CommonHostCall]: the exported symbol's name. *)
Definition display (hc : CommonHostCall) : string :=
  match hc with
  | Metric => "metric"
  | FsImage => "fs_image"
  | SpawnFaultThread => "spawn_fault_thread"
  | Write => "write"
  | Read => "read"
  | Open => "open"
  | Close => "close"
  | Lseek => "lseek"
  | Stat_ => "stat"
  | ReadDir => "readdir"
  | Connect => "connect"
  | Socket => "socket"
  | Bind => "bind"
  | Accept => "accept"
  | Stdout => "host_stdout"
  | FatfsOpen => "fatfs_open"
  | FatfsWrite => "fatfs_write"
  | FatfsRead => "fatfs_read"
  | FatfsClose => "fatfs_close"
  | FatfsSeek => "fatfs_seek"
  | FatfsStat => "fatfs_stat"
  | SmoltcpAddrInfo => "addrinfo"
  | SmoltcpConnect => "smol_connect"
  | SmoltcpSend => "smol_send"
  | SmoltcpRecv => "smol_recv"
  | SmoltcpBind => "smol_bind"
  | SmoltcpAccept => "smol_accept"
  | SmoltcpClose => "smol_close"
  | BufferAlloc => "buffer_alloc"
  | AccessBuffer => "access_buffer"
  | BufferDealloc => "buffer_dealloc"
  | Mmap => "libos_mmap"
  | Munmap => "libos_munmap"
  | Mprotect => "libos_mprotect"
  | RegisterFileBackend => "register_file_backend"
  | UnregisterFileBackend => "unregister_file_backend"
  | FilePageFaultHandler => "file_page_fault_handler"
  | GetTime => "get_time"
  | NanoSleep => "host_nanosleep"
  | SigAction => "libos_sigaction"
  end.

Inductive HostCallID : Type :=
  | Common (hc : CommonHostCall)
  | Custom (s : string).

(** The derived [Display] of [HostCallID] prints its only field. *)
Definition display_id (id : HostCallID) : string :=
  match id with Common hc => display hc | Custom s => s end.

(** [HostCallID::belong_to]; a custom host call reaches [todo!()]. *)
Definition belong_to (id : HostCallID) : outcome string :=
  match id with
  | Common common => Ret
      match common with
      | Metric | FsImage | SpawnFaultThread => ""
      | Write | Open | Read | Close | Lseek | Stat_ | ReadDir
      | Connect | Socket | Bind | Accept => "fdtab"
      | Stdout => "stdio"
      | FatfsOpen | FatfsWrite | FatfsRead | FatfsClose
      | FatfsSeek | FatfsStat => "fatfs"
      | SmoltcpAddrInfo | SmoltcpConnect | SmoltcpSend | SmoltcpRecv
      | SmoltcpBind | SmoltcpAccept | SmoltcpClose => "socket"
      | BufferAlloc | AccessBuffer | BufferDealloc
      | Mmap | Munmap | Mprotect => "mm"
      | RegisterFileBackend | FilePageFaultHandler
      | UnregisterFileBackend => "mmap_file_backend"
      | SigAction => "signal"
      | GetTime | NanoSleep => "time"
      end
  | Custom _ => Panic
  end.

(** ** The symbols each service crate exports *)

Definition fdtab_exports : list string :=
  ["read"; "write"; "lseek"; "stat"; "open"; "close"; "connect"; "bind"; "accept"].
Definition fatfs_exports : list string :=
  ["fatfs_read"; "fatfs_seek"; "fatfs_stat"; "fatfs_open"; "fatfs_write"; "fatfs_close"].
Definition socket_exports : list string :=
  ["addrinfo"; "smol_connect"; "smol_send"; "smol_recv"; "smol_close";
   "smol_bind"; "smol_accept"].
Definition faas_buffer_exports : list string :=
  ["buffer_alloc"; "access_buffer"; "buffer_dealloc"].
Definition mmap_exports : list string :=
  ["libos_mmap"; "libos_munmap"; "libos_mprotect"].
Definition mmap_file_backend_exports : list string :=
  ["file_page_fault_handler"; "register_file_backend"; "unregister_file_backend"].
Definition stdio_exports : list string := ["host_stdout"].
Definition time_exports : list string := ["get_time"; "host_nanosleep"].
Definition signal_exports : list string := ["libos_sigaction"].

(** The symbol table of the crate a service is named after. *)
Definition crate_exports (svc : string) : list string :=
  if decide (svc = "fdtab") then fdtab_exports
  else if decide (svc = "fatfs") then fatfs_exports
  else if decide (svc = "socket") then socket_exports
  else if decide (svc = "mm") then faas_buffer_exports ++ mmap_exports
  else if decide (svc = "mmap_file_backend") then mmap_file_backend_exports
  else if decide (svc = "stdio") then stdio_exports
  else if decide (svc = "time") then time_exports
  else if decide (svc = "signal") then signal_exports
  else [].

(** Answered by the visor itself, without looking a service up. *)
Definition answered_by_visor (hc : CommonHostCall) : bool :=
  match hc with Metric | FsImage | SpawnFaultThread => true | _ => false end.

(** Does the crate [hc] is routed to export the symbol that is looked up? *)
Definition resolves (hc : CommonHostCall) : bool :=
  answered_by_visor hc ||
  match belong_to (Common hc) with
  | Ret svc => bool_decide (display hc ∈ crate_exports svc)
  | _ => false
  end.

(** ** Contexts and fingerprints *)
Local Open Scope Z_scope.

Abbreviation IsolationID := Z (only parsing).
Abbreviation Fd := Z (only parsing).

Record IsolationContext : Type := mk_ctx {
  isol_id : IsolationID;
  find_handler : Z;
  panic_handler : Z;
  heap_range : Z * Z
}.

Definition uninit : IsolationContext :=
  {| isol_id := 0; find_handler := 0; panic_handler := 0; heap_range := (0, 0) |}.

Definition SERVICE_HEAP_SIZE : Z := 4 * 1024 * 1024 * 1024.
Definition SERVICE_STACK_SIZE : Z := 8 * 1024 * 1024.

(** Reading the bytes of an [i64] as a [u64]. *)
Definition fingerprint_unit : Z := wrap 64 (-2542357861231615084).
Definition fingerprint_i32 : Z := wrap 64 0x43c29777932e38ae.

(** ** Shared data types *)

(** [OpenFlags] and [OpenMode] are bit sets over a u32. *)
Definition O_APPEND : Z := 1.
Definition O_CREAT : Z := 2.
Definition OpenMode_RD : Z := 1.
Definition OpenMode_WR : Z := 2.
Definition OpenMode_RDWR : Z := 3.

(** bitflags' [contains]: all the bits of [other] are set. *)
Definition contains (flags other : Z) : bool := Z.land flags other =? other.

Record TimeSpec : Type := mk_timespec { tv_sec : Z; tv_nsec : Z }.

Record Stat : Type := mk_stat {
  st_dev : Z; st_ino : Z; st_nlink : Z; st_mode : Z;
  st_uid : Z; st_gid : Z; pad0 : Z; st_rdev : Z;
  st_size : Z; st_blksize : Z; st_blocks : Z;
  st_atime : TimeSpec; st_mtime : TimeSpec; st_ctime : TimeSpec;
  unused : list Z
}.

Record DirEntry : Type := mk_dirent {
  dir_path : string; entry_name : string; entry_type : Z
}.

Inductive MetricEvent : Type :=
  | IsolBegin | LoadService | IsolEnd
  | SvcInit | SvcRun | SvcEnd
  | Mem.

#[global] Instance MetricEvent_eq_dec : EqDecision MetricEvent.
Proof. solve_decision. Defined.

(** ** Error types *)

Inductive FatfsError : Type :=
  | HostIOErr (reason : string)
  | AcquireLockErr (reason : string)
  | FatfsBadInputFd (fd : Fd)
  | Unknown.

Inductive SmoltcpError : Type :=
  | SmolAcquireLockErr (name reason : string)
  | SmoltcpErr (reason : string)
  | SmolHostIOErr (reason : string)
  | DNSQueryFailed
  | BadTCPState (expect found : string)
  | NoLocalEndpoint.

Inductive FdtabError : Type :=
  | BadInputFd (expect : string) (fd : Fd)
  | NoExistFd (fd : Fd)
  | NoReadPerm (fd : Fd)
  | NoWritePerm (fd : Fd)
  | FatfsErr (e : FatfsError)
  | SocketErr (e : SmoltcpError)
  | UndefinedOperation (op : string) (fd : Fd) (fd_type : string)
  | RuxfsErr (e : string)
  | FsErr (e : string)
  | Ext4Err (e : string).

(** The texts of the errors ([thiserror]). *)
Definition show_fatfs (e : FatfsError) : string :=
  match e with
  | HostIOErr r => "std::io::error, " +:+ r
  | AcquireLockErr r => "acquire std::sync::mutex::Mutex failed, " +:+ r
  | FatfsBadInputFd fd => "bad input fd: " +:+ pretty fd +:+ ", do not exist"
  | Unknown => "Unknown."
  end.
Definition show_smoltcp (e : SmoltcpError) : string :=
  match e with
  | SmolAcquireLockErr name reason =>
      "acquire std::sync::mutex::Mutex failed, name=" +:+ name +:+ ", reason=" +:+ reason
  | SmoltcpErr r => "smoltcp error, " +:+ r
  | SmolHostIOErr r => "std::io::error, " +:+ r
  | DNSQueryFailed => "unknown reason, expect have query result"
  | BadTCPState expect found => "wrong tcp state, expect=" +:+ expect +:+ ", found=" +:+ found
  | NoLocalEndpoint => "unknown reason, expect have local endpoint"
  end.
Definition show_fdtab (e : FdtabError) : string :=
  match e with
  | BadInputFd expect fd => "bad input fd, expect " +:+ expect +:+ ", found " +:+ pretty fd
  | NoExistFd fd => "file not found, fd=" +:+ pretty fd
  | NoReadPerm fd => "missing read permission, fd=" +:+ pretty fd
  | NoWritePerm fd => "missing write permission, fd=" +:+ pretty fd
  | FatfsErr e => "fatfs error: " +:+ show_fatfs e
  | SocketErr e => "smoltcp error: " +:+ show_smoltcp e
  | UndefinedOperation op fd fd_type =>
      "undefine " +:+ op +:+ " to " +:+ fd_type +:+ ", fd=" +:+ pretty fd
  | RuxfsErr e => "ruxfs error: " +:+ e
  | FsErr e => "rcore-fs error: " +:+ e
  | Ext4Err e => "ext4 error: " +:+ e
  end.

Inductive MmapFileErr : Type :=
  | MmapAcquireLockErr (name reason : string)
  | PipeStateErr (reason : string)
  | NixErr (reason : string)
  | MmapUnknown (reason : string)
  | FileError (e : FdtabError)
  | SpawnHandlerError (reason : string)
  | UffdError (reason : string).

Inductive MMError : Type :=
  | InvaildArg (expect : string) (found : Z)
  | LayoutErr
  | FileBackendErr (e : MmapFileErr)
  | LibcErr (reason : string).

(** ** Properties *)

(** [display] is injective: no two host calls are looked up under the same
    symbol, so the dynamic linker cannot answer one with the other. *)
Theorem display_injective : ∀ a b, display a = display b → a = b.
Proof. intros a b. destruct a, b; try reflexivity; discriminate. Qed.

Lemma display_injective_witness :
  display Write = "write"%string ∧ ∀ b, display b = "write"%string → b = Write.
Proof.
  split; [reflexivity|]. intros b H. symmetry. by apply (display_injective Write b).
Defined.

(** the routing table is right: a host call resolves to a symbol exported by
    the crate [belong_to] names exactly when it is not [ReadDir] or [Socket],
    which are routed to [fdtab] although that crate exports neither. *)
Theorem hostcall_routing : ∀ hc,
  resolves hc = true ↔ hc ≠ ReadDir ∧ hc ≠ Socket.
Proof.
  intros hc. destruct hc; vm_compute; split; try done; try (intros [??]; done);
    by split.
Qed.

Lemma elem_of_all_hostcalls hc : hc ∈ all_hostcalls.
Proof. destruct hc; vm_compute; repeat first [left | right]. Qed.
