(* ===== verification/Bytes.v ===== *)
(** * Byte buffers

    Bytes are integers in [0, 256) held in lists.  [sub] and [list_inserts] (of
    stdpp) are the total versions of reading and overwriting a range; [slice]
    and [splice] are the Rust operations, which panic ([None]) when the range is
    out of bounds.  [le_encode]/[le_decode] are the little-endian codecs used
    wherever the code writes an integer into memory. *)
From S2P Require Import Prelude.

Abbreviation byte := Z (only parsing).
Definition zlen {A} (l : list A) : Z := Z.of_nat (length l).

(** [l[off..off+n]] for a range known to be in bounds. *)
Definition sub {A} (l : list A) (off n : nat) : list A := take n (drop off l).

(** [&l[off..off+n]]: [None] is the out-of-bounds panic. *)
Definition slice {A} (l : list A) (off n : Z) : option (list A) :=
  if (0 <=? off) && (0 <=? n) && (off + n <=? zlen l)
  then Some (sub l (Z.to_nat off) (Z.to_nat n)) else None.

(** [l[off..off+new.len()].copy_from_slice(new)]. *)
Definition splice {A} (l : list A) (off : Z) (new : list A) : option (list A) :=
  if (0 <=? off) && (off + zlen new <=? zlen l)
  then Some (list_inserts (Z.to_nat off) new l) else None.

(** ** Ranges *)
Section ranges.
Context {A : Type}.
Implicit Types (l k : list A) (i j n m : nat).

Lemma length_sub l i n : (i + n ≤ length l)%nat → length (sub l i n) = n.
Proof. unfold sub. rewrite length_take, length_drop. lia. Qed.

Lemma lookup_sub l i n j :
  sub l i n !! j = if decide (j < n)%nat then l !! (i + j)%nat else None.
Proof.
  unfold sub. case_decide.
  - rewrite lookup_take_lt by done. by rewrite lookup_drop.
  - by rewrite lookup_take_ge by lia.
Qed.

Lemma lookup_inserts l k i j :
  (i + length k ≤ length l)%nat →
  list_inserts i k l !! j =
    if decide (i ≤ j < i + length k)%nat then k !! (j - i)%nat else l !! j.
Proof.
  intros Hle. case_decide.
  - apply list_lookup_inserts; lia.
  - destruct (decide (j < i)%nat).
    + by apply list_lookup_inserts_lt.
    + apply list_lookup_inserts_ge; lia.
Qed.

Lemma sub_inserts_same l k i :
  (i + length k ≤ length l)%nat → sub (list_inserts i k l) i (length k) = k.
Proof.
  intros Hle. apply list_eq. intros j. rewrite lookup_sub, lookup_inserts by done.
  repeat case_decide; try lia.
  - f_equal; lia.
  - symmetry. apply lookup_ge_None_2. lia.
Qed.

Lemma sub_inserts_disjoint l k i j n :
  (i + length k ≤ length l)%nat → (j + n ≤ i ∨ i + length k ≤ j)%nat →
  sub (list_inserts i k l) j n = sub l j n.
Proof.
  intros Hle Hd. apply list_eq. intros p. rewrite !lookup_sub.
  case_decide; [|done]. rewrite lookup_inserts by done.
  case_decide; [lia|done].
Qed.

Lemma sub_full l : sub l 0 (length l) = l.
Proof. unfold sub. by rewrite drop_0, firstn_all. Qed.

Lemma sub_nil l i : sub l i 0 = [].
Proof. done. Qed.

Lemma sub_app l i n m :
  sub l i (n + m) = sub l i n ++ sub l (i + n) m.
Proof. unfold sub. by rewrite <- drop_drop, take_take_drop. Qed.

Lemma sub_sub l i n j m :
  (j + m ≤ n)%nat → sub (sub l i n) j m = sub l (i + j) m.
Proof.
  intros Hle. apply list_eq. intros p. rewrite !lookup_sub.
  repeat case_decide; try lia; try done. f_equal. lia.
Qed.

Lemma inserts_app l k1 k2 i :
  (i + length k1 + length k2 ≤ length l)%nat →
  list_inserts i (k1 ++ k2) l =
    list_inserts (i + length k1) k2 (list_inserts i k1 l).
Proof. intros _. rewrite list_inserts_app_l. by rewrite Nat.add_comm. Qed.

Lemma inserts_front l k : (length k ≤ length l)%nat →
  list_inserts 0 k l = k ++ drop (length k) l.
Proof.
  intros Hlen. rewrite <- (take_drop (length k) l) at 1.
  apply list_inserts_0_r. rewrite length_take. lia.
Qed.

Lemma inserts_nil l i : list_inserts i [] l = l.
Proof. done. Qed.

(** Read-modify-write of a whole range equals writing the changed bytes. *)
Lemma inserts_rmw l k i n j :
  (i + n ≤ length l)%nat → (j + length k ≤ n)%nat →
  list_inserts i (list_inserts j k (sub l i n)) l = list_inserts (i + j) k l.
Proof.
  intros Hl Hk. apply list_eq. intros p.
  assert (Hs : length (sub l i n) = n) by (by apply length_sub).
  rewrite !lookup_inserts; rewrite ?length_inserts, ?Hs; try lia.
  rewrite lookup_sub. repeat case_decide; try lia; try done; f_equal; lia.
Qed.

Lemma sub_inserts_within l k i j n :
  (i + n ≤ length l)%nat → (i ≤ j)%nat → (j + length k ≤ i + n)%nat →
  sub (list_inserts j k l) i n = list_inserts (j - i) k (sub l i n).
Proof.
  intros Hl Hij Hk. apply list_eq. intros p.
  assert (Hs : length (sub l i n) = n) by (by apply length_sub).
  rewrite lookup_sub, !lookup_inserts by (rewrite ?Hs; lia). rewrite lookup_sub.
  repeat case_decide; try lia; try done; f_equal; lia.
Qed.

(** Part of what was written. *)
Lemma sub_inserts_part l k i j n :
  (i + length k ≤ length l)%nat → (j + n ≤ length k)%nat →
  sub (list_inserts i k l) (i + j) n = sub k j n.
Proof. intros Hl Hk. by rewrite <- (sub_sub _ i (length k)), sub_inserts_same. Qed.

(** A field of a struct: the bytes behind those of the fields before it. *)
Lemma sub_field l1 l2 l3 i n :
  length l1 = i → length l2 = n → sub (l1 ++ l2 ++ l3) i n = l2.
Proof. intros <- <-. unfold sub. by rewrite drop_app_length, take_app_length. Qed.

Lemma slice_Some l off (n : Z) r :
  slice l off n = Some r ↔
  0 ≤ off ∧ 0 ≤ n ∧ off + n ≤ zlen l ∧ r = sub l (Z.to_nat off) (Z.to_nat n).
Proof.
  unfold slice.
  case_match_goal; (split; [intros [= <-] | intros ?]); intuition (subst; congruence || lia).
Qed.

Lemma slice_ok l off (n : Z) :
  0 ≤ off → 0 ≤ n → off + n ≤ zlen l →
  slice l off n = Some (sub l (Z.to_nat off) (Z.to_nat n)).
Proof. intros. by apply slice_Some. Qed.

Lemma splice_Some l off new r :
  splice l off new = Some r ↔
  0 ≤ off ∧ off + zlen new ≤ zlen l ∧ r = list_inserts (Z.to_nat off) new l.
Proof.
  unfold splice.
  case_match_goal; (split; [intros [= <-] | intros ?]); intuition (subst; congruence || lia).
Qed.

Lemma splice_ok l off new :
  0 ≤ off → off + zlen new ≤ zlen l →
  splice l off new = Some (list_inserts (Z.to_nat off) new l).
Proof. intros. by apply splice_Some. Qed.

Lemma zlen_inserts l k i : zlen (list_inserts i k l) = zlen l.
Proof. unfold zlen. by rewrite length_inserts. Qed.

Lemma zlen_app l k : zlen (l ++ k) = zlen l + zlen k.
Proof. unfold zlen. rewrite length_app. lia. Qed.

Lemma zlen_nonneg l : 0 ≤ zlen l.
Proof. unfold zlen. lia. Qed.
End ranges.

Create Rewrite HintDb alloy_rw.
#[export] Hint Rewrite @zlen_inserts @zlen_app @length_inserts : alloy_rw.
#[export] Hint Resolve zlen_nonneg : alloy.

(** Reading back what was written. *)
Lemma slice_splice {A} (l new r : list A) off :
  splice l off new = Some r → slice r off (zlen new) = Some new.
Proof.
  rewrite splice_Some. intros (Ho & Hle & ->). unfold zlen in *.
  rewrite slice_ok by (rewrite ?zlen_inserts; unfold zlen; lia).
  by rewrite Nat2Z.id, sub_inserts_same by lia.
Qed.

(** ** Little-endian codecs *)

(** The [n] low bytes of [x], least significant first ([to_le_bytes]). *)
Fixpoint le_encode (n : nat) (x : Z) : list byte :=
  match n with
  | O => []
  | S n => (x mod 256) :: le_encode n (x / 256)
  end.

(** [from_le_bytes]. *)
Fixpoint le_decode (l : list byte) : Z :=
  match l with
  | [] => 0
  | b :: l => b + 256 * le_decode l
  end.

Lemma length_le_encode n x : length (le_encode n x) = n.
Proof. revert x. induction n as [|n IH]; intros x; simpl; [done|by rewrite IH]. Qed.

Lemma zlen_le_encode n x : zlen (le_encode n x) = Z.of_nat n.
Proof. unfold zlen. by rewrite length_le_encode. Qed.

Lemma le_decode_encode n x : le_decode (le_encode n x) = x mod 2 ^ (8 * Z.of_nat n).
Proof.
  revert x. induction n as [|n IH]; intros x.
  - change (2 ^ (8 * Z.of_nat 0)) with 1. by rewrite Z.mod_1_r.
  - cbn [le_encode le_decode]. rewrite IH.
    replace (8 * Z.of_nat (S n)) with (8 + 8 * Z.of_nat n) by lia.
    rewrite Z.pow_add_r by lia. change (2 ^ 8) with 256.
    rewrite Z.rem_mul_r by lia. done.
Qed.

Lemma le_decode_encode_fits n x :
  fits (8 * Z.of_nat n) x → le_decode (le_encode n x) = x.
Proof. intros H. rewrite le_decode_encode. by apply Z.mod_small. Qed.

Lemma le_encode_decode l :
  Forall (λ b, 0 ≤ b < 256) l → le_encode (length l) (le_decode l) = l.
Proof.
  induction 1 as [|b l Hb _ IH]; cbn [length le_encode le_decode]; [done|].
  f_equal.
  - rewrite Z.mul_comm, Z.mod_add by lia. by apply Z.mod_small.
  - etrans; [|exact IH]. f_equal.
    rewrite Z.mul_comm, Z.div_add, Z.div_small by lia. lia.
Qed.

Lemma le_encode_bytes n x : Forall (λ b, 0 ≤ b < 256) (le_encode n x).
Proof.
  revert x. induction n; intros x; simpl; constructor; [|done].
  apply Z.mod_pos_bound. lia.
Qed.
