(* ===== verification/Block.v ===== *)
(** * Block devices (ramdisk/driver_common, ramdisk/driver_block)

    [BlockDriver] is the Rust trait [BlockDriverOps]; [BlockDriverSpec] is what
    the file systems rely on: a device [holds] a flat array of bytes, and its
    block operations read and overwrite ranges of that array.  [RamDisk] is the
    in-memory implementation and [StreamDisk] the one over an image file. *)
From S2P Require Import Prelude Bytes.
Local Open Scope string_scope.
Local Open Scope Z_scope.

Inductive DeviceType : Type := DtBlock | DtChar | DtNet | DtDisplay | Dt9P.

Inductive DevError : Type :=
  | AlreadyExists | Again | BadState | InvalidParam
  | Io | NoMemory | ResourceBusy | Unsupported.

#[global] Instance DevError_eq_dec : EqDecision DevError.
Proof. solve_decision. Defined.

(** The trait [BlockDriverOps].  [read_block] also returns the caller's buffer,
    which it overwrites. *)
Class BlockDriver (D : Type) : Type := {
  num_blocks : D → Z;
  block_size : D → Z;
  read_block : Z → list byte → prog D (result () DevError * list byte);
  write_block : Z → list byte → prog D (result () DevError);
  flush : prog D (result () DevError)
}.

Definition BLOCK_SIZE : Z := 4096.

(** The contract of the trait. *)
Class BlockDriverSpec (D : Type) `{BlockDriver D} : Type := {
  holds : D → list byte → Prop;
  holds_block_size : ∀ d c, holds d c → block_size d = BLOCK_SIZE;
  holds_fits : ∀ d c, holds d c → zlen c < 2 ^ 64;
  read_block_spec : ∀ d c id buf,
    holds d c → 0 ≤ id → zlen buf mod BLOCK_SIZE = 0 →
    id * BLOCK_SIZE + zlen buf ≤ zlen c →
    wp (read_block id buf)
       (λ r d', r = (Ok (), sub c (Z.to_nat (id * BLOCK_SIZE)) (length buf)) ∧
                holds d' c) d;
  write_block_spec : ∀ d c id buf,
    holds d c → 0 ≤ id → zlen buf mod BLOCK_SIZE = 0 →
    id * BLOCK_SIZE + zlen buf ≤ zlen c →
    wp (write_block id buf)
       (λ r d', r = Ok () ∧
                holds d' (list_inserts (Z.to_nat (id * BLOCK_SIZE)) buf c)) d;
  read_block_out_of_range : ∀ d c id buf,
    holds d c → fits 64 (id * BLOCK_SIZE + zlen buf) → 0 ≤ id →
    zlen c < id * BLOCK_SIZE + zlen buf →
    wp (read_block id buf) (λ r d', r = (Err Io, buf) ∧ d' = d) d;
  write_block_out_of_range : ∀ d c id buf,
    holds d c → fits 64 (id * BLOCK_SIZE + zlen buf) → 0 ≤ id →
    zlen c < id * BLOCK_SIZE + zlen buf →
    wp (write_block id buf) (λ r d', r = Err Io ∧ d' = d) d;
  flush_spec : ∀ d c, holds d c → wp flush (λ r d', r = Ok () ∧ holds d' c) d
}.

(** [(val + BLOCK_SIZE - 1) & !(BLOCK_SIZE - 1)] *)
Definition align_up {S} (val : Z) : prog S Z :=
  v ← checked 64 (val + BLOCK_SIZE);
  v ← checked 64 (v - 1);
  mret (Z.land v (unot 64 (BLOCK_SIZE - 1))).

(** The offset of a block and the end of the access, both [usize] arithmetic. *)
Definition block_range {S} (block_id len : Z) : prog S (Z * Z) :=
  offset ← checked 64 (block_id * BLOCK_SIZE);
  end_ ← checked 64 (offset + len);
  mret (offset, end_).

Module RamDisk.
Record RamDisk : Type := mk_ramdisk { size : Z; data : list byte }.

Definition new {S} (size_hint : Z) : prog S RamDisk :=
  size ← align_up size_hint;
  mret (mk_ramdisk size (replicate (Z.to_nat size) 0)).

Definition from {S} (buf : list byte) : prog S RamDisk :=
  size ← align_up (zlen buf);
  let data := replicate (Z.to_nat size) 0 in
  data ← unwrap (splice data 0 buf);
  mret (mk_ramdisk size data).

Definition device_type (_ : RamDisk) : DeviceType := DtBlock.
Definition device_name (_ : RamDisk) : string := "ramdisk"%string.

Definition read_block (block_id : Z) (buf : list byte) :
    prog RamDisk (result () DevError * list byte) :=
  '(offset, end_) ← block_range block_id (zlen buf);
  size ← gets size;
  if size <? end_ then mret (Err Io, buf)
  else if negb (zlen buf mod BLOCK_SIZE =? 0) then mret (Err InvalidParam, buf)
  else
    data ← gets data;
    buf ← unwrap (slice data offset (zlen buf));
    mret (Ok (), buf).

Definition write_block (block_id : Z) (buf : list byte) :
    prog RamDisk (result () DevError) :=
  '(offset, end_) ← block_range block_id (zlen buf);
  size ← gets size;
  if size <? end_ then mret (Err Io)
  else if negb (zlen buf mod BLOCK_SIZE =? 0) then mret (Err InvalidParam)
  else
    data ← gets data;
    data ← unwrap (splice data offset buf);
    modify (λ d, mk_ramdisk d.(RamDisk.size) data);;
    mret (Ok ()).

#[global] Instance ramdisk_driver : BlockDriver RamDisk := {
  num_blocks d := d.(size) / BLOCK_SIZE;
  block_size _ := BLOCK_SIZE;
  read_block := read_block;
  write_block := write_block;
  flush := mret (Ok ())
}.

(** The invariant: the vector is as long as [size] says. *)
Definition wf (d : RamDisk) : Prop :=
  d.(size) = zlen d.(data) ∧ d.(size) mod BLOCK_SIZE = 0 ∧ d.(size) < 2 ^ 64.
Definition holds (d : RamDisk) (c : list byte) : Prop := wf d ∧ d.(data) = c.
End RamDisk.

(** ** The disk over an image file

    [BufStream<File>] is the [fscommon] crate over the host's file system, a
    parameter: the laws used are those of [std::io::Seek], [Read] and [Write]
    for a stream that does not return short. *)
Class BufStream (T : Type) : Type := {
  st_seek : Z → prog T (result () string);
  st_read : list byte → prog T (result Z string * list byte);
  st_write : list byte → prog T (result Z string);
  st_flush : prog T (result () string)
}.

Module StreamDisk.
Section stream_disk.
Context {T : Type} `{BufStream T}.

Record StreamDisk : Type := mk_stream { inner : T; size : Z }.

Definition on_inner {A} (m : prog T A) : prog StreamDisk A :=
  on inner (λ t d, mk_stream t d.(size)) m.

(** [RamDisk::new]: the size hint is the image's length, as [fs::metadata]
    reports it; the stream is the opened image. *)
Definition new {S} (metadata_len : option Z) (open : option T) : prog S StreamDisk :=
  size_hint ← unwrap metadata_len;
  size ← align_up size_hint;
  inner ← unwrap open;
  mret (mk_stream inner size).

Definition read_block (block_id : Z) (buf : list byte) :
    prog StreamDisk (result () DevError * list byte) :=
  '(offset, end_) ← block_range block_id (zlen buf);
  size ← gets size;
  if size <? end_ then mret (Err Io, buf)
  else if negb (zlen buf mod BLOCK_SIZE =? 0) then mret (Err InvalidParam, buf)
  else
    r ← on_inner (st_seek offset);
    match r with
    | Err _ => mret (Err Io, buf)
    | Ok _ =>
        '(r, buf) ← on_inner (st_read buf);
        mret (match r with Ok _ => Ok () | Err _ => Err Io end, buf)
    end.

Definition write_block (block_id : Z) (buf : list byte) :
    prog StreamDisk (result () DevError) :=
  '(offset, end_) ← block_range block_id (zlen buf);
  size ← gets size;
  if size <? end_ then mret (Err Io)
  else if negb (zlen buf mod BLOCK_SIZE =? 0) then mret (Err InvalidParam)
  else
    (fmap (map_err (λ _, Io)) (on_inner (st_seek offset))) ;;?
    (fmap (map_err (λ _, Io)) (on_inner (st_write buf))) ;;?
    (fmap (map_err (λ _, Io)) (on_inner st_flush)) ;;?
    mret (Ok ()).

#[global] Instance stream_driver : BlockDriver StreamDisk := {
  num_blocks d := d.(size) / BLOCK_SIZE;
  block_size _ := BLOCK_SIZE;
  read_block := read_block;
  write_block := write_block;
  flush := mret (Ok ())
}.
End stream_disk.
End StreamDisk.

(** What [Seek], [Read] and [Write] document, for a stream with no short
    transfers inside the file. *)
Class BufStreamSpec (T : Type) `{BufStream T} : Type := {
  st_bytes : T → list byte;
  st_pos : T → Z;
  st_seek_spec : ∀ t p, 0 ≤ p →
    wp (st_seek p) (λ r t', r = Ok () ∧ st_bytes t' = st_bytes t ∧ st_pos t' = p) t;
  st_read_spec : ∀ t buf, 0 ≤ st_pos t → st_pos t + zlen buf ≤ zlen (st_bytes t) →
    wp (st_read buf)
       (λ r t', r = (Ok (zlen buf), sub (st_bytes t) (Z.to_nat (st_pos t)) (length buf)) ∧
                st_bytes t' = st_bytes t) t;
  st_write_spec : ∀ t buf, 0 ≤ st_pos t → st_pos t + zlen buf ≤ zlen (st_bytes t) →
    wp (st_write buf)
       (λ r t', r = Ok (zlen buf) ∧
                st_bytes t' = list_inserts (Z.to_nat (st_pos t)) buf (st_bytes t)) t;
  st_flush_spec : ∀ t, wp st_flush (λ r t', r = Ok () ∧ st_bytes t' = st_bytes t) t
}.

(** ** Lemmas *)

Lemma wp_block_range {S} id len (Q : Z * Z → S → Prop) s :
  0 ≤ id → 0 ≤ len → fits 64 (id * BLOCK_SIZE + len) →
  Q (id * BLOCK_SIZE, id * BLOCK_SIZE + len) s → wp (block_range id len) Q s.
Proof.
  intros Hid Hlen Hfit HQ. unfold block_range, fits in *.
  assert (0 ≤ id * BLOCK_SIZE) by (unfold BLOCK_SIZE; lia).
  wp_steps; done.
Qed.

Lemma wp_align_up {S} val (Q : Z → S → Prop) s :
  0 ≤ val → val + BLOCK_SIZE < 2 ^ 64 →
  Q ((val + BLOCK_SIZE - 1) / BLOCK_SIZE * BLOCK_SIZE) s → wp (align_up val) Q s.
Proof.
  intros H0 Hv HQ. unfold align_up, BLOCK_SIZE in *. wp_steps.
  by rewrite (land_unot_ones 64 12) by (unfold fits; lia).
Qed.

Lemma align_up_bounds val :
  let r := (val + BLOCK_SIZE - 1) / BLOCK_SIZE * BLOCK_SIZE in
  val ≤ r < val + BLOCK_SIZE ∧ r mod BLOCK_SIZE = 0.
Proof.
  unfold BLOCK_SIZE. split; [|apply Z.mod_mul; lia].
  pose proof (Z.div_mod (val + 4096 - 1) 4096 ltac:(lia)).
  pose proof (Z.mod_pos_bound (val + 4096 - 1) 4096 ltac:(lia)). lia.
Qed.

Lemma wp_on {S T A} (get : S → T) put (m : prog T A) (Q : A → S → Prop) s :
  wp m (λ a t, Q a (put t s)) (get s) → wp (on get put m) Q s.
Proof. unfold wp, on. destruct (m (get s)) as [[] ?]; naive_solver. Qed.

Lemma wp_fmap {S A B} (f : A → B) (m : prog S A) (Q : B → S → Prop) s :
  wp m (λ a s', Q (f a) s') s → wp (f <$> m) Q s.
Proof.
  unfold wp, fmap, prog_fmap, mbind, prog_mbind. by destruct (m s) as [[]].
Qed.

(** The guards of the block operations, for an access in range. *)
Lemma guard_range size e : e ≤ size → (size <? e) = false.
Proof. lia. Qed.
Lemma guard_past size e : size < e → (size <? e) = true.
Proof. lia. Qed.
Lemma guard_aligned n : n mod BLOCK_SIZE = 0 → negb (n mod BLOCK_SIZE =? 0) = false.
Proof. intros ->. done. Qed.

Module RamDiskSpec.
Import RamDisk.

Lemma wf_new n : 0 ≤ n → n + BLOCK_SIZE < 2 ^ 64 →
  wp (new n) (λ d (_ : ()), wf d ∧ n ≤ d.(size) < n + BLOCK_SIZE ∧
                            d.(data) = replicate (Z.to_nat d.(size)) 0) ().
Proof.
  intros H0 Hn. unfold new. wp_step. apply wp_align_up; [done..|]. wp_steps.
  pose proof (align_up_bounds n) as [? ?]. unfold wf, zlen; cbn [size data].
  rewrite length_replicate. repeat split; try done; lia.
Qed.

Lemma wf_from buf : zlen buf + BLOCK_SIZE < 2 ^ 64 →
  wp (from buf) (λ d (_ : ()), wf d ∧ zlen buf ≤ d.(size) < zlen buf + BLOCK_SIZE ∧
                               sub d.(data) 0 (length buf) = buf) ().
Proof.
  intros Hb. unfold from. wp_step. pose proof (zlen_nonneg buf).
  apply wp_align_up; [done..|].
  pose proof (align_up_bounds (zlen buf)) as [Hr ?]. cbv zeta in Hr.
  set (r := _ * BLOCK_SIZE) in *. wp_step. eapply wp_unwrap.
  { apply splice_ok; [lia|]. unfold zlen at 2. rewrite length_replicate. lia. }
  wp_steps. unfold wf; cbn [size data]. rewrite zlen_inserts.
  unfold zlen in *. rewrite length_replicate. repeat split; try done; try lia.
  apply sub_inserts_same. rewrite length_replicate. lia.
Qed.

Lemma read_block_in_range d id buf :
  wf d → 0 ≤ id → zlen buf mod BLOCK_SIZE = 0 →
  id * BLOCK_SIZE + zlen buf ≤ d.(size) →
  read_block id buf d =
    (Ret (Ok (), sub d.(data) (Z.to_nat (id * BLOCK_SIZE)) (length buf)), d).
Proof.
  intros (Hs & Hm & Hf) Hid Hmod Hle. pose proof (zlen_nonneg buf).
  assert (wp (read_block id buf) (λ r d', r =
    (Ok (), sub d.(data) (Z.to_nat (id * BLOCK_SIZE)) (length buf)) ∧ d' = d) d)
    as (r & d' & -> & -> & ->)%wp_inv; [|done].
  unfold read_block. wp_step.
  apply wp_block_range; [done..|unfold fits, BLOCK_SIZE in *; lia|]. wp_steps.
  rewrite guard_range, guard_aligned by done. wp_steps.
  eapply wp_unwrap; [apply slice_ok; unfold BLOCK_SIZE in *; lia|].
  wp_steps. unfold zlen. by rewrite Nat2Z.id.
Qed.

Lemma write_block_in_range d id buf :
  wf d → 0 ≤ id → zlen buf mod BLOCK_SIZE = 0 →
  id * BLOCK_SIZE + zlen buf ≤ d.(size) →
  write_block id buf d =
    (Ret (Ok ()), mk_ramdisk d.(size)
                    (list_inserts (Z.to_nat (id * BLOCK_SIZE)) buf d.(data))).
Proof.
  intros (Hs & Hm & Hf) Hid Hmod Hle. pose proof (zlen_nonneg buf).
  assert (wp (write_block id buf) (λ r d', r = Ok () ∧ d' = mk_ramdisk d.(size)
    (list_inserts (Z.to_nat (id * BLOCK_SIZE)) buf d.(data))) d)
    as (r & d' & -> & -> & ->)%wp_inv; [|done].
  unfold write_block. wp_step.
  apply wp_block_range; [done..|unfold fits, BLOCK_SIZE in *; lia|]. wp_steps.
  rewrite guard_range, guard_aligned by done. wp_steps.
  eapply wp_unwrap; [apply splice_ok; unfold BLOCK_SIZE in *; lia|].
  by wp_steps.
Qed.

Lemma wf_write d k i : wf d → wf (mk_ramdisk d.(size) (list_inserts i k d.(data))).
Proof. unfold wf; cbn [size data]. by rewrite zlen_inserts. Qed.

#[global, refine] Instance ramdisk_spec : BlockDriverSpec RamDisk := {
  holds := holds
}.
Proof.
  - done.
  - intros d c [(Hs & _ & Hf) <-]. lia.
  - intros d c id buf [Hwf <-] Hid Hmod Hle. unfold wp.
    cbn [Block.read_block ramdisk_driver].
    rewrite read_block_in_range by (done || (destruct Hwf; lia)).
    split; [done|by split].
  - intros d c id buf [Hwf <-] Hid Hmod Hle. unfold wp.
    cbn [Block.write_block ramdisk_driver].
    rewrite write_block_in_range by (done || (destruct Hwf; lia)).
    split; [done|]. split; [by apply wf_write|done].
  - intros d c id buf [(Hs & Hm & Hf) <-] Hfit Hid Hle.
    cbn [Block.read_block ramdisk_driver]. unfold read_block.
    wp_step. apply wp_block_range; [done|apply zlen_nonneg|done|]. wp_steps.
    rewrite guard_past by lia. by wp_steps.
  - intros d c id buf [(Hs & Hm & Hf) <-] Hfit Hid Hle.
    cbn [Block.write_block ramdisk_driver]. unfold write_block.
    wp_step. apply wp_block_range; [done|apply zlen_nonneg|done|]. wp_steps.
    rewrite guard_past by lia. by wp_steps.
  - intros d c Hd. by apply wp_ret.
Defined.
End RamDiskSpec.

Module StreamDiskSpec.
Section spec.
Context {T : Type} `{BufStreamSpec T}.
Import StreamDisk.

Definition holds (d : @StreamDisk T) (c : list byte) : Prop :=
  st_bytes d.(inner) = c ∧ d.(size) = zlen c ∧
  d.(size) mod BLOCK_SIZE = 0 ∧ d.(size) < 2 ^ 64.

Lemma wp_on_inner {A} (m : prog T A) (Q : A → StreamDisk → Prop) d :
  wp m (λ a t, Q a (mk_stream t d.(size))) d.(inner) → wp (on_inner m) Q d.
Proof. exact (wp_on inner (λ t d, mk_stream t d.(size)) m Q d). Qed.

(** Seek to [p], then transfer: both steps of a block operation. *)
Lemma wp_seek_in d p (Q : result () string → StreamDisk → Prop) :
  0 ≤ p →
  (∀ d', d'.(size) = d.(size) → st_bytes d'.(inner) = st_bytes d.(inner) →
         st_pos d'.(inner) = p → Q (Ok ()) d') →
  wp (on_inner (st_seek p)) Q d.
Proof.
  intros Hp HQ. apply wp_on_inner.
  eapply wp_mono; [by apply st_seek_spec|]. intros r t (-> & Hb & Hpos). by apply HQ.
Qed.

#[global, refine] Instance stream_spec : BlockDriverSpec StreamDisk := {
  holds := holds
}.
Proof.
  - done.
  - intros d c (_ & Hs & _ & Hf). lia.
  - intros d c id buf (<- & Hs & Hm & Hf) Hid Hmod Hle.
    cbn [Block.read_block stream_driver]. unfold read_block.
    pose proof (zlen_nonneg buf). wp_step.
    apply wp_block_range; [done..|unfold fits, BLOCK_SIZE in *; lia|]. wp_steps.
    rewrite guard_range, guard_aligned by (done || lia). wp_step.
    apply wp_seek_in; [unfold BLOCK_SIZE in *; lia|]. intros d' Hsz Hb Hpos. wp_step.
    apply wp_on_inner. eapply wp_mono.
    { apply st_read_spec; rewrite Hpos, ?Hb; unfold BLOCK_SIZE in *; lia. }
    intros r t [-> Hb']. wp_steps. rewrite Hb, Hpos. split; [done|].
    unfold holds; cbn [inner size]. by rewrite Hb', Hb, Hsz.
  - intros d c id buf (<- & Hs & Hm & Hf) Hid Hmod Hle.
    cbn [Block.write_block stream_driver]. unfold write_block.
    pose proof (zlen_nonneg buf). wp_step.
    apply wp_block_range; [done..|unfold fits, BLOCK_SIZE in *; lia|]. wp_steps.
    rewrite guard_range, guard_aligned by (done || lia). wp_step. apply wp_fmap.
    apply wp_seek_in; [unfold BLOCK_SIZE in *; lia|]. intros d' Hsz Hb Hpos.
    cbn [map_err]. wp_step. apply wp_fmap, wp_on_inner. eapply wp_mono.
    { apply st_write_spec; rewrite Hpos, ?Hb; unfold BLOCK_SIZE in *; lia. }
    intros r t [-> Hb']. cbn [map_err]. wp_step. apply wp_fmap, wp_on_inner.
    eapply wp_mono; [apply st_flush_spec|]. intros r t' [-> Hb'']. cbn [map_err].
    wp_steps. split; [done|]. unfold holds; cbn [inner size] in *.
    by rewrite Hb'', Hb', Hb, Hsz, zlen_inserts, Hpos.
  - intros d c id buf (<- & Hs & Hm & Hf) Hfit Hid Hle.
    cbn [Block.read_block stream_driver]. unfold read_block.
    wp_step. apply wp_block_range; [done|apply zlen_nonneg|done|]. wp_steps.
    rewrite guard_past by lia. by wp_steps.
  - intros d c id buf (<- & Hs & Hm & Hf) Hfit Hid Hle.
    cbn [Block.write_block stream_driver]. unfold write_block.
    wp_step. apply wp_block_range; [done|apply zlen_nonneg|done|]. wp_steps.
    rewrite guard_past by lia. by wp_steps.
  - intros d c Hd. by apply wp_ret.
Defined.
End spec.
End StreamDiskSpec.

(** ** An in-memory stream, the concrete instance of [BufStreamSpec] *)
Module MemStream.
Record MemStream : Type := mk_mem { bytes : list byte; pos : Z }.

#[global] Instance mem_stream : BufStream MemStream := {
  st_seek p := modify (λ t, mk_mem t.(bytes) p);; mret (Ok ());
  st_read buf := λ t,
    (Ret (Ok (zlen buf), sub t.(bytes) (Z.to_nat t.(pos)) (length buf)), t);
  st_write buf := λ t,
    (Ret (Ok (zlen buf)),
     mk_mem (list_inserts (Z.to_nat t.(pos)) buf t.(bytes)) t.(pos));
  st_flush := mret (Ok ())
}.

#[global, refine] Instance mem_stream_spec : BufStreamSpec MemStream := {
  st_bytes := bytes; st_pos := pos
}.
Proof. all: by intros. Defined.
End MemStream.

(** ** Properties *)

(** a block written to a RAM disk is read back, and every other block keeps
    its contents: on a well-formed disk, an in-range block-aligned write
    succeeds without a panic, keeps the disk well-formed and of the same size,
    and a following read returns the written bytes at that block and the old
    bytes at any range of blocks that does not meet it. *)
Theorem ramdisk_write_then_read : ∀ d id buf jd jbuf,
  RamDisk.wf d → 0 ≤ id → 0 ≤ jd →
  zlen buf mod BLOCK_SIZE = 0 → zlen jbuf mod BLOCK_SIZE = 0 →
  id * BLOCK_SIZE + zlen buf ≤ d.(RamDisk.size) →
  jd * BLOCK_SIZE + zlen jbuf ≤ d.(RamDisk.size) →
  ∃ d', RamDisk.write_block id buf d = (Ret (Ok ()), d') ∧ RamDisk.wf d' ∧
    d'.(RamDisk.size) = d.(RamDisk.size) ∧
    (jd = id → length jbuf = length buf →
     RamDisk.read_block jd jbuf d' = (Ret (Ok (), buf), d')) ∧
    (jd * BLOCK_SIZE + zlen jbuf ≤ id * BLOCK_SIZE ∨
     id * BLOCK_SIZE + zlen buf ≤ jd * BLOCK_SIZE →
     RamDisk.read_block jd jbuf d' =
       (Ret (Ok (), sub d.(RamDisk.data) (Z.to_nat (jd * BLOCK_SIZE)) (length jbuf)), d')).
Proof.
  intros d id buf jd jbuf Hwf Hid Hjd Hm Hjm Hle Hjle.
  eexists. split; [by apply RamDiskSpec.write_block_in_range|].
  assert (Hwf' := RamDiskSpec.wf_write d buf (Z.to_nat (id * BLOCK_SIZE)) Hwf).
  assert (Hs := proj1 Hwf). unfold zlen in *.
  split; [done|]. split; [done|]. split.
  - intros -> Hlen. rewrite RamDiskSpec.read_block_in_range by done.
    cbn [RamDisk.data]. rewrite Hlen, sub_inserts_same; [done|].
    unfold BLOCK_SIZE in *. lia.
  - intros Hdisj. rewrite RamDiskSpec.read_block_in_range by done.
    cbn [RamDisk.data]. rewrite sub_inserts_disjoint; [done|..];
      unfold BLOCK_SIZE in *; lia.
Qed.

Lemma ramdisk_write_then_read_witness :
  ∃ d, RamDisk.wf d ∧ ∃ d',
    RamDisk.write_block 1 (replicate 4096 7) d = (Ret (Ok ()), d') ∧
    RamDisk.read_block 1 (replicate 4096 0) d' = (Ret (Ok (), replicate 4096 7), d').
Proof.
  set (d := RamDisk.mk_ramdisk 8192 (replicate (Z.to_nat 8192) 0)).
  assert (Hwf : RamDisk.wf d) by (by vm_compute).
  exists d. split; [exact Hwf|].
  destruct (ramdisk_write_then_read d 1 (replicate 4096 7) 1 (replicate 4096 0))
    as (d' & Hw & _ & _ & Hr & _); [exact Hwf|vm_compute; done..|].
  exists d'. split; [exact Hw|]. by apply Hr.
Defined.
