(* ===== verification/BlockDev.v ===== *)
(** * Byte-addressed devices over a block driver

    [SfsDevice] is [RamDiskDevice] of rcore_sfsfdtab, which adapts a block driver
    to [rcore_fs::dev::Device]: one call transfers bytes of one block only.
    [Ext4Device] is [RamDiskDevice] of ext4fdtab, which adapts it to
    [ext4_rs::BlockDevice]: a call loops over the blocks it meets.  Both are
    proved against [BlockDriverSpec], so they hold of any block driver. *)
From S2P Require Import Prelude Bytes Block.

Section adapters.
Context {D : Type} `{BlockDriver D}.

(** [vec![0u8; n]] *)
Definition zeros (n : Z) : list byte := replicate (Z.to_nat n) 0.

(** Where an absolute offset lies: block and offset in the block.  A block size
    of zero would divide by zero. *)
Definition locate (offset block_size : Z) : prog D (Z * Z) :=
  if block_size =? 0 then panic
  else mret (offset / block_size, offset mod block_size).

Definition sfs_read_at (offset : Z) (buf : list byte) :
    prog D (result Z () * list byte) :=
  block_size ← gets block_size;
  '(block_id, block_offset) ← locate offset block_size;
  let read_len := Z.min (zlen buf) (block_size - block_offset) in
  '(r, block_buf) ← read_block block_id (zeros block_size);
  match r with
  | Ok _ =>
      piece ← unwrap (slice block_buf block_offset read_len);
      buf ← unwrap (splice buf 0 piece);
      mret (Ok read_len, buf)
  | Err _ => mret (Err (), buf)
  end.

Definition sfs_write_at (offset : Z) (buf : list byte) : prog D (result Z ()) :=
  block_size ← gets block_size;
  '(block_id, block_offset) ← locate offset block_size;
  let write_len := Z.min (zlen buf) (block_size - block_offset) in
  '(r, block_buf) ← read_block block_id (zeros block_size);
  match r with
  | Ok _ =>
      piece ← unwrap (slice buf 0 write_len);
      block_buf ← unwrap (splice block_buf block_offset piece);
      r ← write_block block_id block_buf;
      match r with
      | Ok _ => mret (Ok write_len)
      | Err _ => mret (Err ())
      end
  | Err _ => mret (Err ())
  end.

Definition sfs_sync : prog D (result () ()) :=
  r ← flush;
  match r with Ok _ => mret (Ok ()) | Err _ => mret (Err ()) end.

(** The [while read < len] loop of [read_offset]; a failed block read returns a
    zeroed buffer from the function. *)
Fixpoint ext4_read_loop (fuel : nat) (block_size offset len : Z)
    (buf : list byte) (read : Z) : prog D (list byte) :=
  if read <? len then
    match fuel with
    | O => out_of_fuel
    | S fuel =>
        abs_offset ← checked 64 (offset + read);
        '(block_id, block_offset) ← locate abs_offset block_size;
        '(r, block_buf) ← read_block block_id (zeros block_size);
        match r with
        | Err _ => mret (zeros len)
        | Ok _ =>
            let to_copy := Z.min (len - read) (block_size - block_offset) in
            piece ← unwrap (slice block_buf block_offset to_copy);
            buf ← unwrap (splice buf read piece);
            ext4_read_loop fuel block_size offset len buf (read + to_copy)
        end
    end
  else mret buf.

Definition ext4_read_offset (offset : Z) : prog D (list byte) :=
  block_size ← gets block_size;
  let len := if offset =? 1024 then 1024 else block_size in
  ext4_read_loop (S (Z.to_nat len)) block_size offset len (zeros len) 0.

Fixpoint ext4_write_loop (fuel : nat) (block_size offset : Z)
    (data : list byte) (written : Z) : prog D () :=
  if written <? zlen data then
    match fuel with
    | O => out_of_fuel
    | S fuel =>
        abs_offset ← checked 64 (offset + written);
        '(block_id, block_offset) ← locate abs_offset block_size;
        '(r, block_buf) ← read_block block_id (zeros block_size);
        match r with
        | Err _ => mret ()
        | Ok _ =>
            let to_copy := Z.min (zlen data - written) (block_size - block_offset) in
            piece ← unwrap (slice data written to_copy);
            block_buf ← unwrap (splice block_buf block_offset piece);
            r ← write_block block_id block_buf;
            match r with
            | Err _ => mret ()
            | Ok _ => ext4_write_loop fuel block_size offset data (written + to_copy)
            end
        end
    end
  else mret ().

Definition ext4_write_offset (offset : Z) (data : list byte) : prog D () :=
  block_size ← gets block_size;
  ext4_write_loop (S (length data)) block_size offset data 0.
End adapters.

(** ** Lemmas *)
Section adapters_spec.
Context {D : Type} `{BlockDriverSpec D}.

Lemma zlen_zeros n : 0 ≤ n → zlen (zeros n) = n.
Proof. intros. unfold zlen, zeros. rewrite length_replicate. lia. Qed.

Lemma length_zeros n : length (zeros n) = Z.to_nat n.
Proof. apply length_replicate. Qed.

Lemma locate_split off : 0 ≤ off →
  off = off / BLOCK_SIZE * BLOCK_SIZE + off mod BLOCK_SIZE ∧
  0 ≤ off mod BLOCK_SIZE < BLOCK_SIZE ∧ 0 ≤ off / BLOCK_SIZE.
Proof.
  intros Ho. unfold BLOCK_SIZE. pose proof (Z.div_mod off 4096 ltac:(lia)).
  pose proof (Z.mod_pos_bound off 4096 ltac:(lia)).
  pose proof (Z.div_pos off 4096 Ho ltac:(lia)). lia.
Qed.

Lemma wp_locate off (Q : Z * Z → D → Prop) d :
  Q (off / BLOCK_SIZE, off mod BLOCK_SIZE) d → wp (locate off BLOCK_SIZE) Q d.
Proof. done. Qed.

(** A block that meets the array lies in it, because the array is whole blocks. *)
Lemma block_in_range (c : list byte) off :
  0 ≤ off < zlen c → zlen c mod BLOCK_SIZE = 0 →
  off / BLOCK_SIZE * BLOCK_SIZE + BLOCK_SIZE ≤ zlen c.
Proof.
  unfold BLOCK_SIZE. intros Ho Hm. pose proof (zlen_nonneg c).
  pose proof (Z.div_mod off 4096 ltac:(lia)).
  pose proof (Z.mod_pos_bound off 4096 ltac:(lia)).
  apply Z.mod_divide in Hm as [q Hq]; [|lia]. rewrite Hq in *. nia.
Qed.

(** Reading the block an offset lies in. *)
Lemma wp_read_containing d c off (Q : result () DevError * list byte → D → Prop) :
  holds d c → zlen c mod BLOCK_SIZE = 0 → 0 ≤ off < zlen c →
  (∀ d', holds d' c →
    Q (Ok (), sub c (Z.to_nat (off / BLOCK_SIZE * BLOCK_SIZE)) (Z.to_nat BLOCK_SIZE)) d') →
  wp (read_block (off / BLOCK_SIZE) (zeros BLOCK_SIZE)) Q d.
Proof.
  intros Hd Hm Ho HQ. pose proof (block_in_range c off Ho Hm).
  destruct (locate_split off) as (? & ? & ?); [lia|].
  assert (Hz : zlen (zeros BLOCK_SIZE) = BLOCK_SIZE) by by apply zlen_zeros.
  eapply wp_mono; [apply (read_block_spec d c); rewrite ?Hz; done|].
  intros r d' [-> Hd']. rewrite length_zeros. by apply HQ.
Qed.

(** Overwriting part of the block an offset lies in, as the adapters do it: the
    modified copy of the block is written back. *)
Lemma wp_write_containing d c off piece (Q : result () DevError → D → Prop) :
  holds d c → zlen c mod BLOCK_SIZE = 0 → 0 ≤ off < zlen c →
  off mod BLOCK_SIZE + zlen piece ≤ BLOCK_SIZE →
  (∀ d', holds d' (list_inserts (Z.to_nat off) piece c) → Q (Ok ()) d') →
  wp (write_block (off / BLOCK_SIZE)
       (list_inserts (Z.to_nat (off mod BLOCK_SIZE)) piece
         (sub c (Z.to_nat (off / BLOCK_SIZE * BLOCK_SIZE)) (Z.to_nat BLOCK_SIZE)))) Q d.
Proof.
  intros Hd Hm Ho Hp HQ. pose proof (block_in_range c off Ho Hm) as Hb.
  destruct (locate_split off) as (Heq & Hr & Hq); [lia|].
  set (blk := list_inserts _ _ _).
  assert (Hlen : zlen blk = BLOCK_SIZE).
  { unfold blk. rewrite zlen_inserts. unfold zlen.
    rewrite length_sub; unfold zlen, BLOCK_SIZE in *; lia. }
  eapply wp_mono; [apply (write_block_spec d c); rewrite ?Hlen; done|].
  intros r d' [-> Hd']. apply HQ. unfold blk in Hd'.
  rewrite inserts_rmw in Hd' by (unfold zlen, BLOCK_SIZE in *; lia).
  rewrite Heq at 1. rewrite Z2Nat.inj_add by (unfold BLOCK_SIZE in *; lia). done.
Qed.

Lemma slice_of_block (c : list byte) off n :
  0 ≤ off < zlen c → zlen c mod BLOCK_SIZE = 0 →
  0 ≤ n → off mod BLOCK_SIZE + n ≤ BLOCK_SIZE →
  slice (sub c (Z.to_nat (off / BLOCK_SIZE * BLOCK_SIZE)) (Z.to_nat BLOCK_SIZE))
        (off mod BLOCK_SIZE) n = Some (sub c (Z.to_nat off) (Z.to_nat n)).
Proof.
  intros Ho Hm Hn Hle. pose proof (block_in_range c off Ho Hm) as Hb.
  destruct (locate_split off) as (Heq & Hr & Hq); [lia|].
  assert (zlen (sub c (Z.to_nat (off / BLOCK_SIZE * BLOCK_SIZE)) (Z.to_nat BLOCK_SIZE))
          = BLOCK_SIZE).
  { unfold zlen in *. rewrite length_sub; unfold BLOCK_SIZE in *; lia. }
  rewrite slice_ok by lia.
  rewrite sub_sub by lia. rewrite <- Z2Nat.inj_add by (unfold BLOCK_SIZE in *; lia).
  by rewrite <- Heq.
Qed.

Lemma wp_sfs_read_at d c off buf :
  holds d c → zlen c mod BLOCK_SIZE = 0 → 0 ≤ off < zlen c →
  let n := Z.min (zlen buf) (BLOCK_SIZE - off mod BLOCK_SIZE) in
  wp (sfs_read_at off buf)
     (λ r d', r = (Ok n, list_inserts 0 (sub c (Z.to_nat off) (Z.to_nat n)) buf) ∧
              holds d' c) d.
Proof.
  intros Hd Hm Ho n. destruct (locate_split off) as (Heq & Hr & Hq); [lia|].
  pose proof (zlen_nonneg buf). unfold sfs_read_at. wp_steps.
  rewrite (holds_block_size d c Hd). apply wp_locate. wp_step.
  apply (wp_read_containing d c); [done..|]. intros d' Hd'. fold n. wp_step.
  eapply wp_unwrap; [apply slice_of_block; (done || lia)|]. wp_step.
  pose proof (block_in_range c off Ho Hm).
  eapply wp_unwrap; [apply splice_ok; [lia|]|by wp_steps].
  unfold zlen in *. rewrite length_sub; lia.
Qed.

Lemma wp_sfs_write_at d c off buf :
  holds d c → zlen c mod BLOCK_SIZE = 0 → 0 ≤ off < zlen c →
  let n := Z.min (zlen buf) (BLOCK_SIZE - off mod BLOCK_SIZE) in
  wp (sfs_write_at off buf)
     (λ r d', r = Ok n ∧
              holds d' (list_inserts (Z.to_nat off) (take (Z.to_nat n) buf) c)) d.
Proof.
  intros Hd Hm Ho n. destruct (locate_split off) as (Heq & Hr & Hq); [lia|].
  pose proof (zlen_nonneg buf). unfold sfs_write_at. wp_steps.
  rewrite (holds_block_size d c Hd). apply wp_locate. wp_step.
  apply (wp_read_containing d c); [done..|]. intros d' Hd'. fold n. wp_step.
  eapply wp_unwrap; [apply slice_ok; lia|]. wp_step.
  assert (Hp : zlen (sub buf (Z.to_nat 0) (Z.to_nat n)) = n).
  { unfold zlen in *. rewrite length_sub; lia. }
  pose proof (block_in_range c off Ho Hm).
  eapply wp_unwrap; [apply splice_ok; [lia|]|].
  { rewrite Hp. unfold zlen in *. rewrite length_sub; unfold BLOCK_SIZE in *; lia. }
  wp_step. apply wp_write_containing; [done..|lia|]. intros d'' Hd''. by wp_steps.
Qed.

Lemma wp_ext4_read_loop c off len : 0 ≤ off → off + len ≤ zlen c →
  zlen c mod BLOCK_SIZE = 0 →
  ∀ fuel read buf d, holds d c → 0 ≤ read ≤ len → zlen buf = len →
  (Z.to_nat (len - read) < fuel)%nat →
  wp (ext4_read_loop fuel BLOCK_SIZE off len buf read)
     (λ r d', r = list_inserts (Z.to_nat read)
                    (sub c (Z.to_nat (off + read)) (Z.to_nat (len - read))) buf ∧
              holds d' c) d.
Proof.
  intros Ho Hlen Hm fuel. induction fuel as [|fuel IH]; [lia|].
  intros read buf d Hd Hread Hbuf Hfuel. cbn [ext4_read_loop].
  pose proof (holds_fits d c Hd).
  destruct (Z.ltb_spec read len) as [Hlt|Hge].
  2: { replace (len - read) with 0 by lia. wp_steps. by rewrite sub_nil. }
  destruct (locate_split (off + read)) as (Heq & Hr & Hq); [lia|].
  wp_step. wp_step. wp_step. apply wp_locate. wp_step.
  apply (wp_read_containing d c); [done..|lia|]. intros d' Hd'.
  set (n := Z.min _ _). wp_step.
  eapply wp_unwrap; [apply slice_of_block; (done || lia)|]. wp_step.
  assert (Hp : zlen (sub c (Z.to_nat (off + read)) (Z.to_nat n)) = n).
  { unfold zlen in *. rewrite length_sub; lia. }
  eapply wp_unwrap; [apply splice_ok; lia|].
  eapply wp_mono; [apply IH; rewrite ?zlen_inserts; (done || lia)|].
  intros r d'' [-> Hd'']. split; [|done].
  replace (Z.to_nat (len - read)) with (Z.to_nat n + Z.to_nat (len - (read + n)))%nat by lia.
  rewrite sub_app.
  replace (Z.to_nat (off + read) + Z.to_nat n)%nat with (Z.to_nat (off + (read + n))) by lia.
  rewrite inserts_app.
  - f_equal. unfold zlen in Hp. rewrite length_sub; unfold zlen in *; lia.
  - unfold zlen in *. rewrite !length_sub by lia. lia.
Qed.

Lemma wp_ext4_write_loop c off data : 0 ≤ off → off + zlen data ≤ zlen c →
  zlen c mod BLOCK_SIZE = 0 →
  ∀ fuel written d, holds d (list_inserts (Z.to_nat off) (take (Z.to_nat written) data) c) →
  0 ≤ written ≤ zlen data → (Z.to_nat (zlen data - written) < fuel)%nat →
  wp (ext4_write_loop fuel BLOCK_SIZE off data written)
     (λ _ d', holds d' (list_inserts (Z.to_nat off) data c)) d.
Proof.
  intros Ho Hlen Hm fuel. induction fuel as [|fuel IH]; [lia|].
  intros written d Hd Hw Hfuel. cbn [ext4_write_loop].
  pose proof (holds_fits _ _ Hd). rewrite zlen_inserts in *.
  destruct (Z.ltb_spec written (zlen data)) as [Hlt|Hge].
  2: { rewrite take_ge in Hd by (unfold zlen in *; lia). by wp_steps. }
  destruct (locate_split (off + written)) as (Heq & Hr & Hq); [lia|].
  wp_step. wp_step. wp_step. apply wp_locate. wp_step.
  eapply wp_read_containing; [done|rewrite zlen_inserts; (done || lia)..|].
  intros d' Hd'. set (n := Z.min _ _). wp_step.
  eapply wp_unwrap; [apply slice_ok; lia|]. wp_step.
  assert (Hp : zlen (sub data (Z.to_nat written) (Z.to_nat n)) = n).
  { unfold zlen in *. rewrite length_sub; lia. }
  pose proof (block_in_range c (off + written) ltac:(lia) Hm).
  eapply wp_unwrap.
  { apply splice_ok; [lia|]. rewrite Hp. unfold zlen in *.
    rewrite length_sub; rewrite ?length_inserts; unfold BLOCK_SIZE in *; lia. }
  wp_step.
  apply wp_write_containing; [done|rewrite ?zlen_inserts; (done || lia)..|].
  intros d'' Hd''. apply IH; [|lia..].
  replace (Z.to_nat (written + n)) with (Z.to_nat written + Z.to_nat n)%nat by lia.
  rewrite <- take_take_drop. change (take _ (drop _ data))
    with (sub data (Z.to_nat written) (Z.to_nat n)).
  rewrite inserts_app; rewrite length_take.
  - replace (Z.to_nat off + _)%nat with (Z.to_nat (off + written))
      by (unfold zlen in *; lia). done.
  - unfold zlen in *. rewrite length_sub; lia.
Qed.

(** The number of bytes [ext4_read_offset] returns. *)
Definition ext4_read_len (off : Z) : Z := if off =? 1024 then 1024 else BLOCK_SIZE.

Lemma wp_ext4_read_offset d c off :
  holds d c → zlen c mod BLOCK_SIZE = 0 → 0 ≤ off →
  off + ext4_read_len off ≤ zlen c →
  wp (ext4_read_offset off)
     (λ r d', r = sub c (Z.to_nat off) (Z.to_nat (ext4_read_len off)) ∧ holds d' c) d.
Proof.
  intros Hd Hm Ho Hle. unfold ext4_read_offset. wp_steps.
  rewrite (holds_block_size d c Hd). fold (ext4_read_len off).
  assert (0 ≤ ext4_read_len off)
    by (unfold ext4_read_len, BLOCK_SIZE; case_match; lia).
  eapply wp_mono.
  - apply wp_ext4_read_loop with (c := c); rewrite ?zlen_zeros by done; (done || lia).
  - intros r d' [-> Hd']. split; [|done]. rewrite Z.add_0_r, Z.sub_0_r.
    apply list_eq. intros j. pose proof (length_zeros (ext4_read_len off)) as Hz.
    rewrite lookup_inserts; rewrite length_sub, ?Hz by (unfold zlen in *; lia); [|lia].
    case_decide; [f_equal; lia|].
    rewrite !lookup_ge_None_2; rewrite ?length_sub, ?Hz; unfold zlen in *; lia || done.
Qed.

Lemma wp_ext4_write_offset d c off data :
  holds d c → zlen c mod BLOCK_SIZE = 0 → 0 ≤ off → off + zlen data ≤ zlen c →
  wp (ext4_write_offset off data)
     (λ _ d', holds d' (list_inserts (Z.to_nat off) data c)) d.
Proof.
  intros Hd Hm Ho Hle. unfold ext4_write_offset. wp_steps.
  rewrite (holds_block_size d c Hd).
  apply wp_ext4_write_loop; try done; try lia; unfold zlen; lia.
Qed.
End adapters_spec.

(** ** Properties *)

(** C10: the ext4 block-device adapter implements a flat byte array over any block
    driver that satisfies its contract: writing [data] at any offset, aligned or
    not and across any number of blocks, terminates without a panic and leaves
    exactly the array with [data] overwritten at that offset. *)
Theorem ext4_write_offset_flat : ∀ D `{BlockDriverSpec D} (d : D) c off data,
  holds d c → zlen c mod BLOCK_SIZE = 0 → 0 ≤ off → off + zlen data ≤ zlen c →
  ∃ d', ext4_write_offset off data d = (Ret (), d') ∧
        holds d' (list_inserts (Z.to_nat off) data c).
Proof.
  intros D ? ? d c off data Hd Hm Ho Hle.
  destruct (wp_inv _ _ _ (wp_ext4_write_offset d c off data Hd Hm Ho Hle))
    as ([] & d' & ? & ?). eauto.
Qed.

Lemma ext4_write_offset_flat_witness :
  ∃ (d d' : @StreamDisk.StreamDisk MemStream.MemStream) c,
    holds d c ∧ ext4_write_offset 4094 [1; 2; 3; 4] d = (Ret (), d') ∧
    holds d' (list_inserts 4094 [1; 2; 3; 4] c).
Proof.
  set (c := zeros 8192).
  set (d := StreamDisk.mk_stream (MemStream.mk_mem c 0) 8192).
  assert (Hd : holds d c) by (repeat split).
  destruct (ext4_write_offset_flat _ d c 4094 [1; 2; 3; 4] Hd) as (d' & Hw & Hh);
    [vm_compute; (done || (split; done))..|]. exists d, d', c. exact (conj Hd (conj Hw Hh)).
Defined.

(** Reading through the ext4 adapter returns the bytes of the array: 1024
    bytes at the superblock offset 1024 and one block's worth anywhere else,
    also when the range straddles two blocks. *)
Theorem ext4_read_offset_flat : ∀ D `{BlockDriverSpec D} (d : D) c off,
  holds d c → zlen c mod BLOCK_SIZE = 0 → 0 ≤ off →
  off + (if off =? 1024 then 1024 else BLOCK_SIZE) ≤ zlen c →
  ∃ d', ext4_read_offset off d =
          (Ret (sub c (Z.to_nat off)
                 (Z.to_nat (if off =? 1024 then 1024 else BLOCK_SIZE))), d') ∧
        holds d' c.
Proof.
  intros D ? ? d c off Hd Hm Ho Hle.
  destruct (wp_inv _ _ _ (wp_ext4_read_offset d c off Hd Hm Ho Hle))
    as (r & d' & Hr & -> & ?). eauto.
Qed.

Lemma ext4_read_offset_flat_witness :
  ∃ (d d' : RamDisk.RamDisk), ext4_read_offset 4000 d = (Ret (replicate 4096 9), d').
Proof.
  set (c := replicate (Z.to_nat 8192) 9). set (d := RamDisk.mk_ramdisk 8192 c).
  assert (Hd : holds d c) by (repeat split).
  destruct (ext4_read_offset_flat _ d c 4000 Hd) as (d' & Hr & _);
    [vm_compute; (done || (split; done))..|]. exists d, d'. exact Hr.
Defined.

(** one call of the SFS adapter writes up to the end of the block: it reports
    how many bytes it took, which is at least one when there is something to
    write, and the array changes exactly there; a following read at the same
    offset gives those bytes back. *)
Theorem sfs_device_partial_write : ∀ D `{BlockDriverSpec D} (d : D) c off data buf,
  holds d c → zlen c mod BLOCK_SIZE = 0 → 0 ≤ off < zlen c → data ≠ [] →
  length buf = length data →
  ∃ n d' d'', 1 ≤ n ≤ zlen data ∧ n = Z.min (zlen data) (BLOCK_SIZE - off mod BLOCK_SIZE) ∧
    sfs_write_at off data d = (Ret (Ok n), d') ∧
    holds d' (list_inserts (Z.to_nat off) (take (Z.to_nat n) data) c) ∧
    sfs_read_at off buf d' =
      (Ret (Ok n, take (Z.to_nat n) data ++ drop (Z.to_nat n) buf), d'').
Proof.
  intros D ? ? d c off data buf Hd Hm Ho Hne Hlen.
  set (n := Z.min (zlen data) (BLOCK_SIZE - off mod BLOCK_SIZE)).
  destruct (locate_split off) as (Heq & Hr & Hq); [lia|].
  assert (1 ≤ n ≤ zlen data).
  { unfold n, zlen. destruct data; [done|cbn [length]; lia]. }
  destruct (wp_inv _ _ _ (wp_sfs_write_at d c off data Hd Hm Ho))
    as (r & d' & Hw & -> & Hh'). fold n in Hh', Hw.
  destruct (wp_inv _ _ _ (wp_sfs_read_at d' _ off buf Hh'
     ltac:(by rewrite zlen_inserts) ltac:(by rewrite zlen_inserts)))
    as (r & d'' & Hrd & -> & Hh'').
  exists n, d', d''. do 4 (split; [done|]). rewrite Hrd.
  assert (zlen buf = zlen data) as -> by (unfold zlen; by rewrite Hlen).
  fold n. do 3 f_equal.
  pose proof (block_in_range c off Ho Hm).
  assert (Ht : length (take (Z.to_nat n) data) = Z.to_nat n)
    by (rewrite length_take; unfold zlen in *; lia).
  replace (Z.to_nat n) with (length (take (Z.to_nat n) data)) at 2 by done.
  rewrite sub_inserts_same by (rewrite Ht; unfold zlen in *; lia).
  rewrite <- (take_drop (Z.to_nat n) buf) at 1.
  rewrite list_inserts_0_r; [done|].
  rewrite !length_take. lia.
Qed.

Lemma sfs_device_partial_write_witness :
  ∃ (d d' d'' : RamDisk.RamDisk),
    sfs_write_at 4095 [5; 6] d = (Ret (Ok 1), d') ∧
    sfs_read_at 4095 [0; 0] d' = (Ret (Ok 1, [5; 0]), d'').
Proof.
  set (c := zeros 8192). set (d := RamDisk.mk_ramdisk 8192 c).
  assert (Hd : holds d c) by (repeat split).
  destruct (sfs_device_partial_write _ d c 4095 [5; 6] [0; 0] Hd)
    as (n & d' & d'' & _ & -> & Hw & _ & Hr); [vm_compute; (done || (split; done))..|].
  exists d, d', d''. split; [exact Hw|exact Hr].
Defined.
