(* ===== verification/Fdtab.v ===== *)
(** * The file-descriptor table (common_service/fdtab)

    A table of [Option<File>] slots behind one lock; descriptor [fd] is slot
    [fd - 3], and 0, 1, 2 are the standard streams.  A file is a handle of one
    of two lower services, the FAT file system and the TCP stack, reached by
    host calls: [FdBackend] is that interface, over the state [W] of the
    services below.  The lock is held while the host call runs; the services
    below never call back into this one. *)
From S2P Require Import Prelude Bytes Hostcall.
Local Open Scope Z_scope.

Abbreviation SockFd := Z (only parsing).

(** [SocketAddrV4] *)
Record SocketAddrV4 : Type := mk_addr { ip : Z; port : Z }.

(** The host calls fdtab makes. *)
Class FdBackend (W : Type) : Type := {
  hc_fatfs_open : string → Z → prog W (result Fd FatfsError);
  hc_fatfs_read : Fd → list byte → prog W (result Z FatfsError * list byte);
  hc_fatfs_write : Fd → list byte → prog W (result Z FatfsError);
  hc_fatfs_seek : Fd → Z → prog W (result () FatfsError);
  hc_fatfs_stat : Fd → prog W (result Stat FatfsError);
  hc_fatfs_close : Fd → prog W (result () FatfsError);
  hc_smol_connect : SocketAddrV4 → prog W (result SockFd SmoltcpError);
  hc_smol_bind : SocketAddrV4 → prog W (result SockFd SmoltcpError);
  hc_smol_accept : SockFd → prog W (result SockFd SmoltcpError);
  hc_send : SockFd → list byte → prog W (result () SmoltcpError);
  hc_recv : SockFd → list byte → prog W (result Z SmoltcpError * list byte);
  hc_smol_close : SockFd → prog W (result () SmoltcpError);
  hc_stdout : list byte → prog W Z
}.

Inductive DataSource : Type :=
  | FatFS (fd : Fd)
  | Net (fd : SockFd).

Record File : Type := mk_file { mode : Z; src : DataSource }.

#[global] Instance DataSource_eq_dec : EqDecision DataSource.
Proof. solve_decision. Defined.
#[global] Instance File_eq_dec : EqDecision File.
Proof. solve_decision. Defined.

Definition can_read (f : File) : bool := contains f.(mode) OpenMode_RD.
Definition can_write (f : File) : bool := contains f.(mode) OpenMode_WR.

(** [FD_TABLE], the [Vec<Option<File>>] inside the lock. *)
Abbreviation FdTable := (list (option File)).

(** The first [None] slot, in iteration order. *)
Fixpoint first_free (t : FdTable) : option nat :=
  match t with
  | [] => None
  | None :: _ => Some O
  | Some _ :: t => S <$> first_free t
  end.

Section fdtab.
Context {W : Type} `{FdBackend W}.

(** The state: the table, and the services below. *)
Definition FdState : Type := FdTable * W.

Definition below {A} (m : prog W A) : prog FdState A := on snd (λ w s, (s.1, w)) m.
Definition set_table (t : FdTable) : prog FdState () := modify (λ s, (t, s.2)).

(** [with_file]: [fd as usize - 3] panics below 3. *)
Definition with_file {A} (fd : Fd) (f : option File → prog FdState A) : prog FdState A :=
  idx ← checked 64 (fd - 3);
  t ← gets fst;
  f (mjoin (t !! Z.to_nat idx)).

(** [with_file_mut]: the closure may replace the file in place. *)
Definition with_file_mut {A} (fd : Fd)
    (f : option File → (File → prog FdState ()) → prog FdState A) : prog FdState A :=
  idx ← checked 64 (fd - 3);
  t ← gets fst;
  f (mjoin (t !! Z.to_nat idx))
    (λ file, modify (λ s, (<[Z.to_nat idx := Some file]> s.1, s.2))).

Definition add_file (file : File) : prog FdState Fd :=
  t ← gets fst;
  match first_free t with
  | Some idx => set_table (<[idx := Some file]> t);; mret (wrap 32 (Z.of_nat idx + 3))
  | None => set_table (t ++ [Some file]);; mret (wrap 32 (zlen (t ++ [Some file]) + 2))
  end.

Definition remove_file (fd : Fd) : prog FdState (option File) :=
  idx ← checked 64 (fd - 3);
  t ← gets fst;
  if zlen t <=? idx then mret None
  else
    old ← unwrap (t !! Z.to_nat idx);
    set_table (<[Z.to_nat idx := None]> t);;
    mret old.

(** [if let 0..=2 = fd] *)
Definition std_fd (fd : Fd) : bool := (0 <=? fd) && (fd <=? 2).

Definition lift_fat {A} (r : result A FatfsError) : result A FdtabError := map_err FatfsErr r.
Definition lift_sock {A} (r : result A SmoltcpError) : result A FdtabError := map_err SocketErr r.

Definition read (fd : Fd) (buf : list byte) :
    prog FdState (result Z FdtabError * list byte) :=
  if std_fd fd then mret (Err (BadInputFd ">2" fd), buf)
  else with_file fd (λ file,
    match file with
    | None => mret (Err (NoExistFd fd), buf)
    | Some file =>
        if negb (can_read file) then mret (Err (NoReadPerm fd), buf)
        else match file.(src) with
        | FatFS raw_fd =>
            '(r, buf) ← below (hc_fatfs_read raw_fd buf); mret (lift_fat r, buf)
        | Net socket =>
            '(r, buf) ← below (hc_recv socket buf); mret (lift_sock r, buf)
        end
    end).

Definition write (fd : Fd) (buf : list byte) : prog FdState (result Z FdtabError) :=
  if fd =? 0 then mret (Err (BadInputFd ">0" fd))
  else if (fd =? 1) || (fd =? 2) then n ← below (hc_stdout buf); mret (Ok n)
  else with_file fd (λ file,
    match file with
    | None => mret (Err (NoExistFd fd))
    | Some file =>
        if negb (can_write file) then mret (Err (NoWritePerm fd))
        else match file.(src) with
        | FatFS raw_fd => r ← below (hc_fatfs_write raw_fd buf); mret (lift_fat r)
        | Net sockfd =>
            r ← below (hc_send sockfd buf);
            mret (match lift_sock r with Ok _ => Ok (zlen buf) | Err e => Err e end)
        end
    end).

Definition lseek (fd : Fd) (pos : Z) : prog FdState (result () FdtabError) :=
  if std_fd fd then mret (Err (BadInputFd ">2" fd))
  else with_file fd (λ file,
    match file with
    | None => mret (Err (NoExistFd fd))
    | Some file =>
        match file.(src) with
        | FatFS raw_fd => r ← below (hc_fatfs_seek raw_fd pos); mret (lift_fat r)
        | Net _ => mret (Err (UndefinedOperation "lseek" fd "Net"))
        end
    end).

Definition stat (fd : Fd) : prog FdState (result Stat FdtabError) :=
  if std_fd fd then mret (Err (BadInputFd ">2" fd))
  else with_file fd (λ file,
    match file with
    | None => mret (Err (NoExistFd fd))
    | Some file =>
        match file.(src) with
        | FatFS raw_fd => r ← below (hc_fatfs_stat raw_fd); mret (lift_fat r)
        | Net _ => mret (Err (UndefinedOperation "stat" fd "Net"))
        end
    end).

Definition open (path : string) (flags mode : Z) : prog FdState (result Fd FdtabError) :=
  raw_fd ←? fmap lift_fat (below (hc_fatfs_open path flags));
  fd ← add_file (mk_file mode (FatFS raw_fd));
  mret (Ok fd).

Definition close (fd : Fd) : prog FdState (result () FdtabError) :=
  if std_fd fd then mret (Err (BadInputFd ">2" fd))
  else
    file ← remove_file fd;
    match file with
    | None => mret (Err (NoExistFd fd))
    | Some file =>
        match file.(src) with
        | FatFS raw_fd => r ← below (hc_fatfs_close raw_fd); mret (lift_fat r)
        | Net socket => r ← below (hc_smol_close socket); mret (lift_sock r)
        end
    end.

Definition connect (addr : SocketAddrV4) : prog FdState (result Fd FdtabError) :=
  sockfd ←? fmap lift_sock (below (hc_smol_connect addr));
  fd ← add_file (mk_file OpenMode_RDWR (Net sockfd));
  mret (Ok fd).

Definition bind (addr : SocketAddrV4) : prog FdState (result SockFd FdtabError) :=
  listened_sockfd ←? fmap lift_sock (below (hc_smol_bind addr));
  fd ← add_file (mk_file OpenMode_RD (Net listened_sockfd));
  mret (Ok fd).

Definition accept (listened_sockfd : SockFd) : prog FdState (result SockFd FdtabError) :=
  if std_fd listened_sockfd then mret (Err (BadInputFd ">2" listened_sockfd))
  else
    listened ←? with_file_mut listened_sockfd (λ file put,
      match file with
      | None => mret (Err (NoExistFd listened_sockfd))
      | Some old_sock =>
          match old_sock.(src) with
          | Net sockfd =>
              new ←? fmap lift_sock (below (hc_smol_accept sockfd));
              put (mk_file old_sock.(mode) (Net new));;
              mret (Ok sockfd)
          | FatFS _ => mret (Err (UndefinedOperation "accept" listened_sockfd "Net"))
          end
      end);
    connected ← add_file (mk_file OpenMode_RDWR (Net listened));
    mret (Ok connected).

(** ** The abstract table: a finite map from descriptors to files *)

(** The file a descriptor names. *)
Definition lookup_fd (t : FdTable) (fd : Fd) : option File :=
  if fd <? 3 then None else mjoin (t !! Z.to_nat (fd - 3)).

Definition abs (t : FdTable) (m : gmap Fd File) : Prop := ∀ fd, m !! fd = lookup_fd t fd.

(** The lowest descriptor above the standard streams that [m] leaves free. *)
Definition lowest_free (m : gmap Fd File) (fd : Fd) : Prop :=
  3 ≤ fd ∧ m !! fd = None ∧ ∀ fd', 3 ≤ fd' < fd → is_Some (m !! fd').

(** One call of the service, and its result. *)
Inductive FdOp : Type :=
  | OpRead (fd : Fd) (buf : list byte)
  | OpWrite (fd : Fd) (buf : list byte)
  | OpSeek (fd : Fd) (pos : Z)
  | OpStat (fd : Fd)
  | OpOpen (path : string) (flags mode : Z)
  | OpClose (fd : Fd)
  | OpConnect (addr : SocketAddrV4)
  | OpBind (addr : SocketAddrV4)
  | OpAccept (fd : Fd).

Inductive FdRes : Type :=
  | RRead (r : result Z FdtabError) (buf : list byte)
  | RSize (r : result Z FdtabError)
  | RUnit (r : result () FdtabError)
  | RStat (r : result Stat FdtabError)
  | RFd (r : result Fd FdtabError).

(** The descriptor an operation is given, a [u32]. *)
Definition op_fd (op : FdOp) : Fd :=
  match op with
  | OpRead fd _ | OpWrite fd _ | OpSeek fd _ | OpStat fd | OpClose fd | OpAccept fd => fd
  | _ => 0
  end.

Definition exec_op (op : FdOp) : prog FdState FdRes :=
  match op with
  | OpRead fd buf => '(r, buf) ← read fd buf; mret (RRead r buf)
  | OpWrite fd buf => r ← write fd buf; mret (RSize r)
  | OpSeek fd pos => r ← lseek fd pos; mret (RUnit r)
  | OpStat fd => r ← stat fd; mret (RStat r)
  | OpOpen path flags mode => r ← open path flags mode; mret (RFd r)
  | OpClose fd => r ← close fd; mret (RUnit r)
  | OpConnect addr => r ← connect addr; mret (RFd r)
  | OpBind addr => r ← bind addr; mret (RFd r)
  | OpAccept fd => r ← accept fd; mret (RFd r)
  end.

(** ** Lemmas *)

Lemma std_fd_false fd : 3 ≤ fd → std_fd fd = false.
Proof. unfold std_fd. lia. Qed.

Lemma lookup_fd_ge t fd : 3 ≤ fd → lookup_fd t fd = mjoin (t !! Z.to_nat (fd - 3)).
Proof. unfold lookup_fd. intros. by replace (fd <? 3) with false by lia. Qed.

Lemma first_free_Some t i :
  first_free t = Some i →
  t !! i = Some None ∧ ∀ j, (j < i)%nat → is_Some (mjoin (t !! j)).
Proof.
  revert i. induction t as [|[f|] t IH]; intros i; cbn [first_free]; [done| |].
  - rewrite fmap_Some. intros (i' & Hi & ->). destruct (IH _ Hi) as [Ht Hj].
    split; [done|]. intros [|j] Hlt; [done|]. apply Hj. lia.
  - intros [= <-]. split; [done|lia].
Qed.

Lemma first_free_None t : first_free t = None → ∀ j, (j < length t)%nat → is_Some (mjoin (t !! j)).
Proof.
  induction t as [|[f|] t IH]; cbn [first_free length]; [lia| |done].
  rewrite fmap_None. intros Hn [|j] Hj; [done|]. apply IH; [done|lia].
Qed.

Lemma lookup_fd_insert t i o fd : (i < length t)%nat →
  lookup_fd (<[i := o]> t) fd = if decide (fd = Z.of_nat i + 3) then o else lookup_fd t fd.
Proof.
  intros Hi. unfold lookup_fd. case_decide as Hd.
  - subst. replace (_ <? 3) with false by lia.
    replace (Z.to_nat (Z.of_nat i + 3 - 3)) with i by lia.
    by rewrite list_lookup_insert_eq.
  - case_match; [done|]. rewrite list_lookup_insert_ne; [done|lia].
Qed.

Lemma lookup_fd_app t f fd :
  lookup_fd (t ++ [Some f]) fd =
    if decide (fd = zlen t + 3) then Some f else lookup_fd t fd.
Proof.
  unfold lookup_fd, zlen. case_decide as Hd.
  - subst. rewrite (proj2 (Z.ltb_ge _ _)) by lia.
    replace (Z.to_nat (Z.of_nat (length t) + 3 - 3)) with (length t) by lia.
    by rewrite lookup_app_here.
  - case_match; [done|].
    destruct (decide (Z.to_nat (fd - 3) < length t)%nat).
    + by rewrite lookup_app_l.
    + rewrite lookup_ge_None_2 by (rewrite length_app; cbn [length]; lia).
      by rewrite lookup_ge_None_2 by lia.
Qed.

(** [add_file] hands out the lowest free descriptor. *)
Lemma wp_add_file f t w :
  zlen t + 3 < 2 ^ 32 →
  ∃ fd t', add_file f (t, w) = (Ret fd, (t', w)) ∧ 3 ≤ fd ∧ fd ≤ zlen t + 3 ∧
    lookup_fd t fd = None ∧ (∀ fd', 3 ≤ fd' < fd → is_Some (lookup_fd t fd')) ∧
    (∀ fd', lookup_fd t' fd' = if decide (fd' = fd) then Some f else lookup_fd t fd') ∧
    zlen t' ≤ zlen t + 1.
Proof.
  intros Hlen. unfold add_file. rewrite (bind_Ret _ _ _ t (t, w)) by done.
  destruct (first_free t) as [i|] eqn:Hf.
  - destruct (first_free_Some _ _ Hf) as [Hi Hlow].
    assert (Hil := lookup_lt_Some _ _ _ Hi). unfold zlen in *.
    eexists (Z.of_nat i + 3), _. split.
    { cbn. unfold wrap. rewrite Z.mod_small by lia. done. }
    rewrite !lookup_fd_ge by lia.
    replace (Z.to_nat (Z.of_nat i + 3 - 3)) with i by lia. rewrite Hi.
    split; [lia|]. split; [lia|]. split; [done|]. split.
    { intros fd' Hfd'. rewrite lookup_fd_ge by lia. apply Hlow. lia. }
    split; [intros; by apply lookup_fd_insert|]. rewrite length_insert. lia.
  - pose proof (first_free_None _ Hf) as Hlow. unfold zlen in *.
    eexists (Z.of_nat (length t) + 3), _. split.
    { trans (Ret (wrap 32 (zlen (t ++ [Some f]) + 2)), (t ++ [Some f], w)); [done|].
      rewrite zlen_app. unfold wrap, zlen. cbn [length].
      rewrite Z.mod_small by lia. do 2 f_equal. lia. }
    rewrite !lookup_fd_ge by lia.
    replace (Z.to_nat (Z.of_nat (length t) + 3 - 3)) with (length t) by lia.
    rewrite lookup_ge_None_2 by lia.
    split; [lia|]. split; [lia|]. split; [done|]. split.
    { intros fd' Hfd'. rewrite lookup_fd_ge by lia. apply Hlow. lia. }
    split; [intros; by apply lookup_fd_app|]. rewrite length_app. cbn [length]. lia.
Qed.

Lemma with_file_ge {A} fd (f : option File → prog FdState A) t w :
  3 ≤ fd → fits 32 fd → with_file fd f (t, w) = f (lookup_fd t fd) (t, w).
Proof.
  intros Hge Hf. unfold with_file.
  rewrite (bind_Ret _ _ _ (fd - 3) (t, w)) by (apply checked_fits; unfold fits in *; lia).
  rewrite (bind_Ret _ _ _ t (t, w)) by done. by rewrite lookup_fd_ge.
Qed.

Lemma remove_file_ge fd t w :
  3 ≤ fd → fits 32 fd →
  ∃ t', remove_file fd (t, w) = (Ret (lookup_fd t fd), (t', w)) ∧ zlen t' = zlen t ∧
        ∀ fd', lookup_fd t' fd' = if decide (fd' = fd) then None else lookup_fd t fd'.
Proof.
  intros Hge Hf. unfold remove_file.
  rewrite (bind_Ret _ _ _ (fd - 3) (t, w)) by (apply checked_fits; unfold fits in *; lia).
  rewrite (bind_Ret _ _ _ t (t, w)) by done. rewrite lookup_fd_ge by done.
  destruct (Z.leb_spec (zlen t) (fd - 3)) as [Hle|Hlt].
  - rewrite lookup_ge_None_2 by (unfold zlen in *; lia).
    exists t. split; [done|]. split; [done|]. intros fd'. case_decide; [|done].
    subst. rewrite lookup_fd_ge by done. by rewrite lookup_ge_None_2 by (unfold zlen in *; lia).
  - destruct (lookup_lt_is_Some_2 t (Z.to_nat (fd - 3))) as [o Hof];
      [unfold zlen in *; lia|].
    rewrite Hof. cbn [unwrap].
    eexists. split; [done|]. split; [unfold zlen; by rewrite length_insert|].
    intros fd'. rewrite lookup_fd_insert by (unfold zlen in *; lia).
    repeat case_decide; try done; lia.
Qed.
End fdtab.
Arguments FdState : clear implicits.
