(* ===== verification/FdSpec.v ===== *)
(** * The contract of the descriptor table, and its refinement

    The specification sees a finite map from descriptors to files; a call either
    leaves the map alone and talks to the service below, or adds a file at the
    lowest free descriptor, or deletes one.  [fd_step] is that specification and
    [fdtab_refines] shows that every call of [Fdtab] follows it. *)
From S2P Require Import Prelude Bytes Hostcall Fdtab.

Section spec.
Context {W : Type} `{FdBackend W}.
Implicit Types (m : gmap Fd File) (w : W) (t : FdTable).

(** An operation on the file a descriptor names. *)
Definition on_file (m : gmap Fd File) (fd : Fd) (fail : FdtabError → FdRes)
    (k : File → prog W FdRes) : prog W FdRes :=
  if fd <=? 2 then mret (fail (BadInputFd ">2" fd))
  else match m !! fd with
       | None => mret (fail (NoExistFd fd))
       | Some f => k f
       end.

Definition spec_read m fd buf : prog W FdRes :=
  on_file m fd (λ e, RRead (Err e) buf) (λ f,
    if can_read f then
      '(r, buf) ← match f.(src) with
                  | FatFS h => fmap (prod_map (map_err FatfsErr) id) (hc_fatfs_read h buf)
                  | Net h => fmap (prod_map (map_err SocketErr) id) (hc_recv h buf)
                  end;
      mret (RRead r buf)
    else mret (RRead (Err (NoReadPerm fd)) buf)).

Definition spec_write m fd buf : prog W FdRes :=
  if decide (fd = 0) then mret (RSize (Err (BadInputFd ">0" fd)))
  else if decide (fd ≤ 2) then n ← hc_stdout buf; mret (RSize (Ok n))
  else on_file m fd (λ e, RSize (Err e)) (λ f,
    if can_write f then
      match f.(src) with
      | FatFS h => r ← hc_fatfs_write h buf; mret (RSize (map_err FatfsErr r))
      | Net h =>
          r ← hc_send h buf;
          mret (RSize (match r with Ok _ => Ok (zlen buf) | Err e => Err (SocketErr e) end))
      end
    else mret (RSize (Err (NoWritePerm fd)))).

Definition spec_seek m fd pos : prog W FdRes :=
  on_file m fd (λ e, RUnit (Err e)) (λ f,
    match f.(src) with
    | FatFS h => r ← hc_fatfs_seek h pos; mret (RUnit (map_err FatfsErr r))
    | Net _ => mret (RUnit (Err (UndefinedOperation "lseek" fd "Net")))
    end).

Definition spec_stat m fd : prog W FdRes :=
  on_file m fd (λ e, RStat (Err e)) (λ f,
    match f.(src) with
    | FatFS h => r ← hc_fatfs_stat h; mret (RStat (map_err FatfsErr r))
    | Net _ => mret (RStat (Err (UndefinedOperation "stat" fd "Net")))
    end).

(** The operations that leave the map alone. *)
Definition spec_pure m (op : FdOp) : option (prog W FdRes) :=
  match op with
  | OpRead fd buf => Some (spec_read m fd buf)
  | OpWrite fd buf => Some (spec_write m fd buf)
  | OpSeek fd pos => Some (spec_seek m fd pos)
  | OpStat fd => Some (spec_stat m fd)
  | _ => None
  end.

(** The operations that ask the service below for a new handle and open a file
    on it; [inl] is the error it reports. *)
Definition spec_new (op : FdOp) : option (prog W (FdtabError + File)) :=
  match op with
  | OpOpen path flags mode => Some (
      r ← hc_fatfs_open path flags;
      mret (match r with Ok h => inr (mk_file mode (FatFS h)) | Err e => inl (FatfsErr e) end))
  | OpConnect addr => Some (
      r ← hc_smol_connect addr;
      mret (match r with Ok h => inr (mk_file OpenMode_RDWR (Net h)) | Err e => inl (SocketErr e) end))
  | OpBind addr => Some (
      r ← hc_smol_bind addr;
      mret (match r with Ok h => inr (mk_file OpenMode_RD (Net h)) | Err e => inl (SocketErr e) end))
  | _ => None
  end.

Definition close_handle (s : DataSource) : prog W (result () FdtabError) :=
  match s with
  | FatFS h => map_err FatfsErr <$> hc_fatfs_close h
  | Net h => map_err SocketErr <$> hc_smol_close h
  end.

(** One call, with its outcome: it returns, or it ends where the service below
    does, in a panic or for ever blocked. *)
Inductive fd_step (m : gmap Fd File) (w : W) : FdOp → outcome FdRes → gmap Fd File → W → Prop :=
  | step_pure op p o w' :
      spec_pure m op = Some p → p w = (o, w') → fd_step m w op o m w'
  | step_new_stop op p o o' w' :
      spec_new op = Some p → p w = (o, w') → stops o = Some o' → fd_step m w op o' m w'
  | step_new_err op p e w' :
      spec_new op = Some p → p w = (Ret (inl e), w') → fd_step m w op (Ret (RFd (Err e))) m w'
  | step_new op p f fd w' :
      spec_new op = Some p → p w = (Ret (inr f), w') → lowest_free m fd →
      fd_step m w op (Ret (RFd (Ok fd))) (<[fd := f]> m) w'
  | step_close_std fd :
      fd ≤ 2 → fd_step m w (OpClose fd) (Ret (RUnit (Err (BadInputFd ">2" fd)))) m w
  | step_close_none fd :
      2 < fd → m !! fd = None → fd_step m w (OpClose fd) (Ret (RUnit (Err (NoExistFd fd)))) m w
  | step_close fd f o w' :
      (* the descriptor is gone, whatever the service below does *)
      2 < fd → m !! fd = Some f → close_handle f.(src) w = (o, w') →
      fd_step m w (OpClose fd) (outcome_map RUnit o) (delete fd m) w'
  | step_accept_std fd :
      fd ≤ 2 → fd_step m w (OpAccept fd) (Ret (RFd (Err (BadInputFd ">2" fd)))) m w
  | step_accept_none fd :
      2 < fd → m !! fd = None → fd_step m w (OpAccept fd) (Ret (RFd (Err (NoExistFd fd)))) m w
  | step_accept_file fd f h :
      2 < fd → m !! fd = Some f → f.(src) = FatFS h →
      fd_step m w (OpAccept fd) (Ret (RFd (Err (UndefinedOperation "accept" fd "Net")))) m w
  | step_accept_stop fd f h o o' w' :
      2 < fd → m !! fd = Some f → f.(src) = Net h → hc_smol_accept h w = (o, w') →
      stops o = Some o' → fd_step m w (OpAccept fd) o' m w'
  | step_accept_err fd f h e w' :
      2 < fd → m !! fd = Some f → f.(src) = Net h → hc_smol_accept h w = (Ret (Err e), w') →
      fd_step m w (OpAccept fd) (Ret (RFd (Err (SocketErr e)))) m w'
  | step_accept fd f h h' fd' w' :
      (* the descriptor keeps listening on the new handle, and the connection
         takes the old one *)
      2 < fd → m !! fd = Some f → f.(src) = Net h → hc_smol_accept h w = (Ret (Ok h'), w') →
      lowest_free m fd' →
      fd_step m w (OpAccept fd) (Ret (RFd (Ok fd')))
        (<[fd' := mk_file OpenMode_RDWR (Net h)]> (<[fd := mk_file f.(mode) (Net h')]> m)) w'.

(** A run of calls: the results up to the end, or the outcome of the first call
    that does not return. *)
Inductive fd_runs : gmap Fd File → W → list FdOp → outcome (list FdRes) → gmap Fd File → W → Prop :=
  | runs_nil m w : fd_runs m w [] (Ret []) m w
  | runs_stop m w op ops o o' m' w' :
      fd_step m w op o m' w' → stops o = Some o' → fd_runs m w (op :: ops) o' m' w'
  | runs_cons m w op ops r o m' w' m'' w'' :
      fd_step m w op (Ret r) m' w' → fd_runs m' w' ops o m'' w'' →
      fd_runs m w (op :: ops) (outcome_map (cons r) o) m'' w''.

(** ** Lemmas *)

Ltac run_call :=
  cbv [mbind prog_mbind fmap prog_fmap try_bind mret prog_mret below on lift_fat
       lift_sock map_err prod_map set_table modify gets];
  cbn [fst snd];
  repeat (match goal with
          | |- context [match ?p ?w with _ => _ end] =>
              match type of w with W => destruct (p w) as [[] ?] eqn:?; cbn [fst snd] end
          | r : result _ _ |- _ => destruct r
          | r : (result _ _ * _)%type |- _ => destruct r
          end; try done); try done.

Lemma abs_lookup t m fd : abs t m → lookup_fd t fd = m !! fd.
Proof. intros Habs. symmetry. apply Habs. Qed.

Lemma std_fd_leb fd : 0 ≤ fd → std_fd fd = (fd <=? 2).
Proof. unfold std_fd. intros. destruct (Z.leb_spec 0 fd); [done|lia]. Qed.

(** A call on a descriptor above 2 sees the file the map holds. *)
Lemma with_file_abs {A} t m fd (f : option File → prog (FdState W) A) w :
  abs t m → fits 32 fd → (fd <=? 2) = false →
  with_file fd f (t, w) = f (m !! fd) (t, w).
Proof.
  intros Ha Hf Hfd. rewrite with_file_ge by (done || lia). by rewrite (abs_lookup t m).
Qed.

Lemma pure_refines t m w op p :
  abs t m → fits 32 (op_fd op) → spec_pure m op = Some p →
  exec_op op (t, w) = below p (t, w).
Proof.
  intros Ha Hfd. assert (0 ≤ op_fd op) by (unfold fits in Hfd; lia).
  destruct op as [fd buf|fd buf|fd pos|fd| | | | |]; try done; intros [= <-];
    cbn [exec_op op_fd] in *;
    unfold read, write, lseek, stat, spec_read, spec_write, spec_seek, spec_stat, on_file;
    rewrite ?std_fd_leb by done.
  - destruct (fd <=? 2) eqn:E; [done|]. unfold mbind at 1, prog_mbind at 1.
    rewrite (with_file_abs t m) by done. destruct (m !! fd) as [f|]; [|done].
    destruct (can_read f); cbn [negb]; [|done]. destruct (src f); run_call.
  - destruct (decide (fd = 0)) as [->|Hn0]; [done|].
    replace (fd =? 0) with false by lia. case_decide as H2.
    + replace ((fd =? 1) || (fd =? 2)) with true by lia. run_call.
    + replace ((fd =? 1) || (fd =? 2)) with false by lia.
      replace (fd <=? 2) with false by lia. unfold mbind at 1, prog_mbind at 1.
      rewrite (with_file_abs t m) by (done || lia). destruct (m !! fd) as [f|]; [|done].
      destruct (can_write f); cbn [negb]; [|done]. destruct (src f); run_call.
  - destruct (fd <=? 2) eqn:E; [done|]. unfold mbind at 1, prog_mbind at 1.
    rewrite (with_file_abs t m) by done. destruct (m !! fd) as [f|]; [|done].
    destruct (src f); run_call.
  - destruct (fd <=? 2) eqn:E; [done|]. unfold mbind at 1, prog_mbind at 1.
    rewrite (with_file_abs t m) by done. destruct (m !! fd) as [f|]; [|done].
    destruct (src f); run_call.
Qed.

(** A call on a descriptor of a FAT file, given what the FAT service answers. *)
Section fat_calls.
Context (fd : Fd) (t : FdTable) (w w' : W) (md : Z) (h : Fd).
Context (Hge : 3 ≤ fd) (Hfits : fits 32 fd).
Context (Hlk : lookup_fd t fd = Some (mk_file md (FatFS h))).

Lemma exec_write_fat buf r :
  contains md OpenMode_WR = true → hc_fatfs_write h buf w = (Ret r, w') →
  exec_op (OpWrite fd buf) (t, w) = (Ret (RSize (map_err FatfsErr r)), (t, w')).
Proof.
  intros Hm Hc. cbn [exec_op]. unfold write. replace (fd =? 0) with false by lia.
  replace ((fd =? 1) || (fd =? 2)) with false by lia. unfold mbind at 1, prog_mbind at 1.
  rewrite with_file_ge, Hlk by done. unfold can_write. cbn [mode src]. rewrite Hm.
  cbn [negb]. run_call; by simplify_eq.
Qed.

Lemma exec_seek_fat pos r :
  hc_fatfs_seek h pos w = (Ret r, w') →
  exec_op (OpSeek fd pos) (t, w) = (Ret (RUnit (map_err FatfsErr r)), (t, w')).
Proof.
  intros Hc. cbn [exec_op]. unfold lseek. rewrite std_fd_false by done.
  unfold mbind at 1, prog_mbind at 1. rewrite with_file_ge, Hlk by done. cbn [src].
  run_call; by simplify_eq.
Qed.

Lemma exec_read_fat buf r buf' :
  contains md OpenMode_RD = true → hc_fatfs_read h buf w = (Ret (r, buf'), w') →
  exec_op (OpRead fd buf) (t, w) = (Ret (RRead (map_err FatfsErr r) buf'), (t, w')).
Proof.
  intros Hm Hc. cbn [exec_op]. unfold read. rewrite std_fd_false by done.
  unfold mbind at 1, prog_mbind at 1. rewrite with_file_ge, Hlk by done.
  unfold can_read. cbn [mode src]. rewrite Hm. cbn [negb]. run_call; by simplify_eq.
Qed.
End fat_calls.

(** Adding a file refines insertion at the lowest free descriptor. *)
Lemma add_file_abs f t m w :
  abs t m → zlen t + 3 < 2 ^ 32 →
  ∃ fd t', add_file f (t, w) = (Ret fd, (t', w)) ∧ lowest_free m fd ∧
           abs t' (<[fd := f]> m) ∧ zlen t' ≤ zlen t + 1.
Proof.
  intros Ha Hlen. destruct (wp_add_file f t w Hlen)
    as (fd & t' & Hadd & H3 & _ & Hnone & Hlow & Hlk & Hlen').
  exists fd, t'. split; [done|]. split.
  { split; [done|]. rewrite <- (abs_lookup t m) by done. split; [done|].
    intros fd' Hfd'. rewrite <- (abs_lookup t m) by done. by apply Hlow. }
  split; [|done]. intros fd'. rewrite Hlk. case_decide; subst.
  - by rewrite lookup_insert_eq.
  - rewrite lookup_insert_ne by done. by apply Ha.
Qed.

Lemma new_refines t m w op p :
  abs t m → zlen t + 3 < 2 ^ 32 → spec_new op = Some p →
  ∃ o t' w' m', exec_op op (t, w) = (o, (t', w')) ∧ fd_step m w op o m' w' ∧
                abs t' m' ∧ zlen t' ≤ zlen t + 1.
Proof.
  intros Ha Hlen Hspec. destruct (p w) as [o w'] eqn:Hp.
  destruct (stops (B := FdRes) o) as [o'|] eqn:Ho.
  { exists o', t, w', m. split; [|split; [by eapply step_new_stop|split; [done|lia]]].
    revert Hspec Hp Ho. destruct op; try done; intros [= <-]; cbn [exec_op];
      unfold open, connect, bind; run_call; intros [= <- <-] [= <-]; done. }
  destruct o as [[e|f]| | |]; try done.
  - exists (Ret (RFd (Err e))), t, w', m. split; [|split; [by eapply step_new_err|]]; [|split; [done|lia]].
    revert Hspec Hp. destruct op; try done; intros [= <-]; cbn [exec_op];
      unfold open, connect, bind; run_call; naive_solver.
  - destruct (add_file_abs f t m w' Ha Hlen) as (fd & t' & Hadd & Hlow & Ha' & Hlen').
    exists (Ret (RFd (Ok fd))), t', w', (<[fd := f]> m).
    split; [|by repeat split; try done; eapply step_new].
    revert Hspec Hp. destruct op; try done; intros [= <-]; cbn [exec_op];
      unfold open, connect, bind; run_call; intros [= <- <-]; by rewrite Hadd.
Qed.

Lemma delete_abs t t' m fd :
  abs t m → (∀ fd', lookup_fd t' fd' = if decide (fd' = fd) then None else lookup_fd t fd') →
  abs t' (delete fd m).
Proof.
  intros Ha Hlk fd'. rewrite Hlk. case_decide; subst.
  - by rewrite lookup_delete_eq.
  - rewrite lookup_delete_ne by done. apply Ha.
Qed.

Lemma close_refines t m w fd :
  abs t m → fits 32 fd →
  ∃ o t' w' m', exec_op (OpClose fd) (t, w) = (o, (t', w')) ∧
                fd_step m w (OpClose fd) o m' w' ∧ abs t' m' ∧ zlen t' = zlen t.
Proof.
  intros Ha Hfd. cbn [exec_op]. unfold close.
  rewrite std_fd_leb by (unfold fits in Hfd; lia). destruct (Z.leb_spec fd 2) as [Hle|Hgt].
  { exists (Ret (RUnit (Err (BadInputFd ">2" fd)))), t, w, m. by repeat split; try apply step_close_std. }
  destruct (remove_file_ge fd t w) as (t' & Hrm & Hlen & Hlk); [lia|done|].
  unfold mbind, prog_mbind. rewrite Hrm, (abs_lookup t m) by done.
  assert (Ha' := delete_abs t t' m fd Ha Hlk).
  destruct (m !! fd) as [f|] eqn:Hm.
  - destruct (close_handle f.(src) w) as [o w'] eqn:Hr.
    exists (outcome_map RUnit o), t', w', (delete fd m).
    split; [|by repeat split; try done; eapply step_close].
    revert Hr. unfold close_handle. destruct (src f); run_call; by intros [= <- <-].
  - exists (Ret (RUnit (Err (NoExistFd fd)))), t', w, m.
    split; [done|]. rewrite delete_id in Ha' by done.
    by repeat split; try done; apply step_close_none.
Qed.

Lemma insert_abs t m fd f :
  abs t m → 3 ≤ fd → is_Some (m !! fd) →
  abs (<[Z.to_nat (fd - 3) := Some f]> t) (<[fd := f]> m).
Proof.
  intros Ha H3 [g Hg] fd'. rewrite <- (abs_lookup t m fd), lookup_fd_ge in Hg by done.
  assert (Z.to_nat (fd - 3) < length t)%nat.
  { apply lookup_lt_is_Some_1. destruct (t !! _); [done|discriminate Hg]. }
  rewrite lookup_fd_insert by done.
  replace (Z.of_nat (Z.to_nat (fd - 3)) + 3) with fd by lia. case_decide; subst.
  - by rewrite lookup_insert_eq.
  - rewrite lookup_insert_ne by done. apply Ha.
Qed.

Lemma with_file_mut_abs {A} t m fd (f : option File → (File → prog (FdState W) ()) → prog (FdState W) A) w :
  abs t m → fits 32 fd → (fd <=? 2) = false →
  with_file_mut fd f (t, w) =
    f (m !! fd) (λ file, modify (λ s, (<[Z.to_nat (fd - 3) := Some file]> s.1, s.2))) (t, w).
Proof.
  intros Ha Hf Hfd. unfold with_file_mut.
  rewrite (bind_Ret _ _ _ (fd - 3) (t, w)) by (apply checked_fits; unfold fits in *; lia).
  rewrite (bind_Ret _ _ _ t (t, w)) by done.
  by rewrite <- (abs_lookup t m), lookup_fd_ge by (done || lia).
Qed.

Lemma accept_refines t m w fd :
  abs t m → fits 32 fd → zlen t + 3 < 2 ^ 32 →
  ∃ o t' w' m', exec_op (OpAccept fd) (t, w) = (o, (t', w')) ∧
                fd_step m w (OpAccept fd) o m' w' ∧ abs t' m' ∧ zlen t' ≤ zlen t + 1.
Proof.
  intros Ha Hfd Hlen. cbn [exec_op]. unfold accept.
  rewrite std_fd_leb by (unfold fits in Hfd; lia).
  destruct (fd <=? 2) eqn:E.
  { exists (Ret (RFd (Err (BadInputFd ">2" fd)))), t, w, m.
    split; [done|]. split; [apply step_accept_std; lia|]. split; [done|lia]. }
  unfold mbind at 1, prog_mbind at 1. unfold try_bind at 1, mbind at 1, prog_mbind at 1.
  rewrite (with_file_mut_abs t m) by done.
  destruct (m !! fd) as [f|] eqn:Hm.
  2: { exists (Ret (RFd (Err (NoExistFd fd)))), t, w, m.
       split; [done|]. split; [apply step_accept_none; (done || lia)|]. split; [done|lia]. }
  destruct (src f) as [h|h] eqn:Hsrc.
  { exists (Ret (RFd (Err (UndefinedOperation "accept" fd "Net")))), t, w, m.
    split; [done|]. split; [eapply step_accept_file; (done || lia)|]. split; [done|lia]. }
  destruct (hc_smol_accept h w) as [o w'] eqn:Hacc. destruct (stops (B := FdRes) o) as [o'|] eqn:Ho.
  { exists o', t, w', m. split; [destruct o; try done; injection Ho as <-; run_call; by simplify_eq|].
    split; [by eapply step_accept_stop; try done; lia|]. split; [done|lia]. }
  destruct o as [[h'|e]| | |]; try done.
  - assert (Ha' : abs (<[Z.to_nat (fd - 3) := Some (mk_file (mode f) (Net h'))]> t)
                      (<[fd := mk_file (mode f) (Net h')]> m))
      by (apply insert_abs; [done|lia|by rewrite Hm]).
    destruct (add_file_abs (mk_file OpenMode_RDWR (Net h)) _ _ w' Ha')
      as (fd' & t' & Hadd & Hlow & Ha'' & Hlen').
    { unfold zlen in *. by rewrite length_insert. }
    eexists (Ret (RFd (Ok fd'))), t', w', _. split.
    { revert Hadd. run_call. injection Hacc as -> ->. cbn [fst snd]. by intros ->. }
    split; [|split; [exact Ha''|unfold zlen in *; rewrite length_insert in Hlen'; lia]].
    eapply step_accept; try done; [lia|].
    destruct Hlow as (H3 & Hn & Hl). split; [done|].
    destruct (decide (fd' = fd)) as [->|Hne]; [by rewrite lookup_insert_eq in Hn|].
    rewrite lookup_insert_ne in Hn by done. split; [done|].
    intros fd'' Hfd''. specialize (Hl fd'' Hfd'').
    destruct (decide (fd'' = fd)) as [->|]; [by rewrite Hm|].
    by rewrite lookup_insert_ne in Hl.
  - exists (Ret (RFd (Err (SocketErr e)))), t, w', m. split.
    { run_call; by simplify_eq. }
    split; [by eapply step_accept_err; try done; lia|]. split; [done|lia].
Qed.

Lemma op_refines t m w op :
  abs t m → fits 32 (op_fd op) → zlen t + 3 < 2 ^ 32 →
  ∃ o t' w' m', exec_op op (t, w) = (o, (t', w')) ∧ fd_step m w op o m' w' ∧
                abs t' m' ∧ zlen t' ≤ zlen t + 1.
Proof.
  intros Ha Hfd Hlen.
  destruct (spec_pure m op) as [p|] eqn:Hpure.
  { destruct (p w) as [o w'] eqn:Hp. exists o, t, w', m.
    rewrite (pure_refines t m w op p) by done. unfold below, on. cbn [fst snd]. rewrite Hp.
    split; [done|]. split; [by eapply step_pure|]. split; [done|lia]. }
  destruct (spec_new op) as [p|] eqn:Hnew; [by apply (new_refines t m w op p)|].
  destruct op as [| | | | |fd| | |fd]; try done; [|by apply accept_refines].
  destruct (close_refines t m w fd Ha Hfd) as (o & t' & w' & m' & ? & ? & ? & ?).
  exists o, t', w', m'. repeat split; try done; lia.
Qed.

(** A sequence of calls. *)
Fixpoint exec_ops (ops : list FdOp) : prog (FdState W) (list FdRes) :=
  match ops with
  | [] => mret []
  | op :: ops => r ← exec_op op; rs ← exec_ops ops; mret (r :: rs)
  end.

Lemma exec_ops_cons op ops s : exec_ops (op :: ops) s =
  match exec_op op s with
  | (Ret r, s') => let '(o, s'') := exec_ops ops s' in (outcome_map (cons r) o, s'')
  | (o, s') => (outcome_map (λ _, []) o, s')
  end.
Proof.
  cbn [exec_ops]. unfold mbind, prog_mbind. destruct (exec_op op s) as [[r| | |] s']; try done.
  by destruct (exec_ops ops s') as [[] ?].
Qed.

Lemma ops_refine ops : ∀ t m w,
  abs t m → Forall (λ op, fits 32 (op_fd op)) ops →
  zlen t + zlen ops + 3 < 2 ^ 32 →
  ∃ o t' w' m', exec_ops ops (t, w) = (o, (t', w')) ∧ fd_runs m w ops o m' w' ∧ abs t' m'.
Proof.
  induction ops as [|op ops IH]; intros t m w Ha Hops Hlen.
  { exists (Ret []), t, w, m. repeat split; [constructor|done]. }
  inversion Hops as [|? ? Hop Hops']; subst.
  assert (zlen (op :: ops) = zlen ops + 1) as Hc by (unfold zlen; cbn [length]; lia).
  pose proof (zlen_nonneg ops). pose proof (zlen_nonneg t).
  destruct (op_refines t m w op Ha Hop) as (o & t' & w' & m' & He & Hs & Ha' & Hl); [lia|].
  rewrite exec_ops_cons, He. destruct (stops (B := list FdRes) o) as [o'|] eqn:Ho.
  { exists o', t', w', m'. split; [by destruct o; try done; injection Ho as <-|].
    split; [by eapply runs_stop|done]. }
  destruct o as [r| | |]; try done.
  destruct (IH t' m' w' Ha' Hops') as (o' & t'' & w'' & m'' & He' & Hs' & Ha''); [lia|].
  rewrite He'. exists (outcome_map (cons r) o'), t'', w'', m''.
  split; [done|]. split; [by econstructor|done].
Qed.
End spec.

Lemma abs_empty : abs [] ∅.
Proof. intros fd. rewrite lookup_empty. unfold lookup_fd. by case_match. Qed.

(** ** A backend that answers every call, the concrete instance *)
Module NullBackend.
#[global] Instance null_backend : FdBackend () := {
  hc_fatfs_open _ _ := mret (Ok 7);
  hc_fatfs_read _ buf := mret (Ok (zlen buf), buf);
  hc_fatfs_write _ buf := mret (Ok (zlen buf));
  hc_fatfs_seek _ _ := mret (Ok ());
  hc_fatfs_stat _ := mret (Err Unknown);
  hc_fatfs_close _ := mret (Ok ());
  hc_smol_connect _ := mret (Err NoLocalEndpoint);
  hc_smol_bind _ := mret (Ok 1);
  hc_smol_accept h := mret (Ok (h + 1));
  hc_send _ _ := mret (Ok ());
  hc_recv _ buf := deadlock;
  hc_smol_close _ := mret (Ok ());
  hc_stdout buf := mret (zlen buf)
}.

End NullBackend.

(** C1: the descriptor table refines its specification: from the empty table, over
    any service below, whatever its calls do, any sequence of read, write, lseek,
    stat, open, close, connect, bind and accept calls on any descriptors has the
    outcome of a finite map from descriptors to files in which a new file gets the
    lowest free descriptor from 3 on: the same results as long as calls return,
    and the panic or the endless wait of the service at the first call of it that
    does not return, with nothing of the table's own going wrong (no arithmetic on
    a descriptor panics, 0, 1 and 2 included).  Either way the table represents the
    map at the end; a descriptor whose close fails or panics below is gone. *)
Theorem fdtab_refines : ∀ W `{FdBackend W} ops w,
  Forall (λ op, fits 32 (op_fd op)) ops → zlen ops + 3 < 2 ^ 32 →
  ∃ o t' w' m', exec_ops ops ([], w) = (o, (t', w')) ∧ fd_runs ∅ w ops o m' w' ∧ abs t' m'.
Proof. intros W ? ops w Hops Hlen. apply ops_refine; [apply abs_empty|done|done]. Qed.

(** Calls that return, and a [recv] that blocks for ever. *)
Lemma fdtab_refines_witness :
  (∃ t' m', exec_ops [OpOpen "a" 0 3; OpAccept 3; OpClose 3; OpRead 3 [0]; OpStat 1] ([], ())
    = (Ret [RFd (Ok 3); RFd (Err (UndefinedOperation "accept" 3 "Net")); RUnit (Ok ());
            RRead (Err (NoExistFd 3)) [0]; RStat (Err (BadInputFd ">2" 1))], (t', ())) ∧ abs t' m') ∧
  ∃ t' m', exec_ops [OpBind (mk_addr 0 80); OpRead 3 [0]; OpClose 3] ([], ()) = (Deadlock, (t', ())) ∧ abs t' m'.
Proof.
  split.
  - destruct (fdtab_refines () [OpOpen "a" 0 3; OpAccept 3; OpClose 3; OpRead 3 [0]; OpStat 1] ())
      as (o & t' & [] & m' & He & _ & Ha);
      [by repeat (apply Forall_cons_2; [by vm_compute|]); apply Forall_nil|by vm_compute|].
    exists t', m'. split; [|exact Ha]. rewrite He. f_equal. revert He. vm_compute. by intros [= <- _].
  - destruct (fdtab_refines () [OpBind (mk_addr 0 80); OpRead 3 [0]; OpClose 3] ())
      as (o & t' & [] & m' & He & _ & Ha);
      [by repeat (apply Forall_cons_2; [by vm_compute|]); apply Forall_nil|by vm_compute|].
    exists t', m'. split; [|exact Ha]. rewrite He. f_equal. revert He. vm_compute. by intros [= <- _].
Defined.

(** [accept] keeps the listener and hands out the connection: when the stack
    accepts, the listening descriptor keeps its mode and now holds the stack's
    new handle, the returned descriptor is a different, previously free one,
    readable and writable, and holds the handle the listener had; no other
    descriptor changes. *)
Theorem accept_swaps_handles : ∀ W `{FdBackend W} t w fd f h h' w',
  3 ≤ fd → fits 32 fd → zlen t + 3 < 2 ^ 32 →
  lookup_fd t fd = Some f → f.(src) = Net h → hc_smol_accept h w = (Ret (Ok h'), w') →
  ∃ fd' t', accept fd (t, w) = (Ret (Ok fd'), (t', w')) ∧ fd' ≠ fd ∧
    3 ≤ fd' ≤ zlen t + 3 ∧ lookup_fd t fd' = None ∧
    lookup_fd t' fd = Some (mk_file f.(mode) (Net h')) ∧
    lookup_fd t' fd' = Some (mk_file OpenMode_RDWR (Net h)) ∧
    ∀ g, g ≠ fd → g ≠ fd' → lookup_fd t' g = lookup_fd t g.
Proof.
  intros W ? t w fd f h h' w' H3 Hfd Hlen Hl Hsrc Hacc. unfold accept.
  rewrite std_fd_false by done. unfold try_bind, mbind, prog_mbind, with_file_mut.
  unfold mbind, prog_mbind. rewrite checked_fits by (unfold fits in *; lia).
  cbn [gets fst]. rewrite <- lookup_fd_ge, Hl, Hsrc by done.
  unfold below, on, fmap, prog_fmap, mbind, prog_mbind. cbn [fst snd]. rewrite Hacc.
  cbn [mret prog_mret lift_sock map_err modify fst snd].
  set (t1 := <[_ := _]> t).
  assert (Hin : (Z.to_nat (fd - 3) < length t)%nat).
  { rewrite lookup_fd_ge in Hl by done. apply lookup_lt_is_Some_1.
    destruct (t !! _); [done|discriminate Hl]. }
  destruct (wp_add_file (mk_file OpenMode_RDWR (Net h)) t1 w')
    as (fd' & t' & Hadd & H3' & Hle & Hn & _ & Hlk & _).
  { unfold t1, zlen in *. by rewrite length_insert. }
  assert (zlen t1 = zlen t) as Hl1 by (unfold t1, zlen; by rewrite length_insert).
  assert (Hlk1 : ∀ g, lookup_fd t1 g = if decide (g = fd) then Some (mk_file (mode f) (Net h'))
                                      else lookup_fd t g).
  { intros g. unfold t1. rewrite lookup_fd_insert by done.
    by replace (Z.of_nat (Z.to_nat (fd - 3)) + 3) with fd by lia. }
  rewrite Hlk1 in Hn. case_decide as Hne; [done|].
  exists fd', t'. split; [by rewrite Hadd|]. split; [done|]. split; [lia|]. split; [done|].
  split; [|split].
  - rewrite Hlk, Hlk1. by rewrite decide_False, decide_True by done.
  - by rewrite Hlk, decide_True.
  - intros g Hg Hg'. by rewrite Hlk, Hlk1, !decide_False by done.
Qed.

Lemma accept_swaps_handles_witness :
  ∃ fd' t', accept 3 ([Some (mk_file 1 (Net 4))], ()) = (Ret (Ok fd'), (t', ())) ∧
            lookup_fd t' 3 = Some (mk_file 1 (Net 5)).
Proof.
  destruct (accept_swaps_handles () [Some (mk_file 1 (Net 4))] () 3 (mk_file 1 (Net 4)) 4 5 ())
    as (fd' & t' & He & _ & _ & _ & Hl & _); [by vm_compute..|].
  exists fd', t'. exact (conj He Hl).
Defined.
