(* ===== verification/Fatfs.v ===== *)
(** * The FAT file-system service (common_service/fatfs)

    [FTABLE] maps handles to open files of the [fatfs] crate, which is a
    parameter ([FatCrate], with the laws of [std::io] in [FatCrateSpec]).  The
    table holds addresses of boxed files in the source; each box is owned by one
    slot, so the model keeps the file itself in the slot.  The table is behind a
    [std::sync::Mutex], which a panic inside poisons. *)
From S2P Require Import Prelude Bytes Hostcall Fdtab FdSpec.

(** The [fatfs] crate over the image: [FS] is the file system and [F] an open
    file; file operations may change both. *)
Class FatCrate (FS F : Type) : Type := {
  create_file : string → prog FS (option F);
  open_file : string → prog FS (option F);
  f_read : list byte → prog (FS * F) (result Z string * list byte);
  f_write_all : list byte → prog (FS * F) (result () string);
  f_flush : prog (FS * F) (result () string);
  f_seek : Z → prog (FS * F) (result () string);
  f_stream_len : prog (FS * F) (result Z string)
}.

(** What the crate documents.  [f_read] may stop early, at a cluster boundary
    for example, but makes progress before the end of the file. *)
Class FatCrateSpec (FS F : Type) `{FatCrate FS F} : Type := {
  content : FS → F → list byte;
  fpos : F → nat;
  f_read_spec : ∀ fs f buf, (fpos f ≤ length (content fs f))%nat →
    ∃ n fs' f', f_read buf (fs, f) =
        (Ret (Ok (Z.of_nat n), sub (content fs f) (fpos f) n ++ drop n buf), (fs', f')) ∧
      (n ≤ length buf)%nat ∧ (fpos f + n ≤ length (content fs f))%nat ∧
      (n = O → buf = [] ∨ fpos f = length (content fs f)) ∧
      content fs' f' = content fs f ∧ fpos f' = (fpos f + n)%nat;
  f_write_all_spec : ∀ fs f buf fs' f',
    f_write_all buf (fs, f) = (Ret (Ok ()), (fs', f')) →
    (fpos f ≤ length (content fs f))%nat →
    content fs' f' = take (fpos f) (content fs f) ++ buf ++
                     drop (fpos f + length buf) (content fs f) ∧
    fpos f' = (fpos f + length buf)%nat;
  f_flush_spec : ∀ fs f r fs' f', f_flush (fs, f) = (Ret r, (fs', f')) →
    content fs' f' = content fs f ∧ fpos f' = fpos f;
  f_seek_spec : ∀ fs f p, 0 ≤ p ≤ zlen (content fs f) →
    ∃ fs' f', f_seek p (fs, f) = (Ret (Ok ()), (fs', f')) ∧
      content fs' f' = content fs f ∧ fpos f' = Z.to_nat p
}.

(** [FTABLE] with its poison flag, and [FS_REF_ADDR]. *)
Record FatfsState (FS F : Type) : Type := mk_fatfs {
  table : list (option F);
  poisoned : bool;
  fs_ref : option FS
}.
Arguments mk_fatfs {FS F}.
Arguments table {FS F}.
Arguments poisoned {FS F}.
Arguments fs_ref {FS F}.

Definition default_fs_image : string := "fs_images/fatfs.img".

(** The image a path is built from: the isolation's, or the default one. *)
Definition get_fs_image_path (fs_image : option string) : string :=
  match fs_image with Some s => s | None => default_fs_image end.

(** Opening the image and reading its boot sector; [None] when either fails. *)
Class HostImage (FS : Type) : Type := open_image : option FS.

Section fatfs.
Context {FS F : Type} `{FatCrate FS F} `{HostImage FS}.
Implicit Types (s : FatfsState FS F).
Local Abbreviation M := (prog (FatfsState FS F)).

Definition has_fs_ref : M bool := gets (λ s, bool_decide (is_Some s.(fs_ref))).

(** [get_or_init]: a panic of the initialiser leaves the cell empty. *)
Definition get_fs_ref : M FS :=
  r ← gets fs_ref;
  match r with
  | Some fs => mret fs
  | None =>
      fs ← unwrap open_image;
      modify (λ s, mk_fatfs s.(table) s.(poisoned) (Some fs));;
      mret fs
  end.

Definition get_file_mut (fd : Fd) (s : FatfsState FS F) : option F :=
  mjoin (s.(table) !! Z.to_nat fd).

Definition add_file (f : F) : M Z :=
  modify (λ s, mk_fatfs (s.(table) ++ [Some f]) s.(poisoned) s.(fs_ref));;
  gets (λ s, zlen s.(table) - 1).

(** Dropping a [File] of the crate flushes it and logs an error. *)
Definition drop_file (f : F) : M () := λ s,
  match s.(fs_ref) with
  | None => (Panic, s)
  | Some fs =>
      let '(o, (fs', _)) := f_flush (fs, f) in
      (outcome_map (λ _, ()) o, mk_fatfs s.(table) s.(poisoned) (Some fs'))
  end.

Definition remove_file (handle : Z) : M (result () FatfsError) :=
  t ← gets table;
  match t !! Z.to_nat handle with
  | Some (Some f) =>
      modify (λ s, mk_fatfs (<[Z.to_nat handle := None]> s.(table)) s.(poisoned) s.(fs_ref));;
      drop_file f;;
      mret (Ok ())
  | Some None => mret (Err (FatfsBadInputFd (wrap 32 handle)))
  | None => mret (Err (FatfsBadInputFd (wrap 32 handle)))
  end.

(** [FTABLE.lock()]: a poisoned lock is an error, and a panic under the guard
    poisons it. *)
Definition locked {A} (fail : FatfsError → A) (m : M A) : M A := λ s,
  if s.(poisoned)
  then (Ret (fail (AcquireLockErr "poisoned lock: another task failed inside")), s)
  else match m s with
       | (Panic, s') => (Panic, mk_fatfs s'.(table) true s'.(fs_ref))
       | r => r
       end.

(** Run a file operation on the file in slot [fd]; a file in the table was
    opened in the file system, so [fs_ref] is set. *)
Definition on_slot {A} (fd : Fd) (f : F) (m : prog (FS * F) A) : M A := λ s,
  match s.(fs_ref) with
  | None => (Panic, s)
  | Some fs =>
      let '(o, (fs', f')) := m (fs, f) in
      (o, mk_fatfs (<[Z.to_nat fd := Some f']> s.(table)) s.(poisoned) (Some fs'))
  end.

(** The [while !buf.is_empty()] loop; [buf] is what is left of the caller's
    buffer, and the buffer is returned as it is at the end. *)
Fixpoint read_loop (fuel : nat) (buf : list byte) (read_size : Z) :
    prog (FS * F) (result Z FatfsError * list byte) :=
  match buf with
  | [] => mret (Ok read_size, [])
  | _ =>
      match fuel with
      | O => out_of_fuel
      | S fuel =>
          '(r, buf) ← f_read buf;
          match r with
          | Ok size =>
              if size =? 0 then mret (Ok read_size, buf)
              else
                read_size ← checked 64 (read_size + size);
                rest ← unwrap (slice buf size (zlen buf - size));
                '(r, rest) ← read_loop fuel rest read_size;
                mret (r, take (Z.to_nat size) buf ++ rest)
          | Err e => mret (Err (HostIOErr e), buf)
          end
      end
  end.

Definition fatfs_read (fd : Fd) (buf : list byte) : M (result Z FatfsError * list byte) :=
  locked (λ e, (Err e, buf)) (
    file ← gets (get_file_mut fd);
    match file with
    | None => mret (Err (FatfsBadInputFd fd), buf)
    | Some f => on_slot fd f (read_loop (S (length buf)) buf 0)
    end).

Definition fatfs_seek (fd : Fd) (pos : Z) : M (result () FatfsError) :=
  locked Err (
    file ← gets (get_file_mut fd);
    match file with
    | None => mret (Err (FatfsBadInputFd fd))
    | Some f => r ← on_slot fd f (f_seek pos); mret (map_err HostIOErr r)
    end).

Definition fatfs_stat (fd : Fd) : M (result Stat FatfsError) :=
  locked Err (
    file ← gets (get_file_mut fd);
    match file with
    | None => mret (Err (FatfsBadInputFd fd))
    | Some f =>
        r ← on_slot fd f f_stream_len;
        mret (match r with
              | Ok st_size => Ok {|
                  st_dev := 0; st_ino := 0; st_nlink := 0; st_mode := 0; st_uid := 0;
                  st_gid := 0; pad0 := 0; st_rdev := 0; Hostcall.st_size := st_size;
                  st_blksize := 0; st_blocks := 0;
                  st_atime := mk_timespec 0 0; st_mtime := mk_timespec 0 0;
                  st_ctime := mk_timespec 0 0; unused := [0; 0; 0] |}
              | Err e => Err (HostIOErr e)
              end)
    end).

(** Run an operation of the crate on the file system itself. *)
Definition on_fs {A} (m : prog FS A) : M A := λ s,
  match s.(fs_ref) with
  | None => (Panic, s)
  | Some fs => let '(o, fs') := m fs in (o, mk_fatfs s.(table) s.(poisoned) (Some fs'))
  end.

Definition fatfs_open (p : string) (flags : Z) : M (result Fd FatfsError) :=
  locked Err (
    get_fs_ref;;
    file ← on_fs (if contains flags O_CREAT then create_file p else open_file p);
    match file with
    | None => mret (Err Unknown)
    | Some f => fd ← add_file f; mret (Ok (wrap 32 fd))
    end).

(** The closure's result is dropped ([let _ = ...]), its error included. *)
Definition fatfs_write (fd : Fd) (buf : list byte) : M (result Z FatfsError) :=
  locked Err (
    file ← gets (get_file_mut fd);
    match file with
    | None => mret (Err (FatfsBadInputFd fd))
    | Some f =>
        _ ← on_slot fd f (f_write_all buf ;;? f_flush);
        mret (Ok (zlen buf))
    end).

Definition fatfs_close (fd : Fd) : M (result () FatfsError) := locked Err (remove_file fd).
End fatfs.
Arguments FatfsState FS F : clear implicits.

(** ** Lemmas *)
Section fatfs_spec.
Context {FS F : Type} {FC : FatCrate FS F} {FCS : FatCrateSpec FS F}.
Implicit Types (s : FatfsState FS F) (f : F) (fs : FS).

Lemma read_loop_cons fuel buf r0 : buf ≠ [] →
  read_loop (S fuel) buf r0 =
    ('(r, buf) ← f_read buf;
     match r with
     | Ok size =>
         if size =? 0 then mret (Ok r0, buf)
         else
           read_size ← checked 64 (r0 + size);
           rest ← unwrap (slice buf size (zlen buf - size));
           '(r, rest) ← read_loop fuel rest read_size;
           mret (r, take (Z.to_nat size) buf ++ rest)
     | Err e => mret (Err (HostIOErr e), buf)
     end).
Proof. by destruct buf. Qed.

Lemma read_loop_spec fuel : ∀ buf fs f r0,
  (length buf < fuel)%nat → (fpos f ≤ length (content fs f))%nat →
  0 ≤ r0 → r0 + zlen buf < 2 ^ 64 →
  let n := Nat.min (length buf) (length (content fs f) - fpos f) in
  ∃ fs' f', read_loop fuel buf r0 (fs, f) =
      (Ret (Ok (r0 + Z.of_nat n), sub (content fs f) (fpos f) n ++ drop n buf), (fs', f')) ∧
    content fs' f' = content fs f ∧ fpos f' = (fpos f + n)%nat.
Proof.
  induction fuel as [|fuel IH]; [lia|]. intros buf fs f r0 Hfuel Hpos H0 Hb n.
  destruct (decide (buf = [])) as [->|Hne].
  { exists fs, f. unfold n. cbn [length Nat.min Z.of_nat].
    rewrite Z.add_0_r, Nat.add_0_r. done. }
  destruct (f_read_spec fs f buf Hpos) as (k & fs1 & f1 & Hr & Hk & Hk' & Hz & Hc1 & Hp1).
  assert (Hsub : length (sub (content fs f) (fpos f) k) = k) by (apply length_sub; lia).
  set (buf1 := sub (content fs f) (fpos f) k ++ drop k buf) in *.
  assert (Hb1 : length buf1 = length buf)
    by (unfold buf1; rewrite length_app, length_drop, Hsub; lia).
  rewrite read_loop_cons by done. rewrite (bind_Ret _ _ _ _ _ Hr).
  destruct (Z.eqb_spec (Z.of_nat k) 0) as [Hk0|Hk0].
  { destruct (Hz ltac:(lia)) as [?|Heof]; [congruence|].
    exists fs1, f1. unfold n. replace (length (content fs f) - fpos f)%nat with 0%nat by lia.
    rewrite Nat.min_0_r. assert (k = O) as -> by lia. unfold buf1.
    replace (r0 + Z.of_nat 0) with r0 by lia. done. }
  unfold zlen in *.
  rewrite (bind_Ret _ _ _ (r0 + Z.of_nat k) (fs1, f1)) by (apply checked_fits; unfold fits; lia).
  assert (Hslice : slice buf1 (Z.of_nat k) (Z.of_nat (length buf1) - Z.of_nat k) =
                   Some (drop k buf)).
  { rewrite Hb1, slice_ok by (unfold zlen; rewrite ?Hb1; lia). f_equal.
    unfold sub at 1. unfold buf1. rewrite Nat2Z.id, drop_app_length' by done.
    apply take_ge. rewrite length_drop. lia. }
  rewrite Hslice. cbn [unwrap].
  rewrite (bind_Ret _ _ _ (drop k buf) (fs1, f1)) by done.
  destruct (IH (drop k buf) fs1 f1 (r0 + Z.of_nat k)) as (fs2 & f2 & Hrec & Hc2 & Hp2);
    rewrite ?length_drop, ?Hc1, ?Hp1 in *; try lia.
  rewrite (bind_Ret _ _ _ _ _ Hrec). exists fs2, f2.
  set (n2 := Nat.min (length buf - k) (length (content fs f) - (fpos f + k))) in *.
  assert (Hn : n = (k + n2)%nat) by lia. split; [|split; [by rewrite Hc2|lia]].
  rewrite Hn, Nat2Z.inj_add, Z.add_assoc, sub_app, <- drop_drop, <- app_assoc.
  unfold buf1. rewrite Nat2Z.id, take_app_length' by done. done.
Qed.

(** The state after one file operation on an unpoisoned table. *)
Lemma on_slot_Ret {A} s fd f fs (m : prog (FS * F) A) a fs' f' :
  s.(fs_ref) = Some fs → m (fs, f) = (Ret a, (fs', f')) →
  on_slot fd f m s = (Ret a, mk_fatfs (<[Z.to_nat fd := Some f']> s.(table)) s.(poisoned) (Some fs')).
Proof. intros Hfs Hm. unfold on_slot. by rewrite Hfs, Hm. Qed.

Lemma locked_Ret {A} s (fail : FatfsError → A) m a s' :
  s.(poisoned) = false → m s = (Ret a, s') → locked fail m s = (Ret a, s').
Proof. intros Hp Hm. unfold locked. by rewrite Hp, Hm. Qed.

Lemma get_file_mut_bind {A} s fd f (k : option F → prog (FatfsState FS F) A) :
  get_file_mut fd s = Some f → (gets (get_file_mut fd) ≫= k) s = k (Some f) s.
Proof. intros Hf. unfold mbind, prog_mbind, gets. by rewrite Hf. Qed.

(** A slot that holds an open file of a mounted file system. *)
Definition open_slot s (fd : Fd) (fs : FS) (f : F) : Prop :=
  s.(poisoned) = false ∧ s.(fs_ref) = Some fs ∧ s.(table) !! Z.to_nat fd = Some (Some f).

Definition set_slot s (fd : Fd) (fs : FS) (f : F) : FatfsState FS F :=
  mk_fatfs (<[Z.to_nat fd := Some f]> s.(table)) s.(poisoned) (Some fs).

Lemma open_slot_set s fd fs f fs' f' :
  open_slot s fd fs f → open_slot (set_slot s fd fs' f') fd fs' f'.
Proof.
  intros (Hp & _ & Ht). split; [done|]. split; [done|]. cbn.
  apply list_lookup_insert_eq. by eapply lookup_lt_Some.
Qed.

Lemma open_slot_get s fd fs f : open_slot s fd fs f → get_file_mut fd s = Some f.
Proof. intros (_ & _ & Ht). unfold get_file_mut. by rewrite Ht. Qed.

Lemma fatfs_read_open s fd fs f buf :
  open_slot s fd fs f → (fpos f ≤ length (content fs f))%nat → zlen buf < 2 ^ 64 →
  let n := Nat.min (length buf) (length (content fs f) - fpos f) in
  ∃ fs' f', fatfs_read fd buf s =
      (Ret (Ok (Z.of_nat n), sub (content fs f) (fpos f) n ++ drop n buf),
       set_slot s fd fs' f') ∧
    content fs' f' = content fs f ∧ fpos f' = (fpos f + n)%nat.
Proof.
  intros Ho Hpos Hb n.
  destruct (read_loop_spec (S (length buf)) buf fs f 0) as (fs' & f' & Hr & Hc & Hp'); [lia..|].
  exists fs', f'. split; [|done]. unfold fatfs_read. destruct Ho as (Hp & Hfs & Ht).
  apply locked_Ret; [done|].
  rewrite (get_file_mut_bind s fd f) by (unfold get_file_mut; by rewrite Ht).
  by apply on_slot_Ret with (fs := fs).
Qed.

Lemma fatfs_seek_open s fd fs f p :
  open_slot s fd fs f → 0 ≤ p ≤ zlen (content fs f) →
  ∃ fs' f', fatfs_seek fd p s = (Ret (Ok ()), set_slot s fd fs' f') ∧
    content fs' f' = content fs f ∧ fpos f' = Z.to_nat p.
Proof.
  intros Ho Hp. destruct (f_seek_spec fs f p Hp) as (fs' & f' & Hs & Hc & Hf).
  exists fs', f'. split; [|done]. unfold fatfs_seek. apply locked_Ret; [apply Ho|].
  rewrite (get_file_mut_bind s fd f) by (by eapply open_slot_get).
  rewrite (bind_Ret _ _ _ _ _ (on_slot_Ret s fd f fs _ _ _ _ (proj1 (proj2 Ho)) Hs)). done.
Qed.

(** Whatever the crate reports, [fatfs_write] reports the whole buffer. *)
Lemma fatfs_write_open s fd fs f buf r fs' f' :
  open_slot s fd fs f → (f_write_all buf ;;? f_flush) (fs, f) = (Ret r, (fs', f')) →
  fatfs_write fd buf s = (Ret (Ok (zlen buf)), set_slot s fd fs' f').
Proof.
  intros Ho Hw. unfold fatfs_write. apply locked_Ret; [apply Ho|].
  rewrite (get_file_mut_bind s fd f) by (by eapply open_slot_get).
  by rewrite (bind_Ret _ _ _ _ _ (on_slot_Ret s fd f fs _ _ _ _ (proj1 (proj2 Ho)) Hw)).
Qed.

(** A write the crate accepts. *)
Lemma write_flush_content fs f buf fs' f' :
  (f_write_all buf ;;? f_flush) (fs, f) = (Ret (Ok ()), (fs', f')) →
  (fpos f ≤ length (content fs f))%nat →
  content fs' f' = take (fpos f) (content fs f) ++ buf ++
                   drop (fpos f + length buf) (content fs f) ∧
  fpos f' = (fpos f + length buf)%nat.
Proof.
  unfold try_bind. intros Hw Hpos. apply bind_Ret_inv in Hw as ([[]|e] & [fs1 f1] & Hw & Hfl).
  - destruct (f_write_all_spec _ _ _ _ _ Hw Hpos) as [Hc Hp].
    destruct (f_flush_spec _ _ _ _ _ Hfl) as [-> ->]. done.
  - discriminate Hfl.
Qed.
End fatfs_spec.
