(* ===== verification/FileStack.v ===== *)
(** * Descriptors over the FAT service

    fdtab with the fatfs service below it: the two services composed as the
    isolation loads them.  The theorems are about whole calls of the upper
    service with the lower one's code running underneath. *)
From S2P Require Import Prelude Bytes Hostcall Fdtab FdSpec Fatfs.

(** The host calls of the socket and stdio services that fdtab makes. *)
Class SockService (N : Type) : Type := {
  ss_connect : SocketAddrV4 → prog N (result SockFd SmoltcpError);
  ss_bind : SocketAddrV4 → prog N (result SockFd SmoltcpError);
  ss_accept : SockFd → prog N (result SockFd SmoltcpError);
  ss_send : SockFd → list byte → prog N (result () SmoltcpError);
  ss_recv : SockFd → list byte → prog N (result Z SmoltcpError * list byte);
  ss_close : SockFd → prog N (result () SmoltcpError);
  ss_stdout : list byte → prog N Z
}.

Section stack.
Context {FS F N : Type} {FC : FatCrate FS F} {HI : HostImage FS} {SS : SockService N}.
Implicit Types (s : FatfsState FS F) (m : gmap Fd File).

Definition LowerState : Type := FatfsState FS F * N.
Definition in_fat {A} (m : prog (FatfsState FS F) A) : prog LowerState A :=
  on fst (λ s w, (s, w.2)) m.
Definition in_sock {A} (m : prog N A) : prog LowerState A := on snd (λ n w, (w.1, n)) m.

#[global] Instance stack_backend : FdBackend LowerState := {
  hc_fatfs_open p flags := in_fat (fatfs_open p flags);
  hc_fatfs_read fd buf := in_fat (fatfs_read fd buf);
  hc_fatfs_write fd buf := in_fat (fatfs_write fd buf);
  hc_fatfs_seek fd pos := in_fat (fatfs_seek fd pos);
  hc_fatfs_stat fd := in_fat (fatfs_stat fd);
  hc_fatfs_close fd := in_fat (fatfs_close fd);
  hc_smol_connect a := in_sock (ss_connect a);
  hc_smol_bind a := in_sock (ss_bind a);
  hc_smol_accept h := in_sock (ss_accept h);
  hc_send h buf := in_sock (ss_send h buf);
  hc_recv h buf := in_sock (ss_recv h buf);
  hc_smol_close h := in_sock (ss_close h);
  hc_stdout buf := in_sock (ss_stdout buf)
}.

(** No two descriptors share an open file, and the file of every descriptor is
    open in the service below. *)
Record stack_inv (m : gmap Fd File) (s : FatfsState FS F) : Prop := {
  inv_inj : ∀ fd1 fd2 f1 f2 h, m !! fd1 = Some f1 → m !! fd2 = Some f2 →
    f1.(src) = FatFS h → f2.(src) = FatFS h → fd1 = fd2;
  inv_live : ∀ fd f h, m !! fd = Some f → f.(src) = FatFS h →
    0 ≤ h ∧ is_Some (get_file_mut h s)
}.

(** [s'] has every open file of [s], and at most one more slot. *)
Definition extends (s s' : FatfsState FS F) : Prop :=
  (∀ h, 0 ≤ h → is_Some (get_file_mut h s) → is_Some (get_file_mut h s')) ∧
  zlen s'.(table) ≤ zlen s.(table) + 1.

(** ** Lemmas *)

Lemma extends_refl s : extends s s.
Proof. split; [done|lia]. Qed.
#[local] Hint Resolve extends_refl : core.

Lemma get_file_insert s (h h' : Z) of_ p r : 0 ≤ h → 0 ≤ h' →
  get_file_mut h (mk_fatfs (<[Z.to_nat h' := of_]> s.(table)) p r : FatfsState FS F) =
  if decide (h = h' ∧ is_Some (s.(table) !! Z.to_nat h')) then of_ else get_file_mut h s.
Proof.
  intros Hh Hh'. unfold get_file_mut; cbn [table]. case_decide as Hd.
  - destruct Hd as [-> [x Hx]]. rewrite list_lookup_insert_eq; [done|].
    by eapply lookup_lt_Some.
  - destruct (decide (h = h')) as [->|].
    + rewrite list_insert_ge; [done|]. apply lookup_ge_None_1, eq_None_not_Some.
      naive_solver.
    + rewrite list_lookup_insert_ne; [done|lia].
Qed.

Lemma on_slot_extends {A} s h f (p : prog (FS * F) A) o s' : 0 ≤ h →
  on_slot h f p s = (o, s') → extends s s'.
Proof.
  intros Hh. unfold on_slot. destruct (fs_ref s) as [fs|]; [|by intros [= <- <-]].
  destruct (p (fs, f)) as [o' [fs' f']]. intros [= <- <-]. split.
  - intros h' Hh' Hs. rewrite get_file_insert by done. by case_decide.
  - cbn [table]. unfold zlen. rewrite length_insert. lia.
Qed.

Lemma extends_poison s s' r p : extends s s' →
  extends s (mk_fatfs s'.(table) p r).
Proof. intros [Hs Hl]. split; [exact Hs|exact Hl]. Qed.

Lemma locked_extends {A} (fail : FatfsError → A) p s o s' :
  (∀ o s', p s = (o, s') → extends s s') → locked fail p s = (o, s') → extends s s'.
Proof.
  intros Hp. unfold locked. destruct (poisoned s); [by intros [= <- <-]|].
  destruct (p s) as [[] s1] eqn:E; intros [= <- <-];
    (try apply extends_poison); by eapply Hp.
Qed.

(** The calls on an open file keep every file open. *)
Lemma handle_call_extends {A B} h (p : F → prog (FS * F) B) (none : A) (k : B → A)
    (fail : FatfsError → A) s o s' : 0 ≤ h →
  locked fail (file ← gets (get_file_mut h);
               match file with
               | None => mret none
               | Some f => r ← on_slot h f (p f); mret (k r)
               end) s = (o, s') → extends s s'.
Proof.
  intros Hh. apply locked_extends. clear o s'. intros o s'.
  unfold mbind, prog_mbind, gets. destruct (get_file_mut h s) as [f|]; [|by intros [= <- <-]].
  destruct (on_slot h f (p f) s) as [[] s1] eqn:E; intros [= <- <-];
    by eapply on_slot_extends.
Qed.

Lemma fatfs_read_extends h buf s o s' : 0 ≤ h →
  fatfs_read h buf s = (o, s') → extends s s'.
Proof.
  intros Hh. unfold fatfs_read. apply locked_extends. clear o s'. intros o s'.
  unfold mbind, prog_mbind, gets. destruct (get_file_mut h s) as [f|]; [|by intros [= <- <-]].
  by apply on_slot_extends.
Qed.

Lemma fatfs_seek_extends h p s o s' : 0 ≤ h →
  fatfs_seek h p s = (o, s') → extends s s'.
Proof. intros Hh. unfold fatfs_seek. by eapply (handle_call_extends h (λ _, f_seek p)). Qed.

Lemma fatfs_stat_extends h s o s' : 0 ≤ h → fatfs_stat h s = (o, s') → extends s s'.
Proof.
  intros Hh. unfold fatfs_stat. by eapply (handle_call_extends h (λ _, f_stream_len)).
Qed.

Lemma fatfs_write_extends h buf s o s' : 0 ≤ h →
  fatfs_write h buf s = (o, s') → extends s s'.
Proof.
  intros Hh. unfold fatfs_write.
  by eapply (handle_call_extends h (λ _, f_write_all buf ;;? f_flush) _ (λ _, Ok (zlen buf))).
Qed.

(** Opening appends a slot. *)
Lemma get_file_app s (h : Z) f p r : 0 ≤ h → is_Some (get_file_mut h s) →
  get_file_mut h (mk_fatfs (s.(table) ++ [Some f]) p r : FatfsState FS F) = get_file_mut h s.
Proof.
  intros Hh [g Hg]. unfold get_file_mut in *; cbn [table].
  rewrite lookup_app_l; [done|]. apply lookup_lt_is_Some_1.
  destruct (table s !! Z.to_nat h); [done|discriminate].
Qed.

Lemma same_table_extends s s' : s'.(table) = s.(table) → extends s s'.
Proof. intros E. split; [unfold get_file_mut; by rewrite E|rewrite E; lia]. Qed.

Lemma get_fs_ref_table s o s' : get_fs_ref s = (o, s') → s'.(table) = s.(table).
Proof.
  unfold get_fs_ref, mbind, prog_mbind, gets, unwrap. destruct (fs_ref s); [by intros [= _ <-]|].
  destruct open_image; by intros [= _ <-].
Qed.
Lemma on_fs_table {A} (p : prog FS A) s o s' : on_fs p s = (o, s') → s'.(table) = s.(table).
Proof. unfold on_fs. destruct (fs_ref s); [|by intros [= _ <-]]. case_match. by intros [= _ <-]. Qed.
Lemma drop_file_table f s o s' : drop_file f s = (o, s') → s'.(table) = s.(table).
Proof. unfold drop_file. destruct (fs_ref s); [|by intros [= _ <-]]. repeat case_match. by intros [= _ <-]. Qed.

(** A new slot at the end of the table. *)
Lemma add_file_new f s : zlen s.(table) < 2 ^ 32 →
  ∃ s', add_file f s = (Ret (zlen s.(table)), s') ∧ extends s s' ∧ is_Some (get_file_mut (zlen s.(table)) s').
Proof.
  intros Hlen. unfold add_file, mbind, prog_mbind, modify, gets. eexists. cbn [table].
  split; [do 2 f_equal; rewrite zlen_app; unfold zlen; cbn [length]; lia|]. split; [split|].
  - intros h Hh Hs. by rewrite get_file_app.
  - cbn [table]. rewrite zlen_app. unfold zlen. cbn [length]. lia.
  - unfold get_file_mut, zlen. cbn [table]. by rewrite Nat2Z.id, lookup_app_here.
Qed.

Lemma fatfs_open_extends p fl s o s' : zlen s.(table) < 2 ^ 32 → fatfs_open p fl s = (o, s') →
  extends s s' ∧ ∀ h, o = Ret (Ok h) → h = zlen s.(table) ∧ is_Some (get_file_mut h s').
Proof.
  intros Hlen. unfold fatfs_open, locked. destruct (poisoned s); [by intros [= <- <-]|].
  assert (Hstop : ∀ s1 (o1 : outcome (result Fd FatfsError)), s1.(table) = s.(table) →
    (∀ h, o1 ≠ Ret (Ok h)) → match o1 with Panic => (Panic, mk_fatfs s1.(table) true s1.(fs_ref)) | r => (r, s1) end = (o, s') →
    extends s s' ∧ ∀ h, o = Ret (Ok h) → h = zlen s.(table) ∧ is_Some (get_file_mut h s')).
  { intros s1 o1 Ht Hn E. apply same_table_extends in Ht.
    destruct o1 as [r| | |]; injection E as <- <-; (split; [|done || (intros h [= ->]; by destruct (Hn h))]);
      try done; by apply extends_poison. }
  unfold mbind at 1, prog_mbind at 1. destruct (get_fs_ref s) as [o1 s1] eqn:E1.
  apply get_fs_ref_table in E1 as Ht. destruct o1 as [fs| | |];
    [|by apply (Hstop s1 Panic)|by apply (Hstop s1 Deadlock)|by apply (Hstop s1 NoFuel)].
  unfold mbind at 1, prog_mbind at 1. destruct (on_fs _ s1) as [o2 s2] eqn:E2.
  apply on_fs_table in E2. rewrite Ht in E2. destruct o2 as [[f|]| | |];
    [|by apply (Hstop s2 (Ret (Err Unknown)))|by apply (Hstop s2 Panic)|by apply (Hstop s2 Deadlock)
     |by apply (Hstop s2 NoFuel)].
  destruct (add_file_new f s2) as (s3 & E3 & [He Hl] & Hs3); [by rewrite E2|].
  rewrite (bind_Ret _ _ _ _ _ E3). intros [= <- <-]. rewrite E2 in *. split; [split; [|done]|].
  - intros h Hh Hs. apply He; [done|]. unfold get_file_mut. by rewrite E2.
  - intros h [= <-]. unfold wrap. pose proof (zlen_nonneg (table s)). by rewrite Z.mod_small by lia.
Qed.

(** Closing empties one slot. *)
Lemma fatfs_close_slots h s o s' : 0 ≤ h → fatfs_close h s = (o, s') →
  (∀ h', 0 ≤ h' → h' ≠ h → is_Some (get_file_mut h' s) → is_Some (get_file_mut h' s')) ∧
  zlen s'.(table) ≤ zlen s.(table) + 1.
Proof.
  intros Hh. unfold fatfs_close, locked.
  destruct (poisoned s); [intros [= <- <-]; split; [done|lia]|].
  unfold remove_file, mbind, prog_mbind, gets, modify.
  destruct (table s !! Z.to_nat h) as [[f|]|]; [|intros [= <- <-]; split; [done|lia]..].
  set (s1 := mk_fatfs _ _ _ : FatfsState FS F).
  assert (∀ h', 0 ≤ h' → h' ≠ h → is_Some (get_file_mut h' s) → is_Some (get_file_mut h' s1)) as Hs.
  { intros h' Hh' Hne Hs. unfold s1. rewrite get_file_insert by done. rewrite decide_False; [done|]. by intros [-> _]. }
  assert (zlen s1.(table) ≤ zlen s.(table) + 1) as Hl by (unfold s1, zlen; cbn [table]; rewrite length_insert; lia).
  destruct (drop_file f s1) as [o1 s2] eqn:E. apply drop_file_table in E.
  intros E'. assert (s'.(table) = s1.(table)) as Ht by (destruct o1; injection E' as _ <-; exact E).
  unfold get_file_mut at 2. rewrite Ht. exact (conj Hs Hl).
Qed.

Lemma inv_extends m s s' : stack_inv m s → extends s s' → stack_inv m s'.
Proof.
  intros [Hi Hl] He. split; [exact Hi|]. intros fd f h Hm Hs.
  destruct (Hl fd f h Hm Hs). split; [done|]. by apply (proj1 He).
Qed.

Lemma inv_insert_net m s fd f h : stack_inv m s → f.(src) = Net h → stack_inv (<[fd := f]> m) s.
Proof.
  intros [Hi Hl] Hf. split.
  - intros fd1 fd2 f1 f2 h'. rewrite !lookup_insert_Some.
    intros [[<- <-]|[_ H1]] [[<- <-]|[_ H2]] E1 E2; try congruence. eauto.
  - intros fd' f' h'. rewrite lookup_insert_Some.
    intros [[<- <-]|[_ H1]] E; [congruence|eauto].
Qed.

(** The handle of an open file is one the table has. *)
Lemma get_file_bound h s : 0 ≤ h → is_Some (get_file_mut h s) → h < zlen s.(table).
Proof.
  intros Hh [f Hf]. unfold get_file_mut in Hf. unfold zlen.
  assert (Z.to_nat h < length (table s))%nat; [|lia].
  apply lookup_lt_is_Some_1. destruct (table s !! Z.to_nat h); [done|discriminate].
Qed.

Lemma in_fat_Ret {A} (p : prog (FatfsState FS F) A) s n a s' :
  p s = (Ret a, s') → in_fat p (s, n) = (Ret a, (s', n)).
Proof. intros Hp. unfold in_fat, on. cbn. by rewrite Hp. Qed.

Lemma in_fat_inv {A} (p : prog (FatfsState FS F) A) s n o s' n' :
  in_fat p (s, n) = (o, (s', n')) → p s = (o, s') ∧ n' = n.
Proof. unfold in_fat, on. cbn. destruct (p s). by intros [= <- <- <-]. Qed.

Lemma in_sock_inv {A} (p : prog N A) s n o s' n' :
  in_sock p (s, n) = (o, (s', n')) → s' = s.
Proof. unfold in_sock, on. cbn. destruct (p n). by intros [= <- <- <-]. Qed.

(** A call below, followed by code that does not touch the state. *)
Lemma then_ret_inv {W A B} (p : prog W A) (k : A → B) w o w' :
  (a ← p; mret (k a)) w = (o, w') → ∃ o', p w = (o', w') ∧ o = outcome_map k o'.
Proof. unfold mbind, prog_mbind. destruct (p w) as [o' w1]. destruct o'; intros [= <- <-]; by eexists. Qed.

Lemma on_file_inv m fd fail (k : File → prog LowerState FdRes) s n o s' n' :
  on_file m fd fail k (s, n) = (o, (s', n')) →
  s' = s ∨ ∃ f, m !! fd = Some f ∧ k f (s, n) = (o, (s', n')).
Proof.
  unfold on_file. case_match; [intros [= _ <- _]; by left|].
  destruct (m !! fd) as [f|]; [eauto|intros [= _ <- _]; by left].
Qed.

(** Reading, writing, seeking and stating keep every open file open. *)
Lemma pure_extends m op (p : prog LowerState FdRes) s n o s' n' :
  stack_inv m s → spec_pure m op = Some p → p (s, n) = (o, (s', n')) → extends s s'.
Proof.
  intros [_ Hl]. destruct op as [fd buf|fd buf|fd pos|fd| | | | |]; try done; intros [= <-].
  - intros [->|(f & Hm & Hk)]%on_file_inv; [done|]. revert Hk.
    case_match; [|by intros [= _ <- _]].
    assert (∀ q : prog LowerState (result Z FdtabError * list byte),
      (∀ o1, q (s, n) = (o1, (s', n')) → extends s s') →
      ('(r, buf) ← q; mret (RRead r buf)) (s, n) = (o, (s', n')) → extends s s') as Hq.
    { intros q Hq. unfold mbind, prog_mbind. destruct (q (s, n)) as [o1 w1].
      destruct o1 as [[]| | |]; intros [= _ ->]; by eapply Hq. }
    destruct (src f) as [h|h] eqn:Hs; apply Hq; intros o1 (o2 & Hc & _)%then_ret_inv.
    + destruct (Hl fd f h Hm Hs). apply in_fat_inv in Hc as [Hc _].
      by eapply fatfs_read_extends.
    + by apply in_sock_inv in Hc as ->.
  - unfold spec_write. case_decide; [by intros [= _ <- _]|]. case_decide.
    { intros (x & Hc & _)%then_ret_inv. by apply in_sock_inv in Hc as ->. }
    intros [->|(f & Hm & Hk)]%on_file_inv; [done|]. revert Hk.
    case_match; [|by intros [= _ <- _]]. destruct (src f) as [h|h] eqn:Hs;
      intros (x & Hc & _)%then_ret_inv.
    + destruct (Hl fd f h Hm Hs). apply in_fat_inv in Hc as [Hc _].
      by eapply fatfs_write_extends.
    + by apply in_sock_inv in Hc as ->.
  - intros [->|(f & Hm & Hk)]%on_file_inv; [done|]. revert Hk.
    destruct (src f) as [h|h] eqn:Hs; [|by intros [= _ <- _]].
    intros (x & Hc & _)%then_ret_inv. destruct (Hl fd f h Hm Hs).
    apply in_fat_inv in Hc as [Hc _]. by eapply fatfs_seek_extends.
  - intros [->|(f & Hm & Hk)]%on_file_inv; [done|]. revert Hk.
    destruct (src f) as [h|h] eqn:Hs; [|by intros [= _ <- _]].
    intros (x & Hc & _)%then_ret_inv. destruct (Hl fd f h Hm Hs).
    apply in_fat_inv in Hc as [Hc _]. by eapply fatfs_stat_extends.
Qed.

(** A new descriptor on a handle no other descriptor has. *)
Lemma inv_insert_fresh m s s' fd f :
  stack_inv m s → extends s s' → f.(src) = FatFS (zlen s.(table)) →
  is_Some (get_file_mut (zlen s.(table)) s') → stack_inv (<[fd := f]> m) s'.
Proof.
  intros [Hi Hl] He Hf Hs.
  assert (Hold : ∀ fd' f', m !! fd' = Some f' → f'.(src) ≠ f.(src)).
  { intros fd' f' Hm. rewrite Hf. intros Heq. destruct (Hl _ _ _ Hm Heq) as [H0 Hg].
    apply get_file_bound in Hg; [lia|done]. }
  split.
  - intros fd1 fd2 f1 f2 h. rewrite !lookup_insert_Some.
    intros [[<- <-]|[_ H1]] [[<- <-]|[_ H2]] E1 E2; [done|..].
    + destruct (Hold _ _ H2). congruence.
    + destruct (Hold _ _ H1). congruence.
    + eauto.
  - intros fd' f' h. rewrite lookup_insert_Some. intros [[<- <-]|[_ H1]] E.
    + rewrite Hf in E. injection E as <-. split; [apply zlen_nonneg|done].
    + destruct (Hl _ _ _ H1 E). split; [done|]. by apply (proj1 He).
Qed.

Lemma inv_delete m s s' fd f :
  stack_inv m s → m !! fd = Some f →
  (∀ h', 0 ≤ h' → f.(src) ≠ FatFS h' → is_Some (get_file_mut h' s) → is_Some (get_file_mut h' s')) →
  stack_inv (delete fd m) s'.
Proof.
  intros [Hi Hl] Hm Hs. split.
  - intros fd1 fd2 f1 f2 h [_ H1]%lookup_delete_Some [_ H2]%lookup_delete_Some. eauto.
  - intros fd' f' h [Hne H1]%lookup_delete_Some E. destruct (Hl _ _ _ H1 E). split; [done|].
    apply Hs; [done| |done]. intros E'. apply Hne. by apply (Hi fd fd' f f' h).
Qed.

(** A call of the service below for a new handle. *)
Lemma new_extends op (p : prog LowerState (FdtabError + File)) s n o s' n' :
  spec_new op = Some p → p (s, n) = (o, (s', n')) → zlen s.(table) < 2 ^ 32 →
  extends s s' ∧ ∀ f h, o = Ret (inr f) → f.(src) = FatFS h → h = zlen s.(table) ∧ is_Some (get_file_mut h s').
Proof.
  intros Hp Hr Hlen. destruct op; try done; injection Hp as <-; apply then_ret_inv in Hr as (o1 & Hc & ->).
  - apply in_fat_inv in Hc as [Hc _]. destruct (fatfs_open_extends _ _ _ _ _ Hlen Hc) as [He Hh].
    split; [done|]. intros f h. destruct o1 as [[x|x]| | |]; try done. intros [= <-] [= <-]. by apply Hh.
  - apply in_sock_inv in Hc as ->. split; [done|]. intros f h. destruct o1 as [[x|x]| | |]; try done. by intros [= <-].
  - apply in_sock_inv in Hc as ->. split; [done|]. intros f h. destruct o1 as [[x|x]| | |]; try done. by intros [= <-].
Qed.

Lemma stack_inv_step m s n op o m' s' n' :
  fd_step m (s, n) op o m' (s', n') → stack_inv m s → zlen s.(table) < 2 ^ 32 →
  stack_inv m' s' ∧ zlen s'.(table) ≤ zlen s.(table) + 1.
Proof.
  intros Hstep Hinv Hlen.
  inversion Hstep as
    [op' p o' w' Hp Hr|op' p o1 o' w' Hp Hr|op' p e w' Hp Hr|op' p f fd w' Hp Hr Hlow|fd|fd|fd f o' w' Hgt Hm Hc
    |fd|fd|fd f h|fd f h o1 o' w' Hgt Hm Hs Hc|fd f h e w' Hgt Hm Hs Hc|fd f h h' fd' w' Hgt Hm Hs Hc Hlow]; subst;
    try (split; [done|lia]); try (apply in_sock_inv in Hc as ->).
  - assert (He : extends s s') by by eapply pure_extends.
    split; [by eapply inv_extends|apply He].
  - destruct (new_extends _ _ _ _ _ _ _ Hp Hr Hlen) as [He _]. split; [by eapply inv_extends|apply He].
  - destruct (new_extends _ _ _ _ _ _ _ Hp Hr Hlen) as [He _]. split; [by eapply inv_extends|apply He].
  - destruct (new_extends _ _ _ _ _ _ _ Hp Hr Hlen) as [He Hh]. split; [|apply He].
    destruct (src f) as [h|h] eqn:Hs.
    + destruct (Hh f h eq_refl Hs) as [-> Hs']. by eapply inv_insert_fresh.
    + eapply inv_insert_net; [by eapply inv_extends|done].
  - destruct (src f) as [h|h] eqn:Hsrc; apply then_ret_inv in Hc as (o1 & Hc & _).
    + apply in_fat_inv in Hc as [Hc _]. destruct (inv_live _ _ Hinv _ _ _ Hm Hsrc).
      destruct (fatfs_close_slots h _ _ _ ltac:(done) Hc) as [Hs Hl]. split; [|done].
      eapply inv_delete; [done..|]. intros h' Hh' Hne. apply Hs; [done|congruence].
    + apply in_sock_inv in Hc as ->. split; [by eapply inv_delete|lia].
  - split; [done|lia].
  - split; [done|lia].
  - split; [|lia]. eapply inv_insert_net; [|done]. by eapply inv_insert_net.
Qed.

Lemma stack_inv_empty s : stack_inv ∅ s.
Proof. by split; intros *; rewrite lookup_empty. Qed.

Lemma stack_inv_runs m s n ops o m' s' n' :
  fd_runs m (s, n) ops o m' (s', n') → stack_inv m s →
  zlen s.(table) + zlen ops < 2 ^ 32 → stack_inv m' s'.
Proof.
  intros Hruns. remember (s, n) as w eqn:Hw. remember (s', n') as w' eqn:Hw'.
  revert s n Hw. induction Hruns as [|m0 w op ops o o' m1 w1 Hstep Ho|m0 w op ops r o m1 w1 m2 w2 Hstep Hruns IH];
    intros s n -> Hinv Hlen; unfold zlen in Hlen; cbn [length] in Hlen.
  - by injection Hw' as -> ->.
  - subst w1. eapply (stack_inv_step _ _ _ _ _ _ _ _ Hstep Hinv). unfold zlen. lia.
  - destruct w1 as [s1 n1].
    destruct (stack_inv_step _ _ _ _ _ _ _ _ Hstep Hinv) as [Hinv1 Hl]; [unfold zlen; lia|].
    eapply IH; [done|done|done|]. unfold zlen in *. lia.
Qed.

(** One call on a descriptor of a FAT file, given what the service below answers. *)
Lemma lseek_fat fd t md h pos (w w' : LowerState) :
  3 ≤ fd → fits 32 fd → lookup_fd t fd = Some (mk_file md (FatFS h)) →
  hc_fatfs_seek h pos w = (Ret (Ok ()), w') → lseek fd pos (t, w) = (Ret (Ok ()), (t, w')).
Proof.
  intros H3 Hf Hl Hs.
  pose proof (exec_seek_fat fd t w w' md h H3 Hf Hl pos (Ok ()) Hs) as He.
  apply bind_Ret_inv in He as (r & s1 & Hr & [= -> <-]). done.
Qed.

Lemma read_fat fd t md h buf buf' n (w w' : LowerState) :
  3 ≤ fd → fits 32 fd → lookup_fd t fd = Some (mk_file md (FatFS h)) →
  contains md OpenMode_RD = true → hc_fatfs_read h buf w = (Ret (Ok n, buf'), w') →
  read fd buf (t, w) = (Ret (Ok n, buf'), (t, w')).
Proof.
  intros H3 Hf Hl Hm Hs.
  pose proof (exec_read_fat fd t w w' md h H3 Hf Hl buf (Ok n) buf' Hm Hs) as He.
  apply bind_Ret_inv in He as ([r b] & s1 & Hr & [= -> -> <-]). done.
Qed.

Lemma write_fat fd t md h buf n (w w' : LowerState) :
  3 ≤ fd → fits 32 fd → lookup_fd t fd = Some (mk_file md (FatFS h)) →
  contains md OpenMode_WR = true → hc_fatfs_write h buf w = (Ret (Ok n), w') →
  write fd buf (t, w) = (Ret (Ok n), (t, w')).
Proof.
  intros H3 Hf Hl Hm Hs.
  pose proof (exec_write_fat fd t w w' md h H3 Hf Hl buf (Ok n) Hm Hs) as He.
  apply bind_Ret_inv in He as (r & s1 & Hr & [= -> <-]). done.
Qed.
End stack.
Arguments LowerState FS F N : clear implicits.

(** ** A one-file file system, the concrete instance of the FAT crate

    Reads return at most two bytes, so that the loop of [fatfs_read] has work to
    do, and the device rejects writes once it is full. *)
Module MemFat.
Definition capacity : nat := 64.
Record Disk : Type := mk_disk { bytes : list byte }.
Record Cursor : Type := mk_cursor { at_ : nat }.

#[global] Instance mem_fat : FatCrate Disk Cursor := {
  create_file _ := mret (Some (mk_cursor 0));
  open_file _ := mret (Some (mk_cursor 0));
  f_read buf := λ '(d, c),
    let n := Nat.min (Nat.min 2 (length buf)) (length d.(bytes) - c.(at_)) in
    (Ret (Ok (Z.of_nat n), sub d.(bytes) c.(at_) n ++ drop n buf),
     (d, mk_cursor (c.(at_) + n)));
  f_write_all buf := λ '(d, c),
    if decide (c.(at_) + length buf ≤ capacity)%nat then
      (Ret (Ok ()),
       (mk_disk (take c.(at_) d.(bytes) ++ buf ++ drop (c.(at_) + length buf) d.(bytes)),
        mk_cursor (c.(at_) + length buf)))
    else (Ret (Err "write zero"), (d, c));
  f_flush := mret (Ok ());
  f_seek p := λ '(d, c),
    if decide (0 ≤ p ≤ zlen d.(bytes)) then (Ret (Ok ()), (d, mk_cursor (Z.to_nat p)))
    else (Ret (Err "invalid input"), (d, c));
  f_stream_len := λ '(d, c), (Ret (Ok (zlen d.(bytes))), (d, c))
}.

#[global, refine] Instance mem_fat_spec : FatCrateSpec Disk Cursor := {
  content d _ := d.(bytes);
  fpos c := c.(at_)
}.
Proof.
  - intros d c buf Hpos.
    set (n := Nat.min (Nat.min 2 (length buf)) (length d.(bytes) - c.(at_))).
    exists n, d, (mk_cursor (c.(at_) + n)). split; [reflexivity|].
    split; [lia|]. split; [lia|]. split; [|done].
    intros Hz. destruct buf as [|b buf]; [by left|right].
    assert (length (b :: buf) = S (length buf)) by done. lia.
  - intros d c buf d' c'. cbn. case_decide; [|done]. by intros [= <- <-].
  - intros d c r d' c'. cbn. by intros [= _ <- <-].
  - intros d c p Hp. cbn. rewrite decide_True by done. by eexists d, (mk_cursor _).
Defined.

#[global] Instance mem_image : HostImage Disk := Some (mk_disk []).
#[global] Instance no_sockets : SockService () := {
  ss_connect _ := mret (Err NoLocalEndpoint);
  ss_bind _ := mret (Err NoLocalEndpoint);
  ss_accept _ := mret (Err NoLocalEndpoint);
  ss_send _ _ := mret (Err NoLocalEndpoint);
  ss_recv _ buf := mret (Err NoLocalEndpoint, buf);
  ss_close _ := mret (Ok ());
  ss_stdout buf := mret (zlen buf)
}.
Definition start : FdState (LowerState Disk Cursor ()) := ([], (mk_fatfs [] false None, ())).
End MemFat.

(** ** Properties *)

(** C25: a file opened through the descriptor table is its own: after any calls of
    the descriptor table over the FAT service and the sockets, from the empty table,
    whether they all return or one of them panics or blocks, two descriptors never
    name the same open file of the FAT service, and the file behind every descriptor
    is open there, so that no call on an open descriptor meets a stale handle. *)
Theorem no_shared_handles :
  ∀ FS F N `{FatCrate FS F} `{HostImage FS} `{SockService N}
    (s s' : FatfsState FS F) (n n' : N) ops o t',
  exec_ops ops ([], (s, n)) = (o, (t', (s', n'))) →
  Forall (λ op, fits 32 (op_fd op)) ops → zlen s.(table) + zlen ops + 3 < 2 ^ 32 →
  (∀ fd1 fd2 f1 f2 h, lookup_fd t' fd1 = Some f1 → lookup_fd t' fd2 = Some f2 →
     f1.(src) = FatFS h → f2.(src) = FatFS h → fd1 = fd2) ∧
  (∀ fd f h, lookup_fd t' fd = Some f → f.(src) = FatFS h → 0 ≤ h ∧ is_Some (get_file_mut h s')).
Proof.
  intros FS F N ? ? ? s s' n n' ops o t' He Hops Hlen. pose proof (zlen_nonneg s.(table)).
  destruct (ops_refine ops [] ∅ (s, n) abs_empty Hops) as (o1 & t1 & w1 & m & He1 & Hr & Ha);
    [change (zlen []) with 0; lia|].
  rewrite He in He1. injection He1 as <- <- <-.
  destruct (stack_inv_runs _ _ _ _ _ _ _ _ Hr (stack_inv_empty s)) as [Hi Hl]; [lia|].
  split; intros *; rewrite <- !Ha; [apply Hi|apply Hl].
Qed.

Lemma no_shared_handles_witness :
  ∃ t' (s' : FatfsState MemFat.Disk MemFat.Cursor),
    exec_ops [OpOpen "a" 2 3; OpOpen "a" 2 3; OpClose 3; OpOpen "b" 2 3] ([], (mk_fatfs [] false None, ())) =
      (Ret [RFd (Ok 3); RFd (Ok 4); RUnit (Ok ()); RFd (Ok 3)], (t', (s', ()))) ∧
    ∀ fd1 fd2 f1 f2 h, lookup_fd t' fd1 = Some f1 → lookup_fd t' fd2 = Some f2 →
      f1.(src) = FatFS h → f2.(src) = FatFS h → fd1 = fd2.
Proof.
  assert (E : exec_ops [OpOpen "a" 2 3; OpOpen "a" 2 3; OpClose 3; OpOpen "b" 2 3] ([], (mk_fatfs [] false None, ())) =
    (Ret [RFd (Ok 3); RFd (Ok 4); RUnit (Ok ()); RFd (Ok 3)],
     ([Some (mk_file 3 (FatFS 2)); Some (mk_file 3 (FatFS 1))],
      (mk_fatfs [None; Some (MemFat.mk_cursor 0); Some (MemFat.mk_cursor 0)] false (Some (MemFat.mk_disk [])), ()))))
    by by vm_compute.
  do 2 eexists. split; [exact E|].
  eapply (no_shared_handles MemFat.Disk MemFat.Cursor ()); [exact E| |by vm_compute].
  by repeat (apply Forall_cons_2; [by vm_compute|]); apply Forall_nil.
Defined.

(** What is written is what is read back: on a descriptor open for reading
    and writing, a write the file system accepts, a seek back to where the file
    stood, and a read of the same length give the written bytes, however short
    the reads of the FAT crate are; the descriptor table is unchanged. *)
Theorem write_seek_read :
  ∀ FS F N `{FatCrateSpec FS F} `{HostImage FS} `{SockService N}
    t (s : FatfsState FS F) (n : N) fd h fs f buf buf' fs1 f1,
  3 ≤ fd → fits 32 fd → lookup_fd t fd = Some (mk_file OpenMode_RDWR (FatFS h)) →
  open_slot s h fs f → (fpos f ≤ length (content fs f))%nat →
  (f_write_all buf ;;? f_flush) (fs, f) = (Ret (Ok ()), (fs1, f1)) →
  zlen buf < 2 ^ 64 → length buf' = length buf →
  ∃ s', exec_ops [OpWrite fd buf; OpSeek fd (Z.of_nat (fpos f)); OpRead fd buf'] (t, (s, n)) =
          (Ret [RSize (Ok (zlen buf)); RUnit (Ok ()); RRead (Ok (zlen buf)) buf],
           (t, (s', n))).
Proof.
  intros FS F N ? ? ? ? t s n fd h fs f buf buf' fs1 f1 H3 Hfd Hlk Ho Hpos Hw Hb Hlen.
  destruct (write_flush_content _ _ _ _ _ Hw Hpos) as [Hc1 Hp1].
  assert (Hw' := fatfs_write_open s h fs f buf _ fs1 f1 Ho Hw).
  assert (Ho1 := open_slot_set s h fs f fs1 f1 Ho).
  assert (Hl1 : (fpos f + length buf ≤ length (content fs1 f1))%nat).
  { rewrite Hc1, !length_app, length_take. lia. }
  destruct (fatfs_seek_open _ h fs1 f1 (Z.of_nat (fpos f)) Ho1) as (fs2 & f2 & Hs' & Hc2 & Hp2);
    [unfold zlen; lia|].
  assert (Ho2 := open_slot_set _ h fs1 f1 fs2 f2 Ho1).
  rewrite Nat2Z.id in Hp2.
  destruct (fatfs_read_open _ h fs2 f2 buf' Ho2) as (fs3 & f3 & Hr' & _);
    [rewrite Hp2, Hc2; lia|unfold zlen in *; by rewrite Hlen|].
  rewrite Hp2, Hc2, Hlen in Hr'.
  replace (Nat.min (length buf) (length (content fs1 f1) - fpos f)) with (length buf) in Hr' by lia.
  rewrite drop_ge, app_nil_r in Hr' by lia.
  assert (Hsub : sub (content fs1 f1) (fpos f) (length buf) = buf).
  { rewrite Hc1. unfold sub. rewrite drop_app_length' by (rewrite length_take; lia).
    by rewrite take_app_length. }
  rewrite Hsub in Hr'. set (s1 := set_slot s h fs1 f1) in *.
  set (s2 := set_slot s1 h fs2 f2) in *. set (s3 := set_slot s2 h fs3 f3) in *.
  exists s3.
  assert (E1 : exec_op (OpWrite fd buf) (t, (s, n)) = (Ret (RSize (Ok (zlen buf))), (t, (s1, n)))).
  { apply (exec_write_fat fd t (s, n) (s1, n) _ h H3 Hfd Hlk buf (Ok (zlen buf))); [done|].
    by apply in_fat_Ret. }
  assert (E2 : exec_op (OpSeek fd (Z.of_nat (fpos f))) (t, (s1, n)) =
               (Ret (RUnit (Ok ())), (t, (s2, n)))).
  { apply (exec_seek_fat fd t (s1, n) (s2, n) _ h H3 Hfd Hlk _ (Ok ())).
    by apply in_fat_Ret. }
  assert (E3 : exec_op (OpRead fd buf') (t, (s2, n)) =
               (Ret (RRead (Ok (zlen buf)) buf), (t, (s3, n)))).
  { apply (exec_read_fat fd t (s2, n) (s3, n) _ h H3 Hfd Hlk _ (Ok (zlen buf)) buf); [done|].
    by apply in_fat_Ret. }
  unfold exec_ops, mbind, prog_mbind. by rewrite E1, E2, E3.
Qed.

Lemma write_seek_read_witness :
  ∃ (t : FdTable) (s s' : FatfsState MemFat.Disk MemFat.Cursor),
    exec_ops [OpWrite 3 [1; 2; 3; 4; 5]; OpSeek 3 0; OpRead 3 [0; 0; 0; 0; 0]] (t, (s, ())) =
      (Ret [RSize (Ok 5); RUnit (Ok ()); RRead (Ok 5) [1; 2; 3; 4; 5]], (t, (s', ()))).
Proof.
  destruct (write_seek_read MemFat.Disk MemFat.Cursor ()
    [Some (mk_file OpenMode_RDWR (FatFS 0))]
    (mk_fatfs [Some (MemFat.mk_cursor 0)] false (Some (MemFat.mk_disk []))) ()
    3 0 (MemFat.mk_disk []) (MemFat.mk_cursor 0) [1; 2; 3; 4; 5] [0; 0; 0; 0; 0]
    (MemFat.mk_disk [1; 2; 3; 4; 5]) (MemFat.mk_cursor 5)) as [s' Hs'];
    [done|done|done|repeat split|cbn; lia|reflexivity|done|done|].
  exists [Some (mk_file OpenMode_RDWR (FatFS 0))],
    (mk_fatfs [Some (MemFat.mk_cursor 0)] false (Some (MemFat.mk_disk []))), s'.
  exact Hs'.
Defined.

(** a read transfers everything that is there: the loop of [fatfs_read] ends,
    and returns the smaller of the buffer's length and what is left of the file,
    even when the FAT crate returns short, leaving the rest of the buffer as it
    was and the position after the bytes read. *)
Theorem fatfs_read_complete :
  ∀ FS F `{FatCrateSpec FS F} (s : FatfsState FS F) fd fs f buf,
  open_slot s fd fs f → (fpos f ≤ length (content fs f))%nat → zlen buf < 2 ^ 64 →
  let n := Nat.min (length buf) (length (content fs f) - fpos f) in
  ∃ fs' f', fatfs_read fd buf s =
      (Ret (Ok (Z.of_nat n), sub (content fs f) (fpos f) n ++ drop n buf),
       set_slot s fd fs' f') ∧
    content fs' f' = content fs f ∧ fpos f' = (fpos f + n)%nat.
Proof. intros FS F ? ? s fd fs f buf. apply fatfs_read_open. Qed.

Lemma fatfs_read_complete_witness :
  ∃ s' : FatfsState MemFat.Disk MemFat.Cursor,
    fatfs_read 0 [0; 0; 0; 0; 0; 0]
      (mk_fatfs [Some (MemFat.mk_cursor 1)] false (Some (MemFat.mk_disk [1; 2; 3; 4; 5]))) =
    (Ret (Ok 4, [2; 3; 4; 5; 0; 0]), s').
Proof.
  destruct (fatfs_read_complete MemFat.Disk MemFat.Cursor
    (mk_fatfs [Some (MemFat.mk_cursor 1)] false (Some (MemFat.mk_disk [1; 2; 3; 4; 5]))) 0
    (MemFat.mk_disk [1; 2; 3; 4; 5]) (MemFat.mk_cursor 1) [0; 0; 0; 0; 0; 0])
    as (fs' & f' & Hr & _); [repeat split|cbn; lia|done|].
  eexists. exact Hr.
Defined.

(** [fatfs_write] cannot report a failed write: whatever [write_all] and
    [flush] of the FAT crate return, an error included, the call returns the
    length of the whole buffer. *)
Theorem fatfs_write_hides_errors :
  ∀ FS F `{FatCrate FS F} (s : FatfsState FS F) fd fs f buf r fs' f',
  open_slot s fd fs f → (f_write_all buf ;;? f_flush) (fs, f) = (Ret r, (fs', f')) →
  fatfs_write fd buf s = (Ret (Ok (zlen buf)), set_slot s fd fs' f').
Proof. intros *. apply fatfs_write_open. Qed.

Lemma fatfs_write_hides_errors_witness :
  let full := MemFat.mk_disk (replicate 64 9) in
  let s := mk_fatfs [Some (MemFat.mk_cursor 64)] false (Some full) in
  f_write_all [1; 2] (full, MemFat.mk_cursor 64) = (Ret (Err "write zero"), (full, MemFat.mk_cursor 64)) ∧
  ∃ s', fatfs_write 0 [1; 2] s = (Ret (Ok 2), s').
Proof.
  cbv zeta. split; [reflexivity|]. eexists.
  exact (fatfs_write_hides_errors MemFat.Disk MemFat.Cursor
    (mk_fatfs [Some (MemFat.mk_cursor 64)] false (Some (MemFat.mk_disk (replicate 64 9))))
    0 (MemFat.mk_disk (replicate 64 9)) (MemFat.mk_cursor 64) [1; 2] (Err "write zero")
    (MemFat.mk_disk (replicate 64 9)) (MemFat.mk_cursor 64)
    (conj eq_refl (conj eq_refl eq_refl)) eq_refl).
Defined.
