(* ===== verification/Ipv4.v ===== *)
(** * IPv4 addresses and numbers as text

    What the network code uses of Rust's [core::net] and [core::str]:
    [Ipv4Addr] with its octets, [Display] and [FromStr], [SocketAddrV4], [u16]'s
    [FromStr] and [str::split] at a character.  An address is its 32-bit value. *)
From Stdlib Require Import Ascii String.
From S2P Require Import Prelude Bytes.
Local Open Scope Z_scope.

Definition ipv4_new (a b c d : Z) : Z := a * 2 ^ 24 + b * 2 ^ 16 + c * 2 ^ 8 + d.
Definition octets (ip : Z) : list Z :=
  [ip / 2 ^ 24 mod 2 ^ 8; ip / 2 ^ 16 mod 2 ^ 8; ip / 2 ^ 8 mod 2 ^ 8; ip mod 2 ^ 8].

(** [Vec<&str>::join] *)
Fixpoint join (sep : string) (l : list string) : string :=
  match l with
  | [] => ""
  | [s] => s
  | s :: l => s +:+ sep +:+ join sep l
  end.

(** [Display for Ipv4Addr] *)
Definition show_ipv4 (ip : Z) : string := join "." (map pretty (octets ip)).

(** [str::split(sep).collect()]: never empty. *)
Fixpoint split (sep : ascii) (s : string) : list string :=
  match s with
  | EmptyString => [""]
  | String c s =>
      if Ascii.eqb c sep then "" :: split sep s
      else match split sep s with
           | w :: ws => String c w :: ws
           | [] => [String c ""]
           end
  end.

Definition digit (c : ascii) : option Z :=
  let n := Z.of_N (Ascii.N_of_ascii c) in
  if (48 <=? n) && (n <=? 57) then Some (n - 48) else None.

(** The value of a string of decimal digits, read on top of [acc]. *)
Fixpoint digits (acc : Z) (s : string) : option Z :=
  match s with
  | EmptyString => Some acc
  | String c s => d ← digit c; digits (acc * 10 + d) s
  end.

(** [from_str] of the unsigned integers of [w] bits: at least one digit, after an
    optional [+], and no overflow. *)
Definition parse_uint (w : Z) (s : string) : option Z :=
  let s := match s with String "+" s => s | _ => s end in
  match s with
  | EmptyString => None
  | _ => n ← digits 0 s; if n <? 2 ^ w then Some n else None
  end.
Definition parse_u16 : string → option Z := parse_uint 16.

(** One octet of [Ipv4Addr::from_str]: one to three digits, at most 255, and no
    leading zero. *)
Definition parse_octet (s : string) : option Z :=
  if (String.length s =? 0)%nat || (3 <? String.length s)%nat then None
  else match s with
       | String "0" (String _ _) => None
       | _ => n ← digits 0 s; if n <=? 255 then Some n else None
       end.

Definition parse_ipv4 (s : string) : option Z :=
  match map parse_octet (split "." s) with
  | [Some a; Some b; Some c; Some d] => Some (ipv4_new a b c d)
  | _ => None
  end.

Example split_host : split ":" "10.0.0.1:8080" = ["10.0.0.1"; "8080"].
Proof. reflexivity. Qed.
Example parse_home : parse_ipv4 "192.168.69.100" = Some (ipv4_new 192 168 69 100).
Proof. reflexivity. Qed.
Example parse_not_home : map parse_ipv4 ["192.168.069.1"; "256.0.0.1"; "1.2.3"; "a.b.c.d"; ""]
  = [None; None; None; None; None].
Proof. reflexivity. Qed.

(** ** Splitting and joining *)

(** [sep] does not occur in [s]. *)
Fixpoint free_of (sep : ascii) (s : string) : bool :=
  match s with
  | EmptyString => true
  | String c s => negb (Ascii.eqb c sep) && free_of sep s
  end.

Lemma free_of_cons sep c s : free_of sep (String c s) → Ascii.eqb c sep = false ∧ free_of sep s.
Proof. cbn [free_of]. intros H. by destruct (Ascii.eqb c sep). Qed.

Lemma free_of_app sep s t : free_of sep s → free_of sep t → free_of sep (s +:+ t).
Proof.
  induction s as [|c s IH]; [done|]. intros [Hc Hs]%free_of_cons Ht.
  change (Is_true (negb (Ascii.eqb c sep) && free_of sep (s +:+ t))).
  rewrite Hc. by apply IH.
Qed.

Lemma split_free sep s : free_of sep s → split sep s = [s].
Proof.
  induction s as [|c s IH]; [done|]. intros [Hc Hs]%free_of_cons.
  cbn [split]. by rewrite Hc, IH.
Qed.

Lemma split_app sep s t : free_of sep s →
  split sep (s +:+ String sep t) = s :: split sep t.
Proof.
  induction s as [|c s IH]; intros Hs.
  - change ("" +:+ String sep t) with (String sep t). cbn [split]. by rewrite Ascii.eqb_refl.
  - apply free_of_cons in Hs as [Hc Hs].
    change (String c s +:+ String sep t) with (String c (s +:+ String sep t)).
    cbn [split]. by rewrite Hc, IH.
Qed.

Lemma split_join sep w ws : Forall (free_of sep) (w :: ws) →
  split sep (join (String sep "") (w :: ws)) = w :: ws.
Proof.
  revert w. induction ws as [|v ws IH]; intros w [Hw Hws]%Forall_cons.
  - by apply split_free.
  - change (join (String sep "") (w :: v :: ws))
      with (w +:+ String sep (join (String sep "") (v :: ws))).
    by rewrite split_app, IH.
Qed.

(** ** Numbers *)

Lemma digit_pretty n : (n < 10)%N → digit (pretty_N_char n) = Some (Z.of_N n).
Proof.
  intros Hn.
  assert (n = 0 ∨ n = 1 ∨ n = 2 ∨ n = 3 ∨ n = 4 ∨ n = 5 ∨ n = 6 ∨ n = 7 ∨ n = 8 ∨ n = 9)%N
    by lia.
  by destruct_or?; subst.
Qed.

Lemma digits_pretty_go x s : digits 0 (pretty_N_go x s) = digits (Z.of_N x) s.
Proof.
  revert s. induction (N.lt_wf_0 x) as [x _ IH]; intros s.
  destruct (decide (x = 0)%N) as [->|]; [by rewrite pretty_N_go_0|].
  rewrite pretty_N_go_step by lia. rewrite IH by (apply N.div_lt; lia).
  cbn [digits]. rewrite digit_pretty by (apply N.mod_lt; lia). cbn [mbind option_bind].
  f_equal. rewrite N2Z.inj_div, N2Z.inj_mod. pose proof (Z.div_mod (Z.of_N x) 10). lia.
Qed.

Lemma digits_pretty (n : Z) : 0 ≤ n → digits 0 (pretty n) = Some n.
Proof.
  intros Hn. destruct n as [|p|p]; [reflexivity| |lia].
  change (pretty (Z.pos p)) with (pretty_N (N.pos p)). unfold pretty_N.
  rewrite decide_False by done. by rewrite digits_pretty_go.
Qed.

(** A decimal numeral is made of digits. *)
Fixpoint all_digits (s : string) : bool :=
  match s with
  | EmptyString => true
  | String c s => bool_decide (is_Some (digit c)) && all_digits s
  end.

Lemma all_digits_go x s : all_digits s → all_digits (pretty_N_go x s).
Proof.
  revert s. induction (N.lt_wf_0 x) as [x _ IH]; intros s Hs.
  destruct (decide (x = 0)%N) as [->|]; [by rewrite pretty_N_go_0|].
  rewrite pretty_N_go_step by lia. apply IH; [apply N.div_lt; lia|].
  cbn [all_digits]. rewrite digit_pretty by (apply N.mod_lt; lia). done.
Qed.

Lemma all_digits_pretty (n : Z) : 0 ≤ n → all_digits (pretty n).
Proof.
  intros Hn. destruct n as [|p|p]; [done| |lia].
  change (pretty (Z.pos p)) with (pretty_N (N.pos p)). unfold pretty_N.
  rewrite decide_False by done. by apply all_digits_go.
Qed.

Lemma all_digits_free sep s : digit sep = None → all_digits s → free_of sep s.
Proof.
  intros Hsep. induction s as [|c s IH]; [done|]. cbn [all_digits free_of].
  intros [Hc Hs]%andb_True. apply andb_True. split; [|by apply IH].
  destruct (Ascii.eqb_spec c sep) as [->|]; [|done].
  rewrite Hsep in Hc. by apply bool_decide_unpack, is_Some_None in Hc.
Qed.

Lemma pretty_free sep (n : Z) : digit sep = None → 0 ≤ n → free_of sep (pretty n).
Proof. intros Hsep Hn. by apply all_digits_free, all_digits_pretty. Qed.

(** ** Round trips *)

Lemma parse_uint_pretty w p : fits w p → parse_uint w (pretty p) = Some p.
Proof.
  intros Hp. unfold fits in Hp. unfold parse_uint.
  pose proof (digits_pretty p ltac:(lia)) as Hd. pose proof (all_digits_pretty p ltac:(lia)) as Ha.
  assert (pretty p ≠ "") as Hne.
  { intros He. rewrite He in Hd. injection Hd as Hd. subst p. done. }
  destruct (pretty p) as [|c s] eqn:E; [done|].
  assert (c ≠ "+"%char) as Hc.
  { intros ->. cbn [all_digits] in Ha. by apply andb_True in Ha as [?%bool_decide_unpack%is_Some_None _]. }
  assert (∀ A (x y : A), match c with "+"%char => x | _ => y end = y) as Hplus.
  { intros A x y. destruct c as [[] [] [] [] [] [] [] []]; try done. }
  assert (match String c s with String "+" s' => s' | _ => String c s end = String c s) as ->.
  { apply Hplus. }
  rewrite Hd. cbn [mbind option_bind]. by replace (p <? 2 ^ w) with true by lia.
Qed.
Lemma parse_u16_pretty p : fits 16 p → parse_u16 (pretty p) = Some p.
Proof. apply parse_uint_pretty. Qed.

Lemma parse_octet_pretty_all :
  forallb (λ n, bool_decide (parse_octet (pretty (Z.of_nat n)) = Some (Z.of_nat n))) (seq 0 256) = true.
Proof. vm_compute. reflexivity. Qed.

Lemma parse_octet_pretty n : 0 ≤ n < 256 → parse_octet (pretty n) = Some n.
Proof.
  intros Hn. pose proof parse_octet_pretty_all as H.
  rewrite forallb_forall in H. specialize (H (Z.to_nat n)).
  rewrite Z2Nat.id in H by lia. eapply bool_decide_eq_true_1, H, in_seq. lia.
Qed.

Lemma ipv4_octets ip : fits 32 ip →
  match octets ip with [a; b; c; d] => ipv4_new a b c d = ip | _ => False end.
Proof.
  intros Hip. unfold fits in Hip. unfold octets, ipv4_new.
  change (2 ^ 24) with 16777216. change (2 ^ 16) with 65536. change (2 ^ 8) with 256.
  change (2 ^ 32) with 4294967296 in Hip.
  Z.div_mod_to_equations. lia.
Qed.

Lemma octets_range ip : Forall (λ o, 0 ≤ o < 256) (octets ip).
Proof. unfold octets. repeat constructor; apply Z.mod_pos_bound; lia. Qed.

(** An address printed and parsed again is the same address. *)
Lemma parse_show_ipv4 ip : fits 32 ip → parse_ipv4 (show_ipv4 ip) = Some ip.
Proof.
  intros Hip. unfold parse_ipv4, show_ipv4.
  pose proof (octets_range ip) as Hr. pose proof (ipv4_octets ip Hip) as Ho.
  destruct (octets ip) as [|a [|b [|c [|d [|]]]]]; try done. cbn [map].
  rewrite !Forall_cons in Hr. destruct Hr as (Ha & Hb & Hc & Hd & _).
  change "." with (String "." "").
  rewrite split_join by (repeat constructor; apply pretty_free; try done; lia).
  cbn [map]. rewrite !parse_octet_pretty by done. by rewrite Ho.
Qed.

Lemma show_ipv4_free sep ip : digit sep = None → sep ≠ "."%char → free_of sep (show_ipv4 ip).
Proof.
  intros Hsep Hdot. unfold show_ipv4. pose proof (octets_range ip) as Hr.
  destruct (octets ip) as [|a [|b [|c [|d [|]]]]] eqn:E; try done. clear E.
  rewrite !Forall_cons in Hr. destruct Hr as (Ha & Hb & Hc & Hd & _).
  assert (free_of sep ".") as Hs.
  { cbn [free_of]. destruct (Ascii.eqb_spec "." sep); [congruence|done]. }
  cbn [map join]. repeat apply free_of_app; try done; apply pretty_free; done || lia.
Qed.
