(* ===== verification/Text.v ===== *)
(** * Text as the functions handle it

    What the functions use of Rust's [str], [String] and [char]: a string is the
    list of its UTF-8 bytes.  [String::from_utf8_lossy] follows the maximal-subpart
    rule of the standard library; [trim] knows all of Unicode's white space. *)
From Stdlib Require Import Ascii String.
From S2P Require Import Prelude Bytes Ipv4.
Local Open Scope Z_scope.

Definition code (c : ascii) : Z := Z.of_N (Ascii.N_of_ascii c).
Definition chr (b : Z) : ascii := Ascii.ascii_of_N (Z.to_N b).
Definition of_bytes (l : list byte) : string := string_of_list_ascii (map chr l).
Definition to_bytes (s : string) : list byte := map code (list_ascii_of_string s).

(** ** UTF-8 *)

Definition cont (b : byte) : bool := (128 <=? b) && (b <=? 191).
(** What may follow the first byte of a sequence of three or four. *)
Definition second_of_3 (b c : byte) : bool :=
  if b =? 224 then (160 <=? c) && (c <=? 191)
  else if b =? 237 then (128 <=? c) && (c <=? 159)
  else cont c.
Definition second_of_4 (b c : byte) : bool :=
  if b =? 240 then (144 <=? c) && (c <=? 191)
  else if b =? 244 then (128 <=? c) && (c <=? 143)
  else cont c.
(** How many bytes a sequence begun by [b] has; 0 if none begins so. *)
Definition width (b : byte) : nat :=
  if b <? 128 then 1
  else if (194 <=? b) && (b <=? 223) then 2
  else if (224 <=? b) && (b <=? 239) then 3
  else if (240 <=? b) && (b <=? 244) then 4 else 0.

(** The front of [b :: l]: whether it is a sequence, and how many bytes it has
    behind [b], or are dropped with [b] if it is not one. *)
Definition utf8_step (b : byte) (l : list byte) : bool * nat :=
  match width b, l with
  | 1%nat, _ => (true, O)
  | 2%nat, c :: _ => if cont c then (true, 1%nat) else (false, O)
  | 3%nat, c :: l =>
      if second_of_3 b c
      then match l with
           | d :: _ => if cont d then (true, 2%nat) else (false, 1%nat)
           | [] => (false, 1%nat)
           end
      else (false, O)
  | 4%nat, c :: l =>
      if second_of_4 b c
      then match l with
           | d :: l =>
               if cont d
               then match l with
                    | e :: _ => if cont e then (true, 3%nat) else (false, 2%nat)
                    | [] => (false, 2%nat)
                    end
               else (false, 1%nat)
           | [] => (false, 1%nat)
           end
      else (false, O)
  | _, _ => (false, O)
  end.

(** U+FFFD *)
Definition replacement : list byte := [239; 191; 189].
Fixpoint lossy_go (fuel : nat) (l : list byte) : list byte :=
  match fuel, l with
  | S fuel, b :: l =>
      let '(valid, n) := utf8_step b l in
      (if valid then b :: take n l else replacement) ++ lossy_go fuel (drop n l)
  | _, _ => []
  end.
Definition from_utf8_lossy (l : list byte) : list byte := lossy_go (length l) l.

(** The code points of a valid text. *)
Fixpoint chars (l : list byte) : list Z :=
  match l with
  | [] => []
  | a :: l =>
      if a <? 128 then a :: chars l
      else match l with
           | [] => []
           | b :: l =>
               if a <? 224 then (a - 192) * 64 + (b - 128) :: chars l
               else match l with
                    | [] => []
                    | c :: l =>
                        if a <? 240 then ((a - 224) * 64 + (b - 128)) * 64 + (c - 128) :: chars l
                        else match l with
                             | [] => []
                             | d :: l => (((a - 240) * 64 + (b - 128)) * 64 + (c - 128)) * 64 + (d - 128)
                                         :: chars l
                             end
                    end
           end
  end.

(** ** str *)

(** The characters of [char::is_whitespace], encoded. *)
Definition white_space : list (list byte) :=
  [[9]; [10]; [11]; [12]; [13]; [32]; [194; 133]; [194; 160]; [225; 154; 128];
   [226; 128; 168]; [226; 128; 169]; [226; 128; 175]; [226; 129; 159]; [227; 128; 128]] ++
  map (λ b, [226; 128; b]) (seqZ 128 11).

Fixpoint strip_prefix (p l : list byte) : option (list byte) :=
  match p, l with
  | [], _ => Some l
  | a :: p, b :: l => if a =? b then strip_prefix p l else None
  | _, _ => None
  end.
Fixpoint strip_any (ps : list (list byte)) (l : list byte) : option (list byte) :=
  match ps with
  | [] => None
  | p :: ps => match strip_prefix p l with Some r => Some r | None => strip_any ps l end
  end.
Fixpoint strip_all (fuel : nat) (ps : list (list byte)) (l : list byte) : list byte :=
  match fuel with
  | O => l
  | S fuel => match strip_any ps l with Some r => strip_all fuel ps r | None => l end
  end.
(** [str::trim] *)
Definition trim_bytes (l : list byte) : list byte :=
  let l := strip_all (length l) white_space l in
  reverse (strip_all (length l) (map reverse white_space) (reverse l)).
Definition trim (s : string) : string := of_bytes (trim_bytes (to_bytes s)).

Fixpoint strip_cr (s : string) : string :=
  match s with
  | EmptyString => EmptyString
  | String c EmptyString => if code c =? 13 then EmptyString else s
  | String c s => String c (strip_cr s)
  end.
(** [str::lines], from the pieces between line feeds: a last piece that is empty
    is no line, and only the others end in a line feed, so may lose a [\r]. *)
Fixpoint lines_of (pieces : list string) : list string :=
  match pieces with
  | [] => []
  | [s] => match s with EmptyString => [] | _ => [s] end
  | s :: pieces => strip_cr s :: lines_of pieces
  end.
Definition lines (s : string) : list string := lines_of (split (chr 10) s).

(** [u32::from_str] and [usize::from_str]. *)
Definition parse_u32 : string → option Z := parse_uint 32.
Definition parse_u64 : string → option Z := parse_uint 64.

Example trim_ex : trim " 	12 " = "12".
Proof. reflexivity. Qed.
Example trim_inner : trim " a b " = "a b".
Proof. reflexivity. Qed.
Example trim_nbsp : trim_bytes [194; 160; 49; 227; 128; 128; 32] = [49].
Proof. reflexivity. Qed.
Example lines_ex : lines (of_bytes [97; 13; 10; 98; 10; 10; 99; 13]) =
  ["a"; "b"; ""; of_bytes [99; 13]]%string.
Proof. reflexivity. Qed.
Example lines_end : lines (of_bytes [97; 10]) = ["a"]%string.
Proof. reflexivity. Qed.
Example parse_ex : map parse_u32 ["42"; "+7"; ""; "-1"; "4294967295"; "4294967296"; "1x"; "+"]%string =
  [Some 42; Some 7; None; None; Some 4294967295; None; None; None].
Proof. reflexivity. Qed.
(** The examples of the Unicode standard: one replacement per maximal subpart. *)
Example lossy_ex : from_utf8_lossy [97; 241; 128; 128; 225; 128; 194; 98; 128; 99] =
  [97] ++ replacement ++ replacement ++ replacement ++ [98] ++ replacement ++ [99].
Proof. reflexivity. Qed.
Example chars_ex : chars [97; 195; 169; 226; 130; 172; 240; 159; 152; 128] = [97; 233; 8364; 128512].
Proof. reflexivity. Qed.

(** ** Lemmas *)

Lemma of_to_bytes s : of_bytes (to_bytes s) = s.
Proof.
  unfold of_bytes, to_bytes. rewrite map_map.
  rewrite (map_ext _ (λ c, c)); [by rewrite map_id, string_of_list_ascii_of_string|].
  intros c. unfold chr, code. by rewrite N2Z.id, ascii_N_embedding.
Qed.

Lemma to_of_bytes l : Forall (λ b, 0 ≤ b < 256) l → to_bytes (of_bytes l) = l.
Proof.
  intros Hl. unfold of_bytes, to_bytes. rewrite list_ascii_of_string_of_list_ascii, map_map.
  induction Hl as [|b l Hb Hl IH]; [done|]. cbn [map]. rewrite IH. f_equal.
  unfold chr, code. rewrite N_ascii_embedding by lia. lia.
Qed.

(** ASCII text is valid. *)
Lemma lossy_ascii l : Forall (λ b, 0 ≤ b < 128) l → from_utf8_lossy l = l.
Proof.
  unfold from_utf8_lossy. induction l as [|b l IH]; [done|]. intros [Hb Hl]%Forall_cons.
  cbn [length lossy_go]. unfold utf8_step, width. replace (b <? 128) with true by lia.
  rewrite take_0, drop_0. cbn [app]. by rewrite IH.
Qed.
Lemma lossy_ascii_app l l' : Forall (λ b, 0 ≤ b < 128) l → from_utf8_lossy (l ++ l') = l ++ from_utf8_lossy l'.
Proof.
  unfold from_utf8_lossy. induction l as [|b l IH]; [done|]. intros [Hb Hl]%Forall_cons.
  cbn [app length lossy_go]. unfold utf8_step, width. replace (b <? 128) with true by lia.
  rewrite take_0, drop_0. cbn [app]. by rewrite IH.
Qed.
(** No text is lost. *)
Lemma lossy_nonempty b l : from_utf8_lossy (b :: l) ≠ [].
Proof.
  unfold from_utf8_lossy. cbn [length lossy_go]. destruct (utf8_step b l) as [[] n]; done.
Qed.
