(* ===== verification/TapSetup.v ===== *)
(** * The tap device of an isolation (socket/src/setup_tap.rs)

    The TCP service creates its tap device by running commands under sudo, and
    removes it when the service is dropped.  A command is its argument vector;
    running one is the operation of [HostCommands], over the state [H] of the
    machine. *)
From Stdlib Require Import Ascii String.
From S2P Require Import Prelude Bytes Ipv4.
Local Open Scope Z_scope.

(** as_hostcall/src/types.rs *)
Record NetdevName : Type := mk_netdev { name : string; subnet : Z; mask : Z }.

Abbreviation Command := (list string).

(** What a child leaves: whether it succeeded, and its output streams. *)
Record Finished : Type := mk_finished { success : bool; out : string; err : string }.

Class HostCommands (H : Type) : Type := {
  (** [env::var] *)
  env_var : string → H → option string;
  (** [spawn], the password written to its standard input, [wait]; [None] when
      the process cannot be started, written to or waited for. *)
  run_command : Command → string → H → option Finished * H
}.

(** The text of the error: command, standard error and standard output. *)
Record CommandFailed : Type := mk_failed { f_command : Command; f_err : string; f_out : string }.

Section setup.
Context {H : Type} {HC : HostCommands H}.

Definition gen_sudo_command : Command := ["sudo"; "-S"].

Definition gen_tap_setup (netdev_name : NetdevName) : prog H (list Command) :=
  let subnet_mask_str := show_ipv4 netdev_name.(subnet) +:+ "/" +:+ pretty netdev_name.(mask) in
  let ipv4_mask_str :=
    let ipaddr := match octets netdev_name.(subnet) with
                  | [a; b; c; _] => ipv4_new a b c 100
                  | _ => netdev_name.(subnet)
                  end in
    show_ipv4 ipaddr +:+ "/" +:+ pretty netdev_name.(mask) in
  user ← gets (env_var "USER");
  user ← unwrap user;
  mret [ gen_sudo_command ++
           ["ip"; "tuntap"; "add"; "name"; netdev_name.(name); "mode"; "tap"; "user"; user];
         gen_sudo_command ++ ["ip"; "link"; "set"; netdev_name.(name); "up"];
         gen_sudo_command ++ ["ip"; "addr"; "add"; ipv4_mask_str; "dev"; netdev_name.(name)];
         gen_sudo_command ++
           ["iptables"; "-t"; "nat"; "-A"; "POSTROUTING"; "-s"; subnet_mask_str; "-j"; "MASQUERADE"];
         gen_sudo_command ++
           ["iptables"; "-A"; "FORWARD"; "-i"; netdev_name.(name); "-s"; subnet_mask_str; "-j"; "ACCEPT"];
         gen_sudo_command ++
           ["iptables"; "-A"; "FORWARD"; "-o"; netdev_name.(name); "-d"; subnet_mask_str; "-j"; "ACCEPT"] ].

Fixpoint run_commands (passwd : string) (commands : list Command) :
    prog H (result () CommandFailed) :=
  match commands with
  | [] => mret (Ok ())
  | comd :: commands => λ h,
      match run_command comd passwd h with
      | (None, h') => (Panic, h')
      | (Some child, h') =>
          if child.(success) then run_commands passwd commands h'
          else (Ret (Err (mk_failed comd child.(err) child.(out))), h')
      end
  end.

(** [str::ends_with('\n')] *)
Definition newline : ascii := Ascii.ascii_of_nat 10.
Fixpoint ends_with_newline (s : string) : bool :=
  match s with
  | EmptyString => false
  | String c EmptyString => Ascii.eqb c newline
  | String _ s => ends_with_newline s
  end.

Definition exec_sudo_commands (commands : list Command) : prog H (result () CommandFailed) :=
  passwd ← gets (env_var "SUDO_PASSWD");
  passwd ← unwrap passwd;
  let passwd := if ends_with_newline passwd then passwd else passwd +:+ String newline "" in
  run_commands passwd commands.

Definition exec_tap_setup (netdev_name : NetdevName) : prog H (result () CommandFailed) :=
  commands ← gen_tap_setup netdev_name;
  exec_sudo_commands commands.

Definition gen_tap_cleanup (netdev_name : NetdevName) : list Command :=
  [ gen_sudo_command ++ ["ip"; "link"; "set"; netdev_name.(name); "down"];
    gen_sudo_command ++ ["ip"; "tuntap"; "del"; "dev"; netdev_name.(name); "mode"; "tap"] ].

Definition exec_tap_cleanup (netdev_name : NetdevName) : prog H (result () CommandFailed) :=
  exec_sudo_commands (gen_tap_cleanup netdev_name).
End setup.

(** ** What the commands do and do not undo *)

(** [iptables -A]: a rule is added. *)
Definition adds_rule (c : Command) : bool :=
  bool_decide (c !! 2%nat = Some "iptables"%string ∧ "-A"%string ∈ c).
(** Any use of [iptables]. *)
Definition uses_iptables (c : Command) : bool := bool_decide (c !! 2%nat = Some "iptables"%string).

(** Setting a device up adds three rules to the firewall; removing it runs no
    [iptables] command, so they stay. *)
Theorem cleanup_leaves_rules {H} {HC : HostCommands H} dev user (h : H) :
  env_var "USER" h = Some user →
  ∃ commands, gen_tap_setup dev h = (Ret commands, h) ∧
    map adds_rule commands = [false; false; false; true; true; true] ∧
    map uses_iptables (gen_tap_cleanup dev) = [false; false].
Proof.
  intros Hu. eexists. split.
  { unfold gen_tap_setup. rewrite (bind_Ret _ _ _ (Some user) h) by (unfold gets; by rewrite Hu).
    reflexivity. }
  split; [|reflexivity]. cbn [map]. unfold adds_rule.
  rewrite !(bool_decide_eq_false_2 (_ ∧ _)) by (cbn; naive_solver).
  rewrite !bool_decide_eq_true_2 by (split; [done|]; cbn; set_solver). done.
Qed.

(** Every command starts with [sudo -S] and nothing else: no [-n]. *)
Theorem sudo_prefix {H} {HC : HostCommands H} dev user (h : H) :
  env_var "USER" h = Some user →
  ∃ commands, gen_tap_setup dev h = (Ret commands, h) ∧
    Forall (λ c : Command, take 2 c = ["sudo"; "-S"] ∧ c !! 2%nat ≠ Some "-n"%string) commands.
Proof.
  intros Hu. eexists. split.
  { unfold gen_tap_setup. rewrite (bind_Ret _ _ _ (Some user) h) by (unfold gets; by rewrite Hu).
    reflexivity. }
  by repeat (constructor; [split; [done|]; cbn; congruence|]).
Qed.
