(* ===== verification/Socket.v ===== *)
(** * The TCP service (common_service/socket)

    Calls over one smoltcp interface and one set of sockets, each behind its
    [std::sync::Mutex], polled by the thread that makes the call.  The smoltcp
    crate is [Smoltcp], over the state [N] of its sockets, its interface and
    the traffic of the device; the bytes a socket exchanges are observed by
    [SmoltcpSpec].  The tap device itself is thread-local: [tid] is the
    thread that makes the call.

    A call holds IFACE from its first line to its return, so calls of different
    threads never overlap; [smol_accept] alone gives it back in between.
    Loops that wait for the network take fuel, one unit per poll. *)
From Stdlib Require Import Ascii String.
From S2P Require Import Prelude Bytes Hostcall Fdtab Ipv4 TapSetup.
Local Open Scope Z_scope.

(** The states of a TCP socket the service tells apart; the others are kept by
    name. *)
Inductive State : Type := Listen | CloseWait | OtherState (name : string).

Definition is_Listen (st : State) : bool := match st with Listen => true | _ => false end.
Definition is_CloseWait (st : State) : bool := match st with CloseWait => true | _ => false end.
Definition show_state (st : State) : string :=
  match st with Listen => "LISTEN" | CloseWait => "CLOSE-WAIT" | OtherState n => n end.

(** [Result<T, GetQueryResultError>], by what the service does with it. *)
Inductive QueryResult : Type :=
  | Addrs (l : list Z)
  | Pending
  | QueryFailed (reason : string).

(** ** The smoltcp crate *)
Class Smoltcp (T N : Type) : Type := {
  (** tcp::Socket *)
  tcp_new : Z → Z → T;
  tcp_state : T → State;
  tcp_is_open : T → bool;
  tcp_is_active : T → bool;
  tcp_may_send : T → bool;
  tcp_may_recv : T → bool;
  tcp_can_recv : T → bool;
  tcp_send_queue : T → Z;
  tcp_local_port : T → option Z;
  tcp_connect : N → SocketAddrV4 → Z → T → result () string * T;
  tcp_listen : Z → T → result () string * T;
  tcp_send_slice : list byte → T → result Z string * T;
  (** [recv(f)]: [f] is applied to the slice [tcp_recv] gives, and the number
      of bytes it returns is taken off the queue by [tcp_dequeue]. *)
  tcp_recv : T → result (list byte) string;
  tcp_dequeue : Z → T → T;
  tcp_close : T → T;
  (** SocketSet: [get_mut::<tcp::Socket>] ([None] is its panic), and the write
      through the reference it gives. *)
  set_add : T → N → Z * N;
  set_get : Z → N → option T;
  set_put : Z → T → N → N;
  (** dns::Socket: add one with the given server, query, poll for the result. *)
  dns_add : Z → N → Z * N;
  dns_start_query : Z → string → N → result Z string * N;
  dns_get_query_result : Z → Z → N → option QueryResult * N;
  set_remove : Z → N → N;
  (** Interface: [new] with its address and route on the device opened under
      the given name; [poll]; and the wait of [try_phy_wait]. *)
  tap_new : string → N → option N;
  iface_new : Z → Z → N → option N;
  iface_do_poll : N → N;
  phy_wait : N → result () string * N;
  (** [rand::random::<u16>()] *)
  random_u16 : N → Z * N;
  (** [File::from_raw_fd(fd)] dropped: the tap device is closed. *)
  close_tap : N → N
}.

(** [NETDEV_NAME] and its poison flag; whether a logger is set; the threads whose
    [DEVICE] exists; [TAP_RAW_FD]; [IFACE] and the poison flags of its lock and of
    [SOCKETS]; and what the locks guard. *)
Record NetState (N : Type) : Type := mk_net {
  netdev_name : option NetdevName;
  netdev_poisoned : bool;
  logger_set : bool;
  devices : gset Z;
  tap_raw_fd : LazyCell;
  iface_cell : LazyCell;
  iface_poisoned : bool;
  sockets_poisoned : bool;
  stack : N
}.
Arguments mk_net {N}.
Arguments netdev_name {N}.
Arguments netdev_poisoned {N}.
Arguments logger_set {N}.
Arguments devices {N}.
Arguments tap_raw_fd {N}.
Arguments iface_cell {N}.
Arguments iface_poisoned {N}.
Arguments sockets_poisoned {N}.
Arguments stack {N}.

(** The module as it is loaded: nothing is initialised. *)
Definition net_start {N} (n : N) : NetState N :=
  mk_net None false false ∅ Uninit Uninit false false n.

Definition set_netdev {N} (d : option NetdevName) (p : bool) (s : NetState N) : NetState N :=
  mk_net d p s.(logger_set) s.(devices) s.(tap_raw_fd) s.(iface_cell)
    s.(iface_poisoned) s.(sockets_poisoned) s.(stack).
Definition set_logger {N} (s : NetState N) : NetState N :=
  mk_net s.(netdev_name) s.(netdev_poisoned) true s.(devices) s.(tap_raw_fd) s.(iface_cell)
    s.(iface_poisoned) s.(sockets_poisoned) s.(stack).
Definition add_device {N} (tid : Z) (s : NetState N) : NetState N :=
  mk_net s.(netdev_name) s.(netdev_poisoned) s.(logger_set) ({[tid]} ∪ s.(devices))
    s.(tap_raw_fd) s.(iface_cell) s.(iface_poisoned) s.(sockets_poisoned) s.(stack).
Definition set_tap_raw_fd {N} (c : LazyCell) (s : NetState N) : NetState N :=
  mk_net s.(netdev_name) s.(netdev_poisoned) s.(logger_set) s.(devices) c s.(iface_cell)
    s.(iface_poisoned) s.(sockets_poisoned) s.(stack).
Definition set_iface_cell {N} (c : LazyCell) (s : NetState N) : NetState N :=
  mk_net s.(netdev_name) s.(netdev_poisoned) s.(logger_set) s.(devices) s.(tap_raw_fd) c
    s.(iface_poisoned) s.(sockets_poisoned) s.(stack).
Definition poison_netdev {N} (s : NetState N) : NetState N := set_netdev s.(netdev_name) true s.
Definition poison_iface {N} (s : NetState N) : NetState N :=
  mk_net s.(netdev_name) s.(netdev_poisoned) s.(logger_set) s.(devices) s.(tap_raw_fd)
    s.(iface_cell) true s.(sockets_poisoned) s.(stack).
Definition poison_sockets {N} (s : NetState N) : NetState N :=
  mk_net s.(netdev_name) s.(netdev_poisoned) s.(logger_set) s.(devices) s.(tap_raw_fd)
    s.(iface_cell) s.(iface_poisoned) true s.(stack).
Definition set_stack {N} (n : N) (s : NetState N) : NetState N :=
  mk_net s.(netdev_name) s.(netdev_poisoned) s.(logger_set) s.(devices) s.(tap_raw_fd)
    s.(iface_cell) s.(iface_poisoned) s.(sockets_poisoned) n.

Section socket.
Context {T N : Type} {SM : Smoltcp T N} {HC : HostCommands N}.
(** The id of the isolation, and the calling thread. *)
Context (isol_id tid : Z).
Local Abbreviation M := (prog (NetState N)).

(** Code over what the locks guard. *)
Definition stacked {A} (m : prog N A) : M A := on stack set_stack m.
(** A call of the crate. *)
Definition smol {A} (f : N → A * N) : M A := stacked (λ n, let '(a, n') := f n in (Ret a, n')).

(** Code under a [MutexGuard]: a panic sets the lock's poison flag. *)
Definition poisoning {A} (poison : NetState N → NetState N) (m : M A) : M A := λ s,
  match m s with
  | (Panic, s') => (Panic, poison s')
  | r => r
  end.

(** ** Bringing the device up (lib.rs) *)

(** The initialiser of [DEVICE].  A panic under the guard of [NETDEV_NAME]
    poisons it. *)
Definition device_name : NetdevName :=
  mk_netdev ("tap-" +:+ pretty isol_id) (ipv4_new 192 168 69 0) 24.
Definition device_open (dev : NetdevName) : M () :=
  r ← stacked (exec_tap_setup dev);
  unwrap_ok r;;
  n ← gets stack;
  n ← unwrap (tap_new dev.(name) n);
  modify (λ s, add_device tid (set_stack n s)).
Definition device_init : M () :=
  was_set ← gets logger_set;
  assert (negb was_set);;
  modify set_logger;;
  poisoned ← gets netdev_poisoned;
  assert (negb poisoned);;
  dev ← gets (λ s, default device_name s.(netdev_name));
  modify (set_netdev (Some dev) false);;
  poisoning poison_netdev (device_open dev).

(** [DEVICE.with]: the first use by a thread runs the initialiser. *)
Definition with_device {A} (m : M A) : M A :=
  devs ← gets devices;
  (if decide (tid ∈ devs) then mret () else device_init);;
  m.

Definition get_tap_raw_fd : M () := force tap_raw_fd set_tap_raw_fd (with_device (mret ())).

Definition force_iface : M () :=
  force iface_cell set_iface_cell (with_device (λ s,
    match iface_new (ipv4_new 192 168 69 1) (ipv4_new 192 168 69 100) s.(stack) with
    | Some n => (Ret (), set_stack n s)
    | None => (Panic, s)
    end)).

Definition poison_msg : string := "poisoned lock: another task failed inside".

(** [Mutex::lock().map_err(..)?] with the rest of the call under the guard. *)
Definition under_lock {A} (lock : string) (poisoned : NetState N → bool)
    (poison : NetState N → NetState N) (fail : SmoltcpError → A) (m : M A) : M A := λ s,
  if poisoned s then (Ret (fail (SmolAcquireLockErr lock poison_msg)), s)
  else poisoning poison m s.

Definition acquire_iface {A} (fail : SmoltcpError → A) (m : M A) : M A :=
  force_iface;; under_lock "IFACE" iface_poisoned poison_iface fail m.
Definition acquire_sockets {A} (fail : SmoltcpError → A) (m : M A) : M A :=
  under_lock "SOCKETS" sockets_poisoned poison_sockets fail m.

Definition iface_poll : M () := with_device (stacked (modify iface_do_poll)).

Definition try_phy_wait : M (result () SmoltcpError) :=
  get_tap_raw_fd;;
  r ← smol phy_wait;
  mret (map_err SmolHostIOErr r).

(** [sockets.get_mut::<tcp::Socket>(from_sockfd(handle))]; [SocketHandle] is the
    [usize] of the descriptor. *)
Definition get_mut (handle : SockFd) : M T :=
  n ← gets stack;
  unwrap (set_get handle n).
Definition put_sock (handle : SockFd) (sock : T) : M () :=
  stacked (modify (set_put handle sock)).
Definition add_sock (sock : T) : M Z := smol (set_add sock).
(** [handle as SockFd]: descriptors are 32 bits wide. *)
Definition to_sockfd (handle : Z) : SockFd := wrap 32 handle.

(** ** The calls (apis.rs) *)

(** The poll loop of [addrinfo], under the guard of IFACE: SOCKETS is taken again
    for each round. *)
Fixpoint addrinfo_loop (fuel : nat) (dns_handle query : Z) : M (result Z SmoltcpError) :=
  match fuel with
  | O => out_of_fuel
  | S fuel =>
      done ←? acquire_sockets Err (
        iface_poll;;
        r ← smol (dns_get_query_result dns_handle query);
        r ← unwrap r;
        match r with
        | Addrs [] => mret (Err DNSQueryFailed)
        | Addrs (addr :: _) => stacked (modify (set_remove dns_handle));; mret (Ok (Some addr))
        | QueryFailed e => mret (Err (SmoltcpErr e))
        | Pending => try_phy_wait;;? mret (Ok None)
        end);
      match done with
      | Some addr => mret (Ok addr)
      | None => addrinfo_loop fuel dns_handle query
      end
  end.
Definition addrinfo (fuel : nat) (name : string) : M (result Z SmoltcpError) :=
  acquire_iface Err (
    hq ←? acquire_sockets Err (
      dns_handle ← smol (dns_add (ipv4_new 114 114 114 114));
      query ← smol (dns_start_query dns_handle name);
      mret (match query with Ok q => Ok (dns_handle, q) | Err _ => Err DNSQueryFailed end));
    addrinfo_loop fuel hq.1 hq.2).

Definition smol_connect (sockaddr : SocketAddrV4) : M (result SockFd SmoltcpError) :=
  acquire_iface Err (acquire_sockets Err (
    tcp_handle ← add_sock (tcp_new 1024 1024);
    tcp_socket ← get_mut tcp_handle;
    if tcp_is_active tcp_socket
    then mret (Err (BadTCPState "is_active" (show_state (tcp_state tcp_socket))))
    else
      r ← smol random_u16;
      local_port ← checked 16 (49152 + r mod 16384);
      cx ← gets stack;
      let '(r, tcp_socket) := tcp_connect cx sockaddr local_port tcp_socket in
      put_sock tcp_handle tcp_socket;;
      mret (match r with Ok _ => Ok (to_sockfd tcp_handle) | Err e => Err (SmoltcpErr e) end))).

(** The [if socket.may_send()] of a round; the new cursor. *)
Definition send_some (handle : SockFd) (socket : T) (data : list byte) (cursor : Z) :
    M (result Z SmoltcpError) :=
  if tcp_may_send socket then
    rest ← unwrap (slice data cursor (zlen data - cursor));
    let '(r, socket) := tcp_send_slice rest socket in
    put_sock handle socket;;
    match r with
    | Ok n => cursor ← checked 64 (cursor + n); mret (Ok cursor)
    | Err e => mret (Err (SmoltcpErr e))
    end
  else mret (Ok cursor).

Fixpoint send_loop (fuel : nat) (handle : SockFd) (data : list byte) (cursor : Z) :
    M (result () SmoltcpError) :=
  match fuel with
  | O => out_of_fuel
  | S fuel =>
      iface_poll;;
      socket ← get_mut handle;
      cursor ←? send_some handle socket data cursor;
      if cursor =? zlen data then mret (Ok ())
      else try_phy_wait;;? send_loop fuel handle data cursor
  end.
Definition smol_send (fuel : nat) (handle : SockFd) (data : list byte) :
    M (result () SmoltcpError) :=
  acquire_iface Err (acquire_sockets Err (send_loop fuel handle data 0)).

(** One pass of the closure given to [recv]: the bytes that fit go to the
    buffer, and their number to the socket. *)
Definition recv_data (handle : SockFd) (socket : T) (buf : list byte) (cursor : Z) :
    M (result (Z * list byte) SmoltcpError) :=
  match tcp_recv socket with
  | Err e => mret (Err (SmoltcpErr e))
  | Ok data =>
      room ← checked 64 (zlen buf - cursor);
      let size := Z.min room (zlen data) in
      piece ← unwrap (slice data 0 size);
      buf ← unwrap (splice buf cursor piece);
      cursor ← checked 64 (cursor + size);
      _ ← checked 64 (zlen buf - cursor);
      put_sock handle (tcp_dequeue size socket);;
      mret (Ok (cursor, buf))
  end.

Fixpoint recv_loop (fuel : nat) (handle : SockFd) (buf : list byte) (cursor : Z) :
    M (result Z SmoltcpError * list byte) :=
  match fuel with
  | O => out_of_fuel
  | S fuel =>
      iface_poll;;
      tcp_socket ← get_mut handle;
      if negb (cursor =? 0) || negb (tcp_may_recv tcp_socket) || is_CloseWait (tcp_state tcp_socket)
      then mret (Ok cursor, buf)
      else
        r ← (if tcp_can_recv tcp_socket then recv_data handle tcp_socket buf cursor
             else mret (Ok (cursor, buf)));
        match r with
        | Err e => mret (Err e, buf)
        | Ok (cursor, buf) =>
            w ← try_phy_wait;
            match w with
            | Err e => mret (Err e, buf)
            | Ok _ => recv_loop fuel handle buf cursor
            end
        end
  end.
Definition smol_recv (fuel : nat) (handle : SockFd) (buf : list byte) :
    M (result Z SmoltcpError * list byte) :=
  acquire_iface (λ e, (Err e, buf)) (acquire_sockets (λ e, (Err e, buf))
    (recv_loop fuel handle buf 0)).

Fixpoint close_loop (fuel : nat) (handle : SockFd) (has_close : bool) :
    M (result () SmoltcpError) :=
  match fuel with
  | O => out_of_fuel
  | S fuel =>
      r ←? acquire_sockets Err (
        iface_poll;;
        tcp_socket ← get_mut handle;
        let closing := negb has_close && (tcp_send_queue tcp_socket =? 0) in
        (if closing then put_sock handle (tcp_close tcp_socket) else mret ());;
        tcp_socket ← get_mut handle;
        if negb (tcp_is_open tcp_socket) then mret (Ok None)
        else try_phy_wait;;? mret (Ok (Some (has_close || closing))));
      match r with
      | None => mret (Ok ())
      | Some has_close => close_loop fuel handle has_close
      end
  end.
Definition smol_close (fuel : nat) (handle : SockFd) : M (result () SmoltcpError) :=
  acquire_iface Err (close_loop fuel handle false).

Definition smol_bind (addr : SocketAddrV4) : M (result SockFd SmoltcpError) :=
  acquire_iface Err (acquire_sockets Err (
    tcp_handle ← add_sock (tcp_new 64 128);
    iface_poll;;
    socket ← get_mut tcp_handle;
    if tcp_is_open socket
    then mret (Err (BadTCPState "is_open" (show_state (tcp_state socket))))
    else
      let '(r, socket) := tcp_listen addr.(port) socket in
      put_sock tcp_handle socket;;
      mret (match r with Ok _ => Ok (to_sockfd tcp_handle) | Err e => Err (SmoltcpErr e) end))).

Fixpoint accept_loop (fuel : nat) (handle : SockFd) : M (result T SmoltcpError) :=
  match fuel with
  | O => out_of_fuel
  | S fuel =>
      iface_poll;;
      listened_sock ← get_mut handle;
      if negb (is_Listen (tcp_state listened_sock)) then mret (Ok listened_sock)
      else try_phy_wait;;? accept_loop fuel handle
  end.
Definition smol_accept (fuel : nat) (handle : SockFd) : M (result SockFd SmoltcpError) :=
  local_port ←? acquire_iface Err (acquire_sockets Err (
    conned_sock ←? accept_loop fuel handle;
    mret (match tcp_local_port conned_sock with
          | Some p => Ok p
          | None => Err NoLocalEndpoint
          end)));
  smol_bind (mk_addr (ipv4_new 0 0 0 0) local_port).

(** ** Dropping the service (drop_tap.rs) *)
Definition drop_device : M () :=
  dev ← gets netdev_name;
  match dev with
  | None => mret ()
  | Some dev =>
      get_tap_raw_fd;;
      stacked (modify close_tap);;
      r ← stacked (exec_tap_cleanup dev);
      unwrap_ok r
  end.
(** [NETDEV_NAME.try_lock().unwrap()], and the rest under that guard. *)
Definition drop_tap : M () :=
  poisoned ← gets netdev_poisoned;
  assert (negb poisoned);;
  poisoning poison_netdev drop_device.
End socket.
