(* ===== verification/SocketSpec.v ===== *)
(** * Properties of the TCP service

    [SmoltcpSpec] is what the smoltcp crate promises about sockets and polls; the
    calls are proved against it.  [safe m Q s] is the judgement for code that
    may wait for the network for ever: if [m] returns, [Q] holds, and it neither
    panics nor deadlocks. *)
From Stdlib Require Import Ascii String.
From S2P Require Import Prelude Bytes Hostcall Fdtab Ipv4 TapSetup Socket.
Local Open Scope Z_scope.

(** [n'] has the sockets of [n], at the same handles, in as many slots. *)
Definition same_sockets {T N} {SM : Smoltcp T N} (slots : N → Z) (n n' : N) : Prop :=
  (∀ h, set_get h n' = set_get h n) ∧ slots n' = slots n.

(** The laws of the crate.  [slots n] counts the slots of the set.  [tx t] is every byte [send_slice] has accepted and
    [rx t] the bytes received and not yet taken: observers of the crate's
    queues.  [asked h q n]: query [q] of the DNS socket [h] is outstanding. *)
Class SmoltcpSpec (T N : Type) {SM : Smoltcp T N} : Type := {
  slots : N → Z;
  tx : T → list byte;
  rx : T → list byte;
  asked : Z → Z → N → Prop;
  get_put : ∀ h t t' n, set_get h n = Some t → set_get h (set_put h t' n) = Some t';
  get_put_ne : ∀ h h' t n, h ≠ h' → set_get h' (set_put h t n) = set_get h' n;
  slots_put : ∀ h t n, slots (set_put h t n) = slots n;
  (** [add] takes a free slot, or one more. *)
  add_fresh : ∀ t n h n', set_add t n = (h, n') →
    0 ≤ h ≤ slots n ∧ slots n ≤ slots n' ≤ slots n + 1 ∧
    set_get h n = None ∧ set_get h n' = Some t ∧
    ∀ h', h' ≠ h → set_get h' n' = set_get h' n;
  poll_socket : ∀ h t n, set_get h n = Some t →
    ∃ t' more, set_get h (iface_do_poll n) = Some t' ∧ tx t' = tx t ∧ rx t' = rx t ++ more;
  slots_poll : ∀ n, slots (iface_do_poll n) = slots n;
  wait_same : ∀ n, same_sockets slots n (phy_wait n).2;
  random_same : ∀ n, same_sockets slots n (random_u16 n).2;
  random_range : ∀ n, 0 ≤ (random_u16 n).1;
  send_accepts : ∀ d t, tcp_may_send t = true → ∃ k t',
    tcp_send_slice d t = (Ok k, t') ∧ 0 ≤ k ≤ zlen d ∧
    tx t' = tx t ++ take (Z.to_nat k) d ∧ rx t' = rx t;
  can_recv_rx : ∀ t, tcp_can_recv t = true ↔ rx t ≠ [];
  recv_slice : ∀ t, tcp_can_recv t = true → ∃ d rest,
    tcp_recv t = Ok d ∧ rx t = d ++ rest ∧ d ≠ [] ∧ zlen d < 2 ^ 64;
  (** [listening t]: the port a socket listens on. *)
  listening : T → option Z;
  listen_port : ∀ p t r t', tcp_listen p t = (Ok r, t') →
    is_Listen (tcp_state t') = true ∧ listening t' = Some p;
  dequeue_rx : ∀ k t, 0 ≤ k ≤ zlen (rx t) →
    rx (tcp_dequeue k t) = drop (Z.to_nat k) (rx t) ∧ tx (tcp_dequeue k t) = tx t;
  dns_add_get : ∀ s n, (∀ h, set_get h (dns_add s n).2 = set_get h n) ∧
    slots (dns_add s n).2 ≤ slots n + 1;
  dns_query_same : ∀ h q n, same_sockets slots n (dns_start_query h q n).2;
  dns_query_asked : ∀ h name n q, (dns_start_query h name n).1 = Ok q →
    asked h q (dns_start_query h name n).2;
  asked_poll : ∀ h q n, asked h q n → asked h q (iface_do_poll n);
  asked_wait : ∀ h q n, asked h q n → asked h q (phy_wait n).2;
  dns_answer : ∀ h q n, asked h q n → ∃ r n',
    dns_get_query_result h q n = (Some r, n') ∧ same_sockets slots n n' ∧
    (r = Pending → asked h q n') ∧ same_sockets slots n' (set_remove h n')
}.

(** ** Code that may wait for ever *)
Section safe.
Context {S : Type}.

Definition safe {A} (m : prog S A) (Q : A → S → Prop) (s : S) : Prop :=
  match m s with
  | (Ret a, s') => Q a s'
  | (NoFuel, _) => True
  | _ => False
  end.

Lemma safe_ret {A} (a : A) (Q : A → S → Prop) s : Q a s → safe (mret a) Q s.
Proof. done. Qed.

Lemma safe_bind {A B} (m : prog S A) (k : A → prog S B) Q s :
  safe m (λ a s', safe (k a) Q s') s → safe (m ≫= k) Q s.
Proof. unfold safe, mbind, prog_mbind. by destruct (m s) as [[]]. Qed.

Lemma safe_try {A B E} (m : prog S (result A E)) (k : A → prog S (result B E))
    (Q : result B E → S → Prop) s :
  safe m (λ r s', match r with Ok a => safe (k a) Q s' | Err e => Q (Err e) s' end) s →
  safe (try_bind m k) Q s.
Proof. unfold safe, try_bind, mbind, prog_mbind. by destruct (m s) as [[[]| | |]]. Qed.

Lemma safe_mono {A} (m : prog S A) (P Q : A → S → Prop) s :
  safe m P s → (∀ a s', P a s' → Q a s') → safe m Q s.
Proof. unfold safe. destruct (m s) as [[]]; naive_solver. Qed.

Lemma safe_wp {A} (m : prog S A) (Q : A → S → Prop) s : wp m Q s → safe m Q s.
Proof. unfold safe, wp. by destruct (m s) as [[]]. Qed.

Lemma safe_inv {A} (m : prog S A) (Q : A → S → Prop) s a s' :
  safe m Q s → m s = (Ret a, s') → Q a s'.
Proof. unfold safe. by intros H E; rewrite E in H. Qed.

Lemma safe_no_panic {A} (m : prog S A) (Q : A → S → Prop) s :
  safe m Q s → (m s).1 ≠ Panic ∧ (m s).1 ≠ Deadlock.
Proof. unfold safe. by destruct (m s) as [[]]. Qed.
End safe.

Section spec.
Context {T N : Type} {SM : Smoltcp T N} {SP : SmoltcpSpec T N} {HC : HostCommands N}.
Context (isol_id tid : Z).
Implicit Types (s : NetState N) (t : T) (n : N).

(** The service is up for thread [tid]: its device exists, nothing is poisoned. *)
Record up s : Prop := {
  up_iface : s.(iface_cell) = Ready;
  up_device : tid ∈ s.(devices);
  up_tap : s.(tap_raw_fd) ≠ LazyPoisoned;
  up_iface_lock : s.(iface_poisoned) = false;
  up_sockets_lock : s.(sockets_poisoned) = false
}.

(** ** The primitives on a service that is up *)

Lemma up_set_stack s n : up s → up (set_stack n s).
Proof. by intros []; constructor. Qed.

Lemma iface_poll_eq s : up s →
  iface_poll isol_id tid s = (Ret (), set_stack (iface_do_poll s.(stack)) s).
Proof.
  intros H. unfold iface_poll, with_device, mbind, prog_mbind, gets.
  rewrite decide_True by apply H. done.
Qed.

Lemma try_phy_wait_eq s : up s → ∃ s',
  try_phy_wait isol_id tid s = (Ret (map_err SmolHostIOErr (phy_wait s.(stack)).1), s') ∧
  up s' ∧ s'.(stack) = (phy_wait s.(stack)).2.
Proof.
  intros H. destruct H as [Hi Hd Ht Hl Hk].
  unfold try_phy_wait, get_tap_raw_fd, force, with_device, mbind, prog_mbind, gets.
  destruct (tap_raw_fd s) eqn:E; [|..]; try done.
  - rewrite decide_True by done. unfold mret, prog_mret. unfold smol, stacked, on.
    change (stack (set_tap_raw_fd Ready s)) with (stack s).
    destruct (phy_wait (stack s)) as [r n] eqn:Ew. eexists. split; [done|]. by split.
  - unfold smol, stacked, on. destruct (phy_wait (stack s)) as [r n] eqn:Ew.
    eexists. split; [done|]. split; [|done]. constructor; cbn; congruence.
Qed.

Lemma acquire_sockets_safe {A} (fail : SmoltcpError → A) (m : prog (NetState N) A) Q s : up s →
  safe m Q s → safe (acquire_sockets fail m) Q s.
Proof.
  intros [_ _ _ _ Hk] Hm. unfold safe, acquire_sockets, under_lock, poisoning in *.
  rewrite Hk. by destruct (m s) as [[]].
Qed.

Lemma acquire_iface_eq {A} (fail : SmoltcpError → A) (m : prog (NetState N) A) s : up s →
  acquire_iface isol_id tid fail m s = poisoning poison_iface m s.
Proof.
  intros [Hi _ _ Hl _]. unfold acquire_iface, mbind, prog_mbind, force_iface, force.
  rewrite Hi. unfold under_lock. by rewrite Hl.
Qed.

Lemma acquire_iface_safe {A} (fail : SmoltcpError → A) (m : prog (NetState N) A) Q s : up s →
  safe m Q s → safe (acquire_iface isol_id tid fail m) Q s.
Proof.
  intros Hup Hm. unfold safe. rewrite acquire_iface_eq by done.
  unfold safe, poisoning in *. by destruct (m s) as [[]].
Qed.

(** ** Sockets stay in the set *)

(** Every handle of [n] is a handle of [n'], and the set has grown by at most
    [k] slots. *)
Definition grown (k : Z) n n' : Prop :=
  (∀ h, is_Some (set_get h n) → is_Some (set_get h n')) ∧ slots n' ≤ slots n + k.
Definition handles_kept : N → N → Prop := grown 0.

Lemma grown_trans k k' n1 n2 n3 : grown k n1 n2 → grown k' n2 n3 → grown (k + k') n1 n3.
Proof. intros [H1 L1] [H2 L2]. split; [|lia]. intros h Hh. by apply H2, H1. Qed.

Lemma grown_kept k n1 n2 n3 : grown k n1 n2 → handles_kept n2 n3 → grown k n1 n3.
Proof. intros H1 H2. rewrite <- (Z.add_0_r k). by eapply grown_trans. Qed.

Lemma kept_grown k n1 n2 n3 : handles_kept n1 n2 → grown k n2 n3 → grown k n1 n3.
Proof. intros H1 H2. rewrite <- (Z.add_0_l k). by eapply grown_trans. Qed.

#[local] Instance handles_kept_preorder : PreOrder handles_kept.
Proof.
  split; [intros n; by split; [|lia]|]. intros n1 n2 n3 H1 H2. by eapply grown_kept.
Qed.

Lemma poll_kept n : handles_kept n (iface_do_poll n).
Proof.
  split; [|rewrite slots_poll; lia]. intros h [t Ht].
  destruct (poll_socket h t n Ht) as (t' & more & E & _). by rewrite E.
Qed.

Lemma put_kept h t t' n : set_get h n = Some t → handles_kept n (set_put h t' n).
Proof.
  intros Ht. split; [|rewrite slots_put; lia]. intros h' Hh'. destruct (decide (h = h')) as [<-|].
  - by rewrite (get_put h t).
  - by rewrite get_put_ne.
Qed.

Lemma same_kept n n' : same_sockets slots n n' → handles_kept n n'.
Proof. intros [E L]. split; [|lia]. intros h. by rewrite E. Qed.

Lemma same_get n n' h : same_sockets slots n n' → set_get h n' = set_get h n.
Proof. by intros [E _]. Qed.

Lemma add_kept t n h n' : set_add t n = (h, n') → grown 1 n n'.
Proof.
  intros E. destruct (add_fresh t n h n' E) as (_ & Hs & Hnone & _ & Hne).
  split; [|lia]. intros h' Hh'.
  destruct (decide (h' = h)) as [->|]; [|by rewrite Hne].
  rewrite Hnone in Hh'. by apply is_Some_None in Hh'.
Qed.

Lemma safe_get_mut {A} s h t (k : T → prog (NetState N) A) Q : set_get h s.(stack) = Some t →
  safe (k t) Q s → safe (sock ← get_mut h; k sock) Q s.
Proof.
  intros Ht Hk. unfold safe, get_mut, mbind, prog_mbind, gets in *. by rewrite Ht.
Qed.

(** What one round of a loop starts with: a poll, then the socket. *)
Lemma safe_polled {A} s h t (k : T → prog (NetState N) A) Q : up s → set_get h s.(stack) = Some t →
  (∀ t' more s', up s' → s'.(stack) = iface_do_poll s.(stack) → set_get h s'.(stack) = Some t' →
     tx t' = tx t → rx t' = rx t ++ more → safe (k t') Q s') →
  safe (iface_poll isol_id tid;; sock ← get_mut h; k sock) Q s.
Proof.
  intros Hup Ht Hk. destruct (poll_socket h t _ Ht) as (t' & more & E & Etx & Erx).
  apply safe_bind. unfold safe at 1. rewrite iface_poll_eq by done.
  apply (safe_get_mut _ h t'); [done|].
  apply (Hk t' more); try done. by apply up_set_stack.
Qed.

(** What it ends with: a wait. *)
Lemma safe_waited {A} s (k : prog (NetState N) (result A SmoltcpError)) Q : up s →
  (∀ e s', up s' → same_sockets slots s.(stack) s'.(stack) → Q (Err e) s') →
  (∀ s', up s' → s'.(stack) = (phy_wait s.(stack)).2 →
     same_sockets slots s.(stack) s'.(stack) → safe k Q s') →
  safe (try_phy_wait isol_id tid;;? k) Q s.
Proof.
  intros Hup Herr Hk. apply safe_try. destruct (try_phy_wait_eq s Hup) as (s' & E & Hup' & En).
  assert (same_sockets slots s.(stack) s'.(stack)) as Hsame by (rewrite En; apply wait_same).
  unfold safe at 1. rewrite E. destruct (phy_wait (stack s)).1; cbn [map_err]; [by apply Hk|].
  by apply Herr.
Qed.

Lemma put_sock_eq h t s : put_sock h t s = (Ret (), set_stack (set_put h t s.(stack)) s).
Proof. done. Qed.

(** ** smol_send *)

(** What [smol_send] leaves: the socket's old bytes and then a prefix of the
    data, all of it if it succeeds. *)
Definition sent (h : Z) (base data : list byte) (r : result () SmoltcpError) s : Prop :=
  ∃ t, set_get h s.(stack) = Some t ∧
    match r with
    | Ok _ => tx t = base ++ data
    | Err _ => ∃ k, tx t = base ++ take k data
    end.

Lemma take_take_app (data : list byte) c k : 0 ≤ c → 0 ≤ k →
  take (Z.to_nat c) data ++ take (Z.to_nat k) (drop (Z.to_nat c) data) = take (Z.to_nat (c + k)) data.
Proof. intros Hc Hk. rewrite Z2Nat.inj_add by done. by rewrite take_take_drop. Qed.

Lemma slice_to_end (data : list byte) c : 0 ≤ c ≤ zlen data →
  slice data c (zlen data - c) = Some (drop (Z.to_nat c) data).
Proof.
  intros Hc. rewrite slice_ok by (unfold zlen in *; lia). f_equal.
  unfold sub. rewrite take_ge; [done|]. rewrite length_drop. unfold zlen in *. lia.
Qed.

Lemma send_some_safe h data base c t s : up s → zlen data < 2 ^ 64 →
  0 ≤ c ≤ zlen data → set_get h s.(stack) = Some t → tx t = base ++ take (Z.to_nat c) data →
  wp (send_some h t data c) (λ r s', up s' ∧ handles_kept s.(stack) s'.(stack) ∧
    ∃ t', set_get h s'.(stack) = Some t' ∧
      match r with
      | Ok c' => c ≤ c' ≤ zlen data ∧ tx t' = base ++ take (Z.to_nat c') data
      | Err _ => False
      end) s.
Proof.
  intros Hup Hd Hc Ht Htx. unfold send_some. destruct (tcp_may_send t) eqn:Hms.
  2:{ apply wp_ret. split_and!; [done..|]. exists t. split_and!; by try lia. }
  apply wp_bind. rewrite slice_to_end by done. apply wp_ret.
  destruct (send_accepts (drop (Z.to_nat c) data) t Hms) as (k & t' & E & Hk & Htx' & _).
  rewrite E. apply wp_bind. unfold wp at 1. rewrite put_sock_eq.
  assert (zlen (drop (Z.to_nat c) data) = zlen data - c) as Hlen
    by (unfold zlen in *; rewrite length_drop; lia).
  apply wp_bind, wp_checked; [unfold fits; lia|]. apply wp_ret.
  split_and!; [by apply up_set_stack|by eapply put_kept|].
  exists t'. split_and!; [by eapply get_put|lia|lia|].
  by rewrite Htx', Htx, <- app_assoc, take_take_app by lia.
Qed.

Lemma send_loop_safe fuel h data base c t s : up s → zlen data < 2 ^ 64 →
  0 ≤ c ≤ zlen data → set_get h s.(stack) = Some t → tx t = base ++ take (Z.to_nat c) data →
  safe (send_loop isol_id tid fuel h data c)
    (λ r s', up s' ∧ handles_kept s.(stack) s'.(stack) ∧ sent h base data r s') s.
Proof.
  intros Hup Hd. revert c t s Hup. induction fuel as [|fuel IH]; intros c t s Hup Hc Ht Htx; [done|].
  cbn [send_loop]. apply (safe_polled s h t); [done..|].
  intros t1 more s1 Hup1 Es1 Ht1 Htx1 _.
  assert (handles_kept s.(stack) s1.(stack)) as Hk1 by (rewrite Es1; apply poll_kept).
  rewrite <- Htx1 in Htx. apply safe_try. eapply safe_mono; [by eapply safe_wp, send_some_safe|].
  intros r s2 (Hup2 & Hk2 & t2 & Ht2 & Hr). destruct r as [c2|e]; [|done]. destruct Hr as [Hc2 Htx2].
  destruct (Z.eqb_spec c2 (zlen data)) as [->|Hne].
  - apply safe_ret. split_and!; [done|by etrans|]. exists t2. split; [done|].
    by rewrite Htx2, take_ge by (unfold zlen; lia).
  - apply safe_waited; [done| |].
    + intros e s3 Hup3 Hsame. split_and!; [done|by etrans; [|etrans; [|apply same_kept]]|].
      exists t2. rewrite (same_get _ _ h Hsame). eauto.
    + intros s3 Hup3 _ Hsame.
      eapply safe_mono; [apply (IH c2 t2); try done; [lia|by rewrite (same_get _ _ h Hsame)]|].
      intros r s4 (Hup4 & Hk4 & Hs4). split_and!; try done.
      etrans; [exact Hk1|]. etrans; [exact Hk2|]. etrans; [by apply same_kept|exact Hk4].
Qed.

(** A network that takes the data: at each round of a state in [P] the socket
    may send, takes a byte, and the wait leads to [P] again. *)
Definition drains (h : Z) (P : N → Prop) : Prop := ∀ n d, P n → d ≠ [] →
  ∃ t k t', set_get h (iface_do_poll n) = Some t ∧ tcp_may_send t = true ∧
    tcp_send_slice d t = (Ok k, t') ∧ 0 < k ≤ zlen d ∧
    (phy_wait (set_put h t' (iface_do_poll n))).1 = Ok () ∧
    P (phy_wait (set_put h t' (iface_do_poll n))).2.

Lemma send_loop_completes P fuel h data c s : drains h P → up s → zlen data < 2 ^ 64 →
  0 ≤ c < zlen data → P s.(stack) → (length data - Z.to_nat c < fuel)%nat →
  ∃ s', send_loop isol_id tid fuel h data c s = (Ret (Ok ()), s').
Proof.
  intros HP Hup Hd. revert c s Hup. induction fuel as [|fuel IH]; intros c s Hup Hc Hs Hf; [lia|].
  assert (zlen (drop (Z.to_nat c) data) = zlen data - c) as Hlen
    by (unfold zlen in *; rewrite length_drop; lia).
  destruct (HP (stack s) (drop (Z.to_nat c) data) Hs) as (t & k & t' & Ht & Hms & E & Hk & Hw & HP').
  { intros E. rewrite E in Hlen. unfold zlen in Hlen at 1. cbn in Hlen. lia. }
  cbn [send_loop]. rewrite (bind_Ret _ _ _ () _ (iface_poll_eq s Hup)).
  erewrite bind_Ret by (unfold get_mut, mbind, prog_mbind, gets; cbn [stack set_stack]; by rewrite Ht).
  set (s1 := set_stack (iface_do_poll (stack s)) s).
  assert (send_some h t data c s1 = (Ret (Ok (c + k)), set_stack (set_put h t' s1.(stack)) s1)) as Es.
  { unfold send_some. rewrite Hms, slice_to_end by lia. erewrite bind_Ret by reflexivity. rewrite E.
    rewrite (bind_Ret _ _ _ () _ (put_sock_eq h t' s1)).
    by rewrite (bind_Ret _ _ _ _ _ (checked_fits 64 (c + k) _ ltac:(unfold fits; lia))). }
  rewrite (try_bind_Ok _ _ _ _ _ Es). set (s2 := set_stack _ s1).
  destruct (Z.eqb_spec (c + k) (zlen data)) as [_|Hne]; [by eexists|].
  assert (up s2) as Hup2 by by apply up_set_stack, up_set_stack.
  destruct (try_phy_wait_eq s2 Hup2) as (s3 & Ew & Hup3 & En).
  change (stack s2) with (set_put h t' (iface_do_poll (stack s))) in Ew, En.
  rewrite Hw in Ew. rewrite (try_bind_Ok _ _ _ _ _ Ew).
  apply IH; [done|lia|by rewrite En|unfold zlen in *; lia].
Qed.

(** ** smol_recv *)

(** After [c] bytes of the stream [q] have been taken: what is left in the
    socket, and the caller's buffer. *)
Definition taken (q buf0 : list byte) (c : Z) (t : T) (buf : list byte) : Prop :=
  0 ≤ c ≤ zlen buf0 ∧ c ≤ zlen q ∧ rx t = drop (Z.to_nat c) q ∧
  buf = take (Z.to_nat c) q ++ drop (Z.to_nat c) buf0.

(** What [smol_recv] leaves: a prefix of the stream moved to the buffer, and the
    count of it; none only at the end of the connection. *)
Definition received (h : Z) (q buf0 : list byte) (r : result Z SmoltcpError * list byte) s : Prop :=
  ∃ t more c, set_get h s.(stack) = Some t ∧ taken (q ++ more) buf0 c t r.2 ∧
    (∀ k, r.1 = Ok k → k = c ∧
       (c = 0 → tcp_may_recv t = false ∨ is_CloseWait (tcp_state t) = true)).

Lemma taken_more q buf0 c t t' buf more : taken q buf0 c t buf → rx t' = rx t ++ more →
  taken (q ++ more) buf0 c t' buf.
Proof.
  intros (Hc & Hq & Hrx & Hbuf) E. unfold taken, zlen in *.
  split_and!; [lia|lia|rewrite length_app; lia| |].
  - by rewrite E, Hrx, drop_app_le by lia.
  - by rewrite take_app_le by lia.
Qed.

Lemma recv_data_safe h q buf0 t buf s : zlen buf0 < 2 ^ 64 → tcp_can_recv t = true →
  set_get h s.(stack) = Some t → taken q buf0 0 t buf →
  wp (recv_data h t buf 0) (λ r s', ∃ n, s' = set_stack n s ∧ handles_kept s.(stack) n ∧
    ∃ t' c buf', r = Ok (c, buf') ∧ set_get h n = Some t' ∧ taken q buf0 c t' buf' ∧
      (buf0 ≠ [] → c ≠ 0)) s.
Proof.
  intros Hlen Hcan Ht (_ & _ & Hrx & ->). rewrite drop_0 in Hrx.
  change (take (Z.to_nat 0) q ++ drop (Z.to_nat 0) buf0) with buf0.
  destruct (recv_slice t Hcan) as (d & rest & E & Hd & Hdne & Hlend). rewrite Hrx in Hd.
  pose proof (zlen_nonneg d) as Hd0. pose proof (zlen_nonneg buf0) as Hb0.
  unfold recv_data. rewrite E. apply wp_bind, wp_checked; [unfold fits; lia|].
  rewrite Z.sub_0_r. set (size := Z.min (zlen buf0) (zlen d)).
  assert (0 ≤ size ≤ zlen buf0 ∧ size ≤ zlen d) as Hs by lia.
  assert (zlen (take (Z.to_nat size) d) = size) as Hlp
    by (unfold zlen in *; rewrite length_take; lia).
  apply wp_bind. rewrite slice_ok by lia. apply wp_ret.
  change (sub d (Z.to_nat 0) (Z.to_nat size)) with (take (Z.to_nat size) d).
  apply wp_bind. rewrite splice_ok by lia. apply wp_ret.
  apply wp_bind, wp_checked; [unfold fits; lia|].
  apply wp_bind, wp_checked; [unfold fits; rewrite zlen_inserts; lia|].
  apply wp_bind. unfold wp at 1. rewrite put_sock_eq. apply wp_ret.
  eexists. split; [done|]. split; [by eapply put_kept|].
  assert (zlen (rx t) = zlen d + zlen rest) as Hrl by by rewrite Hrx, Hd, zlen_app.
  pose proof (zlen_nonneg rest) as Hr0.
  assert (0 ≤ size ≤ zlen (rx t)) as Hsr by lia.
  destruct (dequeue_rx size t Hsr) as [Hdrop _].
  eexists _, size, _. split; [done|]. split; [by eapply get_put|].
  split.
  2:{ intros Hne. destruct d; [done|]. destruct buf0; [done|]. subst size. unfold zlen. cbn. lia. }
  split_and!; [lia|lia|rewrite <- Hrx; lia|by rewrite Hdrop, Hrx|].
  assert (length (take (Z.to_nat size) d) = Z.to_nat size) as Hnp by (unfold zlen in Hlp; lia).
  rewrite inserts_front by (unfold zlen in *; lia).
  by rewrite Hnp, Hd, take_app_le by (unfold zlen in *; lia).
Qed.

Lemma recv_loop_safe fuel h q buf0 c t buf s : up s → zlen buf0 < 2 ^ 64 →
  set_get h s.(stack) = Some t → taken q buf0 c t buf →
  safe (recv_loop isol_id tid fuel h buf c)
    (λ r s', up s' ∧ handles_kept s.(stack) s'.(stack) ∧ received h q buf0 r s') s.
Proof.
  intros Hup Hb. revert q c t buf s Hup. induction fuel as [|fuel IH]; intros q c t buf s Hup Ht Htk; [done|].
  cbn [recv_loop]. apply (safe_polled s h t); [done..|].
  intros t1 more s1 Hup1 Es1 Ht1 _ Hrx1.
  assert (handles_kept s.(stack) s1.(stack)) as Hk1 by (rewrite Es1; apply poll_kept).
  apply (taken_more _ _ _ _ t1 _ more) in Htk; [|done].
  destruct (_ || _) eqn:Hstop.
  - apply safe_ret. split_and!; [done..|]. exists t1, more, c. split_and!; [done..|].
    intros k [= <-]. split; [done|]. intros ->. cbn in Hstop.
    apply orb_true_iff in Hstop as [?%negb_true_iff|?]; auto.
  - apply orb_false_iff in Hstop as [[Hc Hmr]%orb_false_iff Hcw].
    apply negb_false_iff, Z.eqb_eq in Hc as ->.
    apply safe_bind.
    apply (safe_mono _ (λ r s2, up s2 ∧ handles_kept s1.(stack) s2.(stack) ∧
      ∃ t2 c2 buf2, r = Ok (c2, buf2) ∧ set_get h s2.(stack) = Some t2 ∧
        taken (q ++ more) buf0 c2 t2 buf2)).
    { destruct (tcp_can_recv t1) eqn:Hcan.
      - apply safe_wp. eapply wp_mono; [by eapply recv_data_safe|].
        intros r s2 (n & -> & Hk2 & t2 & c2 & buf2 & ? & ? & ? & _).
        split_and!; [by apply up_set_stack|done|]. by exists t2, c2, buf2.
      - apply safe_ret. split_and!; [done..|]. by exists t1, 0, buf. }
    intros r s2 (Hup2 & Hk2 & t2 & c2 & buf2 & -> & Ht2 & Htk2).
    destruct (try_phy_wait_eq s2 Hup2) as (s3 & Ew & Hup3 & En).
    assert (same_sockets slots s2.(stack) s3.(stack)) as Hsame by (rewrite En; apply wait_same).
    assert (handles_kept s.(stack) s3.(stack)) as Hk3.
    { etrans; [exact Hk1|]. etrans; [exact Hk2|]. by apply same_kept. }
    apply safe_bind. unfold safe at 1. rewrite Ew.
    destruct (phy_wait (stack s2)).1; cbn [map_err].
    + eapply safe_mono; [apply (IH (q ++ more) c2 t2 buf2 s3); by rewrite ?(same_get _ _ h Hsame)|].
      intros r s4 (Hup4 & Hk4 & t4 & more4 & c4 & H4). split_and!; [done|by etrans|].
      exists t4, (more ++ more4), c4. by rewrite app_assoc.
    + apply safe_ret. split_and!; [done..|]. exists t2, more, c2. rewrite (same_get _ _ h Hsame). by split_and!.
Qed.

(** ** The other calls *)

(** The service is still up and has every socket it had, and at most [k] more. *)
Definition stepped (k : Z) s s' : Prop := up s' ∧ grown k s.(stack) s'.(stack).

Lemma stepped_trans k s1 s2 s3 :
  handles_kept s1.(stack) s2.(stack) → stepped k s2 s3 → stepped k s1 s3.
Proof. intros H12 [Hup H23]. split; [done|by eapply kept_grown]. Qed.

Lemma grown_stepped k s1 s2 s3 :
  grown k s1.(stack) s2.(stack) → stepped 0 s2 s3 → stepped k s1 s3.
Proof. intros H12 [Hup H23]. split; [done|by eapply grown_kept]. Qed.

Lemma close_loop_safe fuel h b s : up s → is_Some (set_get h s.(stack)) →
  safe (close_loop isol_id tid fuel h b) (λ _ s', stepped 0 s s') s.
Proof.
  revert b s. induction fuel as [|fuel IH]; intros b s Hup [t Ht]; [done|].
  cbn [close_loop]. apply safe_try, acquire_sockets_safe; [done|].
  apply (safe_polled s h t); [done..|]. intros t1 more s1 Hup1 Es1 Ht1 _ _.
  assert (handles_kept s.(stack) s1.(stack)) as Hk1 by (rewrite Es1; apply poll_kept).
  set (closing := negb b && (tcp_send_queue t1 =? 0)). apply safe_bind.
  apply (safe_mono _ (λ _ s2, stepped 0 s1 s2)).
  { destruct closing; [|by apply safe_ret].
    unfold safe. rewrite put_sock_eq. split; [by apply up_set_stack|by eapply put_kept]. }
  intros [] s2 [Hup2 Hk2]. destruct (proj1 Hk2 h) as [t2 Ht2]; [by rewrite Ht1|].
  apply (safe_get_mut _ h t2); [done|].
  destruct (negb (tcp_is_open t2)).
  { do 2 apply safe_ret. split; [done|by etrans]. }
  apply safe_waited; [done| |].
  - intros e s3 Hup3 Hsame. split; [done|]. etrans; [exact Hk1|]. etrans; [exact Hk2|].
    by apply same_kept.
  - intros s3 Hup3 _ Hsame. apply safe_ret.
    eapply safe_mono; [apply IH; [done|by rewrite (same_get _ _ h Hsame), Ht2]|].
    intros r s4. apply stepped_trans. etrans; [exact Hk1|]. etrans; [exact Hk2|].
    by apply same_kept.
Qed.

Lemma smol_close_safe fuel h s : up s → is_Some (set_get h s.(stack)) →
  safe (smol_close isol_id tid fuel h) (λ _ s', stepped 0 s s') s.
Proof. intros Hup Hh. by apply acquire_iface_safe, close_loop_safe. Qed.

Lemma to_sockfd_small h : fits 32 h → to_sockfd h = h.
Proof. unfold fits, to_sockfd, wrap. intros. by rewrite Z.mod_small. Qed.

(** A handle a call gives out: new, and in the set. *)
Definition fresh_handle s (r : result SockFd SmoltcpError) s' : Prop :=
  ∀ fd, r = Ok fd → set_get fd s.(stack) = None ∧ is_Some (set_get fd s'.(stack)).

(** A listener on [port], new in the set. *)
Definition fresh_listener s (port : Z) (r : result SockFd SmoltcpError) s' : Prop :=
  ∀ fd, r = Ok fd → set_get fd s.(stack) = None ∧ ∃ t, set_get fd s'.(stack) = Some t ∧
    is_Listen (tcp_state t) = true ∧ listening t = Some port.

Lemma add_sock_safe {A} t s (k : Z → prog (NetState N) A) Q :
  (∀ h n, set_add t s.(stack) = (h, n) → safe (k h) Q (set_stack n s)) →
  safe (h ← add_sock t; k h) Q s.
Proof.
  intros Hk. unfold add_sock, smol, stacked, on, safe, mbind, prog_mbind in *.
  destruct (set_add t (stack s)) as [h n]. by apply Hk.
Qed.

Lemma smol_bind_safe addr s : up s → slots s.(stack) < 2 ^ 32 →
  safe (smol_bind isol_id tid addr)
    (λ r s', stepped 1 s s' ∧ fresh_listener s addr.(port) r s') s.
Proof.
  intros Hup Hroom. apply acquire_iface_safe, acquire_sockets_safe; [done..|].
  apply add_sock_safe. intros h n E. pose proof (add_kept _ _ _ _ E) as Hk.
  destruct (add_fresh _ _ _ _ E) as (Hfit & _ & Hnone & Ht & _).
  assert (fits 32 h) as Hfit32 by (unfold fits; lia).
  apply (safe_polled (set_stack n s) h (tcp_new 64 128)); [by apply up_set_stack|done|].
  intros t1 more s1 Hup1 Es1 Ht1 _ _. cbn [stack set_stack] in Es1.
  assert (grown 1 s.(stack) s1.(stack)) as Hk1.
  { eapply grown_kept; [exact Hk|]. rewrite Es1. apply poll_kept. }
  destruct (tcp_is_open t1); [apply safe_ret; split; [by split|by intros fd]|].
  destruct (tcp_listen (port addr) t1) as [r t2] eqn:El.
  apply safe_bind. unfold safe at 1. rewrite put_sock_eq. apply safe_ret. split.
  - split; [by apply up_set_stack|]. eapply grown_kept; [exact Hk1|by eapply put_kept].
  - destruct r as [[]|e]; [|by intros fd]. intros fd [= <-].
    rewrite to_sockfd_small by done. split; [done|].
    exists t2. split; [by eapply get_put|by eapply listen_port].
Qed.

Lemma smol_connect_safe addr s : up s → slots s.(stack) < 2 ^ 32 →
  safe (smol_connect isol_id tid addr) (λ r s', stepped 1 s s' ∧ fresh_handle s r s') s.
Proof.
  intros Hup Hroom. apply acquire_iface_safe, acquire_sockets_safe; [done..|].
  apply add_sock_safe. intros h n E. pose proof (add_kept _ _ _ _ E) as Hk.
  destruct (add_fresh _ _ _ _ E) as (Hfit & _ & Hnone & Ht & _).
  assert (fits 32 h) as Hfit32 by (unfold fits; lia).
  eapply safe_get_mut; [exact Ht|].
  destruct (tcp_is_active _).
  { apply safe_ret. split; [split; [by apply up_set_stack|done]|by intros fd]. }
  apply safe_bind. unfold safe at 1, smol, stacked, on.
  cbn [stack set_stack]. destruct (random_u16 n) as [r n1] eqn:Er.
  assert (same_sockets slots n n1) as Hsame
    by (pose proof (random_same n) as H; by rewrite Er in H).
  apply safe_bind, safe_wp, wp_checked.
  { pose proof (Z.mod_pos_bound r 16384). unfold fits. lia. }
  apply safe_bind, safe_ret. cbn [stack set_stack].
  destruct (tcp_connect _ _ _ _) as [r' t1] eqn:Ec.
  assert (set_get h n1 = Some (tcp_new 1024 1024)) as Ht1 by by rewrite (same_get _ _ h Hsame).
  apply safe_bind. unfold safe at 1. rewrite put_sock_eq. apply safe_ret. split.
  - split; [by do 3 apply up_set_stack|]. cbn [stack set_stack].
    eapply grown_kept; [exact Hk|]. etrans; [by apply same_kept|by eapply put_kept].
  - destruct r'; [|by intros fd]. intros fd [= <-]. rewrite to_sockfd_small by done.
    split; [done|]. cbn [stack set_stack]. by rewrite (get_put _ _ _ _ Ht1).
Qed.

Lemma accept_loop_safe fuel h s : up s → is_Some (set_get h s.(stack)) →
  safe (accept_loop isol_id tid fuel h) (λ r s', stepped 0 s s' ∧
    ∀ t, r = Ok t → set_get h s'.(stack) = Some t ∧ is_Listen (tcp_state t) = false) s.
Proof.
  revert s. induction fuel as [|fuel IH]; intros s Hup [t Ht]; [done|].
  cbn [accept_loop]. apply (safe_polled s h t); [done..|]. intros t1 more s1 Hup1 Es1 Ht1 _ _.
  assert (handles_kept s.(stack) s1.(stack)) as Hk1 by (rewrite Es1; apply poll_kept).
  destruct (is_Listen (tcp_state t1)) eqn:Hl; cbn [negb].
  2:{ apply safe_ret. split; [by split|]. by intros ? [= <-]. }
  apply safe_waited; [done| |].
  - intros e s2 Hup2 Hsame. split; [split; [done|]|by intros ?].
    etrans; [exact Hk1|by apply same_kept].
  - intros s2 Hup2 _ Hsame. eapply safe_mono; [apply IH; [done|by rewrite (same_get _ _ h Hsame), Ht1]|].
    intros r s3 [Hst Hr]. split; [|done]. eapply stepped_trans; [|done].
    etrans; [exact Hk1|by apply same_kept].
Qed.

(** [smol_accept]: the connection that came in on [h], and the listener that
    takes its place on the same port. *)
Lemma smol_accept_safe fuel h s : up s → slots s.(stack) < 2 ^ 32 → is_Some (set_get h s.(stack)) →
  safe (smol_accept isol_id tid fuel h) (λ r s', stepped 1 s s' ∧
    ∀ fd, r = Ok fd → fd ≠ h ∧ set_get fd s.(stack) = None ∧ ∃ conned p t,
      is_Listen (tcp_state conned) = false ∧ tcp_local_port conned = Some p ∧
      set_get fd s'.(stack) = Some t ∧ is_Listen (tcp_state t) = true ∧ listening t = Some p) s.
Proof.
  intros Hup Hroom Hh. apply safe_try, acquire_iface_safe, acquire_sockets_safe; [done..|].
  apply safe_try. eapply safe_mono; [by apply accept_loop_safe|].
  intros r s1 [[Hup1 Hk1] Hr]. pose proof (proj2 Hk1) as Hroom1.
  assert (stepped 1 s s1) as Hst1 by (split; [done|]; split; [apply Hk1|lia]).
  destruct r as [conned|e]; [|by split; [|intros ?]].
  destruct (Hr conned eq_refl) as [Hc Hnl]. apply safe_ret.
  destruct (tcp_local_port conned) as [p|] eqn:Hp; [|by split; [|intros ?]].
  eapply safe_mono; [apply smol_bind_safe; [done|lia]|].
  intros r s2 [Hst Hf]. cbn [port] in Hf.
  split; [by eapply stepped_trans|]. intros fd Hfd. destruct (Hf fd Hfd) as (Hnone & t & Ht & Hl).
  assert (set_get fd (stack s) = None) as Hnone0.
  { apply eq_None_not_Some. intros Hs%(proj1 Hk1). rewrite Hnone in Hs. by apply is_Some_None in Hs. }
  split; [intros ->; rewrite Hnone0 in Hh; by apply is_Some_None in Hh|].
  split; [done|]. by exists conned, p, t.
Qed.

Lemma addrinfo_loop_safe fuel h q s : up s → asked h q s.(stack) →
  safe (addrinfo_loop isol_id tid fuel h q) (λ _ s', stepped 0 s s') s.
Proof.
  revert s. induction fuel as [|fuel IH]; intros s Hup Ha; [done|]. cbn [addrinfo_loop].
  apply safe_try, acquire_sockets_safe; [done|]. apply safe_bind. unfold safe at 1.
  rewrite iface_poll_eq by done. set (n1 := iface_do_poll (stack s)).
  assert (handles_kept s.(stack) n1) as Hk1 by apply poll_kept.
  destruct (dns_answer h q n1) as (r & n2 & E & Hsame & Hpend & Hrem); [by apply asked_poll|].
  apply safe_bind. unfold safe at 1, smol, stacked, on. cbn [stack set_stack]. rewrite E.
  apply safe_bind, safe_ret. set (s2 := set_stack n2 _).
  assert (stepped 0 s s2) as [Hup2 Hk2].
  { split; [by do 2 apply up_set_stack|]. etrans; [exact Hk1|by apply same_kept]. }
  destruct r as [[|addr l]| |e].
  - by apply safe_ret.
  - apply safe_bind, safe_ret. split; [by apply up_set_stack|]. cbn [stack set_stack].
    etrans; [exact Hk2|]. by apply same_kept.
  - apply safe_waited; [done| |].
    + intros e s3 Hup3 Hs3. split; [done|]. etrans; [exact Hk2|by apply same_kept].
    + intros s3 Hup3 En Hs3. apply safe_ret. eapply safe_mono.
      { apply IH; [done|]. rewrite En. by apply asked_wait, Hpend. }
      intros r s4. apply stepped_trans. etrans; [exact Hk2|by apply same_kept].
  - by apply safe_ret.
Qed.

Lemma addrinfo_safe fuel name s : up s →
  safe (addrinfo isol_id tid fuel name) (λ _ s', stepped 1 s s') s.
Proof.
  intros Hup. apply acquire_iface_safe; [done|]. apply safe_try, acquire_sockets_safe; [done|].
  apply safe_bind. unfold safe at 1, smol, stacked, on.
  pose proof (dns_add_get (ipv4_new 114 114 114 114) (stack s)) as [Hadd Hslots].
  destruct (dns_add _ _) as [h n1]. cbn [snd] in Hadd, Hslots.
  apply safe_bind. unfold safe at 1. cbn [stack set_stack].
  pose proof (dns_query_same h name n1) as Hq. pose proof (dns_query_asked h name n1) as Ha.
  destruct (dns_start_query h name n1) as [q n2]. cbn [fst snd] in Hq, Ha.
  assert (stepped 1 s (set_stack n2 (set_stack n1 s))) as [Hup2 Hk2].
  { split; [by do 2 apply up_set_stack|]. cbn [stack set_stack].
    eapply grown_kept; [|by apply same_kept]. split; [|done]. intros h'. by rewrite Hadd. }
  apply safe_ret. destruct q as [q|e]; [|done].
  eapply safe_mono; [apply addrinfo_loop_safe; [done|by apply Ha]|].
  intros r s3. by apply grown_stepped.
Qed.

(** ** Any sequence of calls *)

(** A call names a socket by its position among the handles given out so far. *)
Inductive net_call : Type :=
  | CConnect (addr : SocketAddrV4)
  | CBind (addr : SocketAddrV4)
  | CAccept (fuel k : nat)
  | CSend (fuel k : nat) (data : list byte)
  | CRecv (fuel k : nat) (buf : list byte)
  | CClose (fuel k : nat)
  | CAddrinfo (fuel : nat) (name : string).

Definition given (known : list SockFd) (r : result SockFd SmoltcpError) : list SockFd :=
  match r with Ok fd => known ++ [fd] | Err _ => known end.

(** A call naming a socket that was never given out is not made. *)
Definition on_known (known : list SockFd) (k : nat)
    (m : SockFd → prog (NetState N) (list SockFd)) : prog (NetState N) (list SockFd) :=
  match known !! k with Some h => m h | None => mret known end.

Definition exec_call (known : list SockFd) (c : net_call) : prog (NetState N) (list SockFd) :=
  match c with
  | CConnect addr => given known <$> smol_connect isol_id tid addr
  | CBind addr => given known <$> smol_bind isol_id tid addr
  | CAccept fuel k => on_known known k (λ h, given known <$> smol_accept isol_id tid fuel h)
  | CSend fuel k data =>
      on_known known k (λ h, (λ _, known) <$> smol_send isol_id tid fuel h data)
  | CRecv fuel k buf =>
      on_known known k (λ h, (λ _, known) <$> smol_recv isol_id tid fuel h buf)
  | CClose fuel k => on_known known k (λ h, (λ _, known) <$> smol_close isol_id tid fuel h)
  | CAddrinfo fuel name => (λ _, known) <$> addrinfo isol_id tid fuel name
  end.

Fixpoint exec_calls (known : list SockFd) (cs : list net_call) : prog (NetState N) (list SockFd) :=
  match cs with
  | [] => mret known
  | c :: cs => known ← exec_call known c; exec_calls known cs
  end.

(** Buffers are shorter than the address space. *)
Definition call_fits (c : net_call) : Prop :=
  match c with
  | CSend _ _ data => zlen data < 2 ^ 64
  | CRecv _ _ buf => zlen buf < 2 ^ 64
  | _ => True
  end.

(** Every handle given out is in the set. *)
Definition valid_handles (known : list SockFd) s : Prop :=
  Forall (λ h, is_Some (set_get h s.(stack))) known.

(** The state between calls, while at most [m] more of them follow. *)
Definition net_ok (known : list SockFd) (m : Z) s : Prop :=
  up s ∧ valid_handles known s ∧ slots s.(stack) + m < 2 ^ 32.

Lemma net_ok_step known m k s s' : 0 ≤ k ≤ 1 → net_ok known (m + 1) s → stepped k s s' →
  net_ok known m s'.
Proof.
  intros Hk (Hup & Hv & Hm) [Hup' [Hkept Hslots]]. split_and!; [done| |lia].
  eapply Forall_impl; [exact Hv|]. intros h. apply Hkept.
Qed.

Lemma net_ok_given known m r s : net_ok known m s →
  (∀ fd, r = Ok fd → is_Some (set_get fd s.(stack))) → net_ok (given known r) m s.
Proof.
  intros (Hup & Hv & Hm) Hr. split_and!; [done| |done]. destruct r as [fd|e]; [|done].
  apply Forall_app. split; [done|]. by repeat constructor; apply Hr.
Qed.

Lemma safe_fmap {A B} (f : A → B) (m : prog (NetState N) A) (Q : B → NetState N → Prop) s :
  safe m (λ a, Q (f a)) s → safe (f <$> m) Q s.
Proof. intros H. apply safe_bind. eapply safe_mono; [exact H|done]. Qed.

Lemma smol_send_safe fuel h data t s : up s → zlen data < 2 ^ 64 →
  set_get h s.(stack) = Some t →
  safe (smol_send isol_id tid fuel h data)
    (λ r s', stepped 0 s s' ∧ sent h (tx t) data r s') s.
Proof.
  intros Hup Hd Ht. apply acquire_iface_safe, acquire_sockets_safe; [done..|].
  pose proof (zlen_nonneg data).
  eapply safe_mono; [apply (send_loop_safe fuel h data (tx t) 0 t); try done; by rewrite ?app_nil_r|].
  intros r s' (? & ? & ?). by split.
Qed.

Lemma smol_recv_safe fuel h buf t s : up s → zlen buf < 2 ^ 64 →
  set_get h s.(stack) = Some t →
  safe (smol_recv isol_id tid fuel h buf)
    (λ r s', stepped 0 s s' ∧ received h (rx t) buf r s') s.
Proof.
  intros Hup Hd Ht. apply acquire_iface_safe, acquire_sockets_safe; [done..|].
  pose proof (zlen_nonneg buf). pose proof (zlen_nonneg (rx t)).
  eapply safe_mono; [by apply (recv_loop_safe fuel h (rx t) buf 0 t)|].
  intros r s' (? & ? & ?). by split.
Qed.

(** A call that names a known socket, and returns no new one. *)
Lemma on_known_safe {A} known m k (call : SockFd → prog (NetState N) A) s :
  0 ≤ m → net_ok known (m + 1) s →
  (∀ h t, set_get h s.(stack) = Some t → safe (call h) (λ _ s', stepped 0 s s') s) →
  safe (on_known known k (λ h, (λ _, known) <$> call h)) (λ known' s', net_ok known' m s') s.
Proof.
  intros Hm Hok Hcall. unfold on_known. destruct (known !! k) as [h|] eqn:E.
  - destruct (proj1 (Forall_lookup _ _) (proj1 (proj2 Hok)) k h E) as [t Ht].
    apply safe_fmap. eapply safe_mono; [by eapply Hcall|]. intros a s'.
    by apply (net_ok_step known m 0).
  - apply safe_ret. destruct Hok as (? & ? & ?). split_and!; [done..|lia].
Qed.

(** A call that gives out a socket. *)
Lemma given_safe known m (call : prog (NetState N) (result SockFd SmoltcpError)) s :
  net_ok known (m + 1) s →
  safe call (λ r s', stepped 1 s s' ∧ ∀ fd, r = Ok fd → is_Some (set_get fd s'.(stack))) s →
  safe (given known <$> call) (λ known' s', net_ok known' m s') s.
Proof.
  intros Hok Hcall. apply safe_fmap. eapply safe_mono; [exact Hcall|]. intros r s' [Hst Hr].
  apply net_ok_given; [|done]. by apply (net_ok_step known m 1 s).
Qed.

Lemma exec_call_safe known m c s : 0 ≤ m → net_ok known (m + 1) s → call_fits c →
  safe (exec_call known c) (λ known' s', net_ok known' m s') s.
Proof.
  intros Hm Hok Hc. pose proof Hok as (Hup & Hv & Hroom).
  assert (slots s.(stack) < 2 ^ 32) as Hr by lia.
  destruct c; cbn [exec_call call_fits] in *.
  - apply given_safe; [done|]. eapply safe_mono; [by apply smol_connect_safe|].
    intros r s' [Hs Hf]. split; [done|]. by intros fd Hfd; apply Hf.
  - apply given_safe; [done|]. eapply safe_mono; [by apply smol_bind_safe|].
    intros r s' [Hs Hf]. split; [done|]. intros fd Hfd.
    destruct (Hf fd Hfd) as (_ & t & Ht & _). by rewrite Ht.
  - unfold on_known. destruct (known !! k) as [h|] eqn:E.
    2:{ apply safe_ret. split_and!; [done..|lia]. }
    apply given_safe; [done|].
    eapply safe_mono; [apply smol_accept_safe; [done..|]|].
    { exact (proj1 (Forall_lookup _ _) Hv k h E). }
    intros r s' [Hs Hf]. split; [done|]. intros fd Hfd.
    destruct (Hf fd Hfd) as (_ & _ & _ & _ & t' & _ & _ & Ht' & _). by rewrite Ht'.
  - apply on_known_safe; [done..|]. intros h t Ht.
    eapply safe_mono; [by eapply smol_send_safe|]. by intros r s' [Hs _].
  - apply on_known_safe; [done..|]. intros h t Ht.
    eapply safe_mono; [by eapply smol_recv_safe|]. by intros r s' [Hs _].
  - apply on_known_safe; [done..|]. intros h t Ht. by apply smol_close_safe.
  - apply safe_fmap. eapply safe_mono; [by apply addrinfo_safe|]. intros r s' Hs.
    by apply (net_ok_step known m 1 s).
Qed.

Lemma exec_calls_safe known cs s : net_ok known (zlen cs) s → Forall call_fits cs →
  safe (exec_calls known cs) (λ known' s', net_ok known' 0 s') s.
Proof.
  intros Hok Hcs. revert known s Hok.
  induction Hcs as [|c cs Hc _ IH]; intros known s Hok; [by apply safe_ret|].
  apply safe_bind. eapply safe_mono; [apply (exec_call_safe known (zlen cs))|].
  - apply zlen_nonneg.
  - replace (zlen cs + 1) with (zlen (c :: cs)) by (unfold zlen; cbn [length]; lia). done.
  - done.
  - intros known' s' Hok'. by apply IH.
Qed.
End spec.
