(* ===== verification/SocketProps.v ===== *)
(** * What callers of the TCP service can rely on

    The theorems about whole calls: which bytes a send and a receive move, that
    they return, that handles stay good, and the states in which the service
    does not do its job.  [SocketDemo] is a small network of scripted events on
    which they are run. *)
From Stdlib Require Import Ascii String.
From S2P Require Import Prelude Bytes Hostcall Fdtab Ipv4 TapSetup Socket SocketSpec.
Local Open Scope Z_scope.

(** ** A scripted network *)
Module SocketDemo.

Record Tcp : Type := mk_tcp {
  st : State; inq : list byte; acc : list byte; lport : option Z; lis : option Z
}.

Inductive Event : Type := Arrive (bs : list byte) | Established | PeerFin | Reset.

(** The sockets by handle, and what each of the next polls brings. *)
Record Wire : Type := mk_wire { socks : list Tcp; script : list (list (Z * Event)) }.

Definition happen (e : Event) (t : Tcp) : Tcp :=
  match e with
  | Arrive bs => mk_tcp t.(st) (t.(inq) ++ bs) t.(acc) t.(lport) t.(lis)
  | Established => mk_tcp (OtherState "ESTABLISHED") t.(inq) t.(acc) t.(lis) t.(lis)
  | PeerFin => mk_tcp CloseWait t.(inq) t.(acc) t.(lport) t.(lis)
  | Reset => mk_tcp (OtherState "CLOSED") t.(inq) t.(acc) t.(lport) t.(lis)
  end.

Definition closed (t : Tcp) : bool :=
  match t.(st) with OtherState "CLOSED" => true | _ => false end.
Definition sending (t : Tcp) : bool :=
  match t.(st) with OtherState "ESTABLISHED" | CloseWait => true | _ => false end.
Definition nonempty (l : list byte) : bool := match l with [] => false | _ => true end.

Fixpoint happen_all (es : list (Z * Event)) (l : list Tcp) : list Tcp :=
  match es with
  | [] => l
  | (h, e) :: es => happen_all es (alter (happen e) (Z.to_nat h) l)
  end.

(** A send takes at most four bytes. *)
Definition send4 (d : list byte) (t : Tcp) : result Z string * Tcp :=
  if sending t then
    (Ok (Z.min 4 (zlen d)),
     mk_tcp t.(st) t.(inq) (t.(acc) ++ take (Z.to_nat (Z.min 4 (zlen d))) d) t.(lport) t.(lis))
  else (Err "invalid state", t).

Definition in_range (h : Z) (w : Wire) : bool := (0 <=? h) && (h <? zlen w.(socks)).
Definition wire_get (h : Z) (w : Wire) : option Tcp :=
  if in_range h w then w.(socks) !! Z.to_nat h else None.
Definition wire_put (h : Z) (t : Tcp) (w : Wire) : Wire :=
  if in_range h w then mk_wire (<[Z.to_nat h := t]> w.(socks)) w.(script) else w.
Definition wire_poll (w : Wire) : Wire :=
  match w.(script) with
  | [] => w
  | es :: rest => mk_wire (happen_all es w.(socks)) rest
  end.
Definition wire_add (t : Tcp) (w : Wire) : Z * Wire :=
  (zlen w.(socks), mk_wire (w.(socks) ++ [t]) w.(script)).

#[export] Instance wire_smoltcp : Smoltcp Tcp Wire := {
  tcp_new _ _ := mk_tcp (OtherState "CLOSED") [] [] None None;
  tcp_state := st;
  tcp_is_open t := negb (closed t);
  tcp_is_active t := negb (closed t) && negb (is_Listen t.(st));
  tcp_may_send := sending;
  tcp_may_recv t := sending t && negb (is_CloseWait t.(st)) || nonempty t.(inq);
  tcp_can_recv t := nonempty t.(inq);
  tcp_send_queue _ := 0;
  tcp_local_port := lport;
  tcp_connect _ _ p t := (Ok (), mk_tcp (OtherState "SYN-SENT") t.(inq) t.(acc) t.(lport) (Some p));
  tcp_listen p t := if p =? 0 then (Err "unaddressable", t)
                    else (Ok (), mk_tcp Listen t.(inq) t.(acc) t.(lport) (Some p));
  tcp_send_slice := send4;
  tcp_recv t := if nonempty t.(inq) then Ok (take 512 t.(inq)) else Err "finished";
  tcp_dequeue k t := mk_tcp t.(st) (drop (Z.to_nat k) t.(inq)) t.(acc) t.(lport) t.(lis);
  tcp_close t := mk_tcp (OtherState "CLOSED") t.(inq) t.(acc) t.(lport) t.(lis);
  set_add := wire_add;
  set_get := wire_get;
  set_put := wire_put;
  dns_add _ w := (-1, w);
  dns_start_query _ _ w := (Ok 0, w);
  dns_get_query_result _ _ w := (Some (Addrs [ipv4_new 10 0 0 1]), w);
  set_remove _ w := w;
  tap_new _ w := Some w;
  iface_new _ _ w := Some w;
  iface_do_poll := wire_poll;
  phy_wait w := (Ok (), w);
  random_u16 w := (12345, w);
  close_tap w := w
}.

#[export] Instance wire_commands : HostCommands Wire := {
  env_var x _ := if String.eqb x "USER" then Some "alloy"
                 else if String.eqb x "SUDO_PASSWD" then Some "secret" else None;
  run_command _ _ w := (Some (mk_finished true "" ""), w)
}.

(** ** The laws *)

Lemma in_range_lookup h w t : wire_get h w = Some t →
  in_range h w = true ∧ w.(socks) !! Z.to_nat h = Some t.
Proof. unfold wire_get. by destruct (in_range h w). Qed.

Lemma in_range_of h w : in_range h w = true ↔ 0 ≤ h < zlen w.(socks).
Proof. unfold in_range. lia. Qed.

Lemma wire_get_put h t t' w : wire_get h w = Some t → wire_get h (wire_put h t' w) = Some t'.
Proof.
  intros [Hr Hl]%in_range_lookup. unfold wire_put. rewrite Hr. unfold wire_get, in_range in *.
  cbn [socks]. unfold zlen in *. rewrite length_insert, Hr.
  apply list_lookup_insert_eq. by eapply lookup_lt_Some.
Qed.

Lemma wire_get_put_ne h h' t w : h ≠ h' → wire_get h' (wire_put h t w) = wire_get h' w.
Proof.
  intros Hne. unfold wire_put. destruct (in_range h w) eqn:Hr; [|done].
  unfold wire_get, in_range in *. cbn [socks]. unfold zlen in *. rewrite length_insert.
  destruct ((0 <=? h') && _) eqn:Hr'; [|done]. apply list_lookup_insert_ne. lia.
Qed.

Lemma wire_add_fresh t w h w' : wire_add t w = (h, w') →
  0 ≤ h ≤ zlen w.(socks) ∧ zlen w.(socks) ≤ zlen w'.(socks) ≤ zlen w.(socks) + 1 ∧
  wire_get h w = None ∧ wire_get h w' = Some t ∧
  ∀ h', h' ≠ h → wire_get h' w' = wire_get h' w.
Proof.
  intros [= <- <-]. unfold wire_get, in_range. cbn [socks]. rewrite zlen_app.
  pose proof (zlen_nonneg w.(socks)). change (zlen [t]) with 1.
  split_and!; [lia|lia|lia|lia| | |].
  - by replace (zlen (socks w) <? zlen (socks w)) with false by lia; rewrite andb_false_r.
  - replace (_ && _) with true by lia. unfold zlen. rewrite Nat2Z.id. apply lookup_app_here.
  - intros h' Hne. destruct ((0 <=? h') && (h' <? zlen (socks w))) eqn:Hr.
    + replace ((0 <=? h') && (h' <? zlen (socks w) + 1)) with true by lia.
      apply lookup_app_l. unfold zlen in *. lia.
    + by replace ((0 <=? h') && (h' <? zlen (socks w) + 1)) with false by lia.
Qed.

Lemma happen_all_length es l : length (happen_all es l) = length l.
Proof.
  revert l. induction es as [|[h e] es IH]; intros l; [done|]. cbn [happen_all].
  by rewrite IH, length_alter.
Qed.

Lemma happen_all_lookup es l i t : l !! i = Some t → ∃ t' more,
  happen_all es l !! i = Some t' ∧ acc t' = acc t ∧ inq t' = inq t ++ more.
Proof.
  revert l t. induction es as [|[h e] es IH]; intros l t Ht.
  { exists t, []. by rewrite app_nil_r. }
  cbn [happen_all]. destruct (decide (Z.to_nat h = i)) as [<-|Hne].
  - assert (alter (happen e) (Z.to_nat h) l !! Z.to_nat h = Some (happen e t)) as Hl
      by by rewrite list_lookup_alter_eq, Ht.
    destruct (IH _ _ Hl) as (t' & more & E & Ha & Hi).
    destruct e as [bs| | |]; cbn [happen inq acc] in *;
      (exists t'); [exists (bs ++ more)|exists more..]; by rewrite ?app_assoc.
  - apply IH. by rewrite list_lookup_alter_ne.
Qed.

Lemma wire_poll_length w : zlen (wire_poll w).(socks) = zlen w.(socks).
Proof.
  unfold wire_poll. destruct (script w); [done|]. cbn [socks]. unfold zlen.
  by rewrite happen_all_length.
Qed.

Lemma wire_poll_socket h t w : wire_get h w = Some t → ∃ t' more,
  wire_get h (wire_poll w) = Some t' ∧ acc t' = acc t ∧ inq t' = inq t ++ more.
Proof.
  intros [Hr Hl]%in_range_lookup. unfold wire_get. unfold in_range in *.
  rewrite wire_poll_length, Hr. unfold wire_poll. destruct (script w) as [|es rest].
  - exists t, []. by rewrite app_nil_r.
  - cbn [socks]. by apply happen_all_lookup.
Qed.

Lemma send4_accepts d t : sending t = true → ∃ k t',
  send4 d t = (Ok k, t') ∧ 0 ≤ k ≤ zlen d ∧
  acc t' = acc t ++ take (Z.to_nat k) d ∧ inq t' = inq t.
Proof.
  intros Hs. unfold send4. rewrite Hs. pose proof (zlen_nonneg d).
  do 2 eexists. split; [done|]. split_and!; [lia|lia|done|done].
Qed.

Lemma nonempty_spec l : nonempty l = true ↔ l ≠ [].
Proof. by destruct l. Qed.

Lemma wire_recv_slice t : nonempty t.(inq) = true → ∃ d rest,
  (if nonempty t.(inq) then Ok (take 512 t.(inq)) else Err "finished") = Ok d ∧
  t.(inq) = d ++ rest ∧ d ≠ [] ∧ zlen d < 2 ^ 64.
Proof.
  intros Hne. rewrite Hne. exists (take 512 (inq t)), (drop 512 (inq t)).
  split; [done|]. split; [by rewrite take_drop|]. split; [by destruct (inq t)|]. unfold zlen. rewrite length_take. lia.
Qed.

Lemma wire_listen p t r t' :
  (if p =? 0 then (Err "unaddressable"%string, t)
   else (Ok (), mk_tcp Listen t.(inq) t.(acc) t.(lport) (Some p))) = (Ok r, t') →
  is_Listen t'.(st) = true ∧ lis t' = Some p.
Proof. destruct (p =? 0); [done|]. by intros [= <- <-]. Qed.

#[export] Instance wire_spec : SmoltcpSpec Tcp Wire.
Proof.
  refine {| slots w := zlen w.(socks); tx := acc; rx := inq; listening := lis;
            asked _ _ _ := True |}.
  - exact wire_get_put.
  - exact wire_get_put_ne.
  - intros h t w. cbn. unfold wire_put. destruct (in_range h w); [|done].
    cbn [socks]. unfold zlen. by rewrite length_insert.
  - exact wire_add_fresh.
  - exact wire_poll_socket.
  - exact wire_poll_length.
  - by split.
  - by split.
  - intros w. cbn. lia.
  - exact send4_accepts.
  - intros t. apply nonempty_spec.
  - exact wire_recv_slice.
  - exact wire_listen.
  - done.
  - intros s w. cbn. split; [done|lia].
  - by split.
  - done.
  - done.
  - done.
  - intros h q w Hh. do 2 eexists. split; [done|]. by split_and!.
Defined.
End SocketDemo.

(** ** Rounds of the loops *)
Section props.
Context {T N : Type} {SM : Smoltcp T N} {SP : SmoltcpSpec T N} {HC : HostCommands N}.
Context (isol_id tid : Z).
Implicit Types (s : NetState N) (t : T) (n : N).

(** A poll and the look at the socket that follows it. *)
Lemma polled_eq {A} s h t (k : T → prog (NetState N) A) : up tid s →
  set_get h (iface_do_poll s.(stack)) = Some t →
  (iface_poll isol_id tid;; sock ← get_mut h; k sock) s =
  k t (set_stack (iface_do_poll s.(stack)) s).
Proof.
  intros Hup Ht. rewrite (bind_Ret _ _ _ () _ (iface_poll_eq isol_id tid s Hup)).
  unfold get_mut, mbind, prog_mbind, gets. cbn [stack set_stack]. by rewrite Ht.
Qed.

Lemma locked_eq {A} (fail : SmoltcpError → A) (m : prog (NetState N) A) s o s' : up tid s →
  m s = (o, s') → o ≠ Panic →
  acquire_iface isol_id tid fail (acquire_sockets fail m) s = (o, s').
Proof.
  intros Hup E Ho. rewrite acquire_iface_eq by done. destruct Hup as [_ _ _ _ Hk].
  unfold acquire_sockets, under_lock, poisoning. rewrite Hk, E. by destruct o.
Qed.

(** *** Receiving *)

(** The poll that lets a receive return is the one after [k] idle rounds. *)
Inductive becomes_ready (h : Z) : nat → N → Prop :=
  | ready_now k n t : set_get h (iface_do_poll n) = Some t →
      tcp_can_recv t = true ∨ tcp_may_recv t = false ∨ is_CloseWait (tcp_state t) = true →
      becomes_ready h k n
  | ready_later k n t : set_get h (iface_do_poll n) = Some t → tcp_can_recv t = false →
      becomes_ready h k (phy_wait (iface_do_poll n)).2 →
      becomes_ready h (S k) n.

Lemma recv_loop_done fuel h c buf t s : up tid s → set_get h s.(stack) = Some t → c ≠ 0 →
  ∃ r s', recv_loop isol_id tid (S fuel) h buf c s = (Ret r, s').
Proof.
  intros Hup Ht Hc. destruct (poll_socket h t _ Ht) as (t' & more & E & _).
  cbn [recv_loop]. rewrite (polled_eq s h t') by done.
  replace (c =? 0) with false by lia. cbn [negb orb]. by do 2 eexists.
Qed.

Lemma recv_loop_returns k h buf t s fuel : becomes_ready h k s.(stack) → up tid s →
  set_get h s.(stack) = Some t → buf ≠ [] → zlen buf < 2 ^ 64 → (k + 1 < fuel)%nat →
  ∃ r s', recv_loop isol_id tid fuel h buf 0 s = (Ret r, s').
Proof.
  intros Hready. remember (stack s) as n eqn:En. revert s t fuel En.
  induction Hready as [k n t Ht Hgo|k n t Ht Hidle _ IH]; intros s t0 fuel -> Hup Ht0 Hne Hlen Hf;
    (destruct fuel as [|fuel]; [lia|]); cbn [recv_loop]; rewrite (polled_eq s h t) by done;
    destruct (_ || _) eqn:Hstop; try (by do 2 eexists);
    set (s1 := set_stack _ s);
    (assert (up tid s1) as Hup1 by by apply up_set_stack).
  - apply orb_false_iff in Hstop as [[_ Hmr]%orb_false_iff Hcw]. apply negb_false_iff in Hmr.
    assert (tcp_can_recv t = true) as Hcan by naive_solver congruence. rewrite Hcan.
    assert (taken (rx t) buf 0 t buf) as Htk
      by (pose proof (zlen_nonneg buf); pose proof (zlen_nonneg (rx t)); by split_and!).
    destruct (wp_inv _ _ _ (recv_data_safe h (rx t) buf t buf s1 Hlen Hcan Ht Htk))
      as (r & s2 & Er & n2 & -> & _ & t2 & c2 & buf2 & -> & Ht2 & _ & Hc2).
    rewrite (bind_Ret _ _ _ _ _ Er).
    destruct (try_phy_wait_eq isol_id tid (set_stack n2 s1)) as (s3 & Ew & Hup3 & En3);
      [by apply up_set_stack|].
    rewrite (bind_Ret _ _ _ _ _ Ew). destruct (map_err _ _); [|by do 2 eexists].
    destruct fuel as [|fuel]; [lia|]. apply (recv_loop_done _ _ _ _ t2); [done| |by apply Hc2].
    rewrite En3. cbn [stack set_stack]. by rewrite (same_get _ _ h (wait_same n2)).
  - rewrite Hidle, bind_ret_l. destruct (try_phy_wait_eq isol_id tid s1 Hup1) as (s2 & Ew & Hup2 & En2).
    rewrite (bind_Ret _ _ _ _ _ Ew). destruct (map_err _ _); [|by do 2 eexists].
    apply (IH s2 t); [by rewrite En2|done| |done|done|lia].
    by rewrite (same_get _ _ h (wait_same _)).
Qed.

(** ** The calls *)

Lemma zlen_pos (l : list byte) : l ≠ [] → 0 < zlen l.
Proof. destruct l; [done|]. unfold zlen. cbn. lia. Qed.

Lemma send_delivers_eq P s h t data fuel : up tid s → set_get h s.(stack) = Some t →
  drains h P → P s.(stack) → data ≠ [] → zlen data < 2 ^ 64 → (length data < fuel)%nat →
  ∃ s' t', smol_send isol_id tid fuel h data s = (Ret (Ok ()), s') ∧ up tid s' ∧
    set_get h s'.(stack) = Some t' ∧ tx t' = tx t ++ data.
Proof.
  intros Hup Ht HP Hs Hne%zlen_pos Hlen Hf.
  destruct (send_loop_completes isol_id tid P fuel h data 0 s) as [s' E]; try done; [lia|].
  pose proof (smol_send_safe isol_id tid fuel h data t s Hup Hlen Ht) as Hsafe.
  assert (smol_send isol_id tid fuel h data s = (Ret (Ok ()), s')) as Es by by apply locked_eq.
  destruct (safe_inv _ _ _ _ _ Hsafe Es) as [[Hup' _] (t' & Ht' & Htx)].
  by exists s', t'.
Qed.

(** sending delivers: over a network that keeps taking data, [smol_send]
    returns Ok after at most one round per byte, having handed the socket
    exactly the bytes of [data] in order behind those sent before; the service is
    still up. *)
Theorem send_delivers P s h t data fuel : up tid s → set_get h s.(stack) = Some t →
  drains h P → P s.(stack) → data ≠ [] → zlen data < 2 ^ 64 → (length data < fuel)%nat →
  ∃ s' t', smol_send isol_id tid fuel h data s = (Ret (Ok ()), s') ∧ up tid s' ∧
    set_get h s'.(stack) = Some t' ∧ tx t' = tx t ++ data.
Proof. exact (send_delivers_eq P s h t data fuel). Qed.

(** A network in which the socket never may send: closed by either side, or not
    connected. *)
Definition never_sends (h : Z) (P : N → Prop) : Prop := ∀ n, P n →
  ∃ t, set_get h (iface_do_poll n) = Some t ∧ tcp_may_send t = false ∧
    (phy_wait (iface_do_poll n)).1 = Ok () ∧ P (phy_wait (iface_do_poll n)).2.

(** a send on a connection that is gone never returns: while the socket may
    not send, [smol_send] goes on polling for any number of rounds, with IFACE and
    SOCKETS locked, instead of reporting an error. *)
Theorem send_waits_for_ever P s h data fuel : never_sends h P → P s.(stack) → up tid s →
  data ≠ [] → (smol_send isol_id tid fuel h data s).1 = NoFuel.
Proof.
  intros HP Hs Hup Hne%zlen_pos.
  assert (∃ s', send_loop isol_id tid fuel h data 0 s = (NoFuel, s')) as [s' E].
  { revert s Hs Hup. induction fuel as [|fuel IH]; intros s Hs Hup; [by eexists|].
    destruct (HP _ Hs) as (t & Ht & Hms & Hw & HP'). cbn [send_loop].
    rewrite (polled_eq s h t) by done. unfold send_some. rewrite Hms.
    erewrite try_bind_Ok by reflexivity.
    replace (0 =? zlen data) with false by lia.
    destruct (try_phy_wait_eq isol_id tid (set_stack (iface_do_poll (stack s)) s)) as (s2 & Ew & Hup2 & En2);
      [by apply up_set_stack|]. cbn [stack set_stack] in Ew, En2. rewrite Hw in Ew.
    rewrite (try_bind_Ok _ _ _ _ _ Ew). apply IH; [by rewrite En2|done]. }
  unfold smol_send. by rewrite (locked_eq _ _ s NoFuel s' Hup E).
Qed.

(** C35: receiving takes bytes off the stream: once a poll brings data or the end
    of the connection, [smol_recv] returns; whatever it returns, the bytes it
    put into the buffer are the next ones of the stream, in order, they are the
    ones missing from the socket afterwards, and an Ok result counts them. *)
Theorem recv_takes_prefix k s h t buf fuel : up tid s → set_get h s.(stack) = Some t →
  becomes_ready h k s.(stack) → buf ≠ [] → zlen buf < 2 ^ 64 → (k + 1 < fuel)%nat →
  ∃ r s', smol_recv isol_id tid fuel h buf s = (Ret r, s') ∧ up tid s' ∧
    received h (rx t) buf r s'.
Proof.
  intros Hup Ht Hk Hne Hlen Hf.
  destruct (recv_loop_returns k h buf t s fuel) as (r & s' & E); try done.
  pose proof (smol_recv_safe isol_id tid fuel h buf t s Hup Hlen Ht) as Hsafe.
  assert (smol_recv isol_id tid fuel h buf s = (Ret r, s')) as Es by by apply locked_eq.
  destruct (safe_inv _ _ _ _ _ Hsafe Es) as [[Hup' _] Hr]. by exists r, s'.
Qed.

(** data is lost when the peer closes: if the connection is in CLOSE-WAIT
    after the poll, [smol_recv] reports the end of the stream and leaves the
    buffer as it was, although received bytes are still in the socket. *)
Theorem recv_ignores_last_data s h t buf fuel : up tid s →
  set_get h (iface_do_poll s.(stack)) = Some t → is_CloseWait (tcp_state t) = true → rx t ≠ [] →
  ∃ s', smol_recv isol_id tid (S fuel) h buf s = (Ret (Ok 0, buf), s') ∧ up tid s' ∧
    set_get h s'.(stack) = Some t ∧ tcp_can_recv t = true.
Proof.
  intros Hup Ht Hcw Hrx. exists (set_stack (iface_do_poll s.(stack)) s).
  split_and!; [|by apply up_set_stack|done|by apply can_recv_rx].
  apply locked_eq; [done| |done]. cbn [recv_loop]. rewrite (polled_eq s h t) by done.
  by rewrite Hcw, orb_true_r.
Qed.

Lemma accept_renews_eq s h t fuel fd s' : up tid s → slots s.(stack) < 2 ^ 32 →
  set_get h s.(stack) = Some t → smol_accept isol_id tid fuel h s = (Ret (Ok fd), s') →
  fd ≠ h ∧ set_get fd s.(stack) = None ∧ is_Some (set_get h s'.(stack)) ∧
  ∃ conned port listener, is_Listen (tcp_state conned) = false ∧ tcp_local_port conned = Some port ∧
    set_get fd s'.(stack) = Some listener ∧ is_Listen (tcp_state listener) = true ∧
    listening listener = Some port.
Proof.
  intros Hup Hroom Ht E.
  pose proof (smol_accept_safe isol_id tid fuel h s Hup Hroom (mk_is_Some _ _ Ht)) as Hsafe.
  destruct (safe_inv _ _ _ _ _ Hsafe E) as [[_ [Hk _]] Hf].
  destruct (Hf fd eq_refl) as (Hne & Hnone & Hl). split_and!; [done|done| |done].
  apply Hk. by rewrite Ht.
Qed.

(** accepting a connection renews the listener: [smol_accept] neither panics
    nor deadlocks, and the handle it returns is a new socket that listens on the
    port of the connection, while the handle that was passed in is still in the
    set, as the connection. *)
Theorem accept_renews_listener s h t fuel fd s' : up tid s → slots s.(stack) < 2 ^ 32 →
  set_get h s.(stack) = Some t → smol_accept isol_id tid fuel h s = (Ret (Ok fd), s') →
  fd ≠ h ∧ set_get fd s.(stack) = None ∧ is_Some (set_get h s'.(stack)) ∧
  ∃ conned port listener, is_Listen (tcp_state conned) = false ∧ tcp_local_port conned = Some port ∧
    set_get fd s'.(stack) = Some listener ∧ is_Listen (tcp_state listener) = true ∧
    listening listener = Some port.
Proof. exact (accept_renews_eq s h t fuel fd s'). Qed.

(** C36: handles stay good on one thread: when all calls come from the thread that
    brought the service up ([up tid s]; a second thread would panic, see
    [second_thread_kills] below), any sequence of calls that name the sockets
    handed out so far, closed ones included, with arguments of machine size and
    room for that many sockets, never panics or deadlocks, so it never poisons
    the locks; unless a call goes on polling for ever, the sequence ends with the
    service up and every handle handed out in the set. *)
Theorem handles_stay_valid known cs s : up tid s → valid_handles known s →
  Forall call_fits cs → slots s.(stack) + zlen cs < 2 ^ 32 →
  ∃ o s', exec_calls isol_id tid known cs s = (o, s') ∧
  o ≠ Panic ∧ o ≠ Deadlock ∧ ∀ known', o = Ret known' → up tid s' ∧ valid_handles known' s'.
Proof.
  intros Hup Hv Hcs Hroom.
  pose proof (exec_calls_safe isol_id tid known cs s) as Hsafe. unfold safe, net_ok in Hsafe.
  destruct (exec_calls isol_id tid known cs s) as [o s']. exists o, s'. split; [done|].
  destruct o; naive_solver.
Qed.

(** *** A second thread *)

(** What every call of a service whose interface lock is poisoned gives. *)
Definition dead s : Prop := ∀ tid' fuel addr h data name,
  let err {A} : result A SmoltcpError := Err (SmolAcquireLockErr "IFACE" poison_msg) in
  smol_connect isol_id tid' addr s = (Ret err, s) ∧
  smol_bind isol_id tid' addr s = (Ret err, s) ∧
  smol_accept isol_id tid' fuel h s = (Ret err, s) ∧
  smol_send isol_id tid' fuel h data s = (Ret err, s) ∧
  smol_recv isol_id tid' fuel h data s = (Ret (err, data), s) ∧
  smol_close isol_id tid' fuel h s = (Ret err, s) ∧
  addrinfo isol_id tid' fuel name s = (Ret err, s).

Lemma poisoned_dead s : s.(iface_cell) = Ready → s.(iface_poisoned) = true → dead s.
Proof.
  intros Hi Hp. assert (∀ tid' A (fail : SmoltcpError → A) m,
    acquire_iface isol_id tid' fail m s = (Ret (fail (SmolAcquireLockErr "IFACE" poison_msg)), s)) as E.
  { intros tid' A fail m. unfold acquire_iface, mbind, prog_mbind, force_iface, force.
    rewrite Hi. unfold under_lock. by rewrite Hp. }
  intros tid' fuel addr h data name err.
  unfold smol_connect, smol_bind, smol_send, smol_recv, smol_close, addrinfo. rewrite !E.
  split_and!; try done. unfold smol_accept.
  unfold try_bind. unfold mbind at 1, prog_mbind at 1. by rewrite E.
Qed.

Lemma poll_second_thread tid2 s : s.(logger_set) = true → tid2 ∉ s.(devices) →
  iface_poll isol_id tid2 s = (Panic, s).
Proof.
  intros Hl Hd. unfold iface_poll, with_device, device_init, mbind, prog_mbind, gets.
  rewrite decide_False by done. by rewrite Hl.
Qed.

(** the service serves one thread only: once a thread has brought it up, the
    first call of another thread that polls the network panics, since [DEVICE]
    is thread-local and its initialiser sets the logger a second time; the
    panic poisons both locks, and from then on every call of every thread, the
    first one included, fails to acquire IFACE. *)
Theorem second_thread_kills s tid2 h data fuel : up tid s → s.(logger_set) = true →
  tid2 ∉ s.(devices) →
  ∃ s', smol_send isol_id tid2 (S fuel) h data s = (Panic, s') ∧
  s'.(stack) = s.(stack) ∧ s'.(sockets_poisoned) = true ∧ dead s'.
Proof.
  intros [Hi _ _ Hip Hsp] Hl Hd. exists (poison_iface (poison_sockets s)). split.
  { unfold smol_send, acquire_iface, mbind at 1, prog_mbind, force_iface, force. rewrite Hi.
    unfold acquire_sockets, under_lock, poisoning. rewrite Hip, Hsp. cbn [send_loop].
    by rewrite (bind_Panic _ _ _ _ (poll_second_thread tid2 s Hl Hd)). }
  split_and!; [done..|]. by apply poisoned_dead.
Qed.
End props.

(** ** The theorems on the scripted network *)
Section demo.
Import SocketDemo.

Definition isol : Z := 7.
(** The service as thread 1 has brought it up. *)
Definition live_on (w : Wire) : NetState Wire :=
  mk_net (Some (device_name isol)) false true {[1]} Ready Ready false false w.
Definition connected (bs : list byte) : Tcp :=
  mk_tcp (OtherState "ESTABLISHED") bs [] (Some 9000) None.
Definition dead_end : Tcp := mk_tcp (OtherState "CLOSED") [] [] None None.

Lemma live_up w : up 1 (live_on w).
Proof. by constructor. Qed.

(** The first call of the first thread brings the service up. *)
Example first_call :
  smol_bind isol 1 (mk_addr 0 8080) (net_start (mk_wire [] [])) =
    (Ret (Ok 0), mk_net (Some (device_name isol)) false true {[1]} Uninit Ready false false
       (mk_wire [mk_tcp Listen [] [] None (Some 8080)] [])).
Proof. reflexivity. Qed.

Definition quiet_sender (w : Wire) : Prop := ∃ t, w = mk_wire [t] [] ∧ sending t = true.

Lemma quiet_sender_drains : drains 0 quiet_sender.
Proof.
  intros n d (t & -> & Hs) Hd%zlen_pos.
  exists t, (Z.min 4 (zlen d)).
  exists (mk_tcp t.(st) t.(inq) (t.(acc) ++ take (Z.to_nat (Z.min 4 (zlen d))) d) t.(lport) t.(lis)).
  split_and!; [done|exact Hs| |lia|lia|done|].
  - change (send4 d t = (Ok (Z.min 4 (zlen d)), mk_tcp (st t) (inq t)
      (acc t ++ take (Z.to_nat (Z.min 4 (zlen d))) d) (lport t) (lis t))).
    unfold send4. by rewrite Hs.
  - eexists. by split.
Qed.

Lemma send_delivers_witness : ∃ s' t',
  smol_send isol 1 20 0 [1;2;3;4;5;6;7;8;9] (live_on (mk_wire [connected []] [])) = (Ret (Ok ()), s') ∧
  up 1 s' ∧ set_get 0 s'.(stack) = Some t' ∧ tx t' = [] ++ [1;2;3;4;5;6;7;8;9].
Proof.
  refine (send_delivers isol 1 quiet_sender (live_on (mk_wire [connected []] [])) 0 (connected [])
    [1;2;3;4;5;6;7;8;9] 20 (live_up _) _ quiet_sender_drains _ _ _ _).
  - reflexivity.
  - exists (connected []). by split.
  - done.
  - reflexivity.
  - cbn. lia.
Defined.

Definition cut_off (w : Wire) : Prop := w = mk_wire [dead_end] [].

Lemma cut_off_never_sends : never_sends 0 cut_off.
Proof. intros n ->. exists dead_end. by split_and!. Qed.

Lemma send_waits_for_ever_witness :
  (smol_send isol 1 1000 0 [1] (live_on (mk_wire [dead_end] []))).1 = NoFuel.
Proof.
  refine (send_waits_for_ever isol 1 cut_off (live_on (mk_wire [dead_end] [])) 0 [1] 1000
    cut_off_never_sends _ (live_up _) _); done.
Defined.

(** Bytes arrive with the second poll. *)
Definition late_wire : Wire := mk_wire [connected []] [[]; [(0, Arrive [1;2;3])]].

Lemma late_ready : becomes_ready 0 1 late_wire.
Proof.
  eapply ready_later; [reflexivity|reflexivity|].
  eapply ready_now; [reflexivity|]. by left.
Qed.

Lemma recv_takes_prefix_witness : ∃ r s',
  smol_recv isol 1 5 0 [0; 0] (live_on late_wire) = (Ret r, s') ∧ up 1 s' ∧
  received 0 [] [0; 0] r s'.
Proof.
  refine (recv_takes_prefix isol 1 1 (live_on late_wire) 0 (connected []) [0; 0] 5
    (live_up _) _ late_ready _ _ _); try done. lia.
Defined.

(** What that receive does, computed. *)
Example recv_two : (smol_recv isol 1 5 0 [0; 0] (live_on late_wire)).1 = Ret (Ok 2, [1; 2]).
Proof. reflexivity. Qed.

(** The last bytes and the end of the connection come with the same poll. *)
Definition last_wire : Wire := mk_wire [connected []] [[(0, Arrive [1;2;3]); (0, PeerFin)]].

Lemma recv_ignores_last_data_witness : ∃ s',
  smol_recv isol 1 1 0 [9; 9; 9; 9] (live_on last_wire) = (Ret (Ok 0, [9; 9; 9; 9]), s') ∧ up 1 s' ∧
  set_get 0 s'.(stack) = Some (mk_tcp CloseWait [1;2;3] [] (Some 9000) None) ∧
  tcp_can_recv (mk_tcp CloseWait [1;2;3] [] (Some 9000) None) = true.
Proof.
  refine (recv_ignores_last_data isol 1 (live_on last_wire) 0
    (mk_tcp CloseWait [1;2;3] [] (Some 9000) None) [9; 9; 9; 9] 0 (live_up _) _ _ _); done.
Defined.

Definition calling_wire : Wire :=
  mk_wire [mk_tcp Listen [] [] None (Some 8080)] [[]; [(0, Established)]].

Lemma accepted : ∃ s', smol_accept isol 1 5 0 (live_on calling_wire) = (Ret (Ok 1), s').
Proof. eexists. vm_compute. reflexivity. Qed.

Lemma accept_renews_listener_witness : ∃ s',
  1 ≠ 0 ∧ set_get 1 (live_on calling_wire).(stack) = None ∧ is_Some (set_get 0 s'.(stack)) ∧
  ∃ conned port listener, is_Listen (tcp_state conned) = false ∧ tcp_local_port conned = Some port ∧
    set_get 1 s'.(stack) = Some listener ∧ is_Listen (tcp_state listener) = true ∧
    listening listener = Some port.
Proof.
  destruct accepted as [s' E]. exists s'.
  refine (accept_renews_listener isol 1 (live_on calling_wire) 0
    (mk_tcp Listen [] [] None (Some 8080)) 5 1 s' (live_up _) _ _ E); done.
Defined.

(** A server: bind, accept, answer the request, close, and use the closed
    socket once more. *)
Definition server : list net_call :=
  [CBind (mk_addr 0 8080); CAccept 5 0; CRecv 5 0 [0;0;0;0]; CSend 5 0 [1;2;3;4;5]; CClose 5 0;
   CRecv 5 0 [0]; CConnect (mk_addr 1 80); CAddrinfo 5 "example.org"].

Definition server_state : NetState Wire :=
  live_on (mk_wire [] [[]; [(0, Established)]; []; [(0, Arrive [5;6])]]).

Lemma server_fits : Forall call_fits server ∧ slots server_state.(stack) + zlen server < 2 ^ 32.
Proof. split; [by repeat constructor|reflexivity]. Qed.

Lemma handles_stay_valid_witness :
  ∃ o s', exec_calls isol 1 [] server server_state = (o, s') ∧ o ≠ Panic ∧ o ≠ Deadlock ∧ ∀ known', o = Ret known' → up 1 s' ∧ valid_handles known' s'.
Proof.
  exact (handles_stay_valid (T := Tcp) (N := Wire) isol 1 [] server server_state (live_up _)
    (Forall_nil_2 _) (proj1 server_fits) (proj2 server_fits)).
Defined.

(** That server hands out three sockets. *)
Example server_runs :
  (exec_calls isol 1 [] server server_state).1 = Ret [0; 1; 2].
Proof. vm_compute. reflexivity. Qed.

Lemma second_thread_kills_witness :
  ∃ s', smol_send isol 2 1 0 [1] (live_on (mk_wire [connected []] [])) = (Panic, s') ∧
  s'.(stack) = mk_wire [connected []] [] ∧ s'.(sockets_poisoned) = true ∧ dead isol s'.
Proof.
  refine (second_thread_kills isol 1 (live_on (mk_wire [connected []] [])) 2 0 [1] 0 (live_up _) _ _);
    [done|cbn; set_solver].
Defined.
End demo.
