(* ===== verification/InodeTab.v ===== *)
(** * Descriptor tables over inodes (rcorefdtab, rcore_sfsfdtab)

    The two services keep a [BTreeMap] from descriptors to [FileWrapper]s (an
    inode, an offset and two permissions) and a counter that never goes back.
    Their files rc_apis.rs and sfs_apis.rs are the same but for [init] and
    [open], so the operations are written once, over the [init] of the service;
    [Rc] and [Sfs] are the two instances.  The inodes belong to the [rcore_fs]
    crates, the parameter [Vfs].  [spin::Mutex] does not know who holds it:
    locking it twice in one thread blocks for ever, which [lock_table] models. *)
From Stdlib Require Import Ascii.
From S2P Require Import Prelude Bytes Hostcall.

(** [rcore_fs::vfs::FileType], the constructors the services use. *)
Inductive FileType : Type := FtFile | FtDir | FtOther.
#[global] Instance FileType_eq_dec : EqDecision FileType.
Proof. solve_decision. Defined.

Record Metadata : Type := mk_meta {
  m_dev : Z; m_inode : Z; m_size : Z; m_blk_size : Z; m_blocks : Z;
  m_atime : TimeSpec; m_mtime : TimeSpec; m_ctime : TimeSpec;
  m_type : FileType; m_mode : Z; m_nlinks : Z; m_uid : Z; m_gid : Z; m_rdev : Z
}.

(** The file system below: its state [S], inode handles [I] and errors [E]. *)
Class Vfs (S I E : Type) : Type := {
  InvalidParam_ : E;
  EntryExist_ : E;
  debug : E → string;
  root_inode : I;
  i_read_at : I → Z → list byte → prog S (result Z E * list byte);
  i_write_at : I → Z → list byte → prog S (result Z E);
  i_metadata : I → prog S (result Metadata E);
  i_lookup : I → string → prog S (result I E);
  i_find : I → string → prog S (result I E);
  i_list : I → prog S (result (list string) E);
  i_create : I → string → FileType → Z → prog S (result I E);
  i_link : I → string → I → prog S (result () E);
  i_unlink : I → string → prog S (result () E);
  i_move : I → string → I → string → prog S (result () E);
  i_set_metadata : I → Metadata → prog S (result () E);
  i_sync_all : I → prog S (result () E);
  i_sync_data : I → prog S (result () E);
  PollStatus : Type;
  i_poll : I → prog S (result PollStatus E);
  filetype_code : FileType → Z;
  i_resize : I → Z → prog S (result () E);
  v_stdout : list byte → prog S Z
}.

Record FileWrapper (I : Type) : Type := mk_wrapper {
  inode : I; offset : Z; readable : bool; writable : bool
}.
Arguments mk_wrapper {I}.
Arguments inode {I}.
Arguments offset {I}.
Arguments readable {I}.
Arguments writable {I}.

Definition wrapper_new {I} (i : I) (r w : bool) : FileWrapper I := mk_wrapper i 0 r w.

(** The statics of the service. *)
Record TabState (S I : Type) : Type := mk_tab {
  fs : S;
  global_fs : bool;
  init_done : option bool;
  fd_table : gmap Z (FileWrapper I);
  next_fd : Z;
  table_locked : bool
}.
Arguments mk_tab {S I}.
Arguments fs {S I}.
Arguments global_fs {S I}.
Arguments init_done {S I}.
Arguments fd_table {S I}.
Arguments next_fd {S I}.
Arguments table_locked {S I}.

(** The statics before the first call. *)
Definition tab_start {S I} (fs : S) : TabState S I := mk_tab fs false None ∅ 3 false.

Definition with_fs {S I} (v : S) (s : TabState S I) : TabState S I :=
  mk_tab v s.(global_fs) s.(init_done) s.(fd_table) s.(next_fd) s.(table_locked).
Definition with_global {S I} (v : bool) (s : TabState S I) : TabState S I :=
  mk_tab s.(fs) v s.(init_done) s.(fd_table) s.(next_fd) s.(table_locked).
Definition with_init {S I} (v : option bool) (s : TabState S I) : TabState S I :=
  mk_tab s.(fs) s.(global_fs) v s.(fd_table) s.(next_fd) s.(table_locked).
Definition with_table {S I} (v : gmap Z (FileWrapper I)) (s : TabState S I) : TabState S I :=
  mk_tab s.(fs) s.(global_fs) s.(init_done) v s.(next_fd) s.(table_locked).
Definition with_next {S I} (v : Z) (s : TabState S I) : TabState S I :=
  mk_tab s.(fs) s.(global_fs) s.(init_done) s.(fd_table) v s.(table_locked).
Definition with_locked {S I} (v : bool) (s : TabState S I) : TabState S I :=
  mk_tab s.(fs) s.(global_fs) s.(init_done) s.(fd_table) s.(next_fd) v.

(** The [convert] of a [Metadata] to the host-call [Stat], with its casts. *)
Definition convert (meta : Metadata) : Stat := {|
  st_dev := meta.(m_dev); st_ino := meta.(m_inode); st_nlink := meta.(m_nlinks);
  st_mode := meta.(m_mode); st_uid := wrap 32 meta.(m_uid); st_gid := wrap 32 meta.(m_gid);
  pad0 := 0; st_rdev := meta.(m_rdev); st_size := meta.(m_size);
  st_blksize := as_signed 64 meta.(m_blk_size); st_blocks := as_signed 64 meta.(m_blocks);
  st_atime := meta.(m_atime); st_mtime := meta.(m_mtime); st_ctime := meta.(m_ctime);
  unused := [0; 0; 0] |}.

Section inode_tab.
Context {S I E : Type} `{Vfs S I E}.
Local Abbreviation M := (prog (TabState S I)).

Definition vfs {A} (m : prog S A) : M A := on fs with_fs m.

(** [FD_TABLE.lock()] around [m].  The guard is dropped when [m] returns and
    when it unwinds; when [m] blocks (or runs for ever) the lock stays taken. *)
Definition lock_table {A} (m : M A) : M A := λ s,
  if s.(table_locked) then (Deadlock, s)
  else
    let '(o, s') := m (with_locked true s) in
    match o with
    | Ret _ | Panic => (o, with_locked false s')
    | Deadlock | NoFuel => (o, s')
    end.

(** [FileWrapper::read] and [write] on the wrapper [w] of [fd]: the new offset
    goes back into the table. *)
Definition put_wrapper (fd : Fd) (w : FileWrapper I) : M () :=
  modify (λ s, with_table (<[fd := w]> s.(fd_table)) s).

Definition wrapper_read (fd : Fd) (w : FileWrapper I) (buf : list byte) :
    M (result Z E * list byte) :=
  if negb w.(readable) then mret (Err InvalidParam_, buf)
  else
    '(r, buf) ← vfs (i_read_at w.(inode) w.(offset) buf);
    match r with
    | Err e => mret (Err e, buf)
    | Ok len =>
        offset ← checked 64 (w.(offset) + len);
        put_wrapper fd (mk_wrapper w.(inode) offset w.(readable) w.(writable));;
        mret (Ok len, buf)
    end.

Definition wrapper_write (fd : Fd) (w : FileWrapper I) (buf : list byte) : M (result Z E) :=
  if negb w.(writable) then mret (Err InvalidParam_)
  else
    len ←? vfs (i_write_at w.(inode) w.(offset) buf);
    offset ← checked 64 (w.(offset) + len);
    put_wrapper fd (mk_wrapper w.(inode) offset w.(readable) w.(writable));;
    mret (Ok len).

Definition wrapper_seek (fd : Fd) (w : FileWrapper I) (pos : Z) : M (result () E) :=
  put_wrapper fd (mk_wrapper w.(inode) pos w.(readable) w.(writable));; mret (Ok ()).

Definition alloc_fd (i : I) (readable writable : bool) : M Fd :=
  lock_table (
    fd ← gets next_fd;
    next ← checked 32 (fd + 1);
    modify (with_next next);;
    put_wrapper fd (wrapper_new i readable writable);;
    mret fd).

Definition get_file_wrapper (fd : Fd) : M (option (FileWrapper I)) :=
  lock_table (gets (λ s, s.(fd_table) !! fd)).

Definition remove_fd (fd : Fd) : M () :=
  lock_table (modify (λ s, with_table (delete fd s.(fd_table)) s)).

(** [let _ = *INIT_DONE;], the [lazy_static] that runs the service's [init]. *)
Definition force_init (init : M bool) : M () :=
  d ← gets init_done;
  match d with
  | Some _ => mret ()
  | None => b ← init; modify (with_init (Some b))
  end.

Definition fs_err (what : string) (e : E) : FdtabError :=
  FsErr (what +:+ " failed: " +:+ debug e).
Definition invalid_fd : FdtabError := FsErr "invalid fd".
Definition not_initialised : FdtabError := FsErr "global fs not initialized".

Section operations.
Context (init : M bool).

Definition read (fd : Fd) (buf : list byte) : M (result Z FdtabError * list byte) :=
  force_init init;;
  lock_table (
    w ← gets (λ s, s.(fd_table) !! fd);
    match w with
    | Some w =>
        '(r, buf) ← wrapper_read fd w buf;
        mret (map_err (fs_err "read") r, buf)
    | None => mret (Err invalid_fd, buf)
    end).

Definition write (fd : Fd) (buf : list byte) : M (result Z FdtabError) :=
  force_init init;;
  if (fd =? 1) || (fd =? 2) then n ← vfs (v_stdout buf); mret (Ok n)
  else lock_table (
    w ← gets (λ s, s.(fd_table) !! fd);
    match w with
    | Some w => r ← wrapper_write fd w buf; mret (map_err (fs_err "write") r)
    | None => mret (Err invalid_fd)
    end).

Definition close (fd : Fd) : M (result () FdtabError) :=
  force_init init;; remove_fd fd;; mret (Ok ()).

Definition lseek (fd : Fd) (pos : Z) : M (result () FdtabError) :=
  force_init init;;
  lock_table (
    w ← gets (λ s, s.(fd_table) !! fd);
    match w with
    | Some w => r ← wrapper_seek fd w pos; mret (map_err (fs_err "lseek") r)
    | None => mret (Err invalid_fd)
    end).

Definition stat (fd : Fd) : M (result Stat FdtabError) :=
  force_init init;;
  w ← get_file_wrapper fd;
  match w with
  | Some w =>
      r ← vfs (i_metadata w.(inode));
      mret (match r with Ok m => Ok (convert m) | Err e => Err (fs_err "stat" e) end)
  | None => mret (Err invalid_fd)
  end.

(** The entries [readdir] keeps: those whose child and metadata can be read. *)
Definition dir_entry (path : string) (dir : I) (name : string) : M (list DirEntry) :=
  child ← vfs (i_find dir name);
  match child with
  | Err _ => mret []
  | Ok child =>
      m ← vfs (i_metadata child);
      mret (match m with
            | Ok m => [mk_dirent path name
                         (filetype_code m.(m_type))]
            | Err _ => []
            end)
  end.

Definition starts_with_slash (path : string) : bool :=
  match path with String c _ => Ascii.eqb c "/" | EmptyString => false end.

Definition readdir (path : string) : M (result (list DirEntry) FdtabError) :=
  force_init init;;
  g ← gets global_fs;
  if negb g then mret (Err not_initialised)
  else
    inode ← vfs (if starts_with_slash path then i_lookup root_inode path
                 else i_find root_inode path);
    match inode with
    | Err e => mret (Err (fs_err "readdir" e))
    | Ok dir =>
        names ← vfs (i_list dir);
        match names with
        | Err e => mret (Err (fs_err "readdir" e))
        | Ok names =>
            entries ← traverse (dir_entry path dir) names;
            mret (Ok (mjoin entries))
        end
    end.

(** [create] keeps the guard of [FD_TABLE] until it returns. *)
Definition create (parent_fd : Z) (name : string) (type_ : FileType) (mode : Z) :
    M (option Z) :=
  force_init init;;
  lock_table (
    w ← gets (λ s, s.(fd_table) !! wrap 32 parent_fd);
    match w with
    | None => mret None
    | Some w =>
        meta ← vfs (i_metadata w.(inode));
        match meta with
        | Err _ => mret None
        | Ok meta =>
            if negb (bool_decide (meta.(m_type) = FtDir)) then mret None
            else
              new ← vfs (i_create w.(inode) name type_ mode);
              match new with
              | Err _ => mret None
              | Ok new => fd ← alloc_fd new true true; mret (Some fd)
              end
        end
    end).

(** The operations that run one call of the inode of a descriptor under the
    lock and report whether it succeeded. *)
Definition on_inode {A} (fd : Z) (none : A) (k : I → M A) : M A :=
  w ← gets (λ s, s.(fd_table) !! wrap 32 fd);
  match w with None => mret none | Some w => k w.(inode) end.

Definition link (parent_fd : Z) (name : string) (target_fd : Z) : M bool :=
  force_init init;;
  lock_table (on_inode parent_fd false (λ parent,
    on_inode target_fd false (λ target,
      r ← vfs (i_link parent name target); mret (is_ok r)))).

Definition unlink (parent_fd : Z) (name : string) : M bool :=
  force_init init;;
  lock_table (on_inode parent_fd false (λ parent,
    r ← vfs (i_unlink parent name); mret (is_ok r))).

(** [rename] moves, inside the new parent, the entry named by the decimal inode
    number of the old descriptor. *)
Definition rename (old_fd new_parent_fd : Z) (new_name : string) : M bool :=
  force_init init;;
  lock_table (on_inode old_fd false (λ old,
    on_inode new_parent_fd false (λ new_parent,
      meta ← vfs (i_metadata old);
      match meta with
      | Err _ => mret false
      | Ok meta =>
          r ← vfs (i_move new_parent (pretty.pretty meta.(m_inode)) new_parent new_name);
          mret (is_ok r)
      end))).

Definition set_metadata (fd : Z) (meta : Metadata) : M bool :=
  force_init init;;
  lock_table (on_inode fd false (λ i, r ← vfs (i_set_metadata i meta); mret (is_ok r))).

Definition flush (fd : Z) : M bool :=
  force_init init;;
  lock_table (on_inode fd false (λ i, r ← vfs (i_sync_all i); mret (is_ok r))).

Definition sync (fd : Z) : M bool :=
  force_init init;;
  lock_table (on_inode fd false (λ i, r ← vfs (i_sync_data i); mret (is_ok r))).

Definition poll (fd : Z) : M (option PollStatus) :=
  force_init init;;
  lock_table (on_inode fd None (λ i,
    r ← vfs (i_poll i); mret (match r with Ok p => Some p | Err _ => None end))).

Definition set_nonblocking (_fd : Z) (_nonblocking : bool) : M bool := mret true.
End operations.
End inode_tab.
