(* ===== verification/RcoreInit.v ===== *)
(** * The two inode services: initialisation and [open]

    [Rc] is rcorefdtab, whose file system is a RAM file system filled from the
    FAT image, and [Sfs] is rcore_sfsfdtab, whose file system is an SFS volume
    created on a RAM disk and filled the same way.  Walking the image with the
    [fatfs] crate is a parameter: the tree of entries it yields ([FatEntry]). *)
From Stdlib Require Import Ascii.
From S2P Require Import Prelude Bytes Hostcall Block InodeTab.

#[local] Set Warnings "-register-all".

(** One item of a directory iterator of the [fatfs] crate: an unreadable entry,
    a directory, or a file with its size and what [read_to_end] gives. *)
Inductive FatEntry : Type :=
  | FeErr
  | FeDir (name : string) (entries : list FatEntry)
  | FeFile (name : string) (len : Z) (bytes : option (list byte)).

(** ** Device drivers (ramdisk/ramdriver): at most one device per container *)
Module Drivers.
Section container.
Context {D : Type}.
Abbreviation AxDeviceContainer := (option D).
Definition len (c : option D) : Z := match c with Some _ => 1 | None => 0 end.
Definition is_empty (c : option D) : bool := len c =? 0.
(** The device taken out, and the container left. *)
Definition take_one (c : option D) : option D * option D := (c, None).
Definition from_one (dev : D) : option D := Some dev.
Definition push (c : option D) (dev : D) : option D :=
  match c with None => Some dev | Some d => Some d end.
End container.

(** [RamDiskDriver::probe_global] of rcore_sfsfdtab, given the image's length as
    [fs::metadata] reports it. *)
Definition probe_global {S} (image_len : option Z) : prog S (option RamDisk.RamDisk) :=
  size ← unwrap image_len;
  ramdisk ← RamDisk.new size;
  mret (Some ramdisk).

(** [init_drivers]: probe every registered driver, here the RAM disk. *)
Definition init_drivers {S} (image_len : option Z) : prog S (option RamDisk.RamDisk) :=
  dev ← probe_global image_len;
  mret (match dev with Some dev => push None dev | None => None end).
End Drivers.

Section unpack.
Context {S I E : Type} `{Vfs S I E} `{EqDecision E}.

Definition skipped_name (name : string) : bool :=
  bool_decide (name = "."%string ∨ name = ".."%string).

(** Create a directory, or find the one that is there. *)
Definition make_dir (dir : I) (name : string) : prog S (option I) :=
  r ← i_create dir name FtDir 493 (* 0o755 *);
  match r with
  | Ok d => mret (Some d)
  | Err e =>
      if decide (e = EntryExist_) then
        r ← i_find dir name;
        mret (match r with Ok d => Some d | Err _ => None end)
      else mret None
  end.

(** rcorefdtab skips files over 100 MiB. *)
Definition rc_max_file : Z := 100 * 1024 * 1024.

Fixpoint unpack_entry_ramfs (dir : I) (entry : FatEntry) {struct entry} : prog S () :=
  match entry with
  | FeErr => mret ()
  | FeDir name entries =>
      if skipped_name name then mret ()
      else
        d ← make_dir dir name;
        match d with
        | None => mret ()
        | Some d =>
            (fix go (l : list FatEntry) : prog S () :=
               match l with
               | [] => mret ()
               | e :: l => unpack_entry_ramfs d e;; go l
               end) entries
        end
  | FeFile name len bytes =>
      if skipped_name name then mret ()
      else if rc_max_file <? len then mret ()
      else
        f ← i_create dir name FtFile 420 (* 0o644 *);
        match f with
        | Err _ => mret ()
        | Ok f =>
            match bytes with
            | None => mret ()
            | Some buf => _ ← i_write_at f 0 buf; mret ()
            end
        end
  end.

Definition unpack_dir_to_ramfs (dir : I) (entries : list FatEntry) : prog S (result () E) :=
  forM entries (unpack_entry_ramfs dir);; mret (Ok ()).

Fixpoint unpack_entry_sfs (dir : I) (entry : FatEntry) {struct entry} : prog S () :=
  match entry with
  | FeErr => mret ()
  | FeDir name entries =>
      if skipped_name name then mret ()
      else
        d ← make_dir dir name;
        match d with
        | None => mret ()
        | Some d =>
            (fix go (l : list FatEntry) : prog S () :=
               match l with
               | [] => mret ()
               | e :: l => unpack_entry_sfs d e;; go l
               end) entries
        end
  | FeFile name len bytes =>
      if skipped_name name then mret ()
      else
        f ← i_create dir name FtFile 420 (* 0o644 *);
        match f with
        | Err _ => mret ()
        | Ok f =>
            match bytes with
            | None => mret ()
            | Some buf =>
                r ← i_resize f (zlen buf);
                match r with
                | Err _ => mret ()
                | Ok _ => _ ← i_write_at f 0 buf; mret ()
                end
            end
        end
  end.

Definition unpack_dir_to_sfs (dir : I) (entries : list FatEntry) : prog S (result () E) :=
  forM entries (unpack_entry_sfs dir);; mret (Ok ()).

(** [None]: the image cannot be opened or is not a FAT volume. *)
Definition img_to_ramfs_bridge (root : I) (image : option (list FatEntry)) : prog S () :=
  match image with
  | None => mret ()
  | Some entries => _ ← unpack_dir_to_ramfs root entries; mret ()
  end.

Definition img_to_sfs_bridge (root : I) (image : option (list FatEntry)) : prog S () :=
  match image with
  | None => mret ()
  | Some entries => _ ← unpack_dir_to_sfs root entries; mret ()
  end.
End unpack.

Section services.
Context {S I E : Type} `{Vfs S I E} `{EqDecision E}.
(** The entries of the image the isolation names. *)
Context (image : option (list FatEntry)).
Local Abbreviation M := (prog (TabState S I)).

(** [open]'s permissions. *)
Definition open_readable (mode : Z) : bool :=
  contains mode OpenMode_RD || contains mode OpenMode_RDWR.
Definition open_writable (mode : Z) : bool :=
  contains mode OpenMode_WR || contains mode OpenMode_RDWR.

Section rc.
(** [RamFS::new()] mounted. *)
Context (new_ramfs : S).

(** Insert one of the standard streams: the device's inode, or the root's. *)
Definition insert_std (fd : Fd) (path : string) (r w : bool) : M () :=
  inode ← vfs (i_lookup root_inode path);
  lock_table (put_wrapper fd
    (wrapper_new (match inode with Ok i => i | Err _ => root_inode end) r w)).

Definition rc_init : M bool :=
  modify (with_fs new_ramfs);;
  vfs (img_to_ramfs_bridge root_inode image);;
  modify (with_global true);;
  insert_std 0 "/dev/stdin" true false;;
  insert_std 1 "/dev/stdout" false true;;
  insert_std 2 "/dev/stderr" false true;;
  mret true.

Definition rc_open (path : string) (flags mode : Z) : M (result Fd FdtabError) :=
  force_init rc_init;;
  g ← gets global_fs;
  if negb g then mret (Err not_initialised)
  else
    r ← vfs (i_lookup root_inode path);
    match r with
    | Ok inode =>
        _ ← vfs (i_metadata inode);
        fd ← alloc_fd inode (open_readable mode) (open_writable mode);
        mret (Ok fd)
    | Err _ => mret (Err (FsErr ("file not found: " +:+ path)))
    end.
End rc.

Section sfs.
(** The image's length, and [SimpleFileSystem::create] on the RAM disk, mounted. *)
Context (image_len : option Z) (sfs_create : RamDisk.RamDisk → Z → result S ()).

Definition sfs_init : M bool :=
  devices ← Drivers.init_drivers image_len;
  let '(device, _) := Drivers.take_one devices in
  match device with
  | None => mret false
  | Some device =>
      match sfs_create device device.(RamDisk.size) with
      | Err _ => mret false
      | Ok sfs =>
          modify (with_fs sfs);;
          modify (with_global true);;
          vfs (img_to_sfs_bridge root_inode image);;
          mret true
      end
  end.

(** [path.trim_start_matches('/')] *)
Fixpoint trim_start_slashes (path : string) : string :=
  match path with
  | String c rest => if Ascii.eqb c "/" then trim_start_slashes rest else path
  | EmptyString => EmptyString
  end.

Definition sfs_open (path : string) (flags mode : Z) : M (result Fd FdtabError) :=
  force_init sfs_init;;
  g ← gets global_fs;
  if negb g then mret (Err not_initialised)
  else
    r ← vfs (i_lookup root_inode path);
    match r with
    | Ok inode =>
        _ ← vfs (i_metadata inode);
        fd ← alloc_fd inode (open_readable mode) (open_writable mode);
        mret (Ok fd)
    | Err _ =>
        if contains flags O_CREAT then
          r ← vfs (i_create root_inode (trim_start_slashes path) FtFile 420 (* 0o644 *));
          match r with
          | Err e => mret (Err (fs_err "create" e))
          | Ok inode =>
              fd ← alloc_fd inode (open_readable mode) (open_writable mode);
              mret (Ok fd)
          end
        else mret (Err invalid_fd)
    end.
End sfs.
End services.

(** ** The calls of each service *)
Module Rc.
Section rc.
Context {S I E : Type} `{Vfs S I E} `{EqDecision E}.
Context (image : option (list FatEntry)) (new_ramfs : S).
Definition init : prog (TabState S I) bool := rc_init image new_ramfs.
Definition open := rc_open image new_ramfs.
Definition read := InodeTab.read init.
Definition write := InodeTab.write init.
Definition close := InodeTab.close init.
Definition lseek := InodeTab.lseek init.
Definition stat := InodeTab.stat init.
Definition readdir := InodeTab.readdir init.
Definition create := InodeTab.create init.
Definition link := InodeTab.link init.
Definition unlink := InodeTab.unlink init.
Definition rename := InodeTab.rename init.
Definition set_metadata := InodeTab.set_metadata init.
Definition flush := InodeTab.flush init.
Definition sync := InodeTab.sync init.
Definition poll := InodeTab.poll init.
End rc.
End Rc.

Module Sfs.
Section sfs.
Context {S I E : Type} `{Vfs S I E} `{EqDecision E}.
Context (image : option (list FatEntry)) (image_len : option Z)
        (sfs_create : RamDisk.RamDisk → Z → result S ()).
Definition init : prog (TabState S I) bool := sfs_init image image_len sfs_create.
Definition open := sfs_open image image_len sfs_create.
Definition read := InodeTab.read init.
Definition write := InodeTab.write init.
Definition close := InodeTab.close init.
Definition lseek := InodeTab.lseek init.
Definition stat := InodeTab.stat init.
Definition readdir := InodeTab.readdir init.
Definition create := InodeTab.create init.
Definition link := InodeTab.link init.
Definition unlink := InodeTab.unlink init.
Definition rename := InodeTab.rename init.
Definition set_metadata := InodeTab.set_metadata init.
Definition flush := InodeTab.flush init.
Definition sync := InodeTab.sync init.
Definition poll := InodeTab.poll init.
End sfs.
End Sfs.
