(* ===== verification/RcoreSpec.v ===== *)
(** * Properties of the inode services

    Descriptors of rcorefdtab and rcore_sfsfdtab are never reused ([evolves] is
    what every call keeps), [create] blocks on its own lock, and a file written
    through a descriptor reads back. *)
From S2P Require Import Prelude Bytes Hostcall Block InodeTab RcoreInit.

(** What [INode::read_at] and [write_at] document, for a file that has room. *)
Class VfsSpec (S I E : Type) `{Vfs S I E} : Type := {
  icontent : S → I → list byte;
  i_read_at_spec : ∀ s i off buf, 0 ≤ off ≤ zlen (icontent s i) →
    let n := Nat.min (length buf) (length (icontent s i) - Z.to_nat off) in
    ∃ s', i_read_at i off buf s =
      (Ret (Ok (Z.of_nat n), sub (icontent s i) (Z.to_nat off) n ++ drop n buf), s') ∧
      icontent s' i = icontent s i;
  i_write_at_spec : ∀ s i off buf, 0 ≤ off ≤ zlen (icontent s i) →
    ∃ s', i_write_at i off buf s = (Ret (Ok (zlen buf)), s') ∧
      icontent s' i = take (Z.to_nat off) (icontent s i) ++ buf ++
                      drop (Z.to_nat off + length buf) (icontent s i)
}.

Section evolution.
Context {S I E : Type} `{Vfs S I E}.
Implicit Types (s : TabState S I).
Local Abbreviation M := (prog (TabState S I)).

(** What every call keeps: initialisation, the counter (which only grows) and
    the absence of descriptors below it. *)
Definition evolves s s' : Prop :=
  s'.(init_done) = s.(init_done) ∧ s.(next_fd) ≤ s'.(next_fd) ∧
  ∀ fd, fd < s.(next_fd) → s.(fd_table) !! fd = None → s'.(fd_table) !! fd = None.

(** A call that ended, by returning or by a panic. *)
Definition ended {A} (o : outcome A) : bool :=
  match o with Ret _ | Panic => true | Deadlock | NoFuel => false end.

(** A call that ended leaves the lock as it was. *)
Definition step_ok {A} s (o : outcome A) s' : Prop :=
  evolves s s' ∧ (ended o = true → s'.(table_locked) = s.(table_locked)).

(** Programs that keep both, from any initialised state. *)
Definition keeps {A} (m : M A) : Prop :=
  ∀ s o s', is_Some s.(init_done) → m s = (o, s') → step_ok s o s'.

(** ** Lemmas *)

Lemma evolves_refl s : evolves s s.
Proof. by repeat split. Qed.

Lemma evolves_trans s1 s2 s3 : evolves s1 s2 → evolves s2 s3 → evolves s1 s3.
Proof.
  intros (Hi & Hn & Ht) (Hi' & Hn' & Ht').
  repeat split; try congruence; [lia|]. intros fd Hfd Hnone. apply Ht'; [lia|by apply Ht].
Qed.

Lemma step_refl {A} s (o : outcome A) : step_ok s o s.
Proof. split; [apply evolves_refl|done]. Qed.

Lemma step_trans {A B} s1 s2 s3 (a : A) (o : outcome B) :
  step_ok s1 (Ret a) s2 → step_ok s2 o s3 → step_ok s1 o s3.
Proof.
  intros [He1 Hl1] [He2 Hl2]. split; [by eapply evolves_trans|].
  intros Ho. rewrite Hl2 by done. by apply Hl1.
Qed.

Lemma step_stops {A B} s (o : outcome A) (o' : outcome B) s' :
  stops o = Some o' → step_ok s o s' → step_ok s o' s'.
Proof. intros Ho [He Hl]. split; [done|]. destruct o; by simplify_eq/=. Qed.

Lemma keeps_ret {A} (a : A) : keeps (mret a).
Proof. intros s o s' _ [= <- <-]. apply step_refl. Qed.

Lemma keeps_gets {A} (f : TabState S I → A) : keeps (gets f).
Proof. intros s o s' _ [= <- <-]. apply step_refl. Qed.

Lemma keeps_bind {A B} (m : M A) (k : A → M B) :
  keeps m → (∀ a, keeps (k a)) → keeps (m ≫= k).
Proof.
  intros Hm Hk s o s' Hi. unfold mbind, prog_mbind.
  destruct (m s) as [o1 s1] eqn:E1. assert (He := Hm _ _ _ Hi E1).
  destruct o1; intros Hs; try (injection Hs as <- <-; by eapply step_stops; [|exact He]).
  eapply step_trans; [exact He|]. eapply Hk; [|exact Hs]. by rewrite (proj1 (proj1 He)).
Qed.

Lemma keeps_vfs {A} (m : prog S A) : keeps (vfs m).
Proof.
  intros s o s' _. unfold vfs, on. destruct (m (fs s)). intros [= _ <-]. by repeat split.
Qed.

Lemma keeps_checked w x : keeps (checked w x).
Proof.
  intros s o s' _. unfold checked. case_match; intros [= _ <-]; apply step_refl.
Qed.

Lemma keeps_lock {A} (m : M A) : keeps m → keeps (lock_table m).
Proof.
  intros Hm s o s' Hi. unfold lock_table.
  destruct (table_locked s) eqn:El; [intros [= _ <-]; apply step_refl|].
  destruct (m (with_locked true s)) as [o1 s1] eqn:E1.
  destruct (Hm (with_locked true s) _ _ Hi E1) as [(Hi' & Hn & Ht) _].
  by destruct o1; intros [= <- <-]; repeat split.
Qed.

Lemma keeps_put_present fd w : ∀ s o s',
  is_Some (s.(fd_table) !! fd) → put_wrapper fd w s = (o, s') → step_ok s o s'.
Proof.
  intros s o s' Hs [= _ <-]. repeat split; [cbn; lia|]. intros fd' _ Hn. cbn [with_table fd_table].
  rewrite lookup_insert_ne; [done|]. intros ->. rewrite Hn in Hs. by destruct Hs.
Qed.

(** Under the lock, the wrapper of [fd] may be looked up and put back. *)
Definition keeps_at {A} (fd : Fd) (m : M A) : Prop :=
  ∀ s o s', is_Some s.(init_done) → is_Some (s.(fd_table) !! fd) →
  m s = (o, s') → step_ok s o s'.

Lemma keeps_at_weaken {A} fd (m : M A) : keeps m → keeps_at fd m.
Proof. intros Hm s o s' Hi _. by apply Hm. Qed.

Lemma keeps_lookup {A} fd (k : option (FileWrapper I) → M A) :
  (∀ w, keeps_at fd (k (Some w))) → keeps (k None) →
  keeps (gets (λ s, s.(fd_table) !! fd) ≫= k).
Proof.
  intros Hk Hn s o s' Hi. unfold mbind, prog_mbind, gets.
  destruct (fd_table s !! fd) as [w|] eqn:Ew.
  - apply Hk; [done|by rewrite Ew].
  - by apply Hn.
Qed.

(** A call below leaves the table alone, so the wrapper is still there. *)
Lemma keeps_at_vfs_bind {A B} fd (m : prog S A) (k : A → M B) :
  (∀ a, keeps_at fd (k a)) → keeps_at fd (vfs m ≫= k).
Proof.
  intros Hk s o s' Hi Hs. unfold mbind, prog_mbind, vfs, on.
  destruct (m (fs s)) as [o1 v].
  destruct o1; intros Hr; try (injection Hr as <- <-; by repeat split).
  eapply (step_trans _ (with_fs v s) _ a); [by repeat split|eapply Hk; [| |exact Hr]; done].
Qed.

Lemma keeps_at_checked_bind {B} fd w x (k : Z → M B) :
  (∀ a, keeps_at fd (k a)) → keeps_at fd (checked w x ≫= k).
Proof.
  intros Hk s o s' Hi Hs. unfold mbind, prog_mbind, checked.
  destruct (fitsb w x); [by apply Hk|]. intros [= _ <-]. apply step_refl.
Qed.

Lemma keeps_at_put_bind {B} fd w (k : () → M B) :
  (∀ u, keeps (k u)) → keeps_at fd (put_wrapper fd w ≫= k).
Proof.
  intros Hk s o s' Hi Hs. unfold mbind, prog_mbind.
  destruct (put_wrapper fd w s) as [o1 s1] eqn:E1.
  assert (He := keeps_put_present fd w _ _ _ Hs E1). injection E1 as <- <-. intros Hr.
  eapply step_trans; [exact He|]. by eapply Hk.
Qed.

Lemma keeps_at_bind {A B} fd (m : M A) (k : A → M B) :
  keeps_at fd m → (∀ a, keeps (k a)) → keeps_at fd (m ≫= k).
Proof.
  intros Hm Hk s o s' Hi Hs. unfold mbind, prog_mbind.
  destruct (m s) as [o1 s1] eqn:E1. assert (He := Hm _ _ _ Hi Hs E1).
  destruct o1; intros Hr; try (injection Hr as <- <-; by eapply step_stops; [|exact He]).
  eapply step_trans; [exact He|]. eapply Hk; [|exact Hr]. by rewrite (proj1 (proj1 He)).
Qed.

Lemma keeps_force_init (init : M bool) : keeps (force_init init).
Proof.
  intros s o s' [b Hb]. unfold force_init, mbind, prog_mbind, gets. rewrite Hb.
  intros [= _ <-]. apply step_refl.
Qed.
End evolution.

Create HintDb keeps.
#[export] Hint Resolve keeps_ret keeps_gets keeps_vfs keeps_checked keeps_lock
  keeps_force_init keeps_at_weaken : keeps.

(** Decompose a program into its binds. *)
Ltac keeps_step :=
  first
    [ solve [eauto with keeps]
    | apply keeps_lock
    | apply keeps_lookup; [intros ?|]
    | apply keeps_at_vfs_bind; intros ?
    | apply keeps_at_checked_bind; intros ?
    | apply keeps_at_put_bind; intros ?
    | apply keeps_bind; [|intros ?]
    | apply keeps_at_bind; [|intros ?]
    | progress case_match ].

Section calls.
Context {S I E : Type} `{Vfs S I E} `{EqDecision E}.
Implicit Types (s : TabState S I).
Local Abbreviation M := (prog (TabState S I)).
Context (init : M bool).

Lemma keeps_alloc_fd i r w : keeps (alloc_fd i r w : M Fd).
Proof.
  apply keeps_lock. intros s o s' Hi. unfold mbind, prog_mbind, gets, checked.
  destruct (fitsb 32 (next_fd s + 1)); [|intros [= _ <-]; apply step_refl].
  intros [= _ <-]. repeat split; cbn; [lia|]. intros fd Hfd Hn. rewrite lookup_insert_ne; [done|lia].
Qed.

Lemma keeps_remove_fd fd : keeps (remove_fd fd : M ()).
Proof.
  apply keeps_lock. intros s o s' Hi [= _ <-]. repeat split; cbn; [lia|].
  intros fd' Hfd Hn. apply lookup_delete_None. by right.
Qed.

Lemma keeps_read fd buf : keeps (read init fd buf).
Proof. unfold read, wrapper_read. repeat keeps_step. Qed.

Lemma keeps_write fd buf : keeps (write init fd buf).
Proof. unfold write, wrapper_write, try_bind. repeat keeps_step. Qed.

Lemma keeps_lseek fd pos : keeps (lseek init fd pos).
Proof. unfold lseek, wrapper_seek. repeat keeps_step. Qed.

Lemma keeps_close fd : keeps (close init fd).
Proof.
  unfold close. apply keeps_bind; [eauto with keeps|intros _].
  apply keeps_bind; [apply keeps_remove_fd|eauto with keeps].
Qed.

Lemma keeps_stat fd : keeps (stat init fd).
Proof. unfold stat, get_file_wrapper. repeat keeps_step. Qed.

Lemma keeps_traverse {A B} (f : A → M B) l : (∀ a, keeps (f a)) → keeps (traverse f l).
Proof. intros Hf. induction l; cbn [traverse]; repeat keeps_step; auto. Qed.

Lemma keeps_readdir path : keeps (readdir init path).
Proof.
  unfold readdir. repeat keeps_step. apply keeps_traverse. intros name.
  unfold dir_entry. repeat keeps_step.
Qed.

Lemma keeps_on_inode {A} fd (none : A) (k : I → M A) :
  (∀ i, keeps (k i)) → keeps (on_inode fd none k).
Proof. intros Hk. unfold on_inode. repeat keeps_step. Qed.
End calls.

#[export] Hint Resolve keeps_alloc_fd keeps_remove_fd keeps_read keeps_write keeps_lseek
  keeps_close keeps_stat keeps_readdir : keeps.

(** ** Runs *)
Section runs.
Context {S I E : Type} `{Vfs S I E} `{EqDecision E}.
Implicit Types (s : TabState S I).
Local Abbreviation M := (prog (TabState S I)).

(** One call of a service, its result forgotten. *)
Inductive TabOp : Type :=
  | TOpen (path : string) (flags mode : Z)
  | TRead (fd : Fd) (buf : list byte)
  | TWrite (fd : Fd) (buf : list byte)
  | TClose (fd : Fd)
  | TLseek (fd : Fd) (pos : Z)
  | TStat (fd : Fd)
  | TReaddir (path : string)
  | TCreate (parent : Z) (name : string) (type_ : FileType) (mode : Z)
  | TLink (parent : Z) (name : string) (target : Z)
  | TUnlink (parent : Z) (name : string)
  | TRename (old parent : Z) (name : string)
  | TSetMetadata (fd : Z) (meta : Metadata)
  | TFlush (fd : Z)
  | TSync (fd : Z)
  | TPoll (fd : Z).

(** The [init] and [open] of one of the two services. *)
Definition is_service (init : M bool) (open : string → Z → Z → M (result Fd FdtabError)) : Prop :=
  (∃ image new_ramfs, init = rc_init image new_ramfs ∧ open = rc_open image new_ramfs) ∨
  (∃ image image_len sfs_create, init = sfs_init image image_len sfs_create ∧
                                 open = sfs_open image image_len sfs_create).

Context (init : M bool) (open : string → Z → Z → M (result Fd FdtabError)).

Definition run_op (op : TabOp) : M () :=
  match op with
  | TOpen p f m => open p f m;; mret ()
  | TRead fd b => read init fd b;; mret ()
  | TWrite fd b => write init fd b;; mret ()
  | TClose fd => close init fd;; mret ()
  | TLseek fd p => lseek init fd p;; mret ()
  | TStat fd => stat init fd;; mret ()
  | TReaddir p => readdir init p;; mret ()
  | TCreate p n t m => create init p n t m;; mret ()
  | TLink p n t => link init p n t;; mret ()
  | TUnlink p n => unlink init p n;; mret ()
  | TRename o p n => rename init o p n;; mret ()
  | TSetMetadata fd m => set_metadata init fd m;; mret ()
  | TFlush fd => flush init fd;; mret ()
  | TSync fd => sync init fd;; mret ()
  | TPoll fd => poll init fd;; mret ()
  end.

(** A sequence of calls, each with whatever it ended in: the outcomes and the
    state after them. *)
Fixpoint run_ops (ops : list TabOp) (s : TabState S I) : list (outcome ()) * TabState S I :=
  match ops with
  | [] => ([], s)
  | op :: ops =>
      let '(o, s1) := run_op op s in
      let '(os, s') := run_ops ops s1 in (o :: os, s')
  end.

(** ** Lemmas *)

Lemma keeps_open : is_service init open → ∀ p f m, keeps (open p f m).
Proof.
  intros [(img & fs0 & -> & ->)|(img & len & cr & -> & ->)] p f m.
  - unfold rc_open. repeat keeps_step.
  - unfold sfs_open. repeat keeps_step.
Qed.

Lemma keeps_create p n t m : keeps (create init p n t m).
Proof. unfold create. repeat keeps_step. Qed.

Lemma keeps_run_op op : is_service init open → keeps (run_op op).
Proof.
  intros Hs. destruct op; cbn [run_op];
    (apply keeps_bind; [|intros ?; apply keeps_ret]); try (by eauto with keeps).
  - by apply keeps_open.
  - apply keeps_create.
  - unfold link. repeat first [apply keeps_on_inode; intros ?|keeps_step].
  - unfold unlink. repeat first [apply keeps_on_inode; intros ?|keeps_step].
  - unfold rename. repeat first [apply keeps_on_inode; intros ?|keeps_step].
  - unfold set_metadata. repeat first [apply keeps_on_inode; intros ?|keeps_step].
  - unfold flush. repeat first [apply keeps_on_inode; intros ?|keeps_step].
  - unfold sync. repeat first [apply keeps_on_inode; intros ?|keeps_step].
  - unfold poll. repeat first [apply keeps_on_inode; intros ?|keeps_step].
Qed.

Lemma run_ops_evolves ops s os s' :
  is_service init open → is_Some s.(init_done) → run_ops ops s = (os, s') →
  evolves s s' ∧ (Forall ended os → s'.(table_locked) = s.(table_locked)).
Proof.
  intros Hs. revert s os. induction ops as [|op ops IH]; intros s os Hi; cbn [run_ops].
  { intros [= <- <-]. split; [apply evolves_refl|done]. }
  destruct (run_op op s) as [o s1] eqn:E1. destruct (run_ops ops s1) as [os1 s2] eqn:E2.
  intros [= <- <-]. destruct (keeps_run_op op Hs s o s1 Hi E1) as [He Hl].
  destruct (IH s1 os1) as [He' Hl']; [by rewrite (proj1 He)|done|].
  split; [by eapply evolves_trans|]. intros [Ho Hos]%Forall_cons_1.
  rewrite Hl' by done. apply Hl. by apply Is_true_true.
Qed.

(** Reading a descriptor that is not in the table. *)
Lemma read_invalid fd buf s :
  is_Some s.(init_done) → s.(fd_table) !! fd = None →
  (read init fd buf s).1 = if s.(table_locked) then Deadlock else Ret (Err invalid_fd, buf).
Proof.
  intros [b Hb] Hn. unfold read, force_init, mbind, prog_mbind, gets. rewrite Hb.
  unfold lock_table. cbn. destruct (table_locked s); [done|].
  unfold mbind, prog_mbind. cbn. by rewrite Hn.
Qed.

Lemma close_gone fd s :
  is_Some s.(init_done) → s.(table_locked) = false →
  let s' := (close init fd s).2 in
  s'.(fd_table) !! fd = None ∧ is_Some s'.(init_done) ∧ s'.(table_locked) = false ∧
  s'.(next_fd) = s.(next_fd).
Proof.
  intros [b Hb] Hl. unfold close, force_init, remove_fd, mbind, prog_mbind, gets. rewrite Hb.
  cbn. unfold lock_table. rewrite Hl. cbn. rewrite lookup_delete_eq, Hb. by eauto.
Qed.

(** The calls on an open descriptor, given what its inode answers. *)
Definition moved s fd (w : FileWrapper I) (off : Z) (v : S) : TabState S I :=
  with_table (<[fd := mk_wrapper w.(inode) off w.(readable) w.(writable)]> s.(fd_table))
             (with_fs v s).

Lemma with_locked_id s : s.(table_locked) = false → with_locked false s = s.
Proof. destruct s; cbn. by intros ->. Qed.

Lemma write_open fd buf s w n v :
  is_Some s.(init_done) → s.(table_locked) = false → fd ≠ 1 → fd ≠ 2 →
  s.(fd_table) !! fd = Some w → w.(writable) = true →
  i_write_at w.(inode) w.(offset) buf s.(fs) = (Ret (Ok n), v) →
  fits 64 (w.(offset) + n) →
  write init fd buf s = (Ret (Ok n), moved s fd w (w.(offset) + n) v).
Proof.
  intros [d Hd] Hl H1 H2 Hw Hwr Hi Hfit. unfold write.
  replace ((fd =? 1) || (fd =? 2)) with false by lia.
  unfold force_init, mbind, prog_mbind, gets. rewrite Hd. cbn.
  unfold lock_table. rewrite Hl. cbn. rewrite Hw.
  unfold wrapper_write. rewrite Hwr. cbn. unfold try_bind, mbind, prog_mbind, vfs, on.
  cbn. rewrite Hi. rewrite checked_fits by done. cbn. unfold moved.
  rewrite Hwr. by destruct s; cbn in *; subst.
Qed.

Lemma lseek_open fd pos s w :
  is_Some s.(init_done) → s.(table_locked) = false → s.(fd_table) !! fd = Some w →
  lseek init fd pos s = (Ret (Ok ()), moved s fd w pos s.(fs)).
Proof.
  intros [d Hd] Hl Hw. unfold lseek, force_init, mbind, prog_mbind, gets. rewrite Hd. cbn.
  unfold lock_table. rewrite Hl. cbn. rewrite Hw. cbn. unfold moved.
  by destruct s; cbn in *; subst.
Qed.

Lemma read_open fd buf buf' s w n v :
  is_Some s.(init_done) → s.(table_locked) = false →
  s.(fd_table) !! fd = Some w → w.(readable) = true →
  i_read_at w.(inode) w.(offset) buf s.(fs) = (Ret (Ok n, buf'), v) →
  fits 64 (w.(offset) + n) →
  read init fd buf s = (Ret (Ok n, buf'), moved s fd w (w.(offset) + n) v).
Proof.
  intros [d Hd] Hl Hw Hr Hi Hfit. unfold read, force_init, mbind, prog_mbind, gets.
  rewrite Hd. cbn. unfold lock_table. rewrite Hl. cbn. rewrite Hw.
  unfold wrapper_read. rewrite Hr. cbn. unfold mbind, prog_mbind, vfs, on.
  cbn. rewrite Hi. rewrite checked_fits by done. cbn. unfold moved.
  rewrite Hr. by destruct s; cbn in *; subst.
Qed.
End runs.

(** ** An inode service over one byte array, the concrete instance *)
Module MemVfs.
#[global] Instance mem_vfs : Vfs (list byte) () string := {
  InvalidParam_ := "InvalidParam";
  EntryExist_ := "EntryExist";
  debug e := e;
  root_inode := ();
  i_read_at _ off buf := λ c,
    let n := Nat.min (length buf) (length c - Z.to_nat off) in
    (Ret (Ok (Z.of_nat n), sub c (Z.to_nat off) n ++ drop n buf), c);
  i_write_at _ off buf := λ c,
    (Ret (Ok (zlen buf)), take (Z.to_nat off) c ++ buf ++ drop (Z.to_nat off + length buf) c);
  i_metadata _ := mret (Ok (mk_meta 0 0 0 0 0 (mk_timespec 0 0) (mk_timespec 0 0)
                              (mk_timespec 0 0) FtDir 0 0 0 0 0));
  i_lookup _ _ := mret (Ok ());
  i_find _ _ := mret (Ok ());
  i_list _ := mret (Ok []);
  i_create _ _ _ _ := mret (Ok ());
  i_link _ _ _ := mret (Ok ());
  i_unlink _ _ := mret (Ok ());
  i_move _ _ _ _ := mret (Ok ());
  i_set_metadata _ _ := mret (Ok ());
  i_sync_all _ := mret (Ok ());
  i_sync_data _ := mret (Ok ());
  PollStatus := ();
  i_poll _ := mret (Ok ());
  filetype_code _ := 0;
  i_resize _ _ := mret (Ok ());
  v_stdout buf := mret (zlen buf)
}.

#[global, refine] Instance mem_vfs_spec : VfsSpec (list byte) () string := {
  icontent c _ := c
}.
Proof.
  - intros c [] off buf Hoff n. by exists c.
  - intros c [] off buf Hoff. by eexists.
Defined.

(** The state after the first call. *)
Definition started : TabState (list byte) () := with_init (Some true) (with_global true (tab_start [])).
End MemVfs.

(** ** Properties *)

(** C26: a closed descriptor is dead for ever: in rcorefdtab and rcore_sfsfdtab,
    once [fd] has been handed out and closed, then after any sequence of calls
    (opens, writes, failing and panicking calls included) a read of [fd] answers
    that it is invalid: a descriptor number never comes back to name another
    file.  The one exception is a call of the sequence that never ended (such
    as [create], which blocks holding the table's lock): then the read may
    block on that lock, and still never reaches a file. *)
Theorem closed_fd_stays_invalid :
  ∀ S I E `{Vfs S I E} `{EqDecision E} init open (s : TabState S I) ops fd buf,
  is_service init open → is_Some s.(init_done) → s.(table_locked) = false →
  fd < s.(next_fd) →
  let '(os, s') := run_ops init open ops (close init fd s).2 in
  let answer := (read init fd buf s').1 in
  (answer = Ret (Err invalid_fd, buf) ∨ answer = Deadlock) ∧
  (Forall ended os → answer = Ret (Err invalid_fd, buf)).
Proof.
  intros S I E ? ? init open s ops fd buf Hs Hi Hl Hfd.
  destruct (close_gone init fd s Hi Hl) as (Hgone & Hi' & Hl' & Hn).
  destruct (run_ops init open ops _) as [os s'] eqn:Er. cbv zeta.
  destruct (run_ops_evolves init open ops _ _ _ Hs Hi' Er) as [(Hi'' & _ & Ht) Hl''].
  rewrite read_invalid; [|by rewrite Hi''|apply Ht; [by rewrite Hn|done]]. split.
  - destruct (table_locked s'); tauto.
  - intros Hos. by rewrite Hl'', Hl'.
Qed.

Lemma closed_fd_stays_invalid_witness :
  let init := rc_init None [] in let open := rc_open None [] in
  let s := (open "a" 0 3 MemVfs.started).2 in
  (open "a" 0 3 MemVfs.started).1 = Ret (Ok 3) ∧
  (read init 3 [0] (run_ops init open [TOpen "b" 0 3; TWrite 4 [1]] (close init 3 s).2).2).1 =
    Ret (Err invalid_fd, [0]).
Proof.
  cbv zeta. split; [reflexivity|].
  refine (proj2 (closed_fd_stays_invalid (list byte) () string (rc_init None []) (rc_open None [])
    (rc_open None [] "a" 0 3 MemVfs.started).2 [TOpen "b" 0 3; TWrite 4 [1]] 3 [0] _ _ _ _) _);
    [left; by exists None, []|by eexists|reflexivity|reflexivity|by repeat constructor].
Defined.

(** C38: [create] never hands out a descriptor: it holds the descriptor table's
    lock when it asks for a new descriptor, which takes the same lock, so that
    whenever the parent is a directory and the inode is created, the calling
    thread blocks for ever, with the lock held: every later read, of any
    descriptor, blocks too. *)
Theorem create_deadlocks :
  ∀ S I E `{Vfs S I E} init (s : TabState S I) parent name type_ mode w meta new v1 v2,
  is_Some s.(init_done) → s.(table_locked) = false →
  s.(fd_table) !! wrap 32 parent = Some w →
  i_metadata w.(inode) s.(fs) = (Ret (Ok meta), v1) → meta.(m_type) = FtDir →
  i_create w.(inode) name type_ mode v1 = (Ret (Ok new), v2) →
  let '(o, s') := create init parent name type_ mode s in
  o = Deadlock ∧ ∀ fd buf, (read init fd buf s').1 = Deadlock.
Proof.
  intros S I E ? init s parent name type_ mode w meta new v1 v2 [b Hb] Hl Hw Hm Hd Hc.
  unfold create, force_init, mbind, prog_mbind, gets. rewrite Hb. cbn.
  unfold lock_table at 1. rewrite Hl. cbn. rewrite Hw.
  unfold vfs, on. cbn. rewrite Hm, bool_decide_true by done. cbn. rewrite Hc.
  split; [done|]. intros fd buf.
  unfold read, force_init, mbind, prog_mbind, gets. cbn. by rewrite Hb.
Qed.

Lemma create_deadlocks_witness :
  let init := rc_init None [] in
  let '(o, s') := create init 3 "x" FtFile 0 (rc_open None [] "d" 0 3 MemVfs.started).2 in
  o = Deadlock ∧ ∀ fd buf, (read init fd buf s').1 = Deadlock.
Proof.
  eapply (create_deadlocks (list byte) () string); [by eexists|reflexivity..].
Defined.

(** sequential writes and reads through a descriptor of an inode service: two
    writes, a seek back to where the first started and a read of their combined
    length give the bytes of the first followed by those of the second. *)
Theorem inode_write_seek_read :
  ∀ S I E `{VfsSpec S I E} init (s : TabState S I) fd i off a b buf,
  is_Some s.(init_done) → s.(table_locked) = false → fd ≠ 1 → fd ≠ 2 →
  s.(fd_table) !! fd = Some (mk_wrapper i off true true) →
  0 ≤ off ≤ zlen (icontent s.(fs) i) → off + zlen a + zlen b < 2 ^ 64 →
  length buf = (length a + length b)%nat →
  ∃ s', (write init fd a;; write init fd b;; lseek init fd off;; read init fd buf) s =
        (Ret (Ok (zlen a + zlen b), a ++ b), s').
Proof.
  intros S I E ? ? init s fd i off a b buf Hi Hl H1 H2 Hfd Hoff Hfit Hlen.
  pose proof (zlen_nonneg a). pose proof (zlen_nonneg b).
  destruct (i_write_at_spec (fs s) i off a Hoff) as (v1 & Hw1 & Hc1).
  assert (Hlen1 : off + zlen a ≤ zlen (icontent v1 i)).
  { rewrite Hc1. unfold zlen in *. rewrite !length_app, length_take. lia. }
  destruct (i_write_at_spec v1 i (off + zlen a) b) as (v2 & Hw2 & Hc2); [lia|].
  assert (Hlen2 : off + zlen a + zlen b ≤ zlen (icontent v2 i)).
  { rewrite Hc2. unfold zlen in *. rewrite !length_app, length_take. lia. }
  destruct (i_read_at_spec v2 i off buf) as (v3 & Hr & _); [lia|].
  assert (Hsub : sub (icontent v2 i) (Z.to_nat off) (length a + length b) = a ++ b).
  { rewrite Hc2, Hc1. unfold sub, zlen in *.
    replace (Z.to_nat (off + Z.of_nat (length a))) with (Z.to_nat off + length a)%nat by lia.
    rewrite (take_app_add' (take (Z.to_nat off) (icontent (fs s) i))) by (rewrite length_take; lia).
    rewrite take_app_length, <- app_assoc.
    rewrite drop_app_length' by (rewrite length_take; lia).
    rewrite (app_assoc a b). rewrite take_app_length' by (rewrite length_app; lia). done. }
  rewrite Hlen in Hr.
  replace (Nat.min (length a + length b) (length (icontent v2 i) - Z.to_nat off))
    with (length a + length b)%nat in Hr by (unfold zlen in *; lia).
  rewrite drop_ge, app_nil_r, Hsub in Hr by lia.
  eexists.
  rewrite (bind_Ret _ _ _ _ _ (write_open init fd a s _ _ v1 Hi Hl H1 H2 Hfd eq_refl Hw1
    ltac:(unfold fits; cbn [offset]; lia))).
  set (s1 := moved s fd _ _ v1).
  rewrite (bind_Ret _ _ _ _ _ (write_open init fd b s1 _ _ v2 Hi Hl H1 H2
    (lookup_insert_eq _ _ _) eq_refl Hw2 ltac:(unfold fits; cbn [offset]; lia))).
  set (s2 := moved s1 fd _ _ v2).
  rewrite (bind_Ret _ _ _ _ _ (lseek_open init fd off s2 _ Hi Hl (lookup_insert_eq _ _ _))).
  set (s3 := moved s2 fd _ _ _).
  rewrite (read_open init fd buf (a ++ b) s3 _ _ v3 Hi Hl (lookup_insert_eq _ _ _) eq_refl Hr
    ltac:(unfold fits, zlen in *; cbn [offset]; lia)).
  unfold zlen. by rewrite Nat2Z.inj_add.
Qed.

Lemma inode_write_seek_read_witness :
  ∃ s', let init := rc_init None [] in
    let s := (rc_open None [] "f" 0 3 MemVfs.started).2 in
    (write init 3 [1; 2];; write init 3 [3];; lseek init 3 0;; read init 3 [0; 0; 0]) s =
    (Ret (Ok 3, [1; 2; 3]), s').
Proof.
  destruct (inode_write_seek_read (list byte) () string (rc_init None [])
    (rc_open None [] "f" 0 3 MemVfs.started).2 3 () 0 [1; 2] [3] [0; 0; 0]) as [s' Hs'];
    [by eexists|reflexivity|done|done|reflexivity|done|done|done|].
  exists s'. exact Hs'.
Defined.
