(* ===== verification/Libos.v ===== *)
(** * The host-call table of an application (as_std: init_context, libos)

    [ISOLATION_CTX] is what the visor tells each loaded module about itself;
    [USER_HOST_CALL] caches the address of every host call, asking the visor's
    [find_host_call] the first time.  The function behind an address is code of
    another module: [call_find] is the visor's finder, over a state [W] below. *)
From S2P Require Import Prelude Bytes Hostcall.

(** The fields of [UserHostCall], one cached address each. *)
Inductive HostCallField : Type :=
  | metric_addr
  | fs_image_addr
  | spawn_thread
  | write_addr
  | open_addr
  | read_addr
  | close_addr
  | lseek_addr
  | stat_addr
  | readdir_addr
  | connect_addr
  | socket_addr
  | bind_addr
  | accept_addr
  | stdout_addr
  | fatfs_open_addr
  | fatfs_write_addr
  | fatfs_read_addr
  | fatfs_close_addr
  | fatfs_seek_addr
  | fatfs_stat_addr
  | smoltcp_addrinfo_addr
  | smoltcp_connect_addr
  | smoltcp_send_addr
  | smoltcp_recv_addr
  | smoltcp_bind_addr
  | smoltcp_accept_addr
  | smoltcp_close_addr
  | alloc_buffer_addr
  | access_buffer_addr
  | dealloc_buffer_addr
  | mmap_addr
  | munmap_addr
  | mprotect_addr
  | register_file_backend_addr
  | unregister_file_backend_addr
  | pf_handler_addr
  | get_time_addr
  | nanosleep_addr
  | sigaction_addr.

#[global] Instance HostCallField_eq_dec : EqDecision HostCallField.
Proof. solve_decision. Defined.

(** The record [UserHostCall]: the value of each field. *)
Definition UserHostCall : Type := HostCallField → option Z.
Definition new_host_call : UserHostCall := λ _, None.
Definition set_field (t : UserHostCall) (f : HostCallField) (a : Z) : UserHostCall :=
  λ g, if decide (g = f) then Some a else t g.

(** The entry [get_or_find] selects for a host call. *)
Definition entry_field (hc : CommonHostCall) : HostCallField :=
  match hc with
  | Metric => metric_addr
  | FsImage => fs_image_addr
  | SpawnFaultThread => spawn_thread
  | Write => write_addr
  | Open => open_addr
  | Read => read_addr
  | Close => close_addr
  | Lseek => lseek_addr
  | Stat_ => stat_addr
  | ReadDir => readdir_addr
  | Connect => connect_addr
  | Socket => socket_addr
  | Bind => bind_addr
  | Accept => accept_addr
  | Stdout => stdout_addr
  | FatfsOpen => fatfs_open_addr
  | FatfsWrite => fatfs_write_addr
  | FatfsRead => fatfs_read_addr
  | FatfsClose => fatfs_close_addr
  | FatfsSeek => fatfs_seek_addr
  | FatfsStat => fatfs_stat_addr
  | SmoltcpAddrInfo => smoltcp_addrinfo_addr
  | SmoltcpConnect => smoltcp_connect_addr
  | SmoltcpSend => smoltcp_send_addr
  | SmoltcpRecv => smoltcp_recv_addr
  | SmoltcpBind => smoltcp_bind_addr
  | SmoltcpAccept => smoltcp_accept_addr
  | SmoltcpClose => smoltcp_close_addr
  | BufferAlloc => alloc_buffer_addr
  | AccessBuffer => access_buffer_addr
  | BufferDealloc => dealloc_buffer_addr
  | Mmap => mmap_addr
  | Munmap => munmap_addr
  | Mprotect => mprotect_addr
  | RegisterFileBackend => register_file_backend_addr
  | UnregisterFileBackend => unregister_file_backend_addr
  | FilePageFaultHandler => pf_handler_addr
  | GetTime => get_time_addr
  | NanoSleep => nanosleep_addr
  | SigAction => sigaction_addr
  end.

(** The names the [libos!] macro accepts, with the host call each stands for and
    the function type it is called at. *)
Definition hostcall_id : list (string * CommonHostCall) :=
  [("metric", Metric);
   ("fs_image", FsImage);
   ("spawn_fault_handler", SpawnFaultThread);
   ("write", Write);
   ("open", Open);
   ("read", Read);
   ("close", Close);
   ("lseek", Lseek);
   ("stat", Stat_);
   ("readdir", ReadDir);
   ("connect", Connect);
   ("bind", Bind);
   ("accept", Accept);
   ("fatfs_open", FatfsOpen);
   ("fatfs_write", FatfsWrite);
   ("fatfs_read", FatfsRead);
   ("fatfs_close", FatfsClose);
   ("fatfs_seek", FatfsSeek);
   ("fatfs_stat", FatfsStat);
   ("stdout", Stdout);
   ("addrinfo", SmoltcpAddrInfo);
   ("smol_connect", SmoltcpConnect);
   ("send", SmoltcpSend);
   ("recv", SmoltcpRecv);
   ("smol_bind", SmoltcpBind);
   ("smol_accept", SmoltcpAccept);
   ("smol_close", SmoltcpClose);
   ("buffer_alloc", BufferAlloc);
   ("access_buffer", AccessBuffer);
   ("buffer_dealloc", BufferDealloc);
   ("mmap", Mmap);
   ("munmap", Munmap);
   ("mprotect", Mprotect);
   ("register_file_backend", RegisterFileBackend);
   ("unregister_file_backend", UnregisterFileBackend);
   ("get_time", GetTime);
   ("nanosleep", NanoSleep);
   ("sigaction", SigAction)].
Definition func_type : list (string * string) :=
  [("metric", "MetricFunc");
   ("fs_image", "FsImageFunc");
   ("spawn_fault_handler", "SpawnFaultThreadFunc");
   ("write", "WriteFunc");
   ("open", "OpenFunc");
   ("read", "ReadFunc");
   ("close", "CloseFunc");
   ("lseek", "LseekFunc");
   ("stat", "StatFunc");
   ("readdir", "ReadDirFunc");
   ("connect", "ConnectFunc");
   ("bind", "BindFunc");
   ("accept", "AcceptFunc");
   ("fatfs_open", "FatfsOpenFunc");
   ("fatfs_write", "FatfsWriteFunc");
   ("fatfs_read", "FatfsReadFunc");
   ("fatfs_close", "FatfsCloseFunc");
   ("fatfs_seek", "FatfsSeekFunc");
   ("fatfs_stat", "FatfsStatFunc");
   ("stdout", "HostStdioFunc");
   ("addrinfo", "SmoltcpAddrInfoFunc");
   ("smol_connect", "SmoltcpConnectFunc");
   ("send", "SmoltcpSendFunc");
   ("recv", "SmoltcpRecvFunc");
   ("smol_bind", "SmoltcpBindFunc");
   ("smol_accept", "SmoltcpAcceptFunc");
   ("smol_close", "SmoltcpCloseFunc");
   ("buffer_alloc", "BufferAllocFunc");
   ("access_buffer", "AccessBufferFunc");
   ("buffer_dealloc", "BufferDeallocFunc");
   ("mmap", "MemmapFunc");
   ("munmap", "MemunmapFunc");
   ("mprotect", "MprotectFunc");
   ("register_file_backend", "RegisterFileBackendFunc");
   ("unregister_file_backend", "UnregisterFileBackendFunc");
   ("get_time", "GetTimeFunc");
   ("nanosleep", "NanoSleepFunc");
   ("sigaction", "SigActionFunc")].

Fixpoint assoc {A} (k : string) (l : list (string * A)) : option A :=
  match l with
  | [] => None
  | (k', a) :: l => if String.eqb k k' then Some a else assoc k l
  end.

Section context.
Context {W : Type}.
(** Calling the function at the address [find_handler] with the isolation's id
    and a host call. *)
Context (call_find : Z → IsolationID → HostCallID → prog W Z).

Record LibosState : Type := mk_libos {
  isolation_ctx_cell : IsolationContext;
  user_host_call : UserHostCall;
  lower : W
}.
Local Abbreviation M := (prog LibosState).

Definition in_lower {A} (m : prog W A) : M A :=
  on lower (λ w s, mk_libos s.(isolation_ctx_cell) s.(user_host_call) w) m.

(** [isolation_ctx()]: panics while no handler has been set. *)
Definition isolation_ctx : M IsolationContext :=
  ctx ← gets isolation_ctx_cell;
  if ctx.(find_handler) =? 0 then panic else mret ctx.

Definition set_handler_addr (ctx : IsolationContext) : M (result () ()) :=
  isol_ctx ← gets isolation_ctx_cell;
  if negb (isol_ctx.(find_handler) =? 0) &&
     negb (isol_ctx.(find_handler) =? ctx.(find_handler))
  then panic
  else modify (λ s, mk_libos ctx s.(user_host_call) s.(lower));; mret (Ok ()).

Definition get_handler_addr : M Z :=
  ctx ← isolation_ctx; mret ctx.(find_handler).

Definition get_or_find (chc_id : CommonHostCall) : M Z :=
  let entry := entry_field chc_id in
  e ← gets (λ s, s.(user_host_call) entry);
  match e with
  | None =>
      ctx ← isolation_ctx;
      addr ← in_lower (call_find ctx.(find_handler) ctx.(isol_id) (Common chc_id));
      modify (λ s, mk_libos s.(isolation_ctx_cell)
                     (set_field s.(user_host_call) entry addr) s.(lower));;
      mret addr
  | Some addr => mret addr
  end.

(** [libos!(name(..))]: the address the call goes through; a name the macro does
    not know does not compile ([None]). *)
Definition libos_binding (name : string) : option (M Z) :=
  get_or_find <$> assoc name hostcall_id.

(** [metric]: applications may only report memory. *)
Definition metric (call_metric : Z → IsolationID → MetricEvent → prog W (result () ()))
    (event : MetricEvent) : M () :=
  match event with
  | Mem =>
      addr ← get_or_find Metric;
      ctx ← isolation_ctx;
      _ ← in_lower (call_metric addr ctx.(isol_id) event);
      mret ()
  | _ => panic
  end.

(** ** Lemmas *)

Lemma set_field_eq t f a : set_field t f a f = Some a.
Proof. unfold set_field. by rewrite decide_True. Qed.

Lemma set_field_ne t f g a : g ≠ f → set_field t f a g = t g.
Proof. unfold set_field. intros. by rewrite decide_False. Qed.

Lemma entry_field_inj hc hc' : entry_field hc = entry_field hc' → hc = hc'.
Proof. destruct hc, hc'; try reflexivity; discriminate. Qed.

Lemma get_or_find_cached hc s a :
  s.(user_host_call) (entry_field hc) = Some a → get_or_find hc s = (Ret a, s).
Proof. intros He. unfold get_or_find, mbind, prog_mbind, gets. by rewrite He. Qed.

(** A call keeps every address the table already has. *)
Lemma get_or_find_keeps hc hc' s o s' a :
  get_or_find hc' s = (o, s') → s.(user_host_call) (entry_field hc) = Some a →
  s'.(user_host_call) (entry_field hc) = Some a.
Proof.
  unfold get_or_find, mbind, prog_mbind, gets, isolation_ctx. intros Hs Ha.
  destruct (user_host_call s (entry_field hc')) eqn:He; [by injection Hs as _ <-|].
  unfold mbind, prog_mbind, gets in Hs.
  destruct (find_handler (isolation_ctx_cell s) =? 0); [by injection Hs as _ <-|].
  unfold in_lower, on in Hs. cbn in Hs.
  destruct (call_find _ _ _ (lower s)) as [[] w]; injection Hs as _ <-; cbn; try done.
  rewrite set_field_ne; [done|]. intros Heq. apply entry_field_inj in Heq as ->. congruence.
Qed.

(** Any sequence of look-ups, whatever each ends in. *)
Fixpoint find_all (hcs : list CommonHostCall) (s : LibosState) : LibosState :=
  match hcs with
  | [] => s
  | hc :: hcs => find_all hcs (get_or_find hc s).2
  end.

Lemma find_all_keeps hcs : ∀ hc s a,
  s.(user_host_call) (entry_field hc) = Some a →
  (find_all hcs s).(user_host_call) (entry_field hc) = Some a.
Proof.
  induction hcs as [|hc' hcs IH]; intros hc s a Ha; [done|]. cbn [find_all].
  destruct (get_or_find hc' s) as [o s'] eqn:E. apply IH. by eapply get_or_find_keeps.
Qed.

Lemma get_or_find_stores hc s a s' :
  get_or_find hc s = (Ret a, s') → s'.(user_host_call) (entry_field hc) = Some a.
Proof.
  unfold get_or_find, mbind, prog_mbind, gets, isolation_ctx.
  destruct (user_host_call s (entry_field hc)) eqn:He; [by intros [= <- <-]|].
  unfold mbind, prog_mbind, gets.
  destruct (find_handler (isolation_ctx_cell s) =? 0); [done|].
  unfold in_lower, on. cbn. destruct (call_find _ _ _ (lower s)) as [[] w]; try done.
  intros [= <- <-]. cbn. apply set_field_eq.
Qed.
End context.
Arguments LibosState : clear implicits.
Arguments mk_libos {W}.

(** ** Properties *)

(** the host-call table is a cache: once a host call has been found at an
    address, every later look-up of it returns that address without asking the
    visor, whatever other host calls were looked up, found, or failed in
    between: the state, the visor's included, does not change. *)
Theorem host_call_cached :
  ∀ W (call_find : Z → IsolationID → HostCallID → prog W Z) hc s a s' hcs,
  get_or_find call_find hc s = (Ret a, s') →
  get_or_find call_find hc (find_all call_find hcs s') =
    (Ret a, find_all call_find hcs s').
Proof.
  intros W call_find hc s a s' hcs Hf. apply get_or_find_cached.
  apply find_all_keeps. by eapply get_or_find_stores.
Qed.

Lemma host_call_cached_witness :
  let find := λ _ _ _, (λ n : Z, (Ret (n + 100), n + 1)) in
  let s := mk_libos (mk_ctx 1 7 8 (0, 0)) new_host_call 0 in
  let s' := find_all find [Open; Read] (get_or_find find Write s).2 in
  get_or_find find Write s' = (Ret 100, s').
Proof.
  cbv zeta. apply (host_call_cached Z _ Write (mk_libos (mk_ctx 1 7 8 (0, 0)) new_host_call 0)).
  reflexivity.
Defined.

(** an isolation context is set once: after a context with a non-zero handler
    is in place, setting a context with another handler panics and changes
    nothing, setting one with the same handler replaces it, and before any is
    set every use of the context panics. *)
Theorem handler_set_once : ∀ W (s : LibosState W) ctx,
  (s.(isolation_ctx_cell).(find_handler) = 0 → get_handler_addr s = (Panic, s)) ∧
  (s.(isolation_ctx_cell).(find_handler) ≠ 0 →
   ctx.(find_handler) ≠ s.(isolation_ctx_cell).(find_handler) →
   set_handler_addr ctx s = (Panic, s)) ∧
  (s.(isolation_ctx_cell).(find_handler) = 0 ∨
   ctx.(find_handler) = s.(isolation_ctx_cell).(find_handler) →
   set_handler_addr ctx s = (Ret (Ok ()), mk_libos ctx s.(user_host_call) s.(lower))).
Proof.
  intros W s ctx. unfold get_handler_addr, set_handler_addr, isolation_ctx, mbind,
    prog_mbind, gets. split; [|split].
  - intros ->. done.
  - intros H0 Hne. by rewrite (proj2 (Z.eqb_neq _ _) H0),
      (proj2 (Z.eqb_neq _ _) (not_eq_sym Hne)).
  - intros [->| ->]; [done|]. rewrite Z.eqb_refl. by rewrite andb_false_r.
Qed.

(** the names of [libos!] are consistent: the macro that gives the host call
    and the one that gives the function type accept the same names, no two names
    give the same host call, and every name other than [readdir] gives a host
    call the default services answer. *)
Theorem libos_names_consistent :
  map fst hostcall_id = map fst func_type ∧
  (∀ n n' hc, assoc n hostcall_id = Some hc → assoc n' hostcall_id = Some hc → n = n') ∧
  (∀ n hc, assoc n hostcall_id = Some hc → resolves hc = true ∨ n = "readdir"%string).
Proof.
  assert (Hin : ∀ n hc, assoc n hostcall_id = Some hc → (n, hc) ∈ hostcall_id).
  { generalize hostcall_id. intros l n hc. induction l as [|[k a] l IH]; [done|].
    cbn [assoc]. destruct (String.eqb_spec n k) as [->|]; [intros [= ->]; left|right; auto]. }
  split; [reflexivity|]. split.
  - intros n n' hc Hn%Hin Hn'%Hin.
    assert (Hnd : NoDup (map snd hostcall_id)) by (apply (bool_decide_unpack _); by vm_compute).
    apply list_elem_of_lookup in Hn as [i Hi]. apply list_elem_of_lookup in Hn' as [j Hj].
    assert (i = j) as ->.
    { eapply NoDup_lookup; [exact Hnd| |]; rewrite list_lookup_fmap;
        [by rewrite Hi|by rewrite Hj]. }
    congruence.
  - intros n hc Hn%Hin.
    assert (Hall : Forall (λ p, resolves p.2 = true ∨ p.1 = "readdir"%string) hostcall_id)
      by (apply (bool_decide_unpack _); by vm_compute).
    rewrite Forall_forall in Hall. by apply (Hall (n, hc)).
Qed.

Lemma handler_set_once_witness :
  let s := mk_libos (W:=()) (mk_ctx 1 7 8 (0, 0)) new_host_call () in
  set_handler_addr (mk_ctx 2 9 8 (0, 0)) s = (Panic, s) ∧
  set_handler_addr (mk_ctx 2 7 8 (0, 0)) s = (Ret (Ok ()), mk_libos (mk_ctx 2 7 8 (0, 0)) new_host_call ()).
Proof.
  intros s.
  exact (conj
    (proj1 (proj2 (handler_set_once () s (mk_ctx 2 9 8 (0, 0)))) ltac:(done) ltac:(done))
    (proj2 (proj2 (handler_set_once () s (mk_ctx 2 7 8 (0, 0)))) ltac:(by right))).
Defined.

Lemma libos_names_consistent_witness :
  (assoc "write" hostcall_id = Some Write → "write" = "write")%string ∧
  (resolves Write = true ∨ "write" = "readdir")%string.
Proof.
  exact (conj
    (λ H, proj1 (proj2 libos_names_consistent) "write"%string "write"%string Write H H)
    (proj2 (proj2 libos_names_consistent) "write"%string Write eq_refl)).
Defined.
