(* ===== verification/Mpk.v ===== *)
(** * Memory protection keys (libasvisor/src/mpk.rs, as_std/src/mpk.rs)

    The PKRU register gives two bits (access-disable, write-disable) to each of
    16 keys.  [libos_with_switch_mpk] is the [libos!] macro of applications built
    with the [mpk] feature: it opens the library OS's key around a host call.
    Also here: the page-rounding macros and the reader of /proc/self/maps that
    choose the memory a key is put on (libasvisor/src/utils.rs). *)
From Stdlib Require Import Ascii.
From S2P Require Import Prelude Bytes.

Definition PAGE_SIZE : Z := 4096.
Definition LIBOS_PKEY : Z := 15.

(** [round_up!] and [round_down!]; [!PAGE_SIZE + 1] is computed first. *)
Definition page_mask {S} : prog S Z := checked 64 (unot 64 PAGE_SIZE + 1).
Definition round_up {S} (x : Z) : prog S Z :=
  y ← checked 64 (x + PAGE_SIZE); y ← checked 64 (y - 1); m ← page_mask; mret (Z.land y m).
Definition round_down {S} (x : Z) : prog S Z := m ← page_mask; mret (Z.land x m).

(** [gen_new_id]: the counter behind [ID_KEEPER], from 1. *)
Definition gen_new_id : prog Z Z :=
  result ← gets id; next ← checked 64 (result + 1); modify (λ _, next);; mret result.

(** [0b11 << (2 * pkey)] as a u32. *)
Definition pkey_mask (pkey : Z) : Z := wrap 32 (Z.shiftl 3 (2 * pkey)).

Definition grant_func_perm (pkru pkey : Z) : result Z string :=
  if (0 <=? pkey) && (pkey <? 16)
  then Ok (Z.land pkru (unot 32 (pkey_mask pkey)))
  else Err ("Invalid pkey: " +:+ pretty.pretty pkey).

Definition grant_libos_perm (pkru : Z) : Z := Z.land pkru (unot 32 (pkey_mask LIBOS_PKEY)).
Definition drop_libos_perm (pkru : Z) : Z := Z.lor pkru (pkey_mask LIBOS_PKEY).

(** ** Allocating keys *)

(** [must_init_all_pkeys]: ask the kernel until it hands out the last key. *)
Section pkey_alloc.
Context {W : Type} (pkey_alloc : prog W Z).

Fixpoint init_loop (n : nat) : prog W () :=
  match n with
  | O => mret ()
  | S n =>
      pkey ← pkey_alloc;
      if pkey <? 0 then panic
      else if pkey =? LIBOS_PKEY then mret () else init_loop n
  end.
Definition must_init_all_pkeys : prog W () := init_loop 16.
End pkey_alloc.

(** [must_pkey_alloc] of a build with the feature [pkey_per_func], over
    [PKEY_COUNTER]; [fetch_add] wraps. *)
Definition must_pkey_alloc_per_func : prog Z Z :=
  previous_pkey ← gets id;
  modify (λ n, wrap 64 (n + 1));;
  if previous_pkey =? 13 then panic else mret (as_signed 32 (previous_pkey + 1)).

(** Without the feature every function shares key 1. *)
Definition must_pkey_alloc {S} : prog S Z := mret 1.

(** The keys a sequence of calls hands out; [None] is a call that panicked. *)
Fixpoint pkey_allocs (n : nat) (counter : Z) : list (option Z) :=
  match n with
  | O => []
  | S n =>
      let '(o, counter) := must_pkey_alloc_per_func counter in
      (match o with Ret k => Some k | _ => None end) :: pkey_allocs n counter
  end.

(** ** The segments of the process *)

Record MemorySegment : Type := mk_segment {
  start_addr : Z; seg_length : Z; perm : Z; path : option string
}.

Definition PROT_READ : Z := 1.
Definition PROT_WRITE : Z := 2.
Definition PROT_EXEC : Z := 4.

Definition is_space (c : ascii) : bool :=
  let n := Ascii.nat_of_ascii c in
  bool_decide (n = 32 ∨ 9 ≤ n ≤ 13)%nat.

(** [split_whitespace]: maximal runs of non-blank characters; [word] is the run
    being read, reversed. *)
Fixpoint split_ws (s : string) (word : list ascii) : list string :=
  let flush := match word with [] => [] | _ => [String.string_of_list_ascii (rev word)] end in
  match s with
  | EmptyString => flush
  | String c s => if is_space c then flush ++ split_ws s [] else split_ws s (c :: word)
  end.
Definition split_whitespace (s : string) : list string := split_ws s [].

(** [split('-')]: always at least one piece. *)
Fixpoint split_dash (s : string) (word : list ascii) : list string :=
  match s with
  | EmptyString => [String.string_of_list_ascii (rev word)]
  | String c s =>
      if Ascii.eqb c "-" then String.string_of_list_ascii (rev word) :: split_dash s []
      else split_dash s (c :: word)
  end.

Definition hex_digit (c : ascii) : option Z :=
  let n := Z.of_nat (Ascii.nat_of_ascii c) in
  if (48 <=? n) && (n <=? 57) then Some (n - 48)
  else if (97 <=? n) && (n <=? 102) then Some (n - 87)
  else if (65 <=? n) && (n <=? 70) then Some (n - 55)
  else None.

Fixpoint hex_digits (s : string) (acc : Z) : option Z :=
  match s with
  | EmptyString => Some acc
  | String c s =>
      d ← hex_digit c;
      let acc := 16 * acc + d in
      if acc <? 2 ^ 64 then hex_digits s acc else None
  end.

(** [usize::from_str_radix(s, 16)]: an empty string or a lone sign is an error,
    a leading plus is accepted. *)
Definition from_str_radix16 (s : string) : option Z :=
  match s with
  | EmptyString => None
  | String "+" EmptyString => None
  | String "+" s => hex_digits s 0
  | s => hex_digits s 0
  end.

Fixpoint str_contains_char (c : ascii) (s : string) : bool :=
  match s with EmptyString => false | String d s => Ascii.eqb c d || str_contains_char c s end.

(** The permission bits of the second field. *)
Definition perm_bits (s : string) : Z :=
  let p := if str_contains_char "r" s then PROT_READ else 0 in
  let p := if str_contains_char "w" s then Z.lor p PROT_WRITE else p in
  if str_contains_char "x" s then Z.lor p PROT_EXEC else p.

Definition parse_line {S} (line : string) : prog S MemorySegment :=
  let parts := split_whitespace line in
  let path := if bool_decide (length parts = 6%nat) then parts !! 5%nat else None in
  p0 ← unwrap (parts !! 0%nat);
  let items := split_dash p0 [] in
  a ← unwrap (items !! 0%nat);
  start ← unwrap (from_str_radix16 a);
  p1 ← unwrap (parts !! 1%nat);
  b ← unwrap (items !! 1%nat);
  stop ← unwrap (from_str_radix16 b);
  len ← checked 64 (stop - start);
  mret (mk_segment start len (perm_bits p1) path).

(** [lines] is [/proc/self/maps] cut into lines. *)
Definition parse_memory_segments {S} (lines : list string) : prog S (list MemorySegment) :=
  traverse parse_line lines.

Definition path_contains (path need : string) : bool :=
  match String.index 0 need path with Some _ => true | None => false end.

(** [set_libs_with_pkey]: put the key on every segment whose path contains one of
    the given ones; the first failing [pkey_mprotect] ends it. *)
Section set_libs.
Context {W : Type} (pkey_mprotect : Z → Z → Z → Z → prog W (result () string)).

Fixpoint set_segments (libs : list string) (pkey : Z) (segments : list MemorySegment) :
    prog W (result () string) :=
  match segments with
  | [] => mret (Ok ())
  | s :: segments =>
      let hit := match s.(path) with
                 | Some p => existsb (path_contains p) libs
                 | None => false
                 end in
      if hit then
        pkey_mprotect s.(start_addr) s.(seg_length) s.(perm) pkey ;;?
        set_segments libs pkey segments
      else set_segments libs pkey segments
  end.

Definition set_libs_with_pkey (lines libs : list string) (pkey : Z) : prog W (result () string) :=
  segments ← parse_memory_segments lines;
  set_segments libs pkey segments.
End set_libs.

(** ** The switching host call *)

(** The thread's PKRU register and the state of the code it calls. *)
Record Cpu (W : Type) : Type := mk_cpu { pkru : Z; mem : W }.
Arguments mk_cpu {W}.
Arguments pkru {W}.
Arguments mem {W}.

Section switch.
Context {W : Type}.

Definition rdpkru : prog (Cpu W) Z := gets pkru.
Definition wrpkru (v : Z) : prog (Cpu W) () := modify (λ c, mk_cpu v c.(mem)).

(** The macro around a host call [call].  Its last block computes the register
    value that drops the permission and loads it into [rax], but executes no
    [wrpkru]: the value goes nowhere. *)
Definition libos_with_switch_mpk {A} (call : prog (Cpu W) A) : prog (Cpu W) A :=
  p ← rdpkru;
  let is_privilege_level := Z.shiftr p 30 =? 0 in
  let p := grant_libos_perm p in
  wrpkru p;;
  res ← call;
  (if negb is_privilege_level then
     let _rax := drop_libos_perm p in mret ()
   else mret ());;
  mret res.
End switch.

(** ** Lemmas *)

(** Bit [i] belongs to key [k]. *)
Definition bit_of_key (k i : Z) : Prop := i = 2 * k ∨ i = 2 * k + 1.

Lemma testbit_pkey_mask k i : 0 ≤ k < 16 → 0 ≤ i →
  Z.testbit (pkey_mask k) i = bool_decide (i = 2 * k ∨ i = 2 * k + 1).
Proof.
  intros Hk Hi. unfold pkey_mask, wrap.
  assert (Hcase : i < 32 ∨ 32 ≤ i) by lia. destruct Hcase as [Hlt|Hge].
  - rewrite Z.mod_pow2_bits_low by lia. rewrite Z.shiftl_spec by lia.
    case_bool_decide as Hd.
    + destruct Hd as [->| ->]; [by replace (2 * k - 2 * k) with 0 by lia|].
      by replace (2 * k + 1 - 2 * k) with 1 by lia.
    + destruct (Z.le_gt_cases 0 (i - 2 * k)); [|by apply Z.testbit_neg_r].
      assert (Hbig : 2 ≤ i - 2 * k) by lia.
      apply Z.bits_above_log2; [lia|]. change (Z.log2 3) with 1. lia.
  - rewrite Z.mod_pow2_bits_high by lia. rewrite bool_decide_false; [done|lia].
Qed.

Lemma fits_pkey_mask k : fits 32 (pkey_mask k).
Proof. unfold fits, pkey_mask, wrap. apply Z.mod_pos_bound. lia. Qed.

Lemma testbit_grant p k i : 0 ≤ k < 16 → 0 ≤ i < 32 →
  Z.testbit (Z.land p (unot 32 (pkey_mask k))) i =
    if bool_decide (i = 2 * k ∨ i = 2 * k + 1) then false else Z.testbit p i.
Proof.
  intros Hk Hi. rewrite Z.land_spec, testbit_unot, testbit_pkey_mask
    by (apply fits_pkey_mask || lia).
  case_bool_decide; cbn [negb]; [by rewrite andb_false_r|by rewrite andb_true_r].
Qed.

(** ** Properties *)

(** granting a function its key clears the two bits of that key and no other
    bit of the register, for the keys 0 to 15; any other key number is an error
    and no register value is produced. *)
Theorem grant_func_perm_exact : ∀ pkru pkey,
  (0 ≤ pkey < 16 → ∃ v, grant_func_perm pkru pkey = Ok v ∧
     ∀ i, 0 ≤ i < 32 → Z.testbit v i =
       if bool_decide (i = 2 * pkey ∨ i = 2 * pkey + 1) then false else Z.testbit pkru i) ∧
  (¬ 0 ≤ pkey < 16 → ∃ e, grant_func_perm pkru pkey = Err e).
Proof.
  intros p k. unfold grant_func_perm. split; intros Hk.
  - replace ((0 <=? k) && (k <? 16)) with true by lia.
    eexists. split; [done|]. intros i Hi. by apply testbit_grant.
  - replace ((0 <=? k) && (k <? 16)) with false by lia. by eexists.
Qed.

(** C29: the switching host call never takes the library OS's permission back: if
    the service leaves the register as it finds it, then after the call the
    thread holds the register value with both bits of the library OS's key
    cleared, whether or not it held the permission before. *)
Theorem libos_switch_keeps_permission :
  ∀ W A (call : prog (Cpu W) A) (c : Cpu W) a c',
  (∀ d o d', call d = (o, d') → d'.(pkru) = d.(pkru)) →
  libos_with_switch_mpk call c = (Ret a, c') →
  c'.(pkru) = grant_libos_perm c.(pkru) ∧
  Z.testbit c'.(pkru) 30 = false ∧ Z.testbit c'.(pkru) 31 = false.
Proof.
  intros W A call c a c' Hcall. unfold libos_with_switch_mpk, mbind, prog_mbind, rdpkru,
    gets, wrpkru, modify.
  destruct (call (mk_cpu (grant_libos_perm (pkru c)) (mem c))) as [o d] eqn:E.
  apply Hcall in E. cbn [pkru] in E. intros Hr.
  assert (c' = d) as ->.
  { destruct o; try discriminate Hr. destruct (negb _); by injection Hr. }
  rewrite E. split; [done|]. unfold grant_libos_perm.
  split; rewrite testbit_grant; (done || (unfold LIBOS_PKEY; lia)).
Qed.

Lemma libos_switch_keeps_permission_witness :
  ∃ c' : Cpu (), libos_with_switch_mpk (mret 5) (mk_cpu 0xCFFFFFFC ()) = (Ret 5, c') ∧
    Z.testbit 0xCFFFFFFC 30 = true ∧ Z.testbit c'.(pkru) 30 = false.
Proof.
  exists (mk_cpu (grant_libos_perm 0xCFFFFFFC) ()).
  split; [reflexivity|]. split; [reflexivity|].
  apply (libos_switch_keeps_permission () Z (mret 5) (mk_cpu 0xCFFFFFFC ()) 5).
  - by intros d o d' [= _ <-].
  - reflexivity.
Defined.

(** per-function keys run out once only: the allocator hands out keys 1 to 13,
    the next call panics, and the call after that hands out key 15, the library
    OS's own, because the counter was advanced before the check. *)
Theorem pkey_alloc_reaches_libos_key :
  pkey_allocs 15 0 = map Some [1; 2; 3; 4; 5; 6; 7; 8; 9; 10; 11; 12; 13] ++
                     [None; Some LIBOS_PKEY].
Proof. reflexivity. Qed.

Lemma grant_func_perm_exact_witness :
  (∃ v, grant_func_perm 0xCFFFFFFC 1 = Ok v ∧ Z.testbit v 3 = false ∧ Z.testbit v 4 = true) ∧
  ∃ e, grant_func_perm 0xCFFFFFFC 16 = Err e.
Proof.
  split; [|exact (proj2 (grant_func_perm_exact 0xCFFFFFFC 16) ltac:(lia))].
  destruct (proj1 (grant_func_perm_exact 0xCFFFFFFC 1) ltac:(lia)) as (v & Hv & Hb).
  exact (ex_intro _ v (conj Hv (conj (Hb 3 ltac:(lia)) (Hb 4 ltac:(lia))))).
Defined.
