(* ===== verification/Metric.v ===== *)
(** * Metrics of an isolation (libasvisor/src/metric.rs)

    One bucket per isolation, which owns a bucket per loaded module.  A module
    holds an [Arc] to its own bucket, which the isolation's list holds too: the
    module's handle is the bucket's position in that list.  The buckets are
    behind [std::sync::Mutex]es and are reached by [lock().unwrap()], so a panic
    under a lock makes every later use panic.  The clock is an argument. *)
From S2P Require Import Prelude Bytes Hostcall.

Record SvcMetricBucket : Type := mk_svc_metric {
  svc_name : string; svc_path : string;
  init_t : Z; run_t : list Z; svc_end_t : list Z;
  svc_poisoned : bool
}.

Record MetricBucket : Type := mk_metric {
  svc_metrics : list SvcMetricBucket;
  begin_t : Z; end_t : Z;
  load_service_num : Z;
  mem_metrics : list (Z * Z);
  poisoned : bool
}.

Definition metric_new : MetricBucket := mk_metric [] 0 0 0 [] false.
Definition svc_metric_new (name path : string) : SvcMetricBucket :=
  mk_svc_metric name path 0 [] [] false.

(** [inner.lock().unwrap()] around [m]. *)
Definition lock_metric {A} (m : prog MetricBucket A) : prog MetricBucket A := λ b,
  if b.(poisoned) then (Panic, b)
  else match m b with
       | (Panic, b') => (Panic, mk_metric b'.(svc_metrics) b'.(begin_t) b'.(end_t)
                                  b'.(load_service_num) b'.(mem_metrics) true)
       | r => r
       end.

Definition new_svc_metric (name path : string) : prog MetricBucket nat :=
  lock_metric (
    n ← gets (λ b, length b.(svc_metrics));
    modify (λ b, mk_metric (b.(svc_metrics) ++ [svc_metric_new name path]) b.(begin_t)
                   b.(end_t) b.(load_service_num) b.(mem_metrics) b.(poisoned));;
    mret n).

(** [MetricBucket::mark] at time [now], in microseconds. *)
Definition mark (now : Z) (event : MetricEvent) : prog MetricBucket () :=
  lock_metric (
    b ← gets id;
    match event with
    | LoadService =>
        n ← checked 32 (b.(load_service_num) + 1);
        modify (λ b, mk_metric b.(svc_metrics) b.(begin_t) b.(end_t) n b.(mem_metrics) b.(poisoned))
    | Mem =>
        modify (λ b, mk_metric b.(svc_metrics) b.(begin_t) b.(end_t) b.(load_service_num)
                       (b.(mem_metrics) ++ [(now, 0)]) b.(poisoned))
    | IsolBegin =>
        assert (b.(begin_t) =? 0);;
        modify (λ b, mk_metric b.(svc_metrics) now b.(end_t) b.(load_service_num) b.(mem_metrics) b.(poisoned))
    | IsolEnd =>
        assert (b.(end_t) =? 0);;
        modify (λ b, mk_metric b.(svc_metrics) b.(begin_t) now b.(load_service_num) b.(mem_metrics) b.(poisoned))
    | SvcInit | SvcRun | SvcEnd => panic
    end).

(** [SvcMetricBucket::mark] at time [now], in milliseconds. *)
Definition svc_mark (now : Z) (event : MetricEvent) : prog SvcMetricBucket () := λ b,
  if b.(svc_poisoned) then (Panic, b)
  else match event with
       | SvcInit =>
           (Ret (), mk_svc_metric b.(svc_name) b.(svc_path)
              (if b.(init_t) =? 0 then now else b.(init_t)) b.(run_t) b.(svc_end_t) false)
       | SvcRun =>
           (Ret (), mk_svc_metric b.(svc_name) b.(svc_path) b.(init_t) (b.(run_t) ++ [now])
              b.(svc_end_t) false)
       | SvcEnd =>
           (Ret (), mk_svc_metric b.(svc_name) b.(svc_path) b.(init_t) b.(run_t)
              (b.(svc_end_t) ++ [now]) false)
       | _ => (Panic, mk_svc_metric b.(svc_name) b.(svc_path) b.(init_t) b.(run_t)
                        b.(svc_end_t) true)
       end.

(** Marking through a module's handle. *)
Definition mark_service (h : nat) (now : Z) (event : MetricEvent) : prog MetricBucket () := λ b,
  match b.(svc_metrics) !! h with
  | None => (Panic, b)
  | Some s =>
      let '(o, s') := svc_mark now event s in
      (o, mk_metric (<[h := s']> b.(svc_metrics)) b.(begin_t) b.(end_t)
            b.(load_service_num) b.(mem_metrics) b.(poisoned))
  end.

(** The figures of the reports; a difference of times that would be negative
    overflows and panics. *)
Definition total_dur (b : MetricBucket) : prog () Z := checked 128 (b.(end_t) - b.(begin_t)).

(** Per run: its index, its duration and the time from initialisation to it. *)
Definition run_figures (b : SvcMetricBucket) : prog () (list (nat * Z * Z)) :=
  rows ← traverse (λ '(idx, (run, end_)),
      if 0 <? end_ then
        run_dur ← checked 128 (end_ - run);
        init_dur ← checked 128 (run - b.(init_t));
        mret [(idx, run_dur, init_dur)]
      else mret [])
    (imap (λ idx p, (idx, p)) (zip b.(run_t) b.(svc_end_t)));
  mret (mjoin rows).

(** ** Lemmas *)

Lemma mark_isol_end_fresh now b :
  b.(poisoned) = false → b.(end_t) = 0 →
  mark now IsolEnd b =
    (Ret (), mk_metric b.(svc_metrics) b.(begin_t) now b.(load_service_num) b.(mem_metrics) false).
Proof.
  intros Hp He. unfold mark, lock_metric, mbind, prog_mbind, gets, id. rewrite Hp.
  unfold assert. rewrite He. cbn. by rewrite Hp.
Qed.

Lemma mark_isol_end_twice now b :
  b.(end_t) ≠ 0 → (mark now IsolEnd b).1 = Panic.
Proof.
  intros He. unfold mark, lock_metric, mbind, prog_mbind, gets, id.
  destruct (poisoned b); [done|]. unfold assert.
  by rewrite (proj2 (Z.eqb_neq _ _) He).
Qed.

(** Marking anything but the end keeps the end time. *)
Lemma mark_mem_end now b : (mark now Mem b).2.(end_t) = b.(end_t).
Proof.
  unfold mark, lock_metric, mbind, prog_mbind, gets, id. by destruct (poisoned b) eqn:E.
Qed.

Lemma mark_service_isolation h now e b :
  let b' := (mark_service h now e b).2 in
  b'.(begin_t) = b.(begin_t) ∧ b'.(end_t) = b.(end_t) ∧ b'.(poisoned) = b.(poisoned) ∧
  b'.(mem_metrics) = b.(mem_metrics) ∧ length b'.(svc_metrics) = length b.(svc_metrics).
Proof.
  unfold mark_service. destruct (svc_metrics b !! h) as [s|]; [|by repeat split].
  destruct (svc_mark now e s) as [o s']. cbn. by rewrite length_insert.
Qed.

(** ** Properties *)

(** the life of a module's metrics: initialising it twice keeps the first
    time, and a run recorded after it and ended later gives one figure, its
    duration and its distance from the initialisation, without a panic, whenever
    the clock does not go back. *)
Theorem svc_metric_one_run : ∀ name path t0 t0' t1 t2,
  0 < t0 → t0 ≤ t1 → t1 ≤ t2 → t2 < 2 ^ 128 →
  let b := (svc_mark t2 SvcEnd (svc_mark t1 SvcRun
             (svc_mark t0' SvcInit (svc_mark t0 SvcInit (svc_metric_new name path)).2).2).2).2 in
  run_figures b () = (Ret [(0%nat, t2 - t1, t1 - t0)], ()).
Proof.
  intros name path t0 t0' t1 t2 H0 H1 H2 Hf. cbn.
  rewrite (proj2 (Z.eqb_neq t0 0)) by lia. unfold run_figures. cbn.
  rewrite (proj2 (Z.ltb_lt 0 t2)) by lia.
  unfold mbind, prog_mbind. rewrite !checked_fits by (unfold fits; lia). done.
Qed.

Lemma svc_metric_one_run_witness :
  let b := (svc_mark 30 SvcEnd (svc_mark 20 SvcRun
             (svc_mark 15 SvcInit (svc_mark 10 SvcInit (svc_metric_new "a" "b")).2).2).2).2 in
  run_figures b () = (Ret [(0%nat, 10, 10)], ()).
Proof. apply (svc_metric_one_run "a" "b" 10 15 20 30); lia. Defined.

(** the total duration cannot be reported before the isolation has ended: for
    a bucket whose beginning was marked at a non-zero time and whose end was not,
    the subtraction overflows and the report panics. *)
Theorem report_before_end_panics : ∀ b,
  0 < b.(begin_t) → b.(end_t) = 0 → total_dur b () = (Panic, ()).
Proof. intros b Hb He. apply checked_overflow. rewrite He. unfold fits. lia. Qed.

Lemma report_before_end_panics_witness :
  total_dur (mark 5 IsolBegin metric_new).2 () = (Panic, ()).
Proof. apply report_before_end_panics; [done|reflexivity]. Defined.
