(* ===== verification/IsolTable.v ===== *)
(** * The table of isolations (ISOL_TABLE of libasvisor/src/isolation/mod.rs)

    Modules name their isolation by its id; the visor finds it again in a
    process-wide vector of weak pointers, by position.  The state holds that
    vector (each weak pointer is the id of the isolation it points to), the
    ids still alive, the id counter and whether the table's [Mutex] is poisoned. *)
From S2P Require Import Prelude Bytes Hostcall Mpk.

Record IsolTable : Type := mk_isol_table {
  id_keeper : Z; isol_table : list Z; live : gset Z; table_poisoned : bool
}.

Definition table_start : IsolTable := mk_isol_table 1 [] ∅ false.

Definition set_table (l : list Z) (t : IsolTable) : IsolTable :=
  mk_isol_table t.(id_keeper) l t.(live) t.(table_poisoned).

(** [get_isol_table()]: [lock().unwrap()], with [m] under the guard. *)
Definition with_table {A} (m : prog IsolTable A) : prog IsolTable A := λ t,
  if t.(table_poisoned) then (Panic, t)
  else match m t with
       | (Panic, t') =>
           (Panic, mk_isol_table t'.(id_keeper) t'.(isol_table) t'.(live) true)
       | r => r
       end.

(** [Isolation::new]: its id and its entry in the table. *)
Definition isol_new : prog IsolTable Z :=
  new_id ← on id_keeper (λ k t, mk_isol_table k t.(isol_table) t.(live) t.(table_poisoned))
             gen_new_id;
  modify (λ t, mk_isol_table t.(id_keeper) t.(isol_table) ({[new_id]} ∪ t.(live))
                 t.(table_poisoned));;
  with_table (modify (λ t, set_table (t.(isol_table) ++ [new_id]) t));;
  mret new_id.

Inductive GetIsolError : Type := NotExist | AlreadyStopped.

(** [get_isol]: the isolation the handle names, [handle as usize - 1] checked. *)
Definition get_isol (handle : Z) : prog IsolTable (result Z GetIsolError) :=
  with_table (
    idx ← checked 64 (handle - 1);
    t ← gets id;
    mret (match t.(isol_table) !! Z.to_nat idx with
          | None => Err NotExist
          | Some isol => if decide (isol ∈ t.(live)) then Ok isol else Err AlreadyStopped
          end)).

(** [Drop for Isolation]; [Vec::remove] panics out of range. *)
Definition isol_drop (isol : Z) : prog IsolTable () :=
  modify (λ t, mk_isol_table t.(id_keeper) t.(isol_table) (t.(live) ∖ {[isol]})
                 t.(table_poisoned));;
  with_table (
    idx ← checked 64 (isol - 1);
    t ← gets id;
    assert (Z.to_nat idx <? length t.(isol_table))%nat;;
    modify (λ t, set_table (delete (Z.to_nat idx) t.(isol_table)) t)).

(** [build_all_isol]'s [configs.iter().map(Isolation::new)], for [n] files. *)
Definition build_all_isol (n : nat) : prog IsolTable (list Z) :=
  traverse (λ _, isol_new) (replicate n ()).

(** The isolations of a vector going out of scope, in its order. *)
Definition drop_isols (l : list Z) : prog IsolTable () := forM l isol_drop.

(** What the isolations of a process go through, with the number dropped so far;
    a panicking operation ends it. *)
Inductive lifecycle : nat → IsolTable → Prop :=
  | life_start : lifecycle 0 table_start
  | life_new d t i t' : lifecycle d t → t.(id_keeper) + 1 < 2 ^ 64 →
      isol_new t = (Ret i, t') → lifecycle d t'
  | life_drop d t i t' : lifecycle d t → isol_drop i t = (Ret (), t') → lifecycle (S d) t'.

(** ** Lemmas *)

(** The table after [n] isolations were made and none was dropped. *)
Definition built (n : nat) : IsolTable :=
  mk_isol_table (Z.of_nat n + 1) (seqZ 1 (Z.of_nat n)) (list_to_set (seqZ 1 (Z.of_nat n))) false.

Lemma isol_new_eq t :
  t.(table_poisoned) = false → 0 ≤ t.(id_keeper) → t.(id_keeper) + 1 < 2 ^ 64 →
  isol_new t = (Ret t.(id_keeper),
    mk_isol_table (t.(id_keeper) + 1) (t.(isol_table) ++ [t.(id_keeper)])
      ({[t.(id_keeper)]} ∪ t.(live)) false).
Proof.
  destruct t as [k l lv p]; cbn. intros -> H0 H1.
  unfold isol_new, on, gen_new_id, mbind, prog_mbind, gets, id. cbn [id_keeper].
  rewrite (checked_fits 64 (k + 1)) by (unfold fits; lia).
  done.
Qed.

Lemma seqZ_succ (n : nat) : seqZ 1 (Z.of_nat n) ++ [Z.of_nat n + 1] = seqZ 1 (Z.of_nat (S n)).
Proof.
  replace (Z.of_nat (S n)) with (Z.of_nat n + 1) by lia.
  rewrite seqZ_app by lia. f_equal. rewrite seqZ_cons, seqZ_nil by lia.
  by rewrite Z.add_comm.
Qed.

Lemma isol_new_built n : Z.of_nat n + 2 < 2 ^ 64 →
  isol_new (built n) = (Ret (Z.of_nat n + 1), built (S n)).
Proof.
  intros Hn. rewrite isol_new_eq by (cbn; lia || done). unfold built. cbn [id_keeper isol_table live].
  rewrite seqZ_succ. repeat f_equal; [lia|].
  rewrite <- seqZ_succ, list_to_set_app_L. cbn. set_solver.
Qed.

Lemma build_all_isol_eq n : Z.of_nat n + 1 < 2 ^ 64 →
  build_all_isol n table_start = (Ret (seqZ 1 (Z.of_nat n)), built n).
Proof.
  intros Hn. change table_start with (built 0).
  cut (∀ m, Z.of_nat (m + n) + 1 < 2 ^ 64 → build_all_isol n (built m) =
    (Ret (seqZ (1 + Z.of_nat m) (Z.of_nat n)), built (m + n))).
  { intros Hc. apply (Hc 0%nat). lia. }
  clear Hn. induction n as [|n IH]; intros m Hm.
  { by rewrite Nat.add_0_r. }
  unfold build_all_isol. cbn [replicate traverse].
  erewrite bind_Ret by (apply isol_new_built; lia).
  erewrite bind_Ret by (apply IH; lia).
  unfold mret, prog_mret. rewrite (seqZ_cons (1 + Z.of_nat m)) by lia.
  replace (Z.pred (Z.of_nat (S n))) with (Z.of_nat n) by lia.
  replace (Z.succ (1 + Z.of_nat m)) with (1 + Z.of_nat (S m)) by lia.
  replace (Z.of_nat m + 1) with (1 + Z.of_nat m) by lia.
  by rewrite Nat.add_succ_r.
Qed.

Lemma get_isol_built n i : 1 ≤ i ≤ Z.of_nat n → Z.of_nat n < 2 ^ 64 →
  get_isol i (built n) = (Ret (Ok i), built n).
Proof.
  intros Hi Hn. unfold get_isol, with_table, mbind, prog_mbind, gets, id. cbn [table_poisoned built].
  rewrite checked_fits by (unfold fits; lia). cbn [isol_table live built].
  rewrite lookup_seqZ_lt by lia. rewrite Z2Nat.id by lia. replace (1 + (i - 1)) with i by lia.
  rewrite decide_True; [done|]. apply elem_of_list_to_set, elem_of_seqZ. lia.
Qed.

(** A drop that returns removed one entry. *)
Lemma isol_drop_inv isol t t' :
  isol_drop isol t = (Ret (), t') →
  t.(table_poisoned) = false ∧ t'.(table_poisoned) = false ∧ t'.(id_keeper) = t.(id_keeper) ∧
  S (length t'.(isol_table)) = length t.(isol_table) ∧
  t'.(live) = t.(live) ∖ {[isol]}.
Proof.
  destruct t as [k l lv p]. unfold isol_drop, with_table, mbind, prog_mbind, gets, id, modify.
  cbn -[Nat.ltb]. destruct p; [done|].
  unfold checked. destruct (fitsb 64 (isol - 1)); [|done]. unfold assert. cbn -[Nat.ltb].
  destruct (Nat.ltb_spec (Z.to_nat (isol - 1)) (length l)) as [Hlt|]; [|by intros [=]].
  intros [= <-]. cbn. split_and!; try done.
  rewrite length_delete; [lia|]. by apply lookup_lt_is_Some_2.
Qed.

Lemma isol_drop_range isol t t' :
  isol_drop isol t = (Ret (), t') → (Z.to_nat (isol - 1) < length t.(isol_table))%nat.
Proof.
  destruct t as [k l lv p]. unfold isol_drop, with_table, mbind, prog_mbind, gets, id, modify.
  cbn -[Nat.ltb]. destruct p; [done|].
  unfold checked. destruct (fitsb 64 (isol - 1)); [|done]. unfold assert. cbn -[Nat.ltb].
  destruct (Nat.ltb_spec (Z.to_nat (isol - 1)) (length l)); [done|by intros [=]].
Qed.

Lemma isol_drop_outcome isol t : (isol_drop isol t).1 = Ret () ∨ (isol_drop isol t).1 = Panic.
Proof.
  destruct t as [k l lv p]. unfold isol_drop, with_table, mbind, prog_mbind, gets, id, modify.
  cbn -[Nat.ltb]. destruct p; [by right|].
  unfold checked. destruct (fitsb 64 (isol - 1)); [|by right]. unfold assert. cbn -[Nat.ltb].
  destruct (Z.to_nat (isol - 1) <? length l)%nat; [by left|by right].
Qed.

Lemma drop_isols_outcome l t : (drop_isols l t).1 = Ret () ∨ (drop_isols l t).1 = Panic.
Proof.
  revert t. induction l as [|i l IH]; intros t; [by left|]. unfold drop_isols.
  cbn [forM]. unfold mbind, prog_mbind. destruct (isol_drop_outcome i t) as [Hr|Hr];
    destruct (isol_drop i t) as [o t']; cbn in Hr; subst o; [apply IH|by right].
Qed.

Lemma drop_isols_length l t t' :
  drop_isols l t = (Ret (), t') → (length t'.(isol_table) + length l = length t.(isol_table))%nat.
Proof.
  revert t. induction l as [|i l IH]; intros t; unfold drop_isols; cbn [forM].
  { intros [= <-]. cbn. lia. }
  intros Hd. apply bind_Ret_inv in Hd as ([] & t1 & H1 & H2).
  apply isol_drop_inv in H1 as (_ & _ & _ & H1 & _). apply IH in H2. cbn [length]. lia.
Qed.

Lemma isol_drop_last k (n : nat) : Z.of_nat n < 2 ^ 64 →
  isol_drop (Z.of_nat n + 1)
    (mk_isol_table k (seqZ 1 (Z.of_nat (S n))) (list_to_set (seqZ 1 (Z.of_nat (S n)))) false) =
  (Ret (), mk_isol_table k (seqZ 1 (Z.of_nat n)) (list_to_set (seqZ 1 (Z.of_nat n))) false).
Proof.
  intros Hn. rewrite <- seqZ_succ.
  unfold isol_drop, with_table, mbind, prog_mbind, gets, id, modify. cbn -[Nat.ltb seqZ list_to_set].
  rewrite checked_fits by (unfold fits; lia). unfold assert. cbn -[Nat.ltb seqZ list_to_set].
  replace (Z.to_nat (Z.of_nat n + 1 - 1)) with n by lia.
  rewrite length_app, length_seqZ, Nat2Z.id.
  rewrite (proj2 (Nat.ltb_lt _ _)) by (cbn [length]; lia). unfold set_table. cbn -[seqZ list_to_set].
  do 3 f_equal.
  - rewrite delete_take_drop, take_app_length', drop_app_ge by (rewrite length_seqZ; lia).
    rewrite length_seqZ. replace (S n - Z.to_nat (Z.of_nat n))%nat with 1%nat by lia.
    by rewrite app_nil_r.
  - rewrite list_to_set_app_L. apply set_eq. intros x.
    rewrite elem_of_difference, elem_of_union, !elem_of_list_to_set, elem_of_seqZ.
    rewrite list_elem_of_singleton, elem_of_singleton. lia.
Qed.

Lemma drop_isols_reverse (n : nat) : Z.of_nat n < 2 ^ 64 →
  drop_isols (reverse (seqZ 1 (Z.of_nat n))) (built n) =
    (Ret (), mk_isol_table (Z.of_nat n + 1) [] ∅ false).
Proof.
  unfold built. generalize (Z.of_nat n + 1) as k. intros k.
  induction n as [|n IH]; intros Hn; [done|].
  rewrite <- seqZ_succ at 1. rewrite reverse_snoc. unfold drop_isols. cbn [forM].
  erewrite bind_Ret by (apply isol_drop_last; lia). apply IH. lia.
Qed.

Lemma lifecycle_inv d t : lifecycle d t →
  t.(table_poisoned) = false ∧ 1 ≤ t.(id_keeper) ∧
  Z.of_nat (length t.(isol_table)) + Z.of_nat d + 1 = t.(id_keeper).
Proof.
  induction 1 as [|d t i t' _ (Hp & Hk & Hl) Hf Hn|d t i t' _ (Hp & Hk & Hl) Hd]; [done| |].
  - rewrite isol_new_eq in Hn by (done || lia). injection Hn as <- <-. cbn.
    rewrite length_app. cbn [length]. split_and!; [done|lia..].
  - apply isol_drop_inv in Hd as (_ & -> & -> & Hl' & _). split_and!; [done|lia..].
Qed.

(** ** Properties *)

(** after [asvisor] has built its isolations, each handle it gave finds its own
    isolation, and no other handle finds one. *)
Theorem handles_resolve : ∀ (n : nat) (i : Z),
  Z.of_nat n + 1 < 2 ^ 64 → 1 ≤ i < 2 ^ 64 →
  let t := (build_all_isol n table_start).2 in
  (get_isol i t).1 = Ret (if i <=? Z.of_nat n then Ok i else Err NotExist).
Proof.
  intros n i Hn Hi. rewrite build_all_isol_eq by lia. cbn [snd].
  destruct (Z.leb_spec i (Z.of_nat n)).
  - by rewrite get_isol_built by lia.
  - unfold get_isol, with_table, mbind, prog_mbind, gets, id. cbn [table_poisoned built].
    rewrite checked_fits by (unfold fits; lia). cbn [isol_table built fst].
    by rewrite lookup_seqZ_ge by lia.
Qed.

Lemma handles_resolve_witness :
  (get_isol 2 (build_all_isol 3 table_start).2).1 = Ret (Ok 2) ∧
  (get_isol 4 (build_all_isol 3 table_start).2).1 = Ret (Err NotExist).
Proof. exact (conj (handles_resolve 3 2 ltac:(lia) ltac:(lia)) (handles_resolve 3 4 ltac:(lia) ltac:(lia))). Defined.

(** [asvisor]'s [main] drops the vector of its isolations, in the order it made
    them: with two or more, an index behind a removed entry is out of range and a
    drop panics.  In the reverse order all of them go without a panic and the
    table ends empty. *)
Theorem drop_order_matters : ∀ n : nat, (2 ≤ n)%nat → Z.of_nat n < 2 ^ 64 →
  let isols := seqZ 1 (Z.of_nat n) in
  (drop_isols isols (built n)).1 = Panic ∧
  drop_isols (reverse isols) (built n) =
    (Ret (), mk_isol_table (Z.of_nat n + 1) [] ∅ false).
Proof.
  intros n Hn Hf isols. split; [|by apply drop_isols_reverse].
  destruct (drop_isols_outcome isols (built n)) as [Hr|]; [|done]. exfalso.
  destruct (drop_isols isols (built n)) as [o t'] eqn:Hd. cbn in Hr. subst o isols.
  destruct n as [|n]; [lia|]. rewrite <- seqZ_succ in Hd.
  unfold drop_isols in Hd. rewrite forM_app in Hd.
  apply bind_Ret_inv in Hd as ([] & t1 & Hd1 & Hd2).
  apply drop_isols_length in Hd1. cbn [forM] in Hd2.
  apply bind_Ret_inv in Hd2 as ([] & t2 & Hd2 & _). apply isol_drop_range in Hd2.
  cbn [isol_table built] in Hd1. rewrite !length_seqZ in Hd1. lia.
Qed.

Lemma drop_order_matters_witness :
  (drop_isols (seqZ 1 2) (built 2)).1 = Panic ∧
  drop_isols (reverse (seqZ 1 2)) (built 2) = (Ret (), mk_isol_table 3 [] ∅ false).
Proof. exact (drop_order_matters 2 ltac:(lia) ltac:(lia)). Defined.

(** once any isolation has been dropped, the handle of an isolation made later
    finds no isolation, whatever was made and dropped in between. *)
Theorem new_handle_lost : ∀ dropped t,
  lifecycle dropped t → (0 < dropped)%nat → t.(id_keeper) + 1 < 2 ^ 64 →
  ∃ handle t', isol_new t = (Ret handle, t') ∧ get_isol handle t' = (Ret (Err NotExist), t').
Proof.
  intros d t Ht Hd Hf. destruct (lifecycle_inv d t Ht) as (Hp & Hk & Hlen).
  eexists _, _. split; [by apply isol_new_eq; [|lia|]|].
  unfold get_isol, with_table, mbind, prog_mbind, gets, id. cbn [table_poisoned].
  rewrite checked_fits by (unfold fits; lia). cbn [isol_table].
  rewrite lookup_ge_None_2; [done|]. rewrite length_app. cbn [length]. lia.
Qed.

Lemma new_handle_lost_witness : ∃ t handle t',
  lifecycle 1 t ∧ isol_new t = (Ret handle, t') ∧ get_isol handle t' = (Ret (Err NotExist), t').
Proof.
  set (t1 := (isol_drop 1 (built 1)).2).
  assert (Ht : lifecycle 1 t1).
  { eapply (life_drop 0 (built 1) 1); [|reflexivity].
    eapply (life_new 0 table_start); [constructor|reflexivity|reflexivity]. }
  destruct (new_handle_lost 1 t1 Ht ltac:(lia) ltac:(vm_compute; reflexivity))
    as (h & t' & H1 & H2).
  exact (ex_intro _ t1 (ex_intro _ h (ex_intro _ t' (conj Ht (conj H1 H2))))).
Defined.
