(* ===== verification/Threads.v ===== *)
(** * Threads

    A thread is a resumption: a tree of atomic steps on a shared state.  A
    schedule is the list of thread indices the scheduler picks, so
    [thread::scope] with its joins is [run_threads], and a property of every
    schedule is a property of every interleaving of the steps.  A thread still
    unfinished when the schedule ends has outcome [NoFuel]: the model was not
    given enough steps. *)
From S2P Require Import Prelude.

#[local] Set Warnings "-register-all".

Inductive thread (S A : Type) : Type :=
  | Done (o : outcome A)
  | Step (m : prog S (thread S A)).
Arguments Done {S A} o.
Arguments Step {S A} m.

Section threads.
Context {S : Type}.

(** One atomic step and nothing after it. *)
Definition atomic {A} (m : prog S A) : thread S A := Step (a ← m; mret (Done (Ret a))).

Fixpoint thread_bind {A B} (t : thread S A) (k : A → thread S B) : thread S B :=
  match t with
  | Done (Ret a) => k a
  | Done Panic => Done Panic
  | Done Deadlock => Done Deadlock
  | Done NoFuel => Done NoFuel
  | Step m => Step (λ s,
      match m s with
      | (Ret t', s') => (Ret (thread_bind t' k), s')
      | (Panic, s') => (Panic, s')
      | (Deadlock, s') => (Deadlock, s')
      | (NoFuel, s') => (NoFuel, s')
      end)
  end.

(** Let a thread do its next step; a panic or a deadlock ends it. *)
Definition advance {A} (t : thread S A) (s : S) : thread S A * S :=
  match t with
  | Done o => (Done o, s)
  | Step m =>
      match m s with
      | (Ret t', s') => (t', s')
      | (Panic, s') => (Done Panic, s')
      | (Deadlock, s') => (Done Deadlock, s')
      | (NoFuel, s') => (Done NoFuel, s')
      end
  end.

Definition thread_outcome {A} (t : thread S A) : outcome A :=
  match t with Done o => o | Step _ => NoFuel end.

Fixpoint run_schedule {A} (sched : list nat) (ts : list (thread S A)) (s : S) :
    list (thread S A) * S :=
  match sched with
  | [] => (ts, s)
  | i :: sched =>
      match ts !! i with
      | None => run_schedule sched ts s
      | Some t => let '(t', s') := advance t s in run_schedule sched (<[i := t']> ts) s'
      end
  end.

Definition run_threads {A} (sched : list nat) (ts : list (thread S A)) :
    prog S (list (outcome A)) := λ s,
  let '(ts', s') := run_schedule sched ts s in (Ret (map thread_outcome ts'), s').

(** A thread on its own, for at most [fuel] steps. *)
Fixpoint run_alone {A} (fuel : nat) (t : thread S A) : prog S A := λ s,
  match fuel with
  | O => (thread_outcome t, s)
  | Datatypes.S fuel => let '(t', s') := advance t s in run_alone fuel t' s'
  end.

(** ** What every schedule keeps *)

(** Every step of [t] is in the relation [R]. *)
Fixpoint steps_in {A} (R : S → S → Prop) (t : thread S A) : Prop :=
  match t with
  | Done _ => True
  | Step m => ∀ s, R s (m s).2 ∧ match m s with (Ret t', _) => steps_in R t' | _ => True end
  end.

Lemma steps_in_bind {A B} R (t : thread S A) (k : A → thread S B) :
  steps_in R t → (∀ a, steps_in R (k a)) → steps_in R (thread_bind t k).
Proof.
  revert t. fix IH 1. intros [[]|m] Ht Hk; try done; [apply Hk|].
  intros s. specialize (Ht s). cbn [thread_bind].
  destruct (m s) as [[t'| | |] s']; cbn in *; [|tauto..].
  split; [tauto|]. apply IH; tauto.
Qed.

Lemma steps_in_atomic {A} R (m : prog S A) :
  (∀ s, R s (m s).2) → steps_in R (atomic m).
Proof.
  intros Hm s. specialize (Hm s). cbn. unfold mbind, prog_mbind.
  by destruct (m s) as [[] s'].
Qed.

Lemma steps_in_advance {A} R (t : thread S A) s : Reflexive R → steps_in R t →
  R s (advance t s).2 ∧ steps_in R (advance t s).1.
Proof.
  intros HR. destruct t as [o|m]; [done|]. intros Ht. specialize (Ht s). cbn.
  destruct (m s) as [[] s']; cbn in *; tauto.
Qed.

Lemma run_schedule_in {A} R sched (ts : list (thread S A)) s : PreOrder R →
  Forall (steps_in R) ts → R s (run_schedule sched ts s).2.
Proof.
  intros HR. revert ts s. induction sched as [|i sched IH]; intros ts s Hts; [done|].
  cbn [run_schedule]. destruct (ts !! i) as [t|] eqn:Hi; [|by apply IH].
  pose proof (Forall_lookup_1 _ _ _ _ Hts Hi) as Ht.
  destruct (steps_in_advance R t s _ Ht) as [Hs Ht'].
  destruct (advance t s) as [t' s']; cbn in *.
  transitivity s'; [done|]. apply IH. by apply Forall_insert.
Qed.

Lemma run_alone_in {A} R fuel (t : thread S A) s : PreOrder R →
  steps_in R t → R s (run_alone fuel t s).2.
Proof.
  intros HR. revert t s. induction fuel as [|fuel IH]; intros t s Ht; [done|]. cbn.
  destruct (steps_in_advance R t s _ Ht) as [Hs Ht'].
  destruct (advance t s) as [t' s']; cbn in *. transitivity s'; [done|]. by apply IH.
Qed.

(** ** Completion *)

(** [t] ends within [n] steps, whatever the state it finds at each. *)
Fixpoint ends_within {A} (n : nat) (t : thread S A) : Prop :=
  match t, n with
  | Done o, _ => o ≠ NoFuel
  | Step _, O => False
  | Step m, Datatypes.S n => ∀ s,
      match (m s).1 with Ret t' => ends_within n t' | NoFuel => False | _ => True end
  end.

Lemma ends_within_advance {A} n (t : thread S A) s :
  ends_within n t → ends_within (pred n) (advance t s).1.
Proof.
  destruct t as [o|m]; [by destruct n as [|[]]|]. destruct n as [|n]; [done|].
  intros Ht. specialize (Ht s). cbn.
  destruct (m s) as [[] s']; cbn in *; try done; by destruct n.
Qed.

Lemma run_alone_ends {A} n (t : thread S A) s :
  ends_within n t → (run_alone n t s).1 ≠ NoFuel.
Proof.
  revert t s. induction n as [|n IH]; intros t s Ht; [by destruct t|]. cbn.
  apply (ends_within_advance _ _ s) in Ht.
  destruct (advance t s) as [t' s']. by apply IH.
Qed.

(** How often the schedule picks thread [i]. *)
Definition turns (i : nat) (sched : list nat) : nat := length (filter (eq i) sched).

Lemma run_schedule_ends {A} sched (ts : list (thread S A)) s :
  (∀ i t, ts !! i = Some t → ends_within (turns i sched) t) →
  ∀ i t, (run_schedule sched ts s).1 !! i = Some t → thread_outcome t ≠ NoFuel.
Proof.
  revert ts s. induction sched as [|j sched IH]; intros ts s Hts; cbn [run_schedule].
  { intros i t Hi. specialize (Hts i t Hi). by destruct t. }
  unfold turns in *. cbn [filter list_filter] in Hts.
  destruct (ts !! j) as [t|] eqn:Hj.
  - pose proof (Hts j t Hj) as Ht. rewrite decide_True in Ht by done.
    apply (ends_within_advance _ _ s) in Ht. destruct (advance t s) as [t' s'].
    apply IH. intros i u Hi. destruct (decide (j = i)) as [<-|Hne].
    + rewrite list_lookup_insert_eq in Hi by (by apply lookup_lt_Some in Hj).
      by injection Hi as <-.
    + rewrite list_lookup_insert_ne in Hi by done. specialize (Hts i u Hi).
      by rewrite decide_False in Hts by done.
  - apply IH. intros i u Hi. specialize (Hts i u Hi).
    rewrite decide_False in Hts; [done|]. intros <-. congruence.
Qed.

Lemma run_schedule_length {A} sched (ts : list (thread S A)) s :
  length (run_schedule sched ts s).1 = length ts.
Proof.
  revert ts s. induction sched as [|i sched IH]; intros ts s; [done|]. cbn.
  destruct (ts !! i) as [t|]; [|done]. destruct (advance t s) as [t' s'].
  by rewrite IH, length_insert.
Qed.

Lemma ends_within_mono {A} n m (t : thread S A) : (n ≤ m)%nat → ends_within n t → ends_within m t.
Proof.
  revert m t. induction n as [|n IH]; intros m [o|f] Hle Ht; try (by destruct m).
  destruct m as [|m]; [lia|]. intros s. specialize (Ht s). cbn in Ht.
  destruct (f s).1; try done. apply IH; [lia|done].
Qed.

Lemma ends_within_bind {A B} n m (t : thread S A) (k : A → thread S B) :
  ends_within n t → (∀ a, ends_within m (k a)) → ends_within (n + m) (thread_bind t k).
Proof.
  revert t. induction n as [|n IH]; intros t Ht Hk.
  { destruct t as [[]|]; first [apply Hk|done|by destruct m]. }
  destruct t as [o|f].
  - apply (ends_within_mono m); [lia|].
    destruct o; first [apply Hk|done|by destruct m].
  - intros s. specialize (Ht s). cbn in *. destruct (f s) as [[] s']; cbn in *; try done.
    by apply IH.
Qed.

Lemma ends_within_atomic {A} (m : prog S A) :
  (∀ s, (m s).1 ≠ NoFuel) → ends_within 1 (atomic m).
Proof.
  intros Hm s. specialize (Hm s). cbn. unfold mbind, prog_mbind.
  by destruct (m s) as [[] s'].
Qed.
End threads.
