(* ===== verification/Visor.v ===== *)
(** * The visor: configuration, loading and isolations (libasvisor)

    [Config] is isolation/config.rs; then service/{mod,loader,elf_service}.rs,
    isolation/mod.rs and isolation/handler.rs.  Dynamic libraries, memory and the
    clock are the class [Host], over a state [W]; the code of the modules is the
    class [ModuleCode], threads that step on the isolation, which they change
    through the host calls.  The registered operations lock [inner] from start to
    end, so each is one step. *)
From stdpp Require Import sorting.
From S2P Require Import Prelude Bytes Hostcall Metric Threads.

(** ** Configuration *)
Module Config.
Record App : Type := mk_app { app_name : string; args : gmap string string }.

Inductive IsolationGroupApp : Type :=
  | Name (name : string)
  | Detailed (app : App).

Definition app_to_isolation (a : IsolationGroupApp) (id : string) : App :=
  let app := match a with Name name => mk_app name ∅ | Detailed app => app end in
  mk_app app.(app_name) (<["id" := id]> app.(args)).

Record IsolationGroup : Type := mk_group {
  list_ : list IsolationGroupApp; group_args : gmap string string
}.

(** [args.extend(app.args)]: the entries of [b] win. *)
Definition extend (a b : gmap string string) : gmap string string := b ∪ a.

Definition group_to_isolation (g : IsolationGroup) : list App :=
  imap (λ idx app,
    let app := app_to_isolation app (pretty.pretty idx) in
    mk_app app.(app_name) (extend g.(group_args) app.(args))) g.(list_).

Record LoadableUnit : Type := mk_unit { unit_name : string; unit_path : string }.

Record IsolationConfig : Type := mk_config {
  services : list LoadableUnit; apps : list LoadableUnit;
  fs_image : option string; with_libos : option bool; groups : list IsolationGroup
}.

Definition all_modules (c : IsolationConfig) : list LoadableUnit := c.(services) ++ c.(apps).
End Config.

(** ** The host *)

(** What the visor takes from the host: a loaded library [Lib], its symbols, the
    two calls that hand a module its context, memory and clocks. *)
Class Host (W Lib : Type) : Type := {
  load_dynlib : string → option Z → prog W (result Lib string);
  lib_symbol : Lib → string → option Z;
  lib_namespace : Lib → Z;
  call_set_handler : Z → IsolationContext → prog W (result () ());
  call_get_handler : Z → prog W Z;
  alloc_heap : prog W Z;
  find_host_call_addr : Z;
  panic_handler_addr : Z;
  metric_handler_addr : Z;
  fs_image_handler_addr : Z;
  spawn_fault_thread_handler_addr : Z;
  now_millis : prog W Z;
  now_micros : prog W Z
}.

(** ** Services and isolations *)

Record Service (Lib : Type) : Type := mk_service {
  s_name : string; s_path : string; s_lib : Lib; s_metric : nat;
  s_libos : bool; s_heap : Z
}.
Arguments mk_service {Lib}.
Arguments s_name {Lib}.
Arguments s_path {Lib}.
Arguments s_lib {Lib}.
Arguments s_metric {Lib}.
Arguments s_libos {Lib}.
Arguments s_heap {Lib}.

Record Isolation (W Lib : Type) : Type := mk_isol {
  id : Z;
  registered : gmap string string;
  loader_libos : bool;
  namespace : option Z;
  metric : MetricBucket;
  app_names : list string;
  groups : list (list Config.App);
  fs_image : option string;
  modules : gmap string (Service Lib);
  inner_poisoned : bool;
  world : W
}.
Arguments mk_isol {W Lib}.
Arguments id {W Lib}.
Arguments registered {W Lib}.
Arguments loader_libos {W Lib}.
Arguments namespace {W Lib}.
Arguments metric {W Lib}.
Arguments app_names {W Lib}.
Arguments groups {W Lib}.
Arguments fs_image {W Lib}.
Arguments modules {W Lib}.
Arguments inner_poisoned {W Lib}.
Arguments world {W Lib}.

(** The code behind the [rust_main] symbol at an address, run on its arguments. *)
Class ModuleCode (W Lib : Type) : Type :=
  call_main : Z → list (string * string) → thread (Isolation W Lib) (result () string).

Section isolation.
Context {W Lib : Type} `{Host W Lib} `{ModuleCode W Lib}.
Local Abbreviation M := (prog (Isolation W Lib)).

Definition set_world (w : W) (i : Isolation W Lib) : Isolation W Lib :=
  mk_isol i.(id) i.(registered) i.(loader_libos) i.(namespace) i.(metric) i.(app_names)
    i.(groups) i.(fs_image) i.(modules) i.(inner_poisoned) w.
Definition set_metric (m : MetricBucket) (i : Isolation W Lib) : Isolation W Lib :=
  mk_isol i.(id) i.(registered) i.(loader_libos) i.(namespace) m i.(app_names)
    i.(groups) i.(fs_image) i.(modules) i.(inner_poisoned) i.(world).
Definition set_modules (m : gmap string (Service Lib)) (i : Isolation W Lib) : Isolation W Lib :=
  mk_isol i.(id) i.(registered) i.(loader_libos) i.(namespace) i.(metric) i.(app_names)
    i.(groups) i.(fs_image) m i.(inner_poisoned) i.(world).
Definition set_namespace (n : option Z) (i : Isolation W Lib) : Isolation W Lib :=
  mk_isol i.(id) i.(registered) i.(loader_libos) n i.(metric) i.(app_names)
    i.(groups) i.(fs_image) i.(modules) i.(inner_poisoned) i.(world).
Definition poison (i : Isolation W Lib) : Isolation W Lib :=
  mk_isol i.(id) i.(registered) i.(loader_libos) i.(namespace) i.(metric) i.(app_names)
    i.(groups) i.(fs_image) i.(modules) true i.(world).

Definition host {A} (m : prog W A) : M A := on world set_world m.
Definition on_metric {A} (m : prog MetricBucket A) : M A := on metric set_metric m.

Definition mark_isol (e : MetricEvent) : M () := now ← host now_micros; on_metric (mark now e).
Definition mark_svc (h : nat) (e : MetricEvent) : M () :=
  now ← host now_millis; on_metric (mark_service h now e).

(** [ServiceLoader::register]: the applications, then the services, which
    replace an application of the same name. *)
Definition register (config : Config.IsolationConfig) (m : gmap string string) :
    gmap string string :=
  let add := λ (m : gmap string string) (u : Config.LoadableUnit),
    <[u.(Config.unit_name) := u.(Config.unit_path)]> m in
  foldl add (foldl add m config.(Config.apps)) config.(Config.services).

(** [SHOULD_NOT_SET_CONTEXT] *)
Definition should_set_context (name : string) : bool :=
  negb (bool_decide (name = "stdio"%string ∨ name = "time"%string)).

(** The range of the heap a module is told: the [mm] service keeps the upper
    half for the buffers it hands out. *)
Definition heap_range_of (name : string) (heap_start : Z) : Z * Z :=
  let heap_size := if bool_decide (name = "mm"%string) then SERVICE_HEAP_SIZE / 2
                   else SERVICE_HEAP_SIZE in
  (heap_start, heap_start + heap_size).

Inductive ServiceInitError : Type :=
  | SetIsolCtxErr | MissingSetCtx | MissingGetCtx | CtxCheckFailed.

(** [WithLibOSService::init] *)
Definition libos_init (svc : Service Lib) (isol_id : Z) : M (result () ServiceInitError) :=
  let heap_range := heap_range_of svc.(s_name) svc.(s_heap) in
  if negb (should_set_context svc.(s_name)) then mret (Ok ())
  else
    let isol_ctx := mk_ctx isol_id find_host_call_addr panic_handler_addr heap_range in
    match lib_symbol svc.(s_lib) "set_handler_addr" with
    | None => mret (Err MissingSetCtx)
    | Some set_handler =>
        r ← host (call_set_handler set_handler isol_ctx);
        match r with
        | Err _ => mret (Err SetIsolCtxErr)
        | Ok _ =>
            match lib_symbol svc.(s_lib) "get_handler_addr" with
            | None => mret (Err MissingGetCtx)
            | Some get_handler =>
                h ← host (call_get_handler get_handler);
                if h =? find_host_call_addr then mret (Ok ())
                else mret (Err CtxCheckFailed)
            end
        end
    end.

(** [Service::init]; [ElfService::init] does nothing. *)
Definition service_init (svc : Service Lib) (isol_id : Z) : M (result () ServiceInitError) :=
  if svc.(s_libos) then libos_init svc isol_id else mret (Ok ()).

Definition show_init_error (e : ServiceInitError) : string :=
  match e with
  | SetIsolCtxErr => "set isol context failed"
  | MissingSetCtx => "missing set_handler_addr?"
  | MissingGetCtx => "missing get_handler_addr?"
  | CtxCheckFailed => "check isol ctx failed."
  end.

(** [Service::new]: the initialisation is marked a second time, and a service
    of the library OS gets a heap. *)
Definition service_new (name path : string) (lib : Lib) (h : nat) (libos : bool) : M (Service Lib) :=
  mark_svc h SvcInit;;
  if libos then
    heap ← host alloc_heap;
    mret (mk_service name path lib h true heap)
  else mret (mk_service name path lib h false 0).

(** [ServiceLoader::load] *)
Definition load (name : string) : M (result (Service Lib) string) :=
  r ← gets (λ i, i.(registered) !! name);
  match r with
  | None => mret (Err ("unregistry library, name=" +:+ name))
  | Some lib_path =>
      h ← on_metric (new_svc_metric name lib_path);
      mark_svc h SvcInit;;
      ns ← gets namespace;
      lib ← host (load_dynlib lib_path ns);
      match lib with
      | Err e => mret (Err ("load_dynlib faile: " +:+ e))
      | Ok lib =>
          libos ← gets loader_libos;
          service ← service_new name lib_path lib h libos;
          modify (λ i, set_namespace (match i.(namespace) with
                                      | Some n => Some n
                                      | None => Some (lib_namespace lib)
                                      end) i);;
          isol_id ← gets id;
          r ← service_init service isol_id;
          mret (match r with Ok _ => Ok service | Err e => Err (show_init_error e) end)
      end
  end.

Definition load_app (name : string) : M (result (Service Lib) string) := load name.
Definition load_service (name : string) : M (result (Service Lib) string) :=
  mark_isol LoadService;; load name.

(** [inner.lock().unwrap()] around [m]. *)
Definition lock_inner {A} (m : M A) : M A := λ i,
  if i.(inner_poisoned) then (Panic, i)
  else match m i with
       | (Panic, i') => (Panic, poison i')
       | r => r
       end.

(** [service_or_load] and [app_or_load], over the loading function. *)
Definition or_load (ld : string → M (result (Service Lib) string)) (name : string) :
    M (result (Service Lib) string) :=
  lock_inner (
    m ← gets (λ i, i.(modules) !! name);
    match m with
    | Some svc => mret (Ok svc)
    | None =>
        svc ←? ld name;
        modify (λ i, set_modules (<[name := svc]> i.(modules)) i);;
        mret (Ok svc)
    end).
Definition service_or_load := or_load load_service.
Definition app_or_load := or_load load_app.

(** [preload]: every module of the configuration, in its order. *)
Fixpoint preload_modules (units : list Config.LoadableUnit) : M (result () string) :=
  match units with
  | [] => mret (Ok ())
  | u :: units =>
      names ← gets app_names;
      let n := u.(Config.unit_name) in
      (if bool_decide (n ∈ names) then app_or_load n else service_or_load n) ;;?
      preload_modules units
  end.
Definition preload (config : Config.IsolationConfig) : M (result () string) :=
  preload_modules (Config.all_modules config).

(** ** Running functions *)

(** [ArgsItem::from_kv]: both strings must fit 32 bytes. *)
Definition from_kv (k v : string) : M (string * string) :=
  assert (bool_decide (String.length k ≤ 32)%nat);;
  assert (bool_decide (String.length v ≤ 32)%nat);;
  mret (k, v).

(** [UserStack::write_args]: the list on the stack holds 16 items. *)
Fixpoint push_args (kvs done : list (string * string)) : M (list (string * string)) :=
  match kvs with
  | [] => mret done
  | (k, v) :: kvs =>
      item ← from_kv k v;
      assert (bool_decide (length done < 16)%nat);;
      push_args kvs (done ++ [item])
  end.

(** A [BTreeMap] iterates in the order of its keys, byte by byte. *)
Definition key_le (a b : string * string) : Prop := String.leb a.1 b.1 = true.
#[global] Instance key_le_dec : RelDecision key_le.
Proof. intros a b. unfold key_le. apply _. Defined.
Definition btree_items (args : gmap string string) : list (string * string) :=
  merge_sort key_le (map_to_list args).

Definition write_args (args : gmap string string) : M (list (string * string)) :=
  push_args (btree_items args) [].

(** [ElfService::run], as the thread it may run on. *)
Definition service_thread (svc : Service Lib) (args : gmap string string) :
    thread (Isolation W Lib) (result () string) :=
  thread_bind (atomic (mark_svc svc.(s_metric) SvcRun)) (λ _,
  match lib_symbol svc.(s_lib) "rust_main" with
  | None => Done (Ret (Err "missing main?"))
  | Some rust_main =>
      thread_bind (atomic (write_args args)) (λ items,
      thread_bind (call_main rust_main items) (λ r,
      match r with
      | Err e => Done (Ret (Err ("function " +:+ svc.(s_name) +:+ " run failed: " +:+ e)))
      | Ok _ =>
          thread_bind (atomic (mark_svc svc.(s_metric) SvcEnd)) (λ _, Done (Ret (Ok ())))
      end))
  end).

(** On the caller's own thread, in at most [fuel] steps. *)
Definition run_service (fuel : nat) (svc : Service Lib) (args : gmap string string) :
    M (result () string) := run_alone fuel (service_thread svc args).

Definition default_args : gmap string string := {["id" := "0"]}.

Fixpoint run_apps (fuel : nat) (names : list string) : M (result () string) :=
  match names with
  | [] => mret (Ok ())
  | name :: names =>
      app ←? fmap (map_err (λ e, "load app failed: " +:+ e)) (app_or_load name);
      fmap (map_err (λ e, "app_" +:+ app.(s_name) +:+ " run failed, reason: " +:+ e))
           (run_service fuel app default_args) ;;?
      run_apps fuel names
  end.
Definition run_as_sequence (fuel : nat) : M (result () string) :=
  names ← gets app_names; run_apps fuel names.

(** [map(app_or_load).collect::<Result<Vec<_>, _>>()]: stops at the first error. *)
Fixpoint load_group (group : list Config.App) : M (result (list (Service Lib)) string) :=
  match group with
  | [] => mret (Ok [])
  | a :: group =>
      svc ←? app_or_load a.(Config.app_name);
      rest ←? load_group group;
      mret (Ok (svc :: rest))
  end.

(** The join loop over the outcomes of the threads, in the order they were
    spawned: [expect] panics on a panicked thread; the first error returns, and
    then [thread::scope] panics if a thread not joined by hand panicked.  The
    scope waits for every thread before it lets anything out. *)
Definition is_panic {A} (o : outcome A) : bool := match o with Panic => true | _ => false end.
Definition is_deadlock {A} (o : outcome A) : bool := match o with Deadlock => true | _ => false end.
Definition is_nofuel {A} (o : outcome A) : bool := match o with NoFuel => true | _ => false end.

Fixpoint join_loop (outs : list (outcome (result () string))) : outcome (result () string) :=
  match outs with
  | [] => Ret (Ok ())
  | Ret (Ok _) :: outs => join_loop outs
  | Ret (Err e) :: outs => if existsb is_panic outs then Panic else Ret (Err e)
  | o :: _ => o
  end.
Definition join_all (outs : list (outcome (result () string))) : outcome (result () string) :=
  if existsb is_nofuel outs then NoFuel
  else if existsb is_deadlock outs then Deadlock
  else join_loop outs.

(** The closure a thread of the group runs. *)
Definition app_thread (app : Service Lib) (a : Config.App) :
    thread (Isolation W Lib) (result () string) :=
  thread_bind (service_thread app a.(Config.args)) (λ r,
    Done (Ret (map_err (λ e, "app " +:+ app.(s_name) +:+ " run failed. " +:+ e) r))).

Definition run_group_in_parallel (sched : list nat) (group : list Config.App) :
    M (result () string) :=
  apps ←? load_group group;
  outs ← (run_threads sched (zip_with app_thread apps group)
          : M (list (outcome (result () string))));
  ((λ i, (join_all outs, i)) : M (result () string)).

(** The groups one after the other, the [k]-th under the schedule [scheds k]. *)
Fixpoint run_groups (scheds : nat → list nat) (k : nat) (gs : list (list Config.App)) :
    M (result () string) :=
  match gs with
  | [] => mret (Ok ())
  | g :: gs =>
      fmap (map_err (λ e, "run_group_in_parallel failed: " +:+ e))
           (run_group_in_parallel (scheds k) g) ;;?
      run_groups scheds (S k) gs
  end.

Definition run_functions (fuel : nat) (scheds : nat → list nat) : M (result () string) :=
  gs ← gets groups;
  match gs with
  | [] => fmap (map_err (λ e, "run_as_sequence failed: " +:+ e)) (run_as_sequence fuel)
  | _ => run_groups scheds 0 gs
  end.

Definition run (fuel : nat) (scheds : nat → list nat) : M (result () string) :=
  mark_isol Mem;;
  run_functions fuel scheds ;;?
  mark_isol Mem;;
  mark_isol IsolEnd;;
  mret (Ok ()).

(** ** Host calls of modules (isolation/handler.rs) *)

Definition find_host_call (hc_id : HostCallID) : M Z :=
  match hc_id with
  | Common Hostcall.Metric => mret metric_handler_addr
  | Common FsImage => mret fs_image_handler_addr
  | Common SpawnFaultThread => mret spawn_fault_thread_handler_addr
  | _ =>
      match belong_to hc_id with
      | Ret svc_name =>
          r ← service_or_load svc_name;
          service ← unwrap_ok r;
          unwrap (lib_symbol service.(s_lib) (display_id hc_id))
      | _ => panic
      end
  end.

Definition metric_handler (event : MetricEvent) : M (result () ()) :=
  mark_isol event;; mret (Ok ()).

Definition fs_image_handler : M (option string) := gets fs_image.

(** [spwan_fault_thread_handler]: the address the new thread runs. *)
Definition spawn_fault_thread_handler : M (result Z string) :=
  r ← service_or_load "mmap_file_backend";
  mret (match r with
        | Err _ => Err "missing common_service: mmap_file_backend?"
        | Ok svc =>
            match lib_symbol svc.(s_lib) (display FilePageFaultHandler) with
            | Some a => Ok a
            | None => Err ("missing inferface: " +:+ display FilePageFaultHandler)
            end
        end).

(** [Isolation::new], with the id it is given. *)
Definition isolation_new (new_id : Z) (config : Config.IsolationConfig) (w : W) :
    outcome () * Isolation W Lib :=
  (mark_isol IsolBegin;; mark_isol Mem)
    (mk_isol new_id (register config ∅)
       (match config.(Config.with_libos) with Some b => b | None => true end) None metric_new
       (map Config.unit_name config.(Config.apps))
       (map Config.group_to_isolation config.(Config.groups))
       config.(Config.fs_image) ∅ false w).
End isolation.
