(* ===== verification/VisorSpec.v ===== *)
(** * What the visor guarantees (libasvisor)

    First how an isolation may change: whatever its functions do and however
    their threads interleave, modules are never unloaded or replaced, the
    namespace and the time of the end are set once.  Then the theorems on the
    configuration, the loader, the runs and the host calls. *)
From S2P Require Import Prelude Bytes Hostcall Metric Threads Visor.
From stdpp Require Import sorting.
Local Open Scope Z_scope.

(** ** How an isolation changes *)
Section evolution.
Context {W Lib : Type} `{HH : Host W Lib} `{CC : !ModuleCode W Lib}.
Local Abbreviation M := (prog (Isolation W Lib)).

(** [i] can become [i'], with [P] relating the modules before and after. *)
Record evolves (P : relation (gmap string (Service Lib))) (i i' : Isolation W Lib) : Prop :=
  mk_evolves {
    ev_id : i'.(id) = i.(id);
    ev_registered : i'.(registered) = i.(registered);
    ev_app_names : i'.(app_names) = i.(app_names);
    ev_groups : i'.(groups) = i.(groups);
    ev_fs_image : i'.(fs_image) = i.(fs_image);
    ev_modules : P i.(modules) i'.(modules);
    ev_namespace : ∀ n, i.(namespace) = Some n → i'.(namespace) = Some n;
    ev_poisoned : i.(inner_poisoned) = true → i'.(inner_poisoned) = true;
    ev_end_t : i.(metric).(end_t) ≠ 0 → i'.(metric).(end_t) = i.(metric).(end_t)
  }.

#[global] Instance evolves_preorder P `{!PreOrder P} : PreOrder (evolves P).
Proof.
  split.
  - intros i. split; done.
  - intros i j k H1 H2. destruct H1 as [e1 e2 e3 e4 e5 e6 e7 e8 e9].
    destruct H2 as [f1 f2 f3 f4 f5 f6 f7 f8 f9]. split; try congruence.
    + by transitivity j.(modules).
    + auto.
    + auto.
    + intros He. rewrite f9; [auto|]. by rewrite e9.
Qed.

(** Every run of [m] is an evolution. *)
Class Within P {A} (m : M A) : Prop := within : ∀ i, evolves P i (m i).2.

(** A program on the metrics that keeps the end once it is set. *)
Class KeepsEnd {A} (m : prog MetricBucket A) : Prop :=
  keeps_end : ∀ b, b.(end_t) ≠ 0 → (m b).2.(end_t) = b.(end_t).

#[global] Instance mark_keeps now e : KeepsEnd (mark now e).
Proof.
  intros b Hb. unfold mark, lock_metric, mbind, prog_mbind, gets, Datatypes.id.
  destruct (poisoned b); [done|].
  destruct e; unfold checked, assert; cbn -[fitsb Z.eqb]; try done.
  - by destruct (begin_t b =? 0).
  - by destruct (fitsb 32 (load_service_num b + 1)).
  - by rewrite (proj2 (Z.eqb_neq _ _) Hb).
Qed.
#[global] Instance new_svc_metric_keeps name path : KeepsEnd (new_svc_metric name path).
Proof. intros b Hb. unfold new_svc_metric, lock_metric. by destruct (poisoned b). Qed.
#[global] Instance mark_service_keeps h now e : KeepsEnd (mark_service h now e).
Proof. intros b Hb. apply mark_service_isolation. Qed.

Section within.
Context (P : relation (gmap string (Service Lib))) `{!PreOrder P}.

#[global] Instance within_ret {A} (a : A) : Within P (mret a).
Proof. by intros i. Qed.
#[global] Instance within_gets {A} (f : Isolation W Lib → A) : Within P (gets f).
Proof. by intros i. Qed.
#[global] Instance within_panic {A} : Within P (panic : M A).
Proof. by intros i. Qed.
#[global] Instance within_assert b : Within P (assert b).
Proof. destruct b; apply _. Qed.
#[global] Instance within_unwrap {A} (o : option A) : Within P (unwrap o).
Proof. destruct o; apply _. Qed.
#[global] Instance within_unwrap_ok {A E} (r : result A E) : Within P (unwrap_ok r).
Proof. destruct r; apply _. Qed.
#[global] Instance within_bind {A B} (m : M A) (k : A → M B) :
  Within P m → (∀ a, Within P (k a)) → Within P (m ≫= k).
Proof.
  intros Hm Hk i. unfold mbind, prog_mbind. specialize (Hm i).
  destruct (m i) as [[a| | |] i']; [|done..]. cbn in Hm. transitivity i'; [done|apply Hk].
Qed.
#[global] Instance within_try {A B E} (m : M (result A E)) (k : A → M (result B E)) :
  Within P m → (∀ a, Within P (k a)) → Within P (try_bind m k).
Proof. intros Hm Hk. apply within_bind; [done|]. intros []; [apply Hk|apply _]. Qed.
#[global] Instance within_fmap {A B} (f : A → B) (m : M A) : Within P m → Within P (f <$> m).
Proof. intros Hm. apply within_bind; [done|apply _]. Qed.
#[global] Instance within_host {A} (m : prog W A) : Within P (host m).
Proof. intros i. unfold host, on. by destruct (m (world i)). Qed.
#[global] Instance within_on_metric {A} (m : prog MetricBucket A) :
  KeepsEnd m → Within P (on_metric m).
Proof.
  intros Hm i. specialize (Hm i.(metric)). unfold on_metric, on.
  destruct (m (metric i)) as [o b]. split; done.
Qed.
#[global] Instance within_mark_isol e : Within P (mark_isol e).
Proof. apply _. Qed.
#[global] Instance within_mark_svc h e : Within P (mark_svc h e).
Proof. apply _. Qed.

Lemma within_write_args kvs : ∀ done, Within P (push_args kvs done : M _).
Proof.
  induction kvs as [|[k v] kvs IH]; intros done; cbn [push_args]; [apply _|].
  unfold from_kv. apply _.
Qed.

Lemma within_load name : Within P (load name).
Proof.
  apply within_bind; [apply _|]. intros [path|]; [|apply _].
  repeat (apply within_bind; [apply _|intros ?]).
  lazymatch goal with |- Within _ (match ?r with _ => _ end) => destruct r as [lib|] end;
    [|apply _].
  apply within_bind; [apply _|]. intros libos.
  apply within_bind; [unfold service_new; destruct libos; apply _|]. intros svc.
  apply within_bind.
  { intros i. split; try done. cbn. by intros n ->. }
  intros _. apply within_bind; [apply _|]. intros n.
  apply within_bind; [|apply _]. unfold service_init, libos_init.
  destruct (s_libos svc); [|apply _]. destruct (negb _); [apply _|].
  destruct (lib_symbol _ _); [|apply _]. apply within_bind; [apply _|]. intros []; [|apply _].
  destruct (lib_symbol _ _); [|apply _]. apply within_bind; [apply _|]. intros h.
  destruct (h =? _); apply _.
Qed.
End within.

Lemma evolves_weaken i i' : evolves (=) i i' → evolves (⊆) i i'.
Proof. intros []. split; auto. rewrite ev_modules0. reflexivity. Qed.

Lemma within_lock P `{!PreOrder P} {A} (m : M A) : Within P m → Within P (lock_inner m).
Proof.
  intros Hm i. unfold lock_inner. destruct (inner_poisoned i); [done|]. specialize (Hm i).
  destruct (m i) as [[] i']; try done. destruct Hm. by split.
Qed.

Lemma within_or_load ld name :
  Within (=) (ld name) → Within (⊆) (or_load ld name).
Proof.
  intros Hld. apply within_lock; [apply _|]. intros i. unfold mbind, prog_mbind, gets.
  destruct (modules i !! name) as [svc|] eqn:Hn; [done|].
  unfold try_bind, mbind, prog_mbind. specialize (Hld i).
  destruct (ld name i) as [[[svc|e]| | |] i']; cbn in *; try by apply evolves_weaken.
  destruct Hld. split; try done. cbn. rewrite <- ev_modules0. by apply insert_subseteq.
Qed.
#[global] Instance within_service_or_load name : Within (⊆) (service_or_load name).
Proof. apply within_or_load, within_bind; [apply _..|]. intros _. apply within_load; apply _. Qed.
#[global] Instance within_app_or_load name : Within (⊆) (app_or_load name).
Proof. apply within_or_load. apply within_load; apply _. Qed.

#[global] Instance within_preload config : Within (⊆) (preload config).
Proof.
  unfold preload. induction (Config.all_modules config) as [|u units IH]; cbn; [apply _|].
  apply within_bind; [apply _|apply _|]. intros names.
  apply within_try; [apply _|case_bool_decide; apply _|]. intros _. apply IH.
Qed.

#[global] Instance within_find_host_call hc : Within (⊆) (find_host_call hc).
Proof.
  assert (Hgo : ∀ hc', Within (⊆)
    (match belong_to hc' with
     | Ret svc_name =>
         r ← service_or_load svc_name; service ← unwrap_ok r;
         unwrap (lib_symbol service.(s_lib) (display_id hc'))
     | _ => panic
     end : M Z)).
  { intros hc'. destruct (belong_to hc'); apply _. }
  destruct hc as [[]|]; first [apply Hgo | apply _].
Qed.
#[global] Instance within_metric_handler e : Within (⊆) (metric_handler e).
Proof. apply _. Qed.
#[global] Instance within_spawn : Within (⊆) spawn_fault_thread_handler.
Proof. apply _. Qed.

(** *** Runs, when the code of the modules only makes such steps *)
Context (Hcode : ∀ addr items, steps_in (evolves (⊆)) (call_main addr items)).

Lemma service_thread_steps svc args : steps_in (evolves (⊆)) (service_thread svc args).
Proof.
  apply steps_in_bind; [apply steps_in_atomic, (within_mark_svc (⊆))|]. intros _.
  destruct (lib_symbol _ _); [|done].
  apply steps_in_bind; [apply steps_in_atomic, (within_write_args (⊆))|]. intros items.
  apply steps_in_bind; [apply Hcode|]. intros [|]; [|done].
  apply steps_in_bind; [apply steps_in_atomic, (within_mark_svc (⊆))|done].
Qed.

#[local] Instance within_run_service fuel svc args : Within (⊆) (run_service fuel svc args).
Proof. intros i. unfold run_service. apply (run_alone_in (evolves (⊆))); [apply _|apply service_thread_steps]. Qed.

#[local] Instance within_run_apps fuel names : Within (⊆) (run_apps fuel names).
Proof. induction names; cbn; apply _. Qed.

#[local] Instance within_load_group group : Within (⊆) (load_group group).
Proof. induction group; cbn; apply _. Qed.

#[local] Instance within_run_group sched group : Within (⊆) (run_group_in_parallel sched group).
Proof.
  apply within_try; [apply _..|]. intros apps. apply within_bind; [apply _| |].
  - intros i. unfold run_threads.
    pose proof (run_schedule_in (evolves (⊆)) sched (zip_with app_thread apps group) i _) as Hs.
    destruct (run_schedule _ _ i) as [ts i']. apply Hs, Forall_lookup. intros k t Hk.
    apply lookup_zip_with_Some in Hk as (app & a & -> & _).
    by apply steps_in_bind; [apply service_thread_steps|].
  - by intros outs i.
Qed.

#[local] Instance within_run_groups scheds k gs : Within (⊆) (run_groups scheds k gs).
Proof. revert k. induction gs; intros k; cbn; apply _. Qed.

#[local] Instance within_run_functions fuel scheds : Within (⊆) (run_functions fuel scheds).
Proof.
  apply within_bind; [apply _..|]. intros gs. destruct gs; unfold run_as_sequence; apply _.
Qed.
#[global] Instance within_run fuel scheds : Within (⊆) (run fuel scheds).
Proof. apply _. Qed.

(** What can happen to an isolation from outside and from its modules. *)
Inductive visor_call : Type :=
  | CallRun (fuel : nat) (scheds : nat → list nat)
  | CallPreload (config : Config.IsolationConfig)
  | CallService (name : string)
  | CallApp (name : string)
  | CallFind (hc : HostCallID)
  | CallMetric (e : MetricEvent)
  | CallSpawn.

(** Panics unwind to the caller and leave the isolation behind. *)
Definition exec_call (i : Isolation W Lib) (c : visor_call) : Isolation W Lib :=
  match c with
  | CallRun fuel scheds => (run fuel scheds i).2
  | CallPreload config => (preload config i).2
  | CallService name => (service_or_load name i).2
  | CallApp name => (app_or_load name i).2
  | CallFind hc => (find_host_call hc i).2
  | CallMetric e => (metric_handler e i).2
  | CallSpawn => (spawn_fault_thread_handler i).2
  end.
Definition exec_calls (cs : list visor_call) (i : Isolation W Lib) : Isolation W Lib :=
  foldl exec_call i cs.

Lemma exec_calls_evolves cs i : evolves (⊆) i (exec_calls cs i).
Proof.
  revert i. induction cs as [|c cs IH]; intros i; [done|].
  unfold exec_calls. cbn [foldl]. transitivity (exec_call i c); [|apply IH].
  destruct c; cbn [exec_call];
    lazymatch goal with |- evolves _ _ (?m ?i).2 => apply (within (m := m)) end.
Qed.
End evolution.

Section theorems.
Context {W Lib : Type} `{HH : Host W Lib} `{CC : !ModuleCode W Lib}.

Lemma or_load_known ld name svc (i : Isolation W Lib) :
  i.(inner_poisoned) = false → i.(modules) !! name = Some svc →
  or_load ld name i = (Ret (Ok svc), i).
Proof.
  intros Hp Hn. unfold or_load, lock_inner. rewrite Hp. unfold mbind, prog_mbind, gets.
  by rewrite Hn.
Qed.

Lemma or_load_stores ld name svc (i i' : Isolation W Lib) :
  or_load ld name i = (Ret (Ok svc), i') → i'.(modules) !! name = Some svc.
Proof.
  unfold or_load, lock_inner. destruct (inner_poisoned i); [done|].
  unfold try_bind, mbind, prog_mbind, gets. destruct (modules i !! name) as [svc'|] eqn:Hn.
  { cbn. by intros [= <- <-]. }
  destruct (ld name i) as [[[svc'|e]| | |] i1]; cbn; intros [= <- <-]. cbn.
  by rewrite lookup_insert_eq.
Qed.

(** C11: a module is loaded at most once in the life of its isolation: after
    [service_or_load] returned it, whatever runs (under any interleaving of the
    functions' threads), preloads, host calls and loads follow, panicking or not,
    the name stays bound to that very module, and asking for it again, as a
    service or as an application, returns it and changes nothing, unless the lock
    of the modules was poisoned.  The code of the modules only has to change the
    isolation the way its host calls do. *)
Theorem loaded_once :
  (∀ addr items, steps_in (evolves (⊆)) (call_main (W:=W) (Lib:=Lib) addr items)) →
  ∀ name svc (i i0 : Isolation W Lib),
  service_or_load name i = (Ret (Ok svc), i0) →
  ∀ calls, let i' := exec_calls calls i0 in
  i'.(modules) !! name = Some svc ∧
  (i'.(inner_poisoned) = false →
   service_or_load name i' = (Ret (Ok svc), i') ∧ app_or_load name i' = (Ret (Ok svc), i')).
Proof.
  intros Hcode name svc i i0 Hld calls i'. apply or_load_stores in Hld.
  assert (Hn : modules i' !! name = Some svc).
  { eapply lookup_weaken; [done|]. apply (ev_modules _ _ _ (exec_calls_evolves Hcode calls i0)). }
  split; [done|]. intros Hp. by split; apply or_load_known.
Qed.

Lemma mark_isol_end now b b' : mark now IsolEnd b = (Ret (), b') → b.(end_t) = 0 ∧ b'.(end_t) = now.
Proof.
  unfold mark, lock_metric, mbind, prog_mbind, gets, Datatypes.id, assert.
  destruct (poisoned b); [done|]. destruct (Z.eqb_spec (end_t b) 0); [|done].
  cbn. by intros [= <-].
Qed.

Lemma within_eq P {A} (m : prog (Isolation W Lib) A) `{!Within P m} i o i' :
  m i = (o, i') → evolves P i i'.
Proof. intros Hm. by rewrite <- (f_equal snd Hm : (m i).2 = i'). Qed.

(** A run that succeeds found the end unset and sets it to a time of the clock. *)
Lemma run_sets_end fuel scheds (i i' : Isolation W Lib) :
  (∀ addr items, steps_in (evolves (⊆)) (call_main (W:=W) (Lib:=Lib) addr items)) →
  run fuel scheds i = (Ret (Ok ()), i') →
  i.(metric).(end_t) = 0 ∧ ∃ w w', now_micros w = (Ret i'.(metric).(end_t), w').
Proof.
  intros Hcode Hr.
  apply bind_Ret_inv in Hr as ([] & i1 & H1 & Hr).
  apply bind_Ret_inv in Hr as (r & i2 & H2 & Hr). destruct r as [[]|]; [|done].
  apply bind_Ret_inv in Hr as ([] & i3 & H3 & Hr).
  apply bind_Ret_inv in Hr as ([] & i4 & H4 & [= ->]).
  pose proof (within_run_functions Hcode) as Hw.
  apply (within_eq (⊆)) in H1, H2, H3; [|apply _..].
  assert (He : evolves (⊆) i i3) by (transitivity i1; [done|by transitivity i2]).
  apply bind_Ret_inv in H4 as (now & i5 & Hc & H4).
  unfold host, on in Hc. destruct (now_micros (world i3)) as [o w'] eqn:Hnow.
  injection Hc as -> <-. unfold on_metric, on in H4.
  destruct (mark now IsolEnd _) as [o b] eqn:Hm. injection H4 as -> <-.
  apply mark_isol_end in Hm as [H0 Hb]. cbn in *. subst now. split; [|by eauto].
  destruct (Z.eq_dec i.(metric).(end_t) 0) as [|Hne]; [done|].
  rewrite <- (ev_end_t _ _ _ He Hne). done.
Qed.

(** C27: an isolation completes at most once: after a run succeeded, no later run
    does, whatever happens in between and however the threads are scheduled, as
    long as the clock never reads zero. *)
Theorem completes_once :
  (∀ addr items, steps_in (evolves (⊆)) (call_main (W:=W) (Lib:=Lib) addr items)) →
  (∀ w t w', now_micros w = (Ret t, w') → t ≠ 0) →
  ∀ fuel scheds (i i0 : Isolation W Lib),
  run fuel scheds i = (Ret (Ok ()), i0) →
  ∀ calls fuel' scheds', (run fuel' scheds' (exec_calls calls i0)).1 ≠ Ret (Ok ()).
Proof.
  intros Hcode Hclock fuel scheds i i0 Hr calls fuel' scheds' Hr'.
  destruct (run fuel' scheds' _) as [o i1] eqn:Hr1. cbn in Hr'. subst o.
  apply run_sets_end in Hr as (_ & w & w' & Hnow), Hr1 as [H0 _]; [|done..].
  apply Hclock in Hnow. by rewrite (ev_end_t _ _ _ (exec_calls_evolves Hcode calls i0) Hnow) in H0.
Qed.
End theorems.

(** ** Configuration *)

(** the arguments an application of a group is run with: its position in the
    group under ["id"], whatever the file says, then its own arguments, and the
    group's for the keys it does not set; the order and the names are the file's. *)
Theorem group_args_precedence : ∀ g,
  length (Config.group_to_isolation g) = length g.(Config.list_) ∧
  ∀ k a, g.(Config.list_) !! k = Some a →
  ∃ app, Config.group_to_isolation g !! k = Some app ∧
    app.(Config.app_name) = match a with Config.Name n => n | Config.Detailed d => d.(Config.app_name) end ∧
    app.(Config.args) !! "id"%string = Some (pretty.pretty k) ∧
    ∀ key, key ≠ "id"%string → app.(Config.args) !! key =
      match (match a with Config.Name _ => None | Config.Detailed d => d.(Config.args) !! key end) with
      | Some v => Some v
      | None => g.(Config.group_args) !! key
      end.
Proof.
  intros g. unfold Config.group_to_isolation. split; [apply length_imap|].
  intros k a Hk. eexists. rewrite list_lookup_imap, Hk. cbn -[union pretty.pretty]. split; [done|].
  split; [by destruct a|]. cbn -[union pretty.pretty]. unfold Config.extend. split.
  - by rewrite lookup_union, lookup_insert_eq, union_Some_l.
  - intros key Hne. rewrite lookup_union, lookup_insert_ne by done.
    destruct a as [n|d]; cbn -[union lookup empty].
    + rewrite lookup_empty. by destruct (Config.group_args g !! key).
    + by destruct (Config.args d !! key), (Config.group_args g !! key).
Qed.

(** The path the last unit of that name gives. *)
Definition last_path (name : string) (units : list Config.LoadableUnit) : option string :=
  last (map Config.unit_path (filter (λ u, u.(Config.unit_name) = name) units)).

Lemma register_units name units (m : gmap string string) :
  foldl (λ m u, <[u.(Config.unit_name) := u.(Config.unit_path)]> m) m units !! name =
  match last_path name units with Some p => Some p | None => m !! name end.
Proof.
  unfold last_path. induction units as [|u units IH] using rev_ind; [done|].
  rewrite foldl_snoc, filter_app, map_app. cbn [filter list_filter].
  destruct (decide (Config.unit_name u = name)) as [<-|Hne].
  - cbn. by rewrite last_snoc, lookup_insert_eq.
  - cbn. by rewrite app_nil_r, lookup_insert_ne.
Qed.

(** the library a module name is loaded from: the last service of the
    configuration with that name, and only if there is none the last application. *)
Theorem register_lookup : ∀ config name,
  register config ∅ !! name =
  match last_path name config.(Config.services) with
  | Some p => Some p
  | None => last_path name config.(Config.apps)
  end.
Proof.
  intros config name. unfold register. rewrite !register_units, lookup_empty.
  by destruct (last_path name (Config.services config)), (last_path name (Config.apps config)).
Qed.

(** ** Threads of a group *)
Section groups.
Context {W Lib : Type} `{HH : Host W Lib} `{CC : !ModuleCode W Lib}.

Lemma existsb_false {A} (f : A → bool) l : existsb f l = false ↔ Forall (λ a, f a = false) l.
Proof.
  induction l as [|a l IH]; cbn; [by split|].
  by rewrite orb_false_iff, IH, Forall_cons.
Qed.

Lemma join_all_ends outs : Forall (λ o, o ≠ NoFuel) outs → join_all outs ≠ NoFuel.
Proof.
  intros Hall. unfold join_all.
  assert (existsb is_nofuel outs = false) as ->
    by (apply existsb_false; by eapply Forall_impl; [done|intros []]).
  destruct (existsb is_deadlock outs); [done|].
  induction Hall as [|[[[]|]| | |] outs Ho _ IH]; cbn; try done. by destruct (existsb _ _).
Qed.

(** a group succeeds exactly when all its functions did; an error it returns is
    that of the first function, in the order of the configuration, that reported
    one, whatever order the functions finished in, and then none of its threads
    panicked or hangs. *)
Theorem join_all_result : ∀ outs,
  (join_all outs = Ret (Ok ()) ↔ Forall (λ o, o = Ret (Ok ())) outs) ∧
  (∀ e, join_all outs = Ret (Err e) →
    ∃ k, outs !! k = Some (Ret (Err e)) ∧ (∀ j, (j < k)%nat → outs !! j = Some (Ret (Ok ()))) ∧
    Forall (λ o, ∃ r, o = Ret r) outs).
Proof.
  intros outs.
  assert (Hclass : join_all outs ≠ NoFuel → join_all outs ≠ Deadlock →
    join_all outs = join_loop outs ∧
    Forall (λ o, is_nofuel o = false ∧ is_deadlock o = false) outs).
  { unfold join_all. destruct (existsb is_nofuel outs) eqn:H1; [done|].
    destruct (existsb is_deadlock outs) eqn:H2; [done|]. intros _ _. split; [done|].
    apply existsb_false in H1, H2. by apply Forall_and. }
  split; [split|].
  - intros Hj. destruct Hclass as [Heq _]; [congruence..|]. rewrite Heq in Hj. clear -Hj.
    induction outs as [|[[[]|]| | |] outs IH]; cbn in Hj; try done; [constructor; auto|].
    by destruct (existsb _ _).
  - intros Hall. unfold join_all.
    assert (existsb is_nofuel outs = false) as -> by
      (apply existsb_false; by eapply Forall_impl; [done|intros ? ->]).
    assert (existsb is_deadlock outs = false) as -> by
      (apply existsb_false; by eapply Forall_impl; [done|intros ? ->]).
    clear Hclass. induction Hall as [|o outs -> _ IH]; [done|apply IH].
  - intros e Hj. destruct Hclass as [Heq Hno]; [congruence..|]. rewrite Heq in Hj. clear -Hj Hno.
    induction Hno as [|o outs [Hn Hd] Hno IH]; [done|].
    destruct o as [[[]|e']| | |]; try done; cbn in Hj.
    + destruct (IH Hj) as (k & Hk & Hlt & Hall). exists (S k). split; [done|]. split.
      * intros [|j] Hjk; [done|]. apply Hlt. lia.
      * constructor; [by eexists|done].
    + destruct (existsb is_panic outs) eqn:Hp; [done|]. injection Hj as <-.
      exists 0%nat. split; [done|]. split; [lia|]. constructor; [by eexists|].
      apply existsb_false in Hp. rewrite Forall_forall in Hp, Hno |- *. intros o Ho.
      specialize (Hp o Ho). specialize (Hno o Ho) as [??]. destruct o; naive_solver.
Qed.
End groups.

(** Programs that never run out of the model's steps. *)
Class Settles {S A : Type} (m : prog S A) : Prop := settles : ∀ s, (m s).1 ≠ NoFuel.

Section settles.
Context {S : Type}.
#[global] Instance settles_ret {A} (a : A) : Settles (mret a : prog S A).
Proof. by intros s. Qed.
#[global] Instance settles_gets {A} (f : S → A) : Settles (gets f).
Proof. by intros s. Qed.
#[global] Instance settles_modify (f : S → S) : Settles (modify f).
Proof. by intros s. Qed.
#[global] Instance settles_panic {A} : Settles (panic : prog S A).
Proof. by intros s. Qed.
#[global] Instance settles_assert b : Settles (assert b : prog S ()).
Proof. destruct b; apply _. Qed.
#[global] Instance settles_checked w x : Settles (checked w x : prog S Z).
Proof. unfold checked. destruct (fitsb w x); apply _. Qed.
#[global] Instance settles_unwrap {A} (o : option A) : Settles (unwrap o : prog S A).
Proof. destruct o; apply _. Qed.
#[global] Instance settles_unwrap_ok {A E} (r : result A E) : Settles (unwrap_ok r : prog S A).
Proof. destruct r; apply _. Qed.
#[global] Instance settles_bind {A B} (m : prog S A) (k : A → prog S B) :
  Settles m → (∀ a, Settles (k a)) → Settles (m ≫= k).
Proof.
  intros Hm Hk s. unfold mbind, prog_mbind. specialize (Hm s).
  destruct (m s) as [[] s']; try done. apply Hk.
Qed.
#[global] Instance settles_try {A B E} (m : prog S (result A E)) (k : A → prog S (result B E)) :
  Settles m → (∀ a, Settles (k a)) → Settles (try_bind m k).
Proof. intros Hm Hk. apply settles_bind; [done|]. intros []; [apply Hk|apply _]. Qed.
#[global] Instance settles_on {T A} (get : S → T) put (m : prog T A) :
  Settles m → Settles (on get put m).
Proof. intros Hm s. unfold on. specialize (Hm (get s)). by destruct (m (get s)). Qed.
End settles.

(** The calls into the host return, panic or block. *)
Class HostSettles (W Lib : Type) `{!Host W Lib} : Prop := {
  #[global] settles_dynlib path ns :: Settles (load_dynlib path ns);
  #[global] settles_set a ctx :: Settles (call_set_handler a ctx);
  #[global] settles_get a :: Settles (call_get_handler a);
  #[global] settles_heap :: Settles alloc_heap;
  #[global] settles_millis :: Settles now_millis;
  #[global] settles_micros :: Settles now_micros
}.

Section completion.
Context {W Lib : Type} `{HH : !Host W Lib} `{CC : !ModuleCode W Lib} `{HT : !HostSettles W Lib}.
Local Abbreviation M := (prog (Isolation W Lib)).

#[global] Instance settles_lock_metric {A} (m : prog MetricBucket A) :
  Settles m → Settles (lock_metric m).
Proof.
  intros Hm b. unfold lock_metric. destruct (poisoned b); [done|]. specialize (Hm b).
  by destruct (m b) as [[] b'].
Qed.
#[global] Instance settles_mark now e : Settles (mark now e).
Proof. apply settles_lock_metric, settles_bind; [apply _|]. intros b. destruct e; apply _. Qed.
#[global] Instance settles_mark_service h now e : Settles (mark_service h now e).
Proof.
  intros b. unfold mark_service. destruct (_ !! h) as [s|]; [|done]. unfold svc_mark.
  by destruct (svc_poisoned s), e.
Qed.
#[global] Instance settles_mark_svc h e : Settles (mark_svc h e : M ()).
Proof. unfold mark_svc, host, on_metric. apply _. Qed.
#[global] Instance settles_mark_isol e : Settles (mark_isol e : M ()).
Proof. unfold mark_isol, host, on_metric. apply _. Qed.
#[global] Instance settles_push_args kvs done : Settles (push_args kvs done : M _).
Proof.
  revert done. induction kvs as [|[k v] kvs IH]; intros done; cbn [push_args]; [apply _|].
  unfold from_kv. apply _.
Qed.

#[global] Instance settles_load name : Settles (load name : M _).
Proof.
  apply settles_bind; [apply _|]. intros [path|]; [|apply _].
  apply settles_bind; [unfold new_svc_metric, on_metric; apply _|]. intros h.
  apply settles_bind; [apply _|]. intros _. apply settles_bind; [apply _|]. intros ns.
  apply settles_bind; [unfold host; apply _|]. intros [lib|]; [|apply _].
  apply settles_bind; [apply _|]. intros libos.
  apply settles_bind; [unfold service_new, host; destruct libos; apply _|]. intros svc.
  do 2 (apply settles_bind; [apply _|intros ?]).
  apply settles_bind; [|apply _]. unfold service_init, libos_init, host.
  destruct (s_libos svc); [|apply _]. destruct (negb _); [apply _|].
  destruct (lib_symbol _ _); [|apply _]. apply settles_bind; [apply _|]. intros []; [|apply _].
  destruct (lib_symbol _ _); [|apply _]. apply settles_bind; [apply _|]. intros h'.
  destruct (h' =? _); apply _.
Qed.
#[global] Instance settles_or_load ld name : Settles (ld name) → Settles (or_load ld name : M _).
Proof.
  intros Hld i. unfold or_load, lock_inner. destruct (inner_poisoned i); [done|].
  unfold mbind, prog_mbind, gets. destruct (modules i !! name); [done|].
  unfold try_bind, mbind, prog_mbind. specialize (Hld i).
  by destruct (ld name i) as [[[]| | |] ?].
Qed.
#[global] Instance settles_load_group group : Settles (load_group group : M _).
Proof. induction group; cbn; unfold app_or_load, load_app; apply _. Qed.

#[global] Instance settles_service_or_load name : Settles (service_or_load name : M _).
Proof. unfold service_or_load, load_service. apply _. Qed.
#[global] Instance settles_find_host_call hc : Settles (find_host_call (Common hc) : M _).
Proof.
  assert (Hgo : ∀ svc_name, Settles (r ← service_or_load svc_name; service ← unwrap_ok r;
    unwrap (lib_symbol service.(s_lib) (display hc)) : M Z)) by (intros; apply _).
  destruct hc; first [apply (Hgo _) | apply _].
Qed.

Lemma service_thread_ends n svc args :
  (∀ addr items, ends_within n (call_main addr items)) →
  ends_within (n + 3) (service_thread svc args).
Proof.
  intros Hn. replace (n + 3)%nat with (1 + (1 + (n + 1)))%nat by lia.
  apply ends_within_bind; [apply ends_within_atomic, settles|]. intros _.
  destruct (lib_symbol _ _); [|done].
  apply ends_within_bind; [apply ends_within_atomic, settles|]. intros items.
  apply ends_within_bind; [apply Hn|]. intros [|]; [|done].
  apply (ends_within_bind 1 0); [apply ends_within_atomic, settles|done].
Qed.

(** A group of functions completes: when the code of every module ends within
    [n] steps on its own, a scheduler that gives each of the group's threads
    [n + 3] turns, in any order, brings the group to its end, with a result, a
    panic or a block on a lock that is really held. *)
Theorem group_completes : ∀ n group sched (i : Isolation W Lib),
  (∀ addr items, ends_within n (call_main (W:=W) (Lib:=Lib) addr items)) →
  (∀ k, (k < length group)%nat → (n + 3 ≤ turns k sched)%nat) →
  (run_group_in_parallel sched group i).1 ≠ NoFuel.
Proof.
  intros n group sched i Hn Hs. revert i. apply settles_try; [apply _|]. intros apps i.
  unfold run_threads, mbind, prog_mbind.
  pose proof (run_schedule_ends sched (zip_with app_thread apps group) i) as Hend.
  destruct (run_schedule _ _ i) as [ts i']. cbn in *.
  apply join_all_ends, Forall_map, Forall_lookup. intros k t Hk. cbn.
  revert k t Hk. apply Hend. intros k t Hk.
  apply lookup_zip_with_Some in Hk as (app & a & -> & _ & Ha). apply lookup_lt_Some in Ha.
  apply (ends_within_mono (n + 3 + 0)); [rewrite Nat.add_0_r; by apply Hs|].
  by apply ends_within_bind; [apply service_thread_ends|].
Qed.
End completion.

(** ** Arguments *)
Section arguments.
Context {W Lib : Type}.
Local Abbreviation M := (prog (Isolation W Lib)).

Definition fits_item (kv : string * string) : bool :=
  bool_decide (String.length kv.1 ≤ 32)%nat && bool_decide (String.length kv.2 ≤ 32)%nat.

Lemma push_args_eq kvs done (i : Isolation W Lib) :
  push_args kvs done i =
  if forallb fits_item kvs && bool_decide (length done + length kvs ≤ 16 ∨ kvs = [])%nat
  then (Ret (done ++ kvs), i) else (Panic, i).
Proof.
  revert done. induction kvs as [|[k v] kvs IH]; intros done.
  { cbn. rewrite app_nil_r. by rewrite bool_decide_true by (by right). }
  cbn [push_args forallb]. unfold from_kv, assert, mbind, prog_mbind.
  change (fits_item (k, v)) with
    (bool_decide (String.length k ≤ 32)%nat && bool_decide (String.length v ≤ 32)%nat).
  destruct (bool_decide (String.length k ≤ 32)%nat); [|done].
  destruct (bool_decide (String.length v ≤ 32)%nat); [|done]. cbn -[length].
  case_bool_decide as Hd; cbn -[length].
  - rewrite IH, <- app_assoc. rewrite length_app. cbn [length app].
    destruct (forallb fits_item kvs); [|done]. cbn.
    rewrite (bool_decide_ext _ (length done + S (length kvs) ≤ 16 ∨ (k, v) :: kvs = [])%nat);
      [done|]. split; intros [Hl|Hn]; try (left; lia); [subst kvs; cbn; left; lia|done].
  - rewrite (bool_decide_false (length done + _ ≤ 16 ∨ _)%nat); [by rewrite andb_false_r|].
    intros [Hl|]; [cbn in Hl; lia|done].
Qed.

(** handing a function its arguments: up to 16 pairs of strings of at most 32
    bytes each all reach it, in the order of the keys; with a longer key or value
    or a 17th pair the visor panics. *)
Theorem write_args_bounds : ∀ (args : gmap string string) (i : Isolation W Lib),
  let items := btree_items args in
  items ≡ₚ map_to_list args ∧ Sorted key_le items ∧
  write_args args i =
    if bool_decide (map_Forall (λ k v, fits_item (k, v) = true) args ∧ size args ≤ 16)%nat
    then (Ret items, i) else (Panic, i).
Proof.
  intros args i items. unfold items, btree_items.
  assert (Hperm : merge_sort key_le (map_to_list args) ≡ₚ map_to_list args)
    by apply merge_sort_Permutation.
  split; [done|]. split.
  { apply Sorted_merge_sort. intros a b. unfold key_le.
    destruct (String.leb_total a.1 b.1); [by left|by right]. }
  unfold write_args. rewrite push_args_eq. unfold btree_items. cbn [length app].
  revert Hperm. generalize (merge_sort key_le (map_to_list args)) as l. intros l Hperm.
  replace (forallb _ _ && _) with
    (bool_decide (map_Forall (λ k v, fits_item (k, v) = true) args ∧ size args ≤ 16)%nat); [done|].
  assert (Hlen : length l = size args)
    by (rewrite (Permutation_length Hperm); apply length_map_to_list).
  assert (Hnil : l = [] → (size args ≤ 16)%nat) by (intros ->; cbn in Hlen; lia).
  apply Bool.eq_iff_eq_true. etransitivity; [apply bool_decide_eq_true|].
  etransitivity; [|symmetry; apply andb_true_iff].
  assert (Hf : map_Forall (λ k v, fits_item (k, v) = true) args ↔ forallb fits_item l = true).
  { etransitivity; [|symmetry; apply List.forallb_forall]. split.
    - intros Hf [k v] Hin. apply Hf, elem_of_map_to_list, list_elem_of_In.
      by apply (Permutation_in _ Hperm).
    - intros Hf k v Hkv. apply Hf, (Permutation_in _ (Permutation_sym Hperm)).
      by apply list_elem_of_In, elem_of_map_to_list. }
  rewrite Hf, Hlen. assert (Hb := bool_decide_eq_true (size args ≤ 16 ∨ l = [])%nat). tauto.
Qed.
End arguments.

(** ** Host calls *)

(** A library that is the service crate [svc_name], as far as host calls go: of the
    symbols the visor looks up, it holds those the crate exports.  (The context
    handlers and the symbols of the language runtime are free.) *)
Definition hosts_crate {W Lib : Type} `{HH : Host W Lib} (svc_name : string) (lib : Lib) : Prop :=
  ∀ hc, display hc ∈ crate_exports svc_name ↔ lib_symbol lib (display hc) ≠ None.

Lemma find_host_call_eq {W Lib : Type} `{HH : Host W Lib} hc svc_name service (i i1 : Isolation W Lib) :
  answered_by_visor hc = false → belong_to (Common hc) = Ret svc_name →
  service_or_load svc_name i = (Ret (Ok service), i1) →
  find_host_call (Common hc) i = unwrap (lib_symbol service.(s_lib) (display hc)) i1.
Proof.
  intros Hv Hb Hld. transitivity ((match belong_to (Common hc) with
     | Ret svc_name => r ← service_or_load svc_name; service ← unwrap_ok r;
         unwrap (lib_symbol service.(s_lib) (display hc))
     | _ => panic end) i); [by destruct hc|].
  rewrite Hb. by rewrite (bind_Ret _ _ _ _ _ Hld).
Qed.

(** C28: a host call of a module is answered by the service crate it belongs to: if
    that service loads, and its library holds the host calls its crate exports
    (whatever else it holds), then the address returned is that of the symbol
    named after the call, and it stays: whatever runs, loads and host calls
    follow, panicking or not, asking again returns the same address and changes
    nothing, unless the lock of the modules was poisoned.  For exactly the calls
    their crate does not export ([ReadDir] and [Socket]) the visor panics. *)
Theorem find_host_call_served {W Lib : Type} `{HH : Host W Lib, CC : !ModuleCode W Lib} :
  (∀ addr items, steps_in (evolves (⊆)) (call_main (W:=W) (Lib:=Lib) addr items)) →
  ∀ hc svc_name service (i i1 : Isolation W Lib),
  answered_by_visor hc = false →
  belong_to (Common hc) = Ret svc_name →
  service_or_load svc_name i = (Ret (Ok service), i1) →
  hosts_crate svc_name service.(s_lib) →
  if bool_decide (hc = ReadDir ∨ hc = Socket)
  then find_host_call (Common hc) i = (Panic, i1)
  else ∃ a, lib_symbol service.(s_lib) (display hc) = Some a ∧
            find_host_call (Common hc) i = (Ret a, i1) ∧
            ∀ calls, let i' := exec_calls calls i1 in i'.(inner_poisoned) = false →
              find_host_call (Common hc) i' = (Ret a, i').
Proof.
  intros Hcode hc svc_name service i i1 Hv Hb Hld Hex.
  assert (Heq := find_host_call_eq hc svc_name service).
  specialize (Hex hc). case_bool_decide as Hhc.
  - rewrite (Heq i i1) by done. destruct (lib_symbol _ _); [|done]. exfalso.
    assert (display hc ∈ crate_exports svc_name) as Hin by by apply Hex.
    destruct Hhc as [-> | ->]; injection Hb as <-;
      apply (bool_decide_eq_true_2 _) in Hin; by vm_compute in Hin.
  - assert (Hin : display hc ∈ crate_exports svc_name).
    { destruct hc; try (by destruct Hhc; tauto); try done; injection Hb as <-;
        apply (bool_decide_eq_true_1 _); by vm_compute. }
    apply Hex in Hin. destruct (lib_symbol _ _) as [a|] eqn:Ha; [|done].
    exists a. split; [done|]. split; [by rewrite (Heq i i1)|].
    intros calls i' Hp. rewrite (Heq i' i'); [done|done|done|].
    apply or_load_known; [done|]. apply or_load_stores in Hld.
    eapply lookup_weaken; [done|]. apply (ev_modules _ _ _ (exec_calls_evolves Hcode calls i1)).
Qed.

(** ** Concrete instances *)
Module Demo.

(** A host whose clock ticks at every read and whose libraries, named by their
    path, hold what the crate of that name exports, the context handlers and
    [rust_main]. *)
#[global] Instance host : Host Z string := {|
  load_dynlib path _ := mret (Ok path);
  lib_symbol lib s :=
    if bool_decide (s ∈ crate_exports lib) then Some 8192
    else if bool_decide (s ∈ ["rust_main"; "set_handler_addr"; "get_handler_addr"]%string)
    then Some 4096
    else None;
  lib_namespace _ := 0;
  call_set_handler _ _ := mret (Ok ());
  call_get_handler _ := mret 77;
  alloc_heap := mret 65536;
  find_host_call_addr := 77; panic_handler_addr := 78; metric_handler_addr := 79;
  fs_image_handler_addr := 80; spawn_fault_thread_handler_addr := 81;
  now_millis := λ w, (Ret (Z.abs w + 1), w + 1);
  now_micros := λ w, (Ret (Z.abs w + 1), w + 1)
|}.

(** A function that looks up [write] and marks its memory. *)
#[global] Instance code : ModuleCode Z string := λ _ _,
  thread_bind (atomic (find_host_call (Common Write))) (λ _,
  thread_bind (atomic (metric_handler Mem)) (λ _, Done (Ret (Ok ())))).

Lemma code_steps addr items : steps_in (evolves (⊆)) (code addr items).
Proof.
  apply steps_in_bind; [apply steps_in_atomic, (within_find_host_call (Common Write))|].
  intros _. apply steps_in_bind; [|done]. apply steps_in_atomic, (within_metric_handler Mem).
Qed.

Definition group : Config.IsolationGroup :=
  Config.mk_group [Config.Name "hello"; Config.Detailed (Config.mk_app "hello" {["slot" := "a"%string]})]
    {["slot" := "z"; "num" := "2"]}.

Definition config : Config.IsolationConfig :=
  Config.mk_config [Config.mk_unit "fdtab" "fdtab"] [Config.mk_unit "hello" "hello"] None
    None [group].

Definition isol : Isolation Z string := (isolation_new 1 config 1).2.
Definition fdtab_service : Service string := mk_service "fdtab" "fdtab" "fdtab" 0 true 65536.
Definition sched : list nat := [0; 1; 1; 0; 0; 1; 0; 1; 0; 1; 1; 0]%nat.
End Demo.

(** The service loaded in the demonstration isolation, and what follows. *)
Definition Demo_loaded : Isolation Z string := (service_or_load "fdtab" Demo.isol).2.
Definition Demo_ran : Isolation Z string := (run 9 (λ _, Demo.sched) Demo.isol).2.
Definition Demo_calls : list visor_call :=
  [CallRun 9 (λ _, Demo.sched); CallApp "hello"; CallFind (Common Read)].

Lemma Demo_loaded_eq :
  service_or_load "fdtab" Demo.isol = (Ret (Ok Demo.fdtab_service), Demo_loaded).
Proof. vm_compute. reflexivity. Qed.
Lemma Demo_ran_eq : run 9 (λ _, Demo.sched) Demo.isol = (Ret (Ok ()), Demo_ran).
Proof. vm_compute. reflexivity. Qed.
Lemma Demo_clock (w t w' : Z) : now_micros w = (Ret t, w') → t ≠ 0.
Proof. intros [= <- _]. lia. Qed.

Lemma loaded_once_witness :
  let i' := exec_calls Demo_calls Demo_loaded in
  i'.(modules) !! "fdtab"%string = Some Demo.fdtab_service ∧
  (i'.(inner_poisoned) = false →
   service_or_load "fdtab" i' = (Ret (Ok Demo.fdtab_service), i') ∧
   app_or_load "fdtab" i' = (Ret (Ok Demo.fdtab_service), i')).
Proof.
  exact (loaded_once Demo.code_steps "fdtab" Demo.fdtab_service Demo.isol Demo_loaded
    Demo_loaded_eq Demo_calls).
Defined.

Lemma completes_once_witness :
  (run 9 (λ _, Demo.sched) (exec_calls Demo_calls Demo_ran)).1 ≠ Ret (Ok ()).
Proof.
  exact (completes_once Demo.code_steps Demo_clock 9 (λ _, Demo.sched) Demo.isol Demo_ran
    Demo_ran_eq Demo_calls 9 (λ _, Demo.sched)).
Defined.

Lemma group_args_precedence_witness : ∃ app,
  Config.group_to_isolation Demo.group !! 1%nat = Some app ∧
  app.(Config.args) !! "id"%string = Some "1"%string ∧
  app.(Config.args) !! "slot"%string = Some "a"%string ∧
  app.(Config.args) !! "num"%string = Some "2"%string.
Proof.
  destruct (proj2 (group_args_precedence Demo.group) 1%nat _ eq_refl)
    as (app & H1 & _ & H3 & H4).
  refine (ex_intro _ app (conj H1 (conj H3 (conj _ _)))).
  - exact (H4 "slot"%string ltac:(discriminate)).
  - exact (H4 "num"%string ltac:(discriminate)).
Defined.

Lemma join_all_result_witness :
  join_all [Ret (Ok ()); Ret (Err "a"); Ret (Err "b")]%string = Ret (Err "a"%string) ∧
  ∃ k, [Ret (Ok ()); Ret (Err "a"); Ret (Err "b")]%string !! k = Some (Ret (Err "a"%string)).
Proof.
  split; [reflexivity|].
  destruct (proj2 (join_all_result [Ret (Ok ()); Ret (Err "a"); Ret (Err "b")]%string)
    "a"%string eq_refl) as (k & Hk & _).
  exact (ex_intro _ k Hk).
Defined.

#[global] Instance Demo_settles : HostSettles Z string.
Proof. by split. Defined.

Lemma group_completes_witness :
  (run_group_in_parallel Demo.sched (Config.group_to_isolation Demo.group) Demo.isol).1 ≠ NoFuel.
Proof.
  refine (group_completes 2 _ Demo.sched Demo.isol _ _).
  - intros addr items. apply (ends_within_bind 1 1).
    + apply ends_within_atomic, (settles (m := find_host_call (Common Write))).
    + intros _. apply (ends_within_bind 1 0); [|done].
      apply ends_within_atomic. unfold metric_handler. apply settles.
  - intros [|[|k]] Hk; [vm_compute; lia..|]. cbn in Hk. lia.
Defined.

Lemma find_host_call_served_witness : ∃ a,
  find_host_call (Common Write) Demo.isol = (Ret a, Demo_loaded) ∧
  find_host_call (Common Write) (exec_calls Demo_calls Demo_loaded) =
    (Ret a, exec_calls Demo_calls Demo_loaded).
Proof.
  assert (Hex : hosts_crate (HH := Demo.host) "fdtab" (s_lib Demo.fdtab_service)).
  { intros hc. cbn [lib_symbol Demo.host s_lib Demo.fdtab_service].
    case_bool_decide as Hs; [done|]. rewrite bool_decide_false; [done|]. clear Hs.
    destruct hc; intros H; apply (bool_decide_eq_true_2 _) in H; by vm_compute in H. }
  destruct (find_host_call_served Demo.code_steps Write "fdtab" Demo.fdtab_service Demo.isol
    Demo_loaded eq_refl eq_refl Demo_loaded_eq Hex) as (a & _ & Ha & Hstay).
  exact (ex_intro _ a (conj Ha (Hstay Demo_calls ltac:(vm_compute; reflexivity)))).
Defined.
