(* ===== verification/Buffers.v ===== *)
(** * Data buffers between functions (mm::faas_buffer, as_std::agent, FaasData)

    A function hands a value to the next one by reference: [DataBuffer] allocates
    it in a heap the [mm] service owns and registers its address and its type's
    fingerprint under a slot name; the receiver takes the entry and reads the value
    in place.  The allocator crate (linked_list_allocator) is the class [HeapCrate]
    with its laws; memory is the isolation's one address space. *)
From S2P Require Import Prelude Bytes Hostcall Threads Visor.

Record Layout : Type := mk_layout { l_size : Z; l_align : Z }.

(** ** Memory *)
Definition Memory : Type := Z → byte.
Definition read_mem (m : Memory) (p n : Z) : list byte := map (λ k, m (p + k)) (seqZ 0 n).
Definition write_mem (m : Memory) (p : Z) (bs : list byte) : Memory := λ a,
  if p <=? a then default (m a) (bs !! Z.to_nat (a - p)) else m a.

(** ** The allocator crate *)
Class HeapCrate (A : Type) : Type := {
  allocate_first_fit : Layout → prog A (option Z);
  deallocate : Z → Layout → prog A ()
}.

(** What it promises: a block it returns is not null and overlaps no live block. *)
Class HeapCrateSpec (A : Type) `{!HeapCrate A} : Type := {
  blocks : A → gmap Z Z;
  allocate_spec : ∀ a l, ∃ r a', allocate_first_fit l a = (Ret r, a') ∧
    match r with
    | Some p => 0 < p ∧ blocks a' = <[p := l.(l_size)]> (blocks a) ∧ blocks a !! p = None ∧
        ∀ q n, blocks a !! q = Some n → p + l.(l_size) ≤ q ∨ q + n ≤ p
    | None => blocks a' = blocks a
    end
}.

(** ** The mm service's side (faas_buffer/mod.rs) *)

Record MmState (A : Type) : Type := mk_mm {
  buffer_register : gmap string (Z * Z);
  buffer_allocator : A;
  own_heap : A;                       (* the calling module's global allocator *)
  memory : Memory
}.
Arguments mk_mm {A}.
Arguments buffer_register {A}.
Arguments buffer_allocator {A}.
Arguments own_heap {A}.
Arguments memory {A}.

Section buffers.
Context {A : Type} `{HC : !HeapCrate A}.
Local Abbreviation M := (prog (MmState A)).

Definition set_register (r : gmap string (Z * Z)) (s : MmState A) : MmState A :=
  mk_mm r s.(buffer_allocator) s.(own_heap) s.(memory).
Definition set_allocator (a : A) (s : MmState A) : MmState A :=
  mk_mm s.(buffer_register) a s.(own_heap) s.(memory).
Definition set_own_heap (a : A) (s : MmState A) : MmState A :=
  mk_mm s.(buffer_register) s.(buffer_allocator) a s.(memory).
Definition set_memory (m : Memory) (s : MmState A) : MmState A :=
  mk_mm s.(buffer_register) s.(buffer_allocator) s.(own_heap) m.

Definition buffer_alloc (slot : string) (l : Layout) (fingerprint : Z) : M (result Z MMError) :=
  addr ← on buffer_allocator set_allocator (allocate_first_fit l);
  addr ← unwrap addr;
  modify (λ s, set_register (<[slot := (addr, fingerprint)]> s.(buffer_register)) s);;
  mret (Ok addr).

Definition access_buffer (slot : string) : M (option (Z * Z)) :=
  r ← gets (λ s, s.(buffer_register) !! slot);
  modify (λ s, set_register (delete slot s.(buffer_register)) s);;
  mret r.

(** [NonNull::new(addr).unwrap()] is evaluated under the lock. *)
Definition buffer_dealloc (addr : Z) (l : Layout) : M () :=
  assert (negb (addr =? 0));;
  on buffer_allocator set_allocator (deallocate addr l).

(** ** The functions' side (agent.rs, the default build) *)

(** A type that may be handed over: its layout, the fingerprint the derive macro
    gave it, and its values as the bytes they occupy. *)
Class FaasData (T : Type) : Type := {
  layout : Layout;
  __fingerprint : Z;
  repr : T → list byte;
  unrepr : list byte → T
}.

Record DataBuffer (T : Type) : Type := mk_buffer { inner : Z; used : bool }.
Arguments mk_buffer {T}.
Arguments inner {T}.
Arguments used {T}.

Definition with_slot {T} `{!FaasData T} (slot : string) : M (DataBuffer T) :=
  let l := layout (T := T) in
  p ← (if l.(l_size) =? 0 then
         p ← on own_heap set_own_heap (allocate_first_fit (mk_layout 4 4));
         mret (default 0 p)
       else
         r ← buffer_alloc slot l (__fingerprint (T := T));
         unwrap_ok r);
  mret (mk_buffer p false).

Definition from_buffer_slot {T} `{!FaasData T} (slot : string) : M (option (DataBuffer T)) :=
  buffer_meta ← access_buffer slot;
  match buffer_meta with
  | None => mret None
  | Some (raw_ptr, fingerprint) =>
      if fingerprint =? __fingerprint (T := T) then mret (Some (mk_buffer raw_ptr false))
      else panic
  end.

Definition new {T} `{!FaasData T} : M (DataBuffer T) := with_slot "".
Definition from_buffer {T} `{!FaasData T} : M (option (DataBuffer T)) := from_buffer_slot "".

(** [*b] and [*b = v]; the value overwritten is not dropped here. *)
Definition deref {T} `{!FaasData T} (b : DataBuffer T) : M T :=
  gets (λ s, unrepr (read_mem s.(memory) b.(inner) (layout (T := T)).(l_size))).
Definition assign {T} `{!FaasData T} (b : DataBuffer T) (v : T) : M () :=
  modify (λ s, set_memory (write_mem s.(memory) b.(inner) (repr v)) s).

(** [From<T>] *)
Definition from_value {T} `{!FaasData T} (v : T) : M (DataBuffer T) :=
  t ← new; assign t v;; mret t.

(** [Drop for DataBuffer] *)
Definition drop_buffer {T} `{!FaasData T} (b : DataBuffer T) : M () :=
  if b.(used) then buffer_dealloc b.(inner) (layout (T := T)) else mret ().
End buffers.
Arguments mk_buffer {T}.
Arguments inner {T}.
Arguments used {T}.

(** ** The derive macro (as_std_proc_macro) *)

(** A struct's fields, each type as its token stream prints. *)
Inductive Fields : Type :=
  | Named (tys : list string)
  | Unnamed (tys : list string)
  | Unit.

(** [derive_verify_impl]: the hash of the concatenated types of the named fields;
    [hasher] is the standard library's default hasher. *)
Definition derive_fingerprint (hasher : string → Z) (fields : Fields) : Z :=
  let tys := match fields with Named tys => tys | _ => [] end in
  hasher (String.concat "" tys).

(** ** The heaps of the mm service *)

(** The address ranges, start and size, of the global allocator of a module
    ([init_heap] of the start of its heap) and of [BUFFER_ALLOCATOR]. *)
Definition init_heap (ctx : IsolationContext) : Z * Z := (fst ctx.(heap_range), SERVICE_HEAP_SIZE).
Definition BUFFER_ALLOCATOR (ctx : IsolationContext) : Z * Z :=
  (snd ctx.(heap_range), SERVICE_HEAP_SIZE / 2).
