(* ===== verification/BuffersSpec.v ===== *)
(** * What the data buffers guarantee

    Memory reads what was last written there; a value handed over under a slot
    arrives, once, whatever happens on other slots meanwhile; and what the code
    does not do: it never frees a buffer, tells apart only types its fingerprint
    tells apart, and gives the mm service two heaps over the same memory. *)
From S2P Require Import Prelude Bytes Hostcall Threads Visor Buffers.

(** ** Memory *)

Lemma lookup_read_mem m p n (k : nat) : Z.of_nat k < n →
  read_mem m p n !! k = Some (m (p + Z.of_nat k)).
Proof.
  intros Hk. unfold read_mem. rewrite list_lookup_fmap, lookup_seqZ_lt by lia. cbn.
  by replace (0 + Z.of_nat k) with (Z.of_nat k) by lia.
Qed.

Lemma length_read_mem m p n : length (read_mem m p n) = Z.to_nat n.
Proof. unfold read_mem. by rewrite length_map, length_seqZ. Qed.

Lemma read_mem_ext m m' p n :
  (∀ a, p ≤ a < p + n → m a = m' a) → read_mem m p n = read_mem m' p n.
Proof.
  intros Heq. apply list_eq. intros k. destruct (decide (Z.of_nat k < n)).
  - rewrite !lookup_read_mem by done. f_equal. apply Heq. lia.
  - by rewrite !lookup_ge_None_2 by (rewrite length_read_mem; lia).
Qed.

Lemma read_write_same m p bs : read_mem (write_mem m p bs) p (zlen bs) = bs.
Proof.
  apply list_eq. intros k. unfold zlen. destruct (decide (Z.of_nat k < Z.of_nat (length bs))).
  - rewrite lookup_read_mem by done. unfold write_mem. rewrite (proj2 (Z.leb_le _ _)) by lia.
    replace (Z.to_nat (p + Z.of_nat k - p)) with k by lia.
    destruct (lookup_lt_is_Some_2 bs k) as [b Hb]; [lia|]. by rewrite Hb.
  - rewrite !lookup_ge_None_2; [done|lia|rewrite length_read_mem; lia].
Qed.

Lemma write_mem_outside m p bs a : a < p ∨ p + zlen bs ≤ a → write_mem m p bs a = m a.
Proof.
  unfold write_mem, zlen. intros Ha. destruct (Z.leb_spec p a); [|done].
  by rewrite lookup_ge_None_2 by lia.
Qed.

(** ** Buffers *)
Section spec.
Context {A : Type} `{HC : !HeapCrate A, HS : !HeapCrateSpec A}.
Local Abbreviation M := (prog (MmState A)).

(** The live blocks of the buffer heap do not overlap. *)
Definition blocks_disjoint (s : MmState A) : Prop := ∀ p n q k,
  blocks s.(buffer_allocator) !! p = Some n → blocks s.(buffer_allocator) !! q = Some k →
  p ≠ q → p + n ≤ q ∨ q + k ≤ p.

Lemma buffer_alloc_cases slot l fp (s : MmState A) r s' :
  buffer_alloc slot l fp s = (r, s') →
  (r = Panic ∧ s'.(buffer_register) = s.(buffer_register) ∧ s'.(memory) = s.(memory) ∧
   blocks s'.(buffer_allocator) = blocks s.(buffer_allocator)) ∨
  ∃ p, r = Ret (Ok p) ∧ 0 < p ∧ s'.(memory) = s.(memory) ∧
    s'.(buffer_register) = <[slot := (p, fp)]> s.(buffer_register) ∧
    blocks s.(buffer_allocator) !! p = None ∧
    blocks s'.(buffer_allocator) = <[p := l.(l_size)]> (blocks s.(buffer_allocator)) ∧
    ∀ q n, blocks s.(buffer_allocator) !! q = Some n → p + l.(l_size) ≤ q ∨ q + n ≤ p.
Proof.
  unfold buffer_alloc, mbind, prog_mbind, on.
  destruct (allocate_spec (buffer_allocator s) l) as (o & a' & Ha & Hspec). rewrite Ha.
  destruct o as [p|]; cbn; intros [= <- <-].
  - right. exists p. cbn. naive_solver.
  - left. by cbn.
Qed.

Lemma buffer_alloc_disjoint slot l fp s :
  blocks_disjoint s → blocks_disjoint (buffer_alloc slot l fp s).2.
Proof.
  intros Hd. destruct (buffer_alloc slot l fp s) as [r s'] eqn:Ha. cbn.
  apply buffer_alloc_cases in Ha as [(_ & _ & _ & Hb)|(p & _ & _ & _ & _ & Hp & Hb & Hfresh)];
    intros q1 n1 q2 n2; rewrite Hb; [apply Hd|].
  rewrite !lookup_insert_Some. intros [[<- <-]|[H1 Hq1]] [[<- <-]|[H2 Hq2]] Hne; try done.
  - by apply Hfresh in Hq2.
  - apply Hfresh in Hq1. tauto.
  - by eapply Hd.
Qed.

(** What other threads do meanwhile: allocate and take buffers of other slots,
    write inside other live buffers, use their own heaps.  Dropping a [DataBuffer]
    is no step: it changes nothing. *)
Inductive other_step (slot : string) (p : Z) : relation (MmState A) :=
  | other_alloc s slot' l fp : slot' ≠ slot →
      other_step slot p s (buffer_alloc slot' l fp s).2
  | other_access s slot' : slot' ≠ slot → other_step slot p s (access_buffer slot' s).2
  | other_write s q n k bs : blocks s.(buffer_allocator) !! q = Some n → q ≠ p →
      0 ≤ k → k + zlen bs ≤ n →
      other_step slot p s (set_memory (write_mem s.(memory) (q + k) bs) s)
  | other_heap s a : other_step slot p s (set_own_heap a s).

(** The entry under [slot] and the bytes of its block. *)
Record holds_buffer (slot : string) (p n fp : Z) (bs : list byte) (s : MmState A) : Prop := {
  hb_entry : s.(buffer_register) !! slot = Some (p, fp);
  hb_block : blocks s.(buffer_allocator) !! p = Some n;
  hb_bytes : read_mem s.(memory) p n = bs;
  hb_disjoint : blocks_disjoint s
}.

Lemma other_step_holds slot p n fp bs s s' :
  holds_buffer slot p n fp bs s → other_step slot p s s' → holds_buffer slot p n fp bs s'.
Proof.
  intros [He Hb Hm Hd] Hs. destruct Hs as [s slot' l fp' Hne|s slot' Hne|s q k o ws Hq Hne Ho Hk|s a].
  - pose proof (buffer_alloc_disjoint slot' l fp' s Hd) as Hd'.
    destruct (buffer_alloc slot' l fp' s) as [r s'] eqn:Ha. cbn in *.
    apply buffer_alloc_cases in Ha as
      [(_ & Hr & Hmm & Hbb)|(q & _ & _ & Hmm & Hr & Hq & Hbb & _)].
    + split; [by rewrite Hr|by rewrite Hbb|by rewrite Hmm|done].
    + split; [by rewrite Hr, lookup_insert_ne| |by rewrite Hmm|done].
      rewrite Hbb, lookup_insert_ne; [done|]. intros ->. congruence.
  - split; [|done..]. change (delete slot' (buffer_register s) !! slot = Some (p, fp)).
    by rewrite lookup_delete_ne.
  - split; cbn; [done..| |done]. rewrite <- Hm. apply read_mem_ext. intros a Ha.
    apply write_mem_outside. destruct (Hd p n q k Hb Hq ltac:(done)); lia.
  - by split.
Qed.

Lemma other_steps_hold slot p n fp bs s s' :
  holds_buffer slot p n fp bs s → rtc (other_step slot p) s s' → holds_buffer slot p n fp bs s'.
Proof. intros Hs. induction 1 as [|s s1 s' Hstep _ IH]; [done|]. eauto using other_step_holds. Qed.

(** Allocating a buffer under a slot and writing a value of [n] bytes to it. *)
Lemma with_slot_holds {T} `{!FaasData T} slot (v : T) (s : MmState A) b s1 :
  blocks_disjoint s → 0 < (layout (T := T)).(l_size) → zlen (repr v) = (layout (T := T)).(l_size) →
  (b ← with_slot slot; assign b v;; mret b) s = (Ret b, s1) →
  b.(used) = false ∧
  holds_buffer slot b.(inner) (layout (T := T)).(l_size) (__fingerprint (T := T)) (repr v) s1.
Proof.
  intros Hd Hsz Hlen. unfold with_slot. rewrite (proj2 (Z.eqb_neq _ _)) by lia.
  unfold mbind, prog_mbind.
  destruct (buffer_alloc slot layout __fingerprint s) as [r s'] eqn:Ha.
  pose proof (buffer_alloc_disjoint slot layout __fingerprint s Hd) as Hd'. rewrite Ha in Hd'.
  apply buffer_alloc_cases in Ha as [(-> & _)|(p & -> & Hp & Hm & Hr & Hq & Hb & _)]; [done|].
  cbn. intros [= <- <-]. split; [done|]. split; cbn.
  - by rewrite Hr, lookup_insert_eq.
  - by rewrite Hb, lookup_insert_eq.
  - rewrite <- Hlen. apply read_write_same.
  - exact Hd'.
Qed.

Lemma from_buffer_slot_eq {T} `{!FaasData T} slot p n fp bs (s : MmState A) :
  holds_buffer slot p n fp bs s →
  from_buffer_slot (T := T) slot s =
    (if fp =? __fingerprint (T := T) then Ret (Some (mk_buffer p false)) else Panic,
     set_register (delete slot s.(buffer_register)) s).
Proof.
  intros [He _ _ _]. unfold from_buffer_slot, access_buffer, mbind, prog_mbind, gets.
  cbn. rewrite He. by destruct (_ =? _).
Qed.

Lemma from_buffer_slot_empty {T} `{!FaasData T} slot (s : MmState A) :
  s.(buffer_register) !! slot = None → (from_buffer_slot (T := T) slot s).1 = Ret None.
Proof.
  intros He. unfold from_buffer_slot, access_buffer, mbind, prog_mbind, gets. cbn. by rewrite He.
Qed.

(** C20: a value handed over under a slot arrives, exactly once: after one function
    allocated a buffer under the slot and wrote the value, and other threads did
    anything to other slots and other buffers, a function asking for the slot at
    the same type gets that very buffer and reads that value in it, and whoever
    asks next gets nothing. *)
Theorem handover {T} `{!FaasData T} : ∀ slot (v : T) (s : MmState A) b s1 s2,
  blocks_disjoint s → 0 < (layout (T := T)).(l_size) →
  zlen (repr v) = (layout (T := T)).(l_size) → unrepr (repr v) = v →
  (b ← with_slot slot; assign b v;; mret b) s = (Ret b, s1) →
  rtc (other_step slot b.(inner)) s1 s2 →
  ∃ s3, from_buffer_slot (T := T) slot s2 = (Ret (Some b), s3) ∧
    deref b s3 = (Ret v, s3) ∧ (from_buffer_slot (T := T) slot s3).1 = Ret None.
Proof.
  intros slot v s b s1 s2 Hd Hsz Hlen Hv Hw Hs.
  apply with_slot_holds in Hw as [Hu Hh]; [|done..].
  apply (other_steps_hold _ _ _ _ _ _ _ Hh) in Hs as Hh2.
  eexists. split; [rewrite (from_buffer_slot_eq _ _ _ _ _ _ Hh2), Z.eqb_refl|split].
  - destruct b as [p u]. cbn in *. by subst u.
  - unfold deref, gets. cbn. by rewrite (hb_bytes _ _ _ _ _ _ Hh2), Hv.
  - apply from_buffer_slot_empty. cbn. apply lookup_delete_eq.
Qed.

(** the fingerprint is all the receiver checks: asked for at another type, the
    buffer is refused with a panic if the fingerprints differ, and its entry is
    gone; if they agree, the receiver gets the same bytes as a value of its own
    type.  The derive macro gives every struct without named fields the same
    fingerprint, and never looks at the names of the others. *)
Theorem handover_type_check {T1 T2} `{!FaasData T1, !FaasData T2} : ∀ slot (v : T1) (s : MmState A) b s1,
  blocks_disjoint s → 0 < (layout (T := T1)).(l_size) →
  zlen (repr v) = (layout (T := T1)).(l_size) →
  (layout (T := T2)).(l_size) = (layout (T := T1)).(l_size) →
  (b ← with_slot slot; assign b v;; mret b) s = (Ret b, s1) →
  (if decide (__fingerprint (T := T1) = __fingerprint (T := T2))
   then ∃ s2, from_buffer_slot (T := T2) slot s1 = (Ret (Some (mk_buffer b.(inner) false)), s2) ∧
              deref (T := T2) (mk_buffer b.(inner) false) s2 = (Ret (unrepr (repr v)), s2)
   else ∃ s2, from_buffer_slot (T := T2) slot s1 = (Panic, s2) ∧
              (from_buffer_slot (T := T1) slot s2).1 = Ret None) ∧
  ∀ hasher tys tys', derive_fingerprint hasher (Unnamed tys) = derive_fingerprint hasher (Unnamed tys').
Proof.
  intros slot v s b s1 Hd Hsz Hlen Hsame Hw. split; [|done].
  apply with_slot_holds in Hw as [Hu Hh]; [|done..]. case_decide as Hf.
  - eexists. split; [by rewrite (from_buffer_slot_eq _ _ _ _ _ _ Hh), Hf, Z.eqb_refl|].
    unfold deref, gets. cbn. by rewrite Hsame, (hb_bytes _ _ _ _ _ _ Hh).
  - eexists. split; [by rewrite (from_buffer_slot_eq _ _ _ _ _ _ Hh), (proj2 (Z.eqb_neq _ _) Hf)|].
    apply from_buffer_slot_empty. cbn. apply lookup_delete_eq.
Qed.

(** no buffer is ever freed: every [DataBuffer] the library hands out, made for a
    slot, made from a value or taken from a slot, is marked unused, nothing marks
    one used, and dropping an unused one leaves the heap as it is. *)
Theorem buffers_never_freed {T} `{!FaasData T} : ∀ (s s' : MmState A) (b : DataBuffer T),
  (∃ slot, with_slot slot s = (Ret b, s')) ∨ (∃ v, from_value v s = (Ret b, s')) ∨
  (∃ slot, from_buffer_slot slot s = (Ret (Some b), s')) →
  ∀ s2 : MmState A, drop_buffer b s2 = (Ret (), s2).
Proof.
  intros s s' b Hb s2. assert (Hu : b.(used) = false); [|unfold drop_buffer; by rewrite Hu].
  assert (Hw : ∀ slot (s s' : MmState A), with_slot (T := T) slot s = (Ret b, s') → used b = false).
  { intros slot t t' Ht. apply bind_Ret_inv in Ht as (p & t1 & _ & [= <- _]). done. }
  destruct Hb as [[slot Hb]|[[v Hb]|[slot Hb]]]; [by eapply Hw| |].
  - apply bind_Ret_inv in Hb as (b' & t1 & Hb & Hr). apply bind_Ret_inv in Hr as ([] & t2 & _ & [= -> _]).
    by eapply Hw.
  - apply bind_Ret_inv in Hb as ([[p fp]|] & t1 & _ & Hr); [|done].
    destruct (fp =? __fingerprint); [|done]. by injection Hr as <- _.
Qed.
End spec.

(** the two heaps of the mm service lie over each other: the context the visor
    gives the service [mm] ends its heap in the middle, where the buffer heap
    starts, but the service's global allocator is given the whole of it, so every
    byte of the buffer heap belongs to the global allocator too. *)
Theorem mm_heaps_overlap : ∀ isol finder panicker heap_start,
  let ctx := mk_ctx isol finder panicker (heap_range_of "mm" heap_start) in
  let '(buf, buf_size) := BUFFER_ALLOCATOR ctx in
  let '(own, own_size) := init_heap ctx in
  buf = heap_start + SERVICE_HEAP_SIZE / 2 ∧ buf + buf_size = heap_start + SERVICE_HEAP_SIZE ∧
  ∀ a, buf ≤ a < buf + buf_size → own ≤ a < own + own_size.
Proof.
  intros isol f p h. unfold BUFFER_ALLOCATOR, init_heap, heap_range_of.
  rewrite bool_decide_true by done. cbn [heap_range fst snd]. change (SERVICE_HEAP_SIZE / 2) with 2147483648.
  change SERVICE_HEAP_SIZE with 4294967296. 
  split_and!; intros; lia.
Qed.

(** ** A concrete instance *)
Module Demo.

(** A heap that allocates past the end of its last block. *)
Definition top (live : gmap Z Z) : Z :=
  foldr (λ '(q, n) acc, Z.max acc (q + Z.max n 0)) 0 (map_to_list live).

#[global] Instance heap : HeapCrate (gmap Z Z) := {|
  allocate_first_fit l := λ live, (Ret (Some (top live + 1)), <[top live + 1 := l.(l_size)]> live);
  deallocate p _ := modify (delete p)
|}.

Lemma top_bound live q n : live !! q = Some n → q + Z.max n 0 ≤ top live ∧ 0 ≤ top live.
Proof.
  rewrite <- elem_of_map_to_list. unfold top. generalize (map_to_list live) as l. intros l.
  induction l as [|[q' n'] l IH]; intros Hin; [by apply elem_of_nil in Hin|].
  apply elem_of_cons in Hin as [[= <- <-]|Hin]; cbn [foldr]; [|specialize (IH Hin); lia].
  clear IH. induction l as [|[q' n'] l IH]; cbn [foldr]; lia.
Qed.
Lemma top_nonneg live : 0 ≤ top live.
Proof. unfold top. induction (map_to_list live) as [|[q n] l IH]; cbn [foldr]; lia. Qed.

#[global] Instance heap_spec : HeapCrateSpec (gmap Z Z).
Proof.
  refine {| blocks (live : gmap Z Z) := live |}. intros live l. eexists _, _. split; [done|]. pose proof (top_nonneg live).
  split_and!; [lia|done| |].
  - destruct (live !! (top live + 1)) as [n|] eqn:Hn; [|done]. apply top_bound in Hn. lia.
  - intros q n Hq. apply top_bound in Hq. right. lia.
Defined.

(** An [i32], little endian, as a type that can be handed over. *)
#[global] Instance i32_data : FaasData Z := {|
  layout := mk_layout 4 4; __fingerprint := fingerprint_i32;
  repr v := le_encode 4 v; unrepr bs := le_decode bs
|}.
Definition start : MmState (gmap Z Z) := mk_mm ∅ ∅ ∅ (λ _, 0).

(** The sender's buffer, and the state after it wrote 300 to it. *)
Definition sent : DataBuffer Z := mk_buffer 1 false.
Definition after_send : MmState (gmap Z Z) :=
  ((b ← with_slot "out"; assign b 300;; mret b) start).2.

Lemma start_disjoint : blocks_disjoint start.
Proof. intros p n q k Hp. change ((∅ : gmap Z Z) !! p = Some n) in Hp. by rewrite lookup_empty in Hp. Qed.
End Demo.

Lemma handover_witness : ∃ s3,
  from_buffer_slot (T := Z) "out" (access_buffer "other" Demo.after_send).2 = (Ret (Some Demo.sent), s3) ∧
  deref Demo.sent s3 = (Ret 300, s3) ∧ (from_buffer_slot (T := Z) "out" s3).1 = Ret None.
Proof.
  apply (handover "out" 300 Demo.start Demo.sent Demo.after_send).
  - exact Demo.start_disjoint.
  - done.
  - vm_compute. reflexivity.
  - vm_compute. reflexivity.
  - reflexivity.
  - eapply rtc_once. by apply other_access.
Defined.

(** The same bytes as a pair of halves, with the fingerprint of unit. *)
Definition halves : FaasData (list byte) := {|
  layout := mk_layout 4 4; __fingerprint := fingerprint_unit; repr bs := bs; unrepr bs := bs
|}.

Lemma handover_type_check_witness : ∃ s2,
  from_buffer_slot (FaasData0 := halves) "out" Demo.after_send = (Panic, s2).
Proof.
  destruct (handover_type_check (FaasData0 := Demo.i32_data) (FaasData1 := halves) "out" 300 Demo.start Demo.sent
    Demo.after_send Demo.start_disjoint eq_refl eq_refl eq_refl eq_refl) as [Hp _].
  cbn [__fingerprint Demo.i32_data halves] in Hp. rewrite decide_False in Hp by done.
  destruct Hp as (s2 & Hp & _). exact (ex_intro _ s2 Hp).
Defined.

Lemma buffers_never_freed_witness :
  drop_buffer Demo.sent Demo.start = (Ret (), Demo.start).
Proof.
  apply (buffers_never_freed Demo.start ((with_slot "out" Demo.start).2)).
  left. exists "out"%string. reflexivity.
Defined.
