(* ===== verification/Mmap.v ===== *)
(** * Memory mapping (mm::mmap, as_std::mm) and file-backed regions (mmap_file_backend)

    [libos_mmap] and its siblings over the C library ([Libc], a parameter); then the
    page-fault path of [mmap_file_backend], which serves a fault from the file
    through the descriptor table; then its handler thread and the clients that
    register and unregister regions, as a step relation at the granularity of the
    locks.  userfaultfd, epoll and the pipe are the kernel's. *)
From S2P Require Import Prelude Bytes Hostcall Mpk Fdtab Fatfs FdSpec FileStack Buffers.

(** ** The mm service (mmap.rs) *)

(** The C library and the module's global allocator, over a state [W]. *)
Class Libc (W : Type) : Type := {
  heap_alloc : Layout → prog W Z;
  heap_dealloc : Z → Layout → prog W ();
  c_munmap : Z → Z → prog W Z;
  c_mmap : Z → Z → Z → prog W Z;      (* address, length, protection *)
  c_mprotect : Z → Z → Z → prog W Z;
  hc_register_file_backend : Z → Z → Fd → prog W (result () MmapFileErr);
  hc_unregister_file_backend : Z → prog W (result () MmapFileErr)
}.

(** [ProtFlags] *)
Definition ProtFlags_READ : Z := 1.
Definition ProtFlags_WRITE : Z := 2.
Definition ProtFlags_EXEC : Z := 4.

Definition trans_protflag (flags : Z) : Z :=
  let result := 0 in
  let result := if contains flags ProtFlags_READ then Z.lor result PROT_READ else result in
  let result := if contains flags ProtFlags_WRITE then Z.lor result PROT_WRITE else result in
  if contains flags ProtFlags_EXEC then Z.lor result PROT_EXEC else result.

(** [Layout::from_size_align(length, PAGE_SIZE)]: the size rounded up to the
    alignment must not exceed [isize::MAX]. *)
Definition page_layout (length : Z) : result Layout MMError :=
  if length <=? 2 ^ 63 - PAGE_SIZE then Ok (mk_layout length PAGE_SIZE) else Err LayoutErr.

Section mmap.
Context {W : Type} `{LC : !Libc W}.

Definition libos_mmap (addr length prot : Z) (fd : Fd) : prog W (result Z MMError) :=
  if 0 <? length mod PAGE_SIZE then mret (Err (InvaildArg "length % PAGE_SIZE == 0" length))
  else
    layout ←? mret (page_layout length);
    addr ← (if addr =? 0 then heap_alloc layout else mret addr);
    r ← c_munmap addr length;
    if negb (r =? 0) then mret (Err (LibcErr "munmap failed"))
    else
      p ← c_mmap addr length (trans_protflag prot);
      if negb (p =? addr) then mret (Err (LibcErr "mmap failed"))
      else if fd =? U32_MAX then mret (Ok addr)
      else
        fmap (map_err FileBackendErr) (hc_register_file_backend addr length fd) ;;?
        mret (Ok addr).

Definition libos_munmap (start len : Z) (file_based : bool) : prog W (result () MMError) :=
  (if file_based then fmap (map_err FileBackendErr) (hc_unregister_file_backend start)
   else mret (Ok ())) ;;?
  aligned_length ← round_up len;
  r ← c_mprotect start aligned_length (Z.lor PROT_READ PROT_WRITE);
  if negb (r =? 0) then mret (Err (LibcErr "mprotect failed"))
  else
    layout ←? mret (page_layout aligned_length);
    heap_dealloc start layout;;
    mret (Ok ()).

Definition libos_mprotect (addr length prot : Z) : prog W (result () MMError) :=
  aligned_length ← round_up length;
  r ← c_mprotect addr aligned_length (trans_protflag prot);
  mret (if negb (r =? 0) then Err (LibcErr "mprotect failed") else Ok ()).

(** [Mmap] of as_std: a file mapped for reading, unmapped when dropped; the size
    of the file is what [metadata] answered. *)
Record Mmap : Type := mk_mmap { ptr : Z; length_ : Z }.

Definition mmap_file (st_size : Z) (fd : Fd) : prog W (result Mmap MMError) :=
  aligned_length ← round_up st_size;
  p ←? libos_mmap 0 aligned_length ProtFlags_READ fd;
  mret (Ok (mk_mmap p st_size)).

Definition mmap_drop (m : Mmap) : prog W () :=
  r ← libos_munmap m.(ptr) m.(length_) true; unwrap_ok r.
End mmap.

(** ** Serving a page fault (mmap_file_backend/src/lib.rs) *)

Record RegisterdMemRegion : Type := mk_region { start_addr : Z; src_fd : Fd }.

Inductive Event : Type :=
  | Pagefault (addr : Z)
  | OtherEvent.

(** The userfaultfd of a region: the event it has ready, and copying a page to
    the faulting thread's memory. *)
Class Uffd (U : Type) : Type := {
  read_event : prog U (result (option Event) string);
  uffd_copy : Z → list byte → prog U (result () string)
}.

Section fault.
Context {W U : Type} `{FB : !FdBackend W, UF : !Uffd U}.

(** The descriptor table and what is below it, the userfaultfd, and the page
    buffer the handler thread reuses for every fault. *)
Record HandlerState : Type := mk_handler {
  files : FdState W; uffd : U; page : list byte
}.
Local Abbreviation M := (prog HandlerState).

Definition in_files {A} (m : prog (FdState W) A) : M A :=
  on files (λ f s, mk_handler f s.(uffd) s.(page)) m.
Definition in_uffd {A} (m : prog U A) : M A :=
  on uffd (λ u s, mk_handler s.(files) u s.(page)) m.

(** The number of bytes read is not looked at. *)
Definition read_at_offset (fd : Fd) (offset : Z) : M (result () MmapFileErr) :=
  fmap (map_err FileError) (in_files (lseek fd offset)) ;;?
  buf ← gets page;
  '(r, buf) ← in_files (read fd buf);
  modify (λ s, mk_handler s.(files) s.(uffd) buf);;
  mret (match r with Ok _ => Ok () | Err e => Err (FileError e) end).

Definition do_page_fault (region : RegisterdMemRegion) : M (result () MmapFileErr) :=
  event ←? fmap (map_err UffdError) (in_uffd read_event);
  match event with
  | None => mret (Err (MmapUnknown "uffd_msg should ready"))
  | Some (Pagefault addr) =>
      offset ← checked 64 (addr - region.(start_addr));
      aligned_offset ← round_down offset;
      read_at_offset region.(src_fd) (wrap 32 aligned_offset) ;;?
      let dst := Z.land addr (unot 64 (PAGE_SIZE - 1)) in
      buf ← gets page;
      fmap (map_err UffdError) (in_uffd (uffd_copy dst buf))
  | Some OtherEvent => mret (Err (MmapUnknown "Unexpected event on userfaultfd"))
  end.
End fault.
Arguments HandlerState : clear implicits.

(** ** The handler thread and its clients (mmap_file_backend/src/{lib,apis}.rs) *)
Module Backend.

(** Where the handler thread stands in [file_page_fault_handler]: not running;
    about to lock the regions; in [epoll_wait] holding that lock, or serving an
    event; woken by the pipe, the lock released, about to read the pipe; out of the
    loop, about to take the pipe away; ended by a panic, or never spawned although
    the pipe was made. *)
Inductive handler_pc : Type := HNone | HLock | HWait | HConsume | HExit | HDead.

(** Where the client stands.  [REGISTER] lets one client in at a time.  The region
    registered or unregistered is named by its start address. *)
Inductive client_pc : Type :=
  | CIdle
  | CRegister (a : Z)          (* about to [acquire_regions_or_notify] *)
  | CRegisterWait (a : Z)      (* found the lock taken and notified *)
  | CPushed                    (* region pushed, its lock held *)
  | CUnregister (a : Z)        (* holds the pipe for reading, notified *)
  | CUnregisterWait (a : Z).

(** The registered regions, the bytes pending in the pipe if there is one, and
    whether the lock of the regions is poisoned. *)
Record state : Type := mk_state {
  regions : list Z; pipe : option nat; handler : handler_pc; client : client_pc; poisoned : bool
}.

Definition start : state := mk_state [] None HNone CIdle false.

(** No one holds the lock of the regions. *)
Definition unlocked (s : state) : Prop := s.(handler) ≠ HWait ∧ s.(client) ≠ CPushed.
(** [try_lock] succeeds. *)
Definition lock_free (s : state) : Prop := unlocked s ∧ s.(poisoned) = false.
#[global] Instance handler_pc_dec : EqDecision handler_pc.
Proof. solve_decision. Defined.
#[global] Instance client_pc_dec : EqDecision client_pc.
Proof. solve_decision. Defined.

(** [unregister_file_backend] removes the first region with that address. *)
Fixpoint remove_region (a : Z) (l : list Z) : list Z :=
  match l with
  | [] => []
  | b :: l => if b =? a then l else b :: remove_region a l
  end.

(** A client that holds the pipe's lock for reading. *)
Definition pipe_read_locked (s : state) : bool :=
  match s.(client) with CUnregister _ | CUnregisterWait _ => true | _ => false end.

(** A client in [acquire_regions_or_notify], and one that has notified there. *)
Definition registers (a : Z) (c : client_pc) : Prop := c = CRegister a ∨ c = CRegisterWait a.
Definition unregisters (a : Z) (c : client_pc) : Prop := c = CUnregister a ∨ c = CUnregisterWait a.

Inductive step : state → state → Prop :=
  (* the handler thread *)
  | h_lock rs p c : rs ≠ [] → lock_free (mk_state rs p HLock c false) →
      step (mk_state rs p HLock c false) (mk_state rs p HWait c false)
  | h_break p c : lock_free (mk_state [] p HLock c false) →
      step (mk_state [] p HLock c false) (mk_state [] p HExit c false)
  | h_fault rs p c q : step (mk_state rs p HWait c q) (mk_state rs p HLock c q)
  | h_notified rs n c q :
      step (mk_state rs (Some (S n)) HWait c q) (mk_state rs (Some (S n)) HConsume c q)
  | h_consume rs n c q :
      step (mk_state rs (Some (S n)) HConsume c q) (mk_state rs (Some n) HLock c q)
  | h_exit rs p c q : pipe_read_locked (mk_state rs p HExit c q) = false →
      step (mk_state rs p HExit c q) (mk_state rs None HNone c q)
  (* [Epoll::new] fails; the lock is poisoned when one of the [expect]s under it does,
     that of [do_page_fault] or those of epoll *)
  | h_no_epoll rs p c q : step (mk_state rs p HLock c q) (mk_state rs p HDead c q)
  | h_poisoned rs p c : unlocked (mk_state rs p HLock c true) →
      step (mk_state rs p HLock c true) (mk_state rs p HDead c true)
  | h_panics rs p c q : step (mk_state rs p HWait c q) (mk_state rs p HDead c true)
  (* [register_file_backend] *)
  | r_enter rs p h a q : step (mk_state rs p h CIdle q) (mk_state rs p h (CRegister a) q)
  | r_busy rs n h a q : ¬ lock_free (mk_state rs (Some n) h (CRegister a) q) →
      step (mk_state rs (Some n) h (CRegister a) q) (mk_state rs (Some (S n)) h (CRegisterWait a) q)
  | r_no_pipe rs h a q : ¬ lock_free (mk_state rs None h (CRegister a) q) →
      step (mk_state rs None h (CRegister a) q) (mk_state rs None h CIdle q)
  | r_push rs p h a c : registers a c → lock_free (mk_state rs p h c false) →
      step (mk_state rs p h c false) (mk_state (rs ++ [a]) p h CPushed false)
  | r_poisoned rs p h a : unlocked (mk_state rs p h (CRegisterWait a) true) →
      step (mk_state rs p h (CRegisterWait a) true) (mk_state rs p h CIdle true)
  | r_spawn rs h q : step (mk_state rs None h CPushed q) (mk_state rs (Some O) HLock CIdle q)
  | r_done rs n h q : step (mk_state rs (Some n) h CPushed q) (mk_state rs (Some n) h CIdle q)
  (* [NotifyPipe::create] and [spawn_fault_handler] fail *)
  | r_pipe_fails rs h q : step (mk_state rs None h CPushed q) (mk_state rs None h CIdle q)
  | r_spawn_fails rs h q : step (mk_state rs None h CPushed q) (mk_state rs (Some O) HDead CIdle q)
  (* [unregister_file_backend], which returns at once without a pipe *)
  | u_enter rs n h a q :
      step (mk_state rs (Some n) h CIdle q) (mk_state rs (Some (S n)) h (CUnregister a) q)
  | u_busy rs n h a q : ¬ lock_free (mk_state rs (Some n) h (CUnregister a) q) →
      step (mk_state rs (Some n) h (CUnregister a) q)
           (mk_state rs (Some (S n)) h (CUnregisterWait a) q)
  | u_remove rs p h a c : unregisters a c → lock_free (mk_state rs p h c false) →
      step (mk_state rs p h c false) (mk_state (remove_region a rs) p h CIdle false)
  | u_poisoned rs p h a : unlocked (mk_state rs p h (CUnregisterWait a) true) →
      step (mk_state rs p h (CUnregisterWait a) true) (mk_state rs p h CIdle true).

Definition reachable : state → Prop := rtc step start.
End Backend.
