(* ===== verification/MmapSpec.v ===== *)
(** * What file-backed memory guarantees

    A fault in a mapped region brings in the page of the file behind it, through
    the descriptor table and the FAT service; the tail of the last page is whatever
    the handler served before.  The handler thread and its clients keep their
    locks, but one of their interleavings leaves a region nobody serves. *)
From S2P Require Import Prelude Bytes Hostcall Mpk Fdtab Fatfs FdSpec FileStack Buffers BuffersSpec Mmap.

Section faults.
Context {FS F N U : Type} {FC : FatCrate FS F} {FSp : FatCrateSpec FS F} {HI : HostImage FS}
  {SS : SockService N} {UF : Uffd U}.
Local Abbreviation Files := (LowerState FS F N).

(** A descriptor open for reading on a FAT file with the given content. *)
Record maps_file (st : FdState Files) (fd : Fd) (c : list byte) : Prop := {
  mf_fd : 3 ≤ fd ∧ fits 32 fd;
  mf_file : ∃ md h fs f, lookup_fd st.1 fd = Some (mk_file md (FatFS h)) ∧
    contains md OpenMode_RD = true ∧ open_slot st.2.1 h fs f ∧ content fs f = c
}.

(** Reading a page at an offset of the file: the bytes that are there replace the
    front of the buffer. *)
Lemma read_at_offset_file (s : HandlerState Files U) fd c off :
  maps_file s.(files) fd c → 0 ≤ off ≤ zlen c → length s.(page) = 4096%nat →
  let n := Nat.min 4096 (length c - Z.to_nat off) in
  ∃ files', maps_file files' fd c ∧
    read_at_offset fd off s =
      (Ret (Ok ()), mk_handler files' s.(uffd) (sub c (Z.to_nat off) n ++ drop n s.(page))).
Proof.
  intros [[H3 Hf] (md & h & fs & f & Hl & Hm & Ho & <-)] Hoff Hp n.
  destruct s as [[t [w nn]] u pg]. cbn in *.
  destruct (fatfs_seek_open w h fs f off Ho) as (fs1 & f1 & Hs1 & Hc1 & Hp1); [done|].
  assert (Ho1 := open_slot_set w h fs f fs1 f1 Ho).
  destruct (fatfs_read_open _ h fs1 f1 pg Ho1) as (fs2 & f2 & Hr2 & Hc2 & Hp2);
    [rewrite Hp1, Hc1; unfold zlen in *; lia|unfold zlen; rewrite Hp; lia|].
  rewrite Hp1, Hc1, Hp in Hr2. fold n in Hr2.
  assert (Ho2 := open_slot_set _ h fs1 f1 fs2 f2 Ho1).
  eexists (t, (set_slot (set_slot w h fs1 f1) h fs2 f2, nn)). split.
  { split; [done|]. exists md, h, fs2, f2. cbn. split_and!; try done. congruence. }
  assert (E1 : lseek (W := Files) fd off (t, (w, nn) : Files) =
      (Ret (Ok ()), (t, (set_slot w h fs1 f1, nn) : Files))).
  { apply (lseek_fat fd t md h); try done. by apply in_fat_Ret. }
  assert (E2 : read (W := Files) fd pg (t, (set_slot w h fs1 f1, nn) : Files) = (Ret (Ok (Z.of_nat n),
      sub (content fs f) (Z.to_nat off) n ++ drop n pg),
      (t, (set_slot (set_slot w h fs1 f1) h fs2 f2, nn) : Files))).
  { apply (read_fat fd t md h); try done. by apply in_fat_Ret. }
  unfold read_at_offset, in_files, on, try_bind, fmap, prog_fmap, mbind, prog_mbind. cbn [files uffd page].
  rewrite E1. cbn [map_err mret prog_mret gets page uffd files]. rewrite E2. done.
Qed.

(** userfaultfd: reading an event installs nothing, copying a page installs it. *)
Class UffdSpec : Type := {
  installed : U → Memory;
  read_event_spec : ∀ u, installed (read_event u).2 = installed u;
  uffd_copy_spec : ∀ dst bs u u', uffd_copy dst bs u = (Ret (Ok ()), u') →
    installed u' = write_mem (installed u) dst bs
}.

Lemma round_down_eq {S} x (s : S) : fits 64 x → round_down x s = (Ret (x / 4096 * 4096), s).
Proof.
  intros Hx. unfold round_down, page_mask, mbind, prog_mbind.
  rewrite checked_fits by (unfold fits, unot, PAGE_SIZE; lia).
  change (unot 64 PAGE_SIZE + 1) with (unot 64 (2 ^ 12 - 1)).
  unfold mret, prog_mret. by rewrite land_unot_ones by (done || lia).
Qed.

(** The page a fault at [addr] is in, counted from the start of the region. *)
Definition page_of (start addr : Z) : Z := (addr - start) / 4096 * 4096.

Lemma page_of_addr start addr : start mod 4096 = 0 → fits 64 addr → start ≤ addr → 0 ≤ start →
  Z.land addr (unot 64 (PAGE_SIZE - 1)) = start + page_of start addr.
Proof.
  intros Hs Hf Hle H0. change (unot 64 (PAGE_SIZE - 1)) with (unot 64 (2 ^ 12 - 1)).
  rewrite land_unot_ones by (done || lia). change (2 ^ 12) with 4096. unfold page_of.
  pose proof (Z.div_mod start 4096 ltac:(lia)) as Hd.
  replace (addr - start) with (addr + (- (start / 4096)) * 4096) by lia.
  rewrite Z.div_add by lia. lia.
Qed.

Context {US : UffdSpec}.

(** C23: a fault in a mapped region is served with the page of the file behind it:
    the page the fault is in is installed, byte for byte the file's up to its end,
    nothing else of memory changes, and the descriptor still names the same file.
    Behind the end of the file the page holds what the handler's buffer held, that
    is the tail of the page it served before, not zeros. *)
Theorem fault_serves_page : ∀ (s : HandlerState Files U) region c addr u1 u2,
  let start := region.(start_addr) in
  let off := page_of start addr in
  let n := Nat.min 4096 (length c - Z.to_nat off) in
  let bytes := sub c (Z.to_nat off) n ++ drop n s.(page) in
  maps_file s.(files) region.(src_fd) c → length s.(page) = 4096%nat →
  start mod 4096 = 0 → 0 ≤ start ≤ addr → fits 64 addr → off ≤ zlen c → off < 2 ^ 32 →
  read_event s.(uffd) = (Ret (Ok (Some (Pagefault addr))), u1) →
  uffd_copy (start + off) bytes u1 = (Ret (Ok ()), u2) →
  ∃ files', do_page_fault region s = (Ret (Ok ()), mk_handler files' u2 bytes) ∧
    maps_file files' region.(src_fd) c ∧
    (∀ k, (k < n)%nat → c !! (Z.to_nat off + k)%nat = Some (installed u2 (start + off + Z.of_nat k))) ∧
    (∀ k, (n ≤ k < 4096)%nat → s.(page) !! k = Some (installed u2 (start + off + Z.of_nat k))) ∧
    (∀ a, a < start + off ∨ start + off + 4096 ≤ a → installed u2 a = installed s.(uffd) a).
Proof.
  intros s region c addr u1 u2 start off n bytes Hm Hp Hal Hle Hf Hc H32 Hev Hcp.
  assert (Hoff : 0 ≤ off) by (unfold off, page_of; apply Z.mul_nonneg_nonneg; [apply Z.div_pos; lia|lia]).
  destruct (read_at_offset_file (mk_handler s.(files) u1 s.(page)) region.(src_fd) c off) as
    (files' & Hm' & Hr); [done|lia|done|].
  exists files'. cbn [page uffd] in Hr. fold n in Hr. fold bytes in Hr.
  assert (Hn : (n ≤ length c - Z.to_nat off)%nat) by (unfold n; lia).
  assert (Hlen : length bytes = 4096%nat).
  { unfold bytes, sub. rewrite length_app, length_take, !length_drop, Hp. unfold n. lia. }
  pose proof (uffd_copy_spec _ _ _ _ Hcp) as Hi.
  pose proof (read_event_spec s.(uffd)) as Hi0. rewrite Hev in Hi0. cbn in Hi0.
  assert (Hat : ∀ k, (k < 4096)%nat → bytes !! k = Some (installed u2 (start + off + Z.of_nat k))).
  { intros k Hk. rewrite Hi. unfold write_mem. rewrite (proj2 (Z.leb_le _ _)) by lia.
    replace (Z.to_nat _) with k by lia. destruct (lookup_lt_is_Some_2 bytes k) as [b Hb]; [lia|].
    by rewrite Hb. }
  split_and!; [|done| | |].
  - assert (He : in_uffd read_event s =
      (Ret (Ok (Some (Pagefault addr))), mk_handler s.(files) u1 s.(page))).
    { unfold in_uffd, on. by rewrite Hev. }
    unfold do_page_fault. apply (fmap_Ret (map_err UffdError)) in He. rewrite (try_bind_Ok _ _ _ _ _ He).
    rewrite (bind_Ret _ _ _ (addr - start_addr region) _)
      by (apply checked_fits; unfold fits in *; fold start; lia).
    rewrite (bind_Ret _ _ _ off _) by (apply round_down_eq; unfold fits in *; fold start; lia).
    replace (wrap 32 off) with off by (unfold wrap; rewrite Z.mod_small; lia).
    rewrite (try_bind_Ok _ _ _ _ _ Hr). cbv zeta. unfold mbind, prog_mbind, gets. cbn [page].
    rewrite (page_of_addr start addr) by (done || lia). fold off.
    apply (fmap_Ret (map_err UffdError) _ _ (Ok ())). unfold in_uffd, on. cbn [uffd files page].
    by rewrite Hcp.
  - intros k Hk. rewrite <- Hat by (unfold n in Hk; lia). unfold bytes.
    rewrite lookup_app_l by (unfold sub; rewrite length_take, length_drop; lia).
    unfold sub. by rewrite lookup_take_lt, lookup_drop by lia.
  - intros k Hk. rewrite <- Hat by lia. unfold bytes.
    assert (Hl : length (sub c (Z.to_nat off) n) = n) by (unfold sub; rewrite length_take, length_drop; lia).
    rewrite lookup_app_r by lia. rewrite Hl, lookup_drop. f_equal. lia.
  - intros a Ha. rewrite Hi, <- Hi0. apply write_mem_outside. unfold zlen. rewrite Hlen. lia.
Qed.
End faults.

(** ** The handler thread *)
Module BackendSpec.
Import Backend.

Definition ok (s : state) : Prop :=
  ¬ (s.(handler) = HWait ∧ s.(client) = CPushed) ∧
  (s.(pipe) = None ↔ s.(handler) = HNone) ∧
  (s.(handler) = HWait → s.(regions) ≠ []) ∧
  (s.(handler) = HConsume → ∃ n, s.(pipe) = Some (S n)) ∧
  (pipe_read_locked s = true → is_Some s.(pipe)) ∧
  (s.(poisoned) = true → s.(handler) = HDead).

Lemma step_ok s s' : ok s → step s s' → ok s'.
Proof.
  intros (H1 & H2 & H3 & H4 & H5 & H6) Hs.
  destruct Hs; unfold ok, lock_free, unlocked in *;
    try match goal with H : registers _ _ |- _ => destruct H as [-> | ->] end;
    try match goal with H : unregisters _ _ |- _ => destruct H as [-> | ->] end;
    unfold pipe_read_locked in *; cbn in *; split_and!; intros; try done; try (by eexists);
    try solve [firstorder congruence].
Qed.

Lemma reachable_ok s : reachable s → ok s.
Proof.
  revert s. apply (rtc_ind_r ok); [|by eauto using step_ok].
  by split_and!; cbn; [intros [? _]|split|..].
Qed.

(** A dead handler is not replaced, and when it died under the lock no client gets
    at the regions again. *)
Definition gone (rs : list Z) (s : state) : Prop :=
  s.(handler) = HDead ∧ is_Some s.(pipe) ∧ (s.(poisoned) = true → s.(client) ≠ CPushed ∧ s.(regions) = rs).

Lemma gone_step rs s s' : gone rs s → step s s' → gone rs s' ∧ s'.(poisoned) = s.(poisoned).
Proof.
  intros (H1 & [n H2] & H3) Hs. unfold gone.
  destruct Hs; cbn in *; try discriminate; (split; [|done]); split_and!; try done;
    intros Hp; destruct (H3 Hp) as [Hc Hr]; done.
Qed.
Lemma gone_steps s s' : rtc step s s' → ∀ rs, gone rs s → gone rs s' ∧ s'.(poisoned) = s.(poisoned).
Proof.
  induction 1 as [s|s s1 s' Hs _ IH]; intros rs H; [done|].
  destruct (gone_step rs s s1 H Hs) as [H1 <-]. by apply IH.
Qed.

(** No region is pushed under a poisoned lock. *)
Lemma poisoned_idle s : reachable s → s.(poisoned) = true → s.(client) ≠ CPushed.
Proof.
  intros Hr. enough (H : ok s ∧ (s.(poisoned) = true → s.(client) ≠ CPushed)) by apply H. revert s Hr.
  apply (rtc_ind_r (λ s, ok s ∧ (s.(poisoned) = true → s.(client) ≠ CPushed)));
    [by split; [apply reachable_ok, rtc_refl|]|].
  intros s s' _ Hs [Hok IH]. split; [by eapply step_ok|]. destruct Hok as (H1 & _). revert H1 IH.
  destruct Hs; cbn; try done; naive_solver.
Qed.

(** C24: in every interleaving of the handler thread with the clients, in which the
    handler may also panic, at a page it cannot serve or in epoll, and the pipe or the
    thread may fail to come up: the lock of the regions has one holder; there is a pipe
    exactly from the start of a handler to its orderly end, so that there is never a
    second handler; a handler waits for events only when a region is registered; it
    reads the pipe only when a byte is there, so it never blocks on it; a client that
    unregisters finds the pipe until it is done; and the lock is poisoned only by a
    handler that died.  A handler that died stays the last one: the pipe stays, no
    handler runs again whatever clients do, and if it died under the lock the regions
    stay as they are, for no client gets the lock any more. *)
Theorem handler_invariant : ∀ s, reachable s →
  ¬ (s.(handler) = HWait ∧ s.(client) = CPushed) ∧
  (s.(pipe) = None ↔ s.(handler) = HNone) ∧
  (s.(handler) = HWait → s.(regions) ≠ []) ∧
  (s.(handler) = HConsume → ∃ n, s.(pipe) = Some (S n)) ∧
  (pipe_read_locked s = true → is_Some s.(pipe)) ∧
  (s.(poisoned) = true → s.(handler) = HDead) ∧
  (s.(handler) = HDead → ∀ s', rtc step s s' → s'.(handler) = HDead ∧ is_Some s'.(pipe) ∧
     (s.(poisoned) = true → s'.(poisoned) = true ∧ s'.(regions) = s.(regions))).
Proof.
  intros s Hr. destruct (reachable_ok s Hr) as (H1 & H2 & H3 & H4 & H5 & H6). split_and!; try done; [apply H2..|].
  intros Hd s' Hs. destruct (gone_steps s s' Hs s.(regions)) as [(G1 & G2 & G3) Hp].
  - split; [done|]. split; [|by intros Hp; split; [by apply poisoned_idle|]].
    destruct s.(pipe); [done|]. exfalso. destruct H2 as [H2 _]. by rewrite H2 in Hd.
  - split; [done|]. split; [done|]. intros Hq. rewrite Hp. split; [done|]. apply G3. by rewrite Hp.
Qed.

(** A region that was registered while the handler was on its way out. *)
Definition lost : state := mk_state [8192] None HNone CIdle false.

Lemma lost_reachable : reachable lost.
Proof.
  unfold reachable, start, lost.
  eapply rtc_l; [apply (r_enter _ _ _ 4096)|].
  eapply rtc_l; [apply (r_push _ _ _ 4096); [by left|done]|].
  eapply rtc_l; [apply r_spawn|]. eapply rtc_l; [by apply h_lock|].
  eapply rtc_l; [apply (u_enter _ _ _ 4096)|]. eapply rtc_l; [apply h_notified|].
  eapply rtc_l; [apply (u_remove _ _ _ 4096); [by left|done]|]. cbn.
  eapply rtc_l; [apply h_consume|]. eapply rtc_l; [by apply h_break|].
  eapply rtc_l; [apply (r_enter _ _ _ 8192)|].
  eapply rtc_l; [apply (r_push _ _ _ 8192); [by left|done]|].
  eapply rtc_l; [apply r_done|]. eapply rtc_l; [by apply h_exit|]. apply rtc_refl.
Qed.

(** C30: one interleaving loses a region: when the last region is unregistered and
    the handler has left its loop but not yet taken the pipe away, a client that
    registers a new region finds the pipe, starts no handler and returns, and the
    handler then ends.  The region is registered, nobody serves it, and from there
    the only thing that can happen at all is that some client registers another
    region. *)
Theorem region_lost : ∃ s a, reachable s ∧ a ∈ s.(regions) ∧ s.(handler) = HNone ∧
  s.(client) = CIdle ∧ ∀ s', step s s' → ∃ b, s' = mk_state s.(regions) s.(pipe) HNone (CRegister b) s.(poisoned).
Proof.
  exists lost, 8192. split; [exact lost_reachable|]. split; [by left|]. split; [done|].
  split; [done|]. intros s' Hs. unfold lost in Hs. inversion Hs; subst; unfold registers, unregisters in *; naive_solver.
Qed.

(** The handler dies at a fault, and a region is registered in vain. *)
Definition dead : state := mk_state [4096] (Some O) HDead CIdle true.
Lemma dead_reachable : reachable dead.
Proof.
  unfold reachable, start, dead.
  eapply rtc_l; [apply (r_enter _ _ _ 4096)|].
  eapply rtc_l; [apply (r_push _ _ _ 4096); [by left|done]|].
  eapply rtc_l; [apply r_spawn|]. eapply rtc_l; [by apply h_lock|]. eapply rtc_l; [apply h_panics|]. apply rtc_refl.
Qed.
Lemma handler_invariant_witness : (lost.(pipe) = None ↔ lost.(handler) = HNone) ∧
  ∀ s', rtc step dead s' → s'.(regions) = [4096].
Proof.
  split; [exact (proj1 (proj2 (handler_invariant lost lost_reachable)))|].
  intros s' Hs. destruct (handler_invariant dead dead_reachable) as (_ & _ & _ & _ & _ & _ & H).
  exact (proj2 (proj2 (proj2 (H eq_refl s' Hs)) eq_refl)).
Defined.
End BackendSpec.

(** ** A concrete fault *)
Module Demo.
Definition uffd0 : Type := option Event * Memory.

#[global] Instance uffd_calls : Uffd uffd0 := {|
  read_event := λ u, (Ret (Ok u.1), (None, u.2));
  uffd_copy dst bs := λ u, (Ret (Ok ()), (u.1, write_mem u.2 dst bs))
|}.

#[global] Instance uffd_spec : UffdSpec (U := uffd0).
Proof.
  refine {| installed (u : uffd0) := u.2 |}; [done|]. by intros dst bs u u' [= <-].
Defined.

(** A five-byte file behind a region at 8192, and a fault in its first page. *)
Definition files0 : FdState (LowerState MemFat.Disk MemFat.Cursor ()) :=
  ([Some (mk_file OpenMode_RDWR (FatFS 0))],
   (mk_fatfs [Some (MemFat.mk_cursor 0)] false (Some (MemFat.mk_disk [1; 2; 3; 4; 5])), ())).
Definition handler0 : HandlerState (LowerState MemFat.Disk MemFat.Cursor ()) uffd0 :=
  mk_handler files0 (Some (Pagefault 8200), λ _, 0) (replicate 4096 7).
End Demo.

Lemma fault_serves_page_witness : ∃ files' u2 bytes,
  do_page_fault (mk_region 8192 3) Demo.handler0 = (Ret (Ok ()), mk_handler files' u2 bytes) ∧
  (∀ k, (k < 5)%nat → [1; 2; 3; 4; 5] !! k = Some (installed u2 (8192 + Z.of_nat k))).
Proof.
  set (bytes := [1; 2; 3; 4; 5] ++ replicate 4091 7).
  destruct (fault_serves_page (US := Demo.uffd_spec) Demo.handler0 (mk_region 8192 3) [1; 2; 3; 4; 5] 8200
    (None, λ _, 0) (None, write_mem (λ _, 0) 8192 bytes)) as (files' & Hd & _ & Hb & _).
  - split; [done|]. exists OpenMode_RDWR, 0, (MemFat.mk_disk [1; 2; 3; 4; 5]), (MemFat.mk_cursor 0).
    by repeat split.
  - reflexivity.
  - reflexivity.
  - cbn. lia.
  - unfold fits. lia.
  - vm_compute. discriminate.
  - vm_compute. reflexivity.
  - reflexivity.
  - reflexivity.
  - exact (ex_intro _ files' (ex_intro _ _ (ex_intro _ _ (conj Hd Hb)))).
Defined.
