(* ===== verification/WasmPlatform.v ===== *)
(** * What wasmtime asks of its platform (user/wasmtime_hello/src/capis.rs)

    The C functions the wasmtime runtime expects of an embedder: memory over the mm
    service, jumps, traps over the signal service (common_service/signal), memory
    images and the one pointer of thread-local storage.  Addresses of functions and
    of jump buffers are numbers; printing is left out. *)
From S2P Require Import Prelude Bytes Hostcall Mpk Fdtab Buffers Mmap MmapSpec.
Local Open Scope Z_scope.

(** ** The signal service *)

Record SigAction : Type := mk_sigaction { sa_handler : Z; sa_flags : Z; sa_mask : Z }.

(** The crate nc: [rt_sigaction] with a new action answers the old one or an error
    number. *)
Class Signals (W : Type) : Type := {
  rt_sigaction : Z → SigAction → prog W (result SigAction Z)
}.

(** The caller's [old_act] is read into a copy, and the kernel's answer is written to
    the copy. *)
Definition libos_sigaction {W} `{SG : !Signals W} (signum : Z) (act : SigAction) (old_act : option SigAction) :
    prog W Z :=
  ret ← match old_act with
        | None => rt_sigaction signum act
        | Some old_act => _ ← (mret old_act : prog W SigAction); rt_sigaction signum act
        end;
  mret (match ret with Ok _ => 0 | Err errno => - errno end).

Definition SA_SIGINFO : Z := 8.
Definition SA_NODEFER : Z := 1073741824.
Definition SIGILL : Z := 4.
Definition SIGSEGV : Z := 11.
Definition SIGFPE : Z := 8.

(** ** Protections *)

(** [ProtFlags::from_bits]: no bit beside the three. *)
Definition from_bits (prot_flags : Z) : option Z :=
  if Z.land prot_flags (unot 32 (Z.lor ProtFlags_READ (Z.lor ProtFlags_WRITE ProtFlags_EXEC))) =? 0
  then Some prot_flags else None.

(** ** The platform *)

(** [g_handler] and [WASMTIME_TLS], with the services below. *)
Record Platform (W : Type) : Type := mk_platform { g_handler : Z; WASMTIME_TLS : Z; os : W }.
Arguments mk_platform {W}.
Arguments g_handler {W}.
Arguments WASMTIME_TLS {W}.
Arguments os {W}.

(** A call of a trap handler: instruction pointer, frame pointer, whether there is a
    faulting address, and the address. *)
Record Trap : Type := mk_trap { ip : Z; fp : Z; has_faulting_addr : bool; faulting_addr : Z }.

Section platform.
Context {W : Type} `{LC : !Libc W} `{SG : !Signals W}.
Local Abbreviation M := (prog (Platform W)).

Definition in_os {A} (m : prog W A) : M A :=
  on os (λ w p, mk_platform p.(g_handler) p.(WASMTIME_TLS) w) m.

(** The code returned, and what is stored through [ret]. *)
Definition wasmtime_mmap_new (size prot_flags : Z) : M (Z * option Z) :=
  prot_flags ← unwrap (from_bits prot_flags);
  addr ← in_os (libos_mmap 0 size prot_flags U32_MAX);
  mret (match addr with Err _ => (-1, None) | Ok addr => (0, Some addr) end).

(** The last argument is the descriptor of [mmap]. *)
Definition wasmtime_mmap_remap (addr size prot_flags : Z) : M Z :=
  prot_flags ← unwrap (from_bits prot_flags);
  r ← in_os (libos_mmap addr size prot_flags (wrap 32 addr));
  mret (match r with Err _ => -1 | Ok _ => 0 end).

Definition wasmtime_munmap (ptr size : Z) : M Z :=
  r ← in_os (libos_munmap ptr size false);
  mret (match r with Err _ => -1 | Ok _ => 0 end).

Definition wasmtime_mprotect (ptr size prot_flags : Z) : M Z :=
  prot_flags ← unwrap (from_bits prot_flags);
  r ← in_os (libos_mprotect ptr size prot_flags);
  mret (match r with Err _ => -1 | Ok _ => 0 end).

Definition wasmtime_page_size : Z := 4096.

(** How a computation ends: it returns, or jumps to the buffer at an address. *)
Inductive Exit : Type := Returns | Jumps (jmp_buf : Z).

(** [buf] is the address of the frame's buffer, which the callback finds through
    [jmp_buf]; a jump elsewhere leaves the frame too. *)
Definition wasmtime_setjmp (buf : Z) (callback : Z → M Exit) : M (result Z Exit) :=
  e ← callback buf;
  mret (match e with
        | Returns => Ok 1
        | Jumps jmp_buf => if jmp_buf =? buf then Ok 0 else Err e
        end).
Definition wasmtime_longjmp (jmp_buf : Z) : M Exit := mret (Jumps jmp_buf).

(** The addresses of [null_trap_handler] and [handle_signal]. *)
Context (null_trap_handler handle_signal_addr : Z).

(** The call of [g_handler] that a signal makes, if any; [gregs] are the registers
    at the signal and [call_addr] its address. *)
Definition handle_signal (sig call_addr : Z) (gregs : list Z) : M (option (Z * Trap)) :=
  h ← gets g_handler;
  if h =? null_trap_handler then mret None
  else
    ip ← unwrap (gregs !! 16%nat);
    fp ← unwrap (gregs !! 10%nat);
    let has_faulting_addr := sig =? SIGSEGV in
    mret (Some (h, mk_trap ip fp has_faulting_addr (if has_faulting_addr then call_addr else 0))).

Definition wasmtime_init_traps (handler : Z) : M Z :=
  modify (λ p, mk_platform handler p.(WASMTIME_TLS) p.(os));;
  let action := mk_sigaction handle_signal_addr (Z.lor SA_NODEFER SA_SIGINFO) 0 in
  rc ← in_os (libos_sigaction SIGILL action None);
  mret (if negb (rc =? 0) then rc else 0).

(** No image can be made, which is no failure. *)
Definition wasmtime_memory_image_new (ptr len : Z) : M (Z * Z) := mret (0, 0).
Definition wasmtime_memory_image_map_at (image addr len : Z) : M Z := mret 0.
Definition wasmtime_memory_image_free (image : Z) : M () := mret ().

Definition wasmtime_tls_get : M Z := gets WASMTIME_TLS.
Definition wasmtime_tls_set (ptr : Z) : M () :=
  modify (λ p, mk_platform p.(g_handler) ptr p.(os)).
End platform.

Example from_bits_ex : map from_bits [0; 1; 7; 8; 3] = [Some 0; Some 1; Some 7; None; Some 3].
Proof. reflexivity. Qed.

(** ** Memory that is mapped again *)
Section remap.
Context {W : Type} {LC : Libc W}.

Lemma from_bits_Some prot p : from_bits prot = Some p → p = prot.
Proof. unfold from_bits. case_match; [by intros [= ->]|done]. Qed.

Lemma libos_mmap_fixed addr size prot fd (w w1 w2 : W) : size mod PAGE_SIZE = 0 → 0 ≤ size ≤ 2 ^ 63 - PAGE_SIZE →
  addr ≠ 0 → c_munmap addr size w = (Ret 0, w1) → c_mmap addr size (trans_protflag prot) w1 = (Ret addr, w2) →
  libos_mmap addr size prot fd w =
    (if fd =? U32_MAX then mret (Ok addr)
     else fmap (map_err FileBackendErr) (hc_register_file_backend addr size fd) ;;? mret (Ok addr)) w2.
Proof.
  intros Hmod Hsz Hne E1 E2. unfold libos_mmap, page_layout. rewrite Hmod. cbn [Z.ltb Z.compare].
  rewrite (proj2 (Z.leb_le _ _)) by lia. rewrite (try_bind_Ok _ _ w (mk_layout size PAGE_SIZE) w) by done.
  rewrite (proj2 (Z.eqb_neq addr 0)) by done. rewrite bind_ret_l, (bind_Ret _ _ _ _ _ E1).
  cbn [Z.eqb negb]. rewrite (bind_Ret _ _ _ _ _ E2), Z.eqb_refl. done.
Qed.

(** A descriptor that is not open cannot be sought. *)
Lemma lseek_closed {V} {FB : FdBackend V} fd pos (st : FdState V) : fits 32 fd → lookup_fd st.1 fd = None →
  ∃ e, lseek fd pos st = (Ret (Err e), st).
Proof.
  intros Hf Hl. unfold lseek. destruct (std_fd fd) eqn:E; [by eexists|].
  assert (3 ≤ fd) by (unfold std_fd, fits in *; lia). destruct st as [t v].
  unfold with_file. rewrite (bind_Ret _ _ _ (fd - 3) (t, v)) by (apply checked_fits; unfold fits in *; lia).
  unfold mbind, prog_mbind, gets. cbn [fst] in *. rewrite lookup_fd_ge in Hl by done. rewrite Hl. by eexists.
Qed.
Lemma fault_on_closed {V U} {FB : FdBackend V} {UF : Uffd U} (region : RegisterdMemRegion) (s : HandlerState V U) a u1 :
  fits 32 region.(src_fd) → lookup_fd s.(files).1 region.(src_fd) = None → fits 64 a → 0 ≤ region.(start_addr) ≤ a →
  read_event s.(uffd) = (Ret (Ok (Some (Pagefault a))), u1) →
  ∃ e, do_page_fault region s = (Ret (Err (FileError e)), mk_handler s.(files) u1 s.(page)).
Proof.
  intros Hf Hl Ha Hle Hev. unfold do_page_fault.
  assert (He : in_uffd read_event s =
    (Ret (Ok (Some (Pagefault a)) : result (option Event) string), mk_handler s.(files) u1 s.(page))).
  { unfold in_uffd, on. by rewrite Hev. }
  apply (fmap_Ret (map_err UffdError)) in He. rewrite (try_bind_Ok _ _ _ _ _ He). set (s1 := mk_handler _ _ _).
  rewrite (bind_Ret _ _ _ (a - region.(start_addr)) s1) by (apply checked_fits; unfold fits in *; lia).
  destruct (lseek_closed region.(src_fd) (wrap 32 ((a - region.(start_addr)) / 4096 * 4096)) s.(files) Hf Hl) as [e El].
  exists e. rewrite (bind_Ret _ _ _ ((a - region.(start_addr)) / 4096 * 4096) s1) by
    (apply MmapSpec.round_down_eq; unfold fits in *; lia).
  unfold try_bind at 1, read_at_offset, try_bind at 1, fmap, prog_fmap, mbind, prog_mbind, in_files, on.
  cbn [files uffd page s1]. rewrite El. done.
Qed.

(** C39: wasmtime asks [wasmtime_mmap_remap] for blank memory over an old mapping, and
    the call hands the address to mmap as the descriptor too: at a page-aligned
    address it makes the new mapping, reports success, and has registered it as the
    memory of the file [addr mod 2^32]; unless that descriptor happens to be open, the
    fault handler fails on every page of the memory. *)
Theorem remapped_memory_faults {SG : Signals W} {V U} {FB : FdBackend V} {UF : Uffd U} :
  ∀ addr size prot (w w1 w2 w3 : W) g tls (s : HandlerState V U) a u1,
  from_bits prot = Some prot → addr mod 4096 = 0 → 0 < addr ≤ a → fits 64 a →
  size mod PAGE_SIZE = 0 → 0 ≤ size ≤ 2 ^ 63 - PAGE_SIZE →
  c_munmap addr size w = (Ret 0, w1) → c_mmap addr size (trans_protflag prot) w1 = (Ret addr, w2) →
  hc_register_file_backend addr size (wrap 32 addr) w2 = (Ret (Ok ()), w3) →
  lookup_fd s.(files).1 (wrap 32 addr) = None → read_event s.(uffd) = (Ret (Ok (Some (Pagefault a))), u1) →
  wasmtime_mmap_remap addr size prot (mk_platform g tls w) = (Ret 0, mk_platform g tls w3) ∧
  ∃ e, (do_page_fault (mk_region addr (wrap 32 addr)) s).1 = Ret (Err (FileError e)).
Proof.
  intros addr size prot w w1 w2 w3 g tls s a u1 Hp Hal Ha Hfa Hm Hs E1 E2 E3 Hl Hev.
  assert (Hw : 0 ≤ wrap 32 addr < 2 ^ 32) by (apply Z.mod_pos_bound; lia).
  assert (Hne : wrap 32 addr ≠ U32_MAX).
  { unfold wrap, U32_MAX in *. intros E. assert (addr mod 2 ^ 32 mod 4096 = 0) as H0; [|by rewrite E in H0].
    rewrite Z.mod_mod_divide; [done|]. by exists (2 ^ 20). }
  split.
  - unfold wasmtime_mmap_remap. rewrite Hp. cbn [unwrap]. rewrite bind_ret_l.
    assert (E : libos_mmap addr size prot (wrap 32 addr) w = (Ret (Ok addr), w3)).
    { rewrite (libos_mmap_fixed addr size prot _ w w1 w2) by (done || lia).
      rewrite (proj2 (Z.eqb_neq _ _)) by done. by rewrite (try_bind_Ok _ _ _ () w3) by
        (by apply (fmap_Ret (map_err FileBackendErr) _ _ (Ok ()))). }
    unfold mbind, prog_mbind, in_os, on. cbn [os]. by rewrite E.
  - destruct (fault_on_closed (mk_region addr (wrap 32 addr)) s a u1) as [e ->]; try done; [cbn; lia|by exists e].
Qed.
End remap.

(** A kernel that grants everything. *)
#[local] Instance quiet_libc : Libc () := {|
  heap_alloc _ := mret 65536; heap_dealloc _ _ := mret ();
  c_munmap _ _ := mret 0; c_mmap a _ _ := mret a; c_mprotect _ _ _ := mret 0;
  hc_register_file_backend _ _ _ := mret (Ok ()); hc_unregister_file_backend _ := mret (Ok ())
|}.
#[local] Instance quiet_signals : Signals () := {| rt_sigaction _ act := mret (Ok act) |}.

Lemma remapped_memory_faults_witness :
  wasmtime_mmap_remap 8192 4096 3 (mk_platform 0 0 ()) = (Ret 0, mk_platform 0 0 ()) ∧
  ∃ e, (do_page_fault (mk_region 8192 8192) Demo.handler0).1 = Ret (Err (FileError e)).
Proof.
  exact (remapped_memory_faults 8192 4096 3 () () () () 0 0 Demo.handler0 8200 (None, λ _, 0)
    eq_refl eq_refl ltac:(lia) ltac:(by vm_compute) eq_refl ltac:(unfold PAGE_SIZE; lia)
    eq_refl eq_refl eq_refl eq_refl eq_refl).
Defined.
