(* ===== verification/AsStd.v ===== *)
(** * The library functions link against (as_std: fs, io, args, time)

    [File] and the loops of [Read] and [Write] over the descriptor table, the
    arguments a function finds on its stack, and the clock.  The lines these
    functions print are not part of the model. *)
From S2P Require Import Prelude Bytes Hostcall Text Mpk Fdtab Threads Visor.

(** ** The loops of io.rs *)
Section io.
Context {S E : Type}.

(** [Read::read_to_end]: the buffer of 1024 bytes lives through the loop. *)
Fixpoint read_to_end_loop (fuel : nat) (reader : list byte → prog S (result Z E * list byte))
    (buffer buf : list byte) (size : Z) : prog S (result Z E * list byte) :=
  match fuel with
  | O => out_of_fuel
  | Datatypes.S fuel =>
      '(r, buffer) ← reader buffer;
      match r with
      | Err e => mret (Err e, buf)
      | Ok s =>
          if s =? 0 then mret (Ok size, buf)
          else
            size ← checked 64 (size + s);
            piece ← unwrap (slice buffer 0 s);
            read_to_end_loop fuel reader buffer (buf ++ piece) size
      end
  end.
Definition read_to_end (fuel : nat) (reader : list byte → prog S (result Z E * list byte))
    (buf : list byte) : prog S (result Z E * list byte) :=
  read_to_end_loop fuel reader (replicate 1024 0) buf 0.

(** [Read::read_to_string]: what is not UTF-8 is replaced; the length is that of the
    text. *)
Definition read_to_string (fuel : nat) (reader : list byte → prog S (result Z E * list byte))
    (buf : string) : prog S (result Z E * string) :=
  '(r, v_buf) ← read_to_end fuel reader [];
  mret (match r with
        | Ok _ => let text := from_utf8_lossy v_buf in (Ok (zlen text), of_bytes text)
        | Err e => (Err e, buf)
        end).

(** [Write::write_all] *)
Fixpoint write_all (fuel : nat) (writer : list byte → prog S (result Z E)) (buf : list byte) :
    prog S (result () E) :=
  match buf with
  | [] => mret (Ok ())
  | _ =>
      match fuel with
      | O => out_of_fuel
      | Datatypes.S fuel =>
          r ← writer buf;
          match r with
          | Ok n =>
              if n =? 0 then panic
              else rest ← unwrap (slice buf n (zlen buf - n)); write_all fuel writer rest
          | Err e => mret (Err e)
          end
      end
  end.
End io.

(** ** Files (fs.rs) *)
Section file.
Context {W : Type} `{FB : !FdBackend W}.
Local Abbreviation M := (prog (FdState W)).

Record StdFile : Type := mk_stdfile { raw_fd : Fd }.

Definition file_create (p : string) : M (result StdFile FdtabError) :=
  raw_fd ←? Fdtab.open p O_CREAT OpenMode_RDWR; mret (Ok (mk_stdfile raw_fd)).
Definition file_open (p : string) : M (result StdFile FdtabError) :=
  raw_fd ←? Fdtab.open p 0 OpenMode_RD; mret (Ok (mk_stdfile raw_fd)).
Definition file_seek (f : StdFile) (pos : Z) : M (result () FdtabError) := lseek f.(raw_fd) pos.
Definition file_metadata (f : StdFile) : M (result Stat FdtabError) := stat f.(raw_fd).
Definition file_write (f : StdFile) (buf : list byte) : M (result Z FdtabError) :=
  Fdtab.write f.(raw_fd) buf.
Definition file_read (f : StdFile) (buf : list byte) : M (result Z FdtabError * list byte) :=
  Fdtab.read f.(raw_fd) buf.
Definition file_drop (f : StdFile) : M () := r ← Fdtab.close f.(raw_fd); unwrap_ok r.
End file.

(** ** Arguments (args.rs)

    Memory as far as it matters here: the argument list an address holds, if any
    was written there. *)
Definition ArgsMem : Type := Z → option (list (string * string)).

(** [UserStack::top] of a stack at [stack]: its last page. *)
Definition stack_top (stack : Z) : Z := stack + SERVICE_STACK_SIZE - PAGE_SIZE.

(** [args::get] with the stack pointer at [rsp]: [None] if the page the pointer
    rounds up to holds no argument list, so that the function reads garbage. *)
Definition args_get {S} (mem : ArgsMem) (rsp : Z) (name : string) : prog S (option (option string)) :=
  args_base_addr ← round_up rsp;
  mret ((λ l : list (string * string), snd <$> List.find (λ item, String.eqb item.1 name) l)
        <$> mem args_base_addr).

(** ** Time (time.rs) *)
Record Duration : Type := mk_duration { secs : Z; nanos : Z }.

Definition duration_since {S} (self earlier : Z) : prog S Duration :=
  sub ← checked 128 (self - earlier);
  mret (mk_duration (wrap 64 (sub / 1000000000)) (wrap 32 (sub mod 1000000000))).

(** What [sleep] passes to the host: seconds and nanoseconds. *)
Definition sleep_args (d : Duration) : Z * Z :=
  (d.(secs), wrap 64 ((d.(secs) * 1000000000 + d.(nanos)) mod 1000000000)).
