(* ===== verification/NetApi.v ===== *)
(** * Streams and listeners (as_std/src/net.rs)

    What functions use of the network: [TcpStream], [TcpListener] and the names
    of hosts, over the descriptor table.  The second half puts the table over the
    TCP service and follows a stream through the three components. *)
From Stdlib Require Import Ascii String.
From S2P Require Import Prelude Bytes Hostcall Fdtab FdSpec Fatfs FileStack.
From S2P Require Import Ipv4 TapSetup Socket SocketSpec SocketProps AsStd.
Local Open Scope Z_scope.

(** The host call [addrinfo], which does not go through the table. *)
Class NameService (W : Type) : Type := hc_addrinfo : string → prog W (result Z SmoltcpError).

Section net.
Context {W : Type} {FB : FdBackend W} {NS : NameService W}.
Local Abbreviation M := (prog (FdState W)).

(** [impl ToSocketAddrs for &str]: [host], [host:port], where [host] is an
    address or a name; further colons are ignored. *)
Definition to_socket_addrs (self : string) : M (result SocketAddrV4 SmoltcpError) :=
  let target_tuple := split ":" self in
  host_str ← unwrap (target_tuple !! 0%nat);
  addr ← (match parse_ipv4 host_str with
          | Some addr => mret addr
          | None => r ← below (hc_addrinfo host_str); unwrap_ok r
          end);
  port ← (match target_tuple !! 1%nat with
          | Some port => unwrap (parse_u16 port)
          | None => mret 80
          end);
  mret (Ok (mk_addr addr port)).

Record TcpStream : Type := mk_stream { stream_fd : Fd }.
Record TcpListener : Type := mk_listener { listener_fd : Fd }.

Definition stream_connect (addr : string) : M (result TcpStream FdtabError) :=
  sockaddrv4 ←? lift_sock <$> to_socket_addrs addr;
  raw_fd ←? Fdtab.connect sockaddrv4;
  mret (Ok (mk_stream raw_fd)).
Definition stream_write (s : TcpStream) (buf : list byte) : M (result Z FdtabError) :=
  Fdtab.write s.(stream_fd) buf.
Definition stream_read (s : TcpStream) (buf : list byte) : M (result Z FdtabError * list byte) :=
  Fdtab.read s.(stream_fd) buf.
Definition stream_drop (s : TcpStream) : M () := r ← Fdtab.close s.(stream_fd); unwrap_ok r.

Definition listener_bind (url : string) : M (result TcpListener FdtabError) :=
  addr ← to_socket_addrs url;
  addr ← unwrap_ok addr;
  raw_fd ←? Fdtab.bind addr;
  mret (Ok (mk_listener raw_fd)).
(** [Incoming::next] *)
Definition incoming_next (l : TcpListener) : M (option TcpStream) :=
  r ← Fdtab.accept l.(listener_fd);
  mret (match r with Ok raw_fd => Some (mk_stream raw_fd) | Err _ => None end).
Definition listener_drop (l : TcpListener) : M () := r ← Fdtab.close l.(listener_fd); unwrap_ok r.

(** addresses are read as they are written: the text of any IPv4 address,
    alone or with any port behind a colon, is parsed to that address and that port
    (80 without one), without asking the name service. *)
Theorem socket_addr_round_trip : ∀ ip port s, fits 32 ip → fits 16 port →
  to_socket_addrs (show_ipv4 ip +:+ ":" +:+ pretty port) s = (Ret (Ok (mk_addr ip port)), s) ∧
  to_socket_addrs (show_ipv4 ip) s = (Ret (Ok (mk_addr ip 80)), s).
Proof.
  intros ip port s Hip Hport. unfold to_socket_addrs.
  assert (free_of ":" (show_ipv4 ip)) as Hfree by by apply show_ipv4_free.
  assert (free_of ":" (pretty port)) as Hfree' by (apply pretty_free; [done|apply Hport]).
  change (":" +:+ pretty port) with (String ":" (pretty port)).
  rewrite split_app, !split_free by done. cbn [lookup list_lookup].
  split; erewrite bind_Ret by reflexivity; rewrite parse_show_ipv4 by done;
    erewrite bind_Ret by reflexivity; [|done].
  by rewrite parse_u16_pretty.
Qed.

End net.

(** ** Over the TCP service *)
Section stack.
Context {FS F T N : Type} {FC : FatCrate FS F} {HI : HostImage FS}.
Context {SM : Smoltcp T N} {SP : SmoltcpSpec T N} {HC : HostCommands N}.
(** The isolation, the calling thread, how many polls a call may take in the
    model, and the stdio service. *)
Context (isol_id tid : Z) (polls : nat) (stdout : list byte → prog (NetState N) Z).

Definition tcp_service : SockService (NetState N) := {|
  ss_connect := smol_connect isol_id tid;
  ss_bind := smol_bind isol_id tid;
  ss_accept := smol_accept isol_id tid polls;
  ss_send := smol_send isol_id tid polls;
  ss_recv := smol_recv isol_id tid polls;
  ss_close := smol_close isol_id tid polls;
  ss_stdout := stdout
|}.
#[local] Existing Instance tcp_service.

(** The state of the three services. *)
Definition NetStack : Type := FdState (LowerState FS F (NetState N)).

Lemma below_sock {A} (m : prog (NetState N) A) (t : FdTable) (fs : FatfsState FS F) n :
  below (in_sock m) (t, (fs, n)) = let '(o, n') := m n in (o, (t, (fs, n'))).
Proof. unfold below, in_sock, on. cbn [snd fst]. by destruct (m n). Qed.

(** A call on a descriptor the table has. *)
Lemma with_file_eq {A} (t : FdTable) fd (k : option File → prog NetStack A) w f :
  3 ≤ fd → fits 32 fd → lookup_fd t fd = Some f →
  with_file fd k (t, w) = k (Some f) (t, w).
Proof.
  intros H3 Hfd Hl. unfold with_file.
  rewrite (bind_Ret _ _ _ _ _ (checked_fits 64 (fd - 3) _ ltac:(unfold fits in *; lia))).
  rewrite (bind_Ret _ _ _ t (t, w)) by done. by rewrite <- lookup_fd_ge, Hl by done.
Qed.

(** A stream of this program: a descriptor that is open for the TCP socket [h]. *)
Definition stream_on (t : FdTable) (st : TcpStream) (h : SockFd) : Prop :=
  3 ≤ st.(stream_fd) ∧ fits 32 st.(stream_fd) ∧
  lookup_fd t st.(stream_fd) = Some (mk_file OpenMode_RDWR (Net h)).

(** What the service below sends, [write_all] delivers in one call. *)
Lemma write_all_sent (t : FdTable) (fs : FatfsState FS F) n st h data n' :
  stream_on t st h → data ≠ [] → zlen data < 2 ^ 64 →
  smol_send isol_id tid polls h data n = (Ret (Ok ()), n') →
  write_all 1 (stream_write st) data (t, (fs, n)) = (Ret (Ok ()), (t, (fs, n'))).
Proof.
  intros (H3 & Hfd & Hl) Hne Hlen E.
  assert (stream_write st data (t, (fs, n)) = (Ret (Ok (zlen data)), (t, (fs, n')))) as Ew.
  { unfold stream_write, Fdtab.write.
    replace (stream_fd st =? 0) with false by lia.
    replace ((stream_fd st =? 1) || (stream_fd st =? 2)) with false by lia.
    rewrite (with_file_eq _ _ _ _ _ H3 Hfd Hl). cbn [can_write mode src contains].
    change (negb (can_write (mk_file OpenMode_RDWR (Net h)))) with false. cbv iota.
    erewrite bind_Ret; [|change (hc_send h data) with (in_sock (F := F) (FS := FS) (smol_send isol_id tid polls h data));
      rewrite below_sock, E; reflexivity].
    done. }
  pose proof (zlen_pos data Hne) as Hpos.
  destruct data as [|b data]; [done|]. cbn [write_all]. rewrite (bind_Ret _ _ _ _ _ Ew).
  replace (zlen (b :: data) =? 0) with false by lia.
  rewrite Z.sub_diag. erewrite bind_Ret by (rewrite slice_ok by (unfold zlen; lia); reflexivity).
  done.
Qed.

(** C31: A stream delivers what is written to it: [write_all] on a stream whose
    descriptor names the socket [h], over a network that keeps taking data,
    returns Ok after one call of each service below, leaves the table and the files
    as they were, and has queued exactly the bytes of the buffer on [h]. *)
Theorem stream_write_all P (t : FdTable) (fs : FatfsState FS F) n st h sock data :
  stream_on t st h → up tid n → set_get h n.(stack) = Some sock → drains h P → P n.(stack) →
  data ≠ [] → zlen data < 2 ^ 64 → (length data < polls)%nat →
  ∃ n' sock', write_all 1 (stream_write st) data (t, (fs, n)) = (Ret (Ok ()), (t, (fs, n'))) ∧
    up tid n' ∧ set_get h n'.(stack) = Some sock' ∧ tx sock' = tx sock ++ data.
Proof.
  intros Hst Hup Hs HP Hn Hne Hlen Hp.
  destruct (send_delivers_eq isol_id tid P n h sock data polls) as (n' & sock' & E & Hpost); try done.
  exists n', sock'. split; [|exact Hpost]. by apply (write_all_sent t fs n st h).
Qed.

(** a listener goes on listening: when the TCP service accepts a connection
    on the socket of a listener's descriptor, [Incoming::next] gives a stream on a
    free descriptor that names that socket, now the connection, and the
    listener's descriptor names a new socket listening on the same port; no other
    descriptor changes. *)
Theorem incoming_next_accepts (t : FdTable) (fs : FatfsState FS F) n l md h sock h' n' :
  3 ≤ l.(listener_fd) → fits 32 l.(listener_fd) → zlen t + 3 < 2 ^ 32 →
  lookup_fd t l.(listener_fd) = Some (mk_file md (Net h)) →
  up tid n → slots n.(stack) < 2 ^ 32 → set_get h n.(stack) = Some sock →
  smol_accept isol_id tid polls h n = (Ret (Ok h'), n') →
  ∃ st t' port conned listener,
    incoming_next l (t, (fs, n)) = (Ret (Some st), (t', (fs, n'))) ∧
    stream_on t' st h ∧ lookup_fd t st.(stream_fd) = None ∧ is_Some (set_get h n'.(stack)) ∧
    lookup_fd t' l.(listener_fd) = Some (mk_file md (Net h')) ∧ h' ≠ h ∧
    tcp_local_port conned = Some port ∧ set_get h' n'.(stack) = Some listener ∧
    is_Listen (tcp_state listener) = true ∧ listening listener = Some port ∧
    ∀ g, g ≠ l.(listener_fd) → g ≠ st.(stream_fd) → lookup_fd t' g = lookup_fd t g.
Proof.
  intros H3 Hfd Hlen Hl Hup Hroom Hs E.
  destruct (accept_renews_eq isol_id tid n h sock polls h' n' Hup Hroom Hs E)
    as (Hne & Hnone & Hstill & conned & port & listener & _ & Hport & Hnew & Hlis & Hlp).
  assert (hc_smol_accept h (fs, n) = (Ret (Ok h'), (fs, n'))) as Eh.
  { change (in_sock (F := F) (FS := FS) (smol_accept isol_id tid polls h) (fs, n) = (Ret (Ok h'), (fs, n'))).
    unfold in_sock, on. cbn [snd fst]. by rewrite E. }
  destruct (accept_swaps_handles _ t (fs, n) (listener_fd l) (mk_file md (Net h)) h h' (fs, n'))
    as (fd' & t' & Ea & Hne' & Hfd' & Hfree & Hlis' & Hcon & Hrest); try done.
  exists (mk_stream fd'), t', port, conned, listener. cbn [stream_fd].
  split; [unfold incoming_next; by rewrite (bind_Ret _ _ _ _ _ Ea)|].
  unfold stream_on, fits. cbn [stream_fd]. split_and!; done || lia.
Qed.
End stack.

(** ** The theorems at a concrete network and disk *)
Section demo.
Import SocketDemo MemFat.

Lemma socket_addr_round_trip_witness :
  to_socket_addrs (NS := λ _, mret (Err DNSQueryFailed))
    (show_ipv4 (ipv4_new 192 168 69 1) +:+ ":" +:+ pretty 8080) ([], ()) =
    (Ret (Ok (mk_addr (ipv4_new 192 168 69 1) 8080)), ([], ())) ∧
  to_socket_addrs (NS := λ _, mret (Err DNSQueryFailed))
    (show_ipv4 (ipv4_new 192 168 69 1)) ([], ()) =
    (Ret (Ok (mk_addr (ipv4_new 192 168 69 1) 80)), ([], ())).
Proof.
  exact (socket_addr_round_trip (NS := λ _, mret (Err DNSQueryFailed))
    (ipv4_new 192 168 69 1) 8080 ([], ()) ltac:(by vm_compute) ltac:(by vm_compute)).
Defined.

Definition no_stdout (buf : list byte) : prog (NetState Wire) Z := mret (zlen buf).
Definition no_files : FatfsState Disk Cursor := mk_fatfs [] false None.
Definition one_stream : FdTable := [Some (mk_file OpenMode_RDWR (Net 0))].
Definition listener_table : FdTable := [Some (mk_file OpenMode_RD (Net 0))].
Definition quiet_net : NetState Wire := live_on (mk_wire [connected []] []).

Lemma one_stream_on : stream_on one_stream (mk_stream 3) 0.
Proof. unfold stream_on. cbn. by split_and!. Qed.

Lemma quiet_now : quiet_sender quiet_net.(stack).
Proof. exists (connected []). by split. Qed.

Lemma stream_write_all_witness : ∃ n' sock',
  write_all (E := FdtabError) 1
    (stream_write (FB := stack_backend (SS := tcp_service isol 1 100 no_stdout)) (mk_stream 3))
    [1;2;3;4;5;6;7;8;9] (one_stream, (no_files, quiet_net)) = (Ret (Ok ()), (one_stream, (no_files, n'))) ∧
  up 1 n' ∧ set_get 0 n'.(stack) = Some sock' ∧ tx sock' = [] ++ [1;2;3;4;5;6;7;8;9].
Proof.
  exact (stream_write_all isol 1 100 no_stdout quiet_sender one_stream no_files quiet_net (mk_stream 3) 0
    (connected []) [1;2;3;4;5;6;7;8;9] one_stream_on (live_up _) eq_refl quiet_sender_drains quiet_now
    ltac:(done) ltac:(by vm_compute) ltac:(by vm_compute; lia)).
Defined.

Lemma incoming_next_accepts_witness : ∃ st t' n',
  incoming_next (FB := stack_backend (SS := tcp_service isol 1 5 no_stdout)) (mk_listener 3)
    (listener_table, (no_files, live_on calling_wire)) = (Ret (Some st), (t', (no_files, n'))) ∧
  stream_on t' st 0 ∧ lookup_fd t' 3 = Some (mk_file OpenMode_RD (Net 1)).
Proof.
  destruct accepted as [n' E].
  destruct (incoming_next_accepts isol 1 5 no_stdout listener_table no_files (live_on calling_wire)
    (mk_listener 3) OpenMode_RD 0 (mk_tcp Listen [] [] None (Some 8080)) 1 n'
    ltac:(done) ltac:(by vm_compute) ltac:(done) eq_refl (live_up _) ltac:(done) eq_refl E)
    as (st & t' & _ & _ & _ & He & Hst & _ & _ & Hl & _).
  exists st, t', n'. exact (conj He (conj Hst Hl)).
Defined.
End demo.
