(* ===== verification/Httpd.v ===== *)
(** * A web server (user/httpd)

    The function binds a port, takes one connection, reads a request and answers it:
    the network interface as a function uses it, over the descriptor table and the
    TCP service. *)
From Stdlib Require Import Ascii String.
From S2P Require Import Prelude Bytes Hostcall Fdtab FdSpec Fatfs FileStack.
From S2P Require Import Ipv4 Text TapSetup Socket SocketSpec SocketProps AsStd NetApi.
Local Open Scope Z_scope.

(** [scoped drop body]: [body] with a value in scope that is dropped at its end, also
    when it panics. *)
Definition scoped {S A} (drop : prog S ()) (body : prog S A) : prog S A := λ s,
  match body s with
  | (Ret a, s) => (drop;; mret a) s
  | (Panic, s) => (Panic, (drop s).2)
  | r => r
  end.
Lemma scoped_Ret {S A} (drop : prog S ()) (body : prog S A) s a s1 s2 :
  body s = (Ret a, s1) → drop s1 = (Ret (), s2) → scoped drop body s = (Ret a, s2).
Proof. intros E1 E2. unfold scoped. rewrite E1. by rewrite (bind_Ret _ _ _ _ _ E2). Qed.

Definition CRLF : string := String "013" (String "010" "").
Definition content : string := "hello".
Definition resp : list string :=
  ["HTTP/1.1 200 OK" +:+ CRLF; "Content-Length: " +:+ pretty (Z.of_nat (String.length content)) +:+ CRLF;
   "Date: Tue, 05 Sep 2023 06:52:35 GMT" +:+ CRLF; CRLF; content].
Definition response : list byte := to_bytes (String.concat "" resp).

Section httpd.
Context {W : Type} {FB : FdBackend W} {NS : NameService W}.
Local Abbreviation M := (prog (FdState W)).

Definition handle_connection (fuel : nat) (stream : TcpStream) : M () :=
  scoped (stream_drop stream) (
    '(r, _) ← stream_read stream (replicate 4096 0);
    _ ← unwrap_ok r;
    r ← write_all fuel (stream_write stream) response;
    unwrap_ok r).

Definition httpd (fuel : nat) : M (result () string) :=
  r ← listener_bind "127.0.0.1:7878";
  listener ← unwrap_ok r;
  scoped (listener_drop listener) (
    s ← incoming_next listener;
    (match s with Some stream => handle_connection fuel stream | None => mret () end);;
    mret (Ok ())).
End httpd.

Definition localhost : SocketAddrV4 := mk_addr (ipv4_new 127 0 0 1) 7878.

Section stack.
Context {FS F T N : Type} {FC : FatCrate FS F} {HI : HostImage FS}.
Context {SM : Smoltcp T N} {SP : SmoltcpSpec T N} {HC : HostCommands N} {NS : NameService (LowerState FS F (NetState N))}.
Context (isol_id tid : Z) (polls : nat) (stdout : list byte → prog (NetState N) Z).
#[local] Instance service : SockService (NetState N) := tcp_service isol_id tid polls stdout.
Local Abbreviation State := (NetStack (FS := FS) (F := F) (N := N)).

(** A descriptor of the TCP service is closed. *)
Lemma close_stream (t : FdTable) (fs : FatfsState FS F) n fd md h n' :
  3 ≤ fd → fits 32 fd → lookup_fd t fd = Some (mk_file md (Net h)) →
  smol_close isol_id tid polls h n = (Ret (Ok ()), n') →
  ∃ t', (r ← Fdtab.close fd; unwrap_ok r) ((t, (fs, n)) : State) = (Ret (), (t', (fs, n'))) ∧
    ∀ g, lookup_fd t' g = if decide (g = fd) then None else lookup_fd t g.
Proof.
  intros H3 Hfd Hl Hc. destruct (remove_file_ge fd t (fs, n) H3 Hfd) as (t' & Er & _ & Hlk).
  exists t'. split; [|exact Hlk]. rewrite (bind_Ret _ _ _ (Ok ()) (t', (fs, n'))); [done|].
  unfold Fdtab.close. rewrite std_fd_false by done. cbv iota. rewrite (bind_Ret _ _ _ _ _ Er), Hl. cbn [src].
  rewrite (bind_Ret _ _ _ (Ok ()) (t', (fs, n'))); [done|].
  change (hc_smol_close h) with (in_sock (F := F) (FS := FS) (smol_close isol_id tid polls h)).
  by rewrite (below_sock (FS := FS) (F := F) (N := N)), Hc.
Qed.

Lemma read_stream (t : FdTable) (fs : FatfsState FS F) n st h buf r buf' n' : stream_on t st h →
  smol_recv isol_id tid polls h buf n = (Ret (r, buf'), n') →
  stream_read st buf ((t, (fs, n)) : State) = (Ret (lift_sock r, buf'), (t, (fs, n'))).
Proof.
  intros (H3 & Hfd & Hl) E. unfold stream_read, Fdtab.read. rewrite std_fd_false by done. cbv iota.
  rewrite (with_file_eq (FS := FS) (F := F) (N := N) _ _ _ _ _ H3 Hfd Hl).
  change (negb (Fdtab.can_read (mk_file OpenMode_RDWR (Net h)))) with false. cbv iota. cbn [src].
  rewrite (bind_Ret _ _ _ (r, buf') (t, (fs, n'))); [done|].
  change (hc_recv h buf) with (in_sock (F := F) (FS := FS) (smol_recv isol_id tid polls h buf)).
  by rewrite (below_sock (FS := FS) (F := F) (N := N)), E.
Qed.

Lemma bind_listener (t : FdTable) (fs : FatfsState FS F) n h n' : zlen t + 3 < 2 ^ 32 →
  smol_bind isol_id tid localhost n = (Ret (Ok h), n') →
  ∃ l t', listener_bind "127.0.0.1:7878" ((t, (fs, n)) : State) = (Ret (Ok l), (t', (fs, n'))) ∧
    3 ≤ l.(listener_fd) ∧ fits 32 l.(listener_fd) ∧ zlen t' ≤ zlen t + 1 ∧ lookup_fd t l.(listener_fd) = None ∧
    ∀ g, lookup_fd t' g = if decide (g = l.(listener_fd)) then Some (mk_file OpenMode_RD (Net h)) else lookup_fd t g.
Proof.
  intros Ht E. destruct (wp_add_file (mk_file OpenMode_RD (Net h)) t (fs, n') Ht)
    as (fd & t' & Ea & H3 & Hle & Hnone & _ & Hlk & Hlen).
  exists (mk_listener fd), t'. cbn [listener_fd]. split_and!; try done; [|unfold fits; lia].
  assert (Eb : fmap lift_sock (below (hc_smol_bind localhost)) ((t, (fs, n)) : State) = (Ret (Ok h), (t, (fs, n')))).
  { unfold fmap, prog_fmap. rewrite (bind_Ret _ _ _ (Ok h) (t, (fs, n'))); [done|].
    change (hc_smol_bind localhost) with (in_sock (F := F) (FS := FS) (smol_bind isol_id tid localhost)).
    by rewrite (below_sock (FS := FS) (F := F) (N := N)), E. }
  assert (Ebind : Fdtab.bind localhost ((t, (fs, n)) : State) = (Ret (Ok fd), (t', (fs, n')))).
  { unfold Fdtab.bind. rewrite (try_bind_Ok _ _ _ _ _ Eb). by rewrite (bind_Ret _ _ _ _ _ Ea). }
  unfold listener_bind. rewrite (bind_Ret _ _ _ (Ok localhost) (t, (fs, n))) by reflexivity.
  rewrite (bind_Ret _ _ _ localhost (t, (fs, n))) by reflexivity. by rewrite (try_bind_Ok _ _ _ _ _ Ebind).
Qed.

(** The request is read and answered, and the stream closed. *)
Lemma connection_answered P (t : FdTable) (fs : FatfsState FS F) n st h k buf n1 sock : stream_on t st h → up tid n →
  is_Some (set_get h n.(stack)) → smol_recv isol_id tid polls h (replicate 4096 0) n = (Ret (Ok k, buf), n1) →
  set_get h n1.(stack) = Some sock → drains h P → P n1.(stack) → (length response < polls)%nat →
  ∃ n2 sock', smol_send isol_id tid polls h response n1 = (Ret (Ok ()), n2) ∧
    set_get h n2.(stack) = Some sock' ∧ tx sock' = tx sock ++ response ∧
    ∀ n3, smol_close isol_id tid polls h n2 = (Ret (Ok ()), n3) →
      ∃ t', handle_connection 1 st ((t, (fs, n)) : State) = (Ret (), (t', (fs, n3))) ∧
        ∀ g, lookup_fd t' g = if decide (g = st.(stream_fd)) then None else lookup_fd t g.
Proof.
  intros Hst Hup [sock0 H0] Er Hs HP Hn1 Hp.
  assert (Hup1 : up tid n1).
  { assert (Hsafe := smol_recv_safe isol_id tid polls h (replicate 4096 0) sock0 n Hup eq_refl H0).
    by destruct (safe_inv _ _ _ _ _ Hsafe Er) as [[? _] _]. }
  destruct (send_delivers_eq isol_id tid P n1 h sock response polls) as (n2 & sock' & Esend & _ & Hs2 & Htx); try done.
  assert (Ew := write_all_sent isol_id tid polls stdout t fs n1 st h response n2 Hst ltac:(done) eq_refl Esend).
  exists n2, sock'. split_and!; try done. intros n3 Ec. destruct Hst as (H3 & Hfd & Hl).
  destruct (close_stream t fs n2 (stream_fd st) OpenMode_RDWR h n3 H3 Hfd Hl Ec) as (t' & Ed & Hlk).
  exists t'. split; [|done]. unfold handle_connection. apply scoped_Ret with (t, (fs, n2)); [|exact Ed].
  rewrite (bind_Ret _ _ _ _ _ (read_stream t fs n st h _ _ _ _ (conj H3 (conj Hfd Hl)) Er)). cbn [lift_sock map_err].
  rewrite (bind_Ret _ _ _ k (t, (fs, n1))) by done.
  rewrite (bind_Ret _ _ _ (Ok ()) (t, (fs, n2))); [done|exact Ew].
Qed.

(** C32: the web server answers: with a network on which the port is bound, a client
    connects, a request comes and what is sent is taken off the socket, [httpd]
    queues exactly the response on the connection, and, when the two sockets can be
    closed, ends with the table of descriptors as it found it. *)
Theorem httpd_answers P (t : FdTable) (fs : FatfsState FS F) n h n0 h' n1 k buf n2 sock :
  zlen t + 4 < 2 ^ 32 → up tid n → slots n.(stack) + 1 < 2 ^ 32 →
  smol_bind isol_id tid localhost n = (Ret (Ok h), n0) → smol_accept isol_id tid polls h n0 = (Ret (Ok h'), n1) →
  smol_recv isol_id tid polls h (replicate 4096 0) n1 = (Ret (Ok k, buf), n2) → set_get h n2.(stack) = Some sock →
  drains h P → P n2.(stack) → (length response < polls)%nat →
  ∃ n3 sock', smol_send isol_id tid polls h response n2 = (Ret (Ok ()), n3) ∧
    set_get h n3.(stack) = Some sock' ∧ tx sock' = tx sock ++ response ∧
    ∀ n4 n5, smol_close isol_id tid polls h n3 = (Ret (Ok ()), n4) → smol_close isol_id tid polls h' n4 = (Ret (Ok ()), n5) →
      ∃ t', httpd 1 ((t, (fs, n)) : State) = (Ret (Ok ()), (t', (fs, n5))) ∧ ∀ g, lookup_fd t' g = lookup_fd t g.
Proof.
  intros Ht Hup Hroom Eb Ea Er Hs HP Hn2 Hp.
  destruct (bind_listener t fs n h n0 ltac:(lia) Eb) as (l & t0 & El & H3 & Hfd & Hlen & Hnone & Hlk).
  assert (Hroom' : slots n.(stack) < 2 ^ 32) by lia. assert (Hsafe := smol_bind_safe isol_id tid localhost n Hup Hroom').
  destruct (safe_inv _ _ _ _ _ Hsafe Eb) as [[Hup0 [_ Hslots]] Hfresh].
  destruct (Hfresh h eq_refl) as (_ & sock0 & H0 & _ & _).
  assert (Hroom0 : slots n0.(stack) < 2 ^ 32) by lia. assert (Hlen0 : zlen t0 + 3 < 2 ^ 32) by lia.
  assert (Hl0 : lookup_fd t0 l.(listener_fd) = Some (mk_file OpenMode_RD (Net h))) by by rewrite Hlk, decide_True.
  destruct (incoming_next_accepts isol_id tid polls stdout t0 fs n0 l OpenMode_RD h sock0 h' n1 H3 Hfd Hlen0 Hl0 Hup0
    Hroom0 H0 Ea) as (st & t1 & port & conned & listener & En & Hst & Hstn & Hconn & Hl1 & _ & _ & _ & _ & _ & Hrest).
  assert (Hup1 : up tid n1).
  { assert (Hsafe1 := smol_accept_safe isol_id tid polls h n0 Hup0 Hroom0 (mk_is_Some _ _ H0)).
    by destruct (safe_inv _ _ _ _ _ Hsafe1 Ea) as [[? _] _]. }
  destruct (connection_answered P t1 fs n1 st h k buf n2 sock Hst Hup1 Hconn Er Hs HP Hn2 Hp)
    as (n3 & sock' & Esend & Hs3 & Htx & Hclose).
  exists n3, sock'. split_and!; try done. intros n4 n5 E4 E5. destruct (Hclose n4 E4) as (t2 & Eh & Hlk2).
  assert (Hne : l.(listener_fd) ≠ st.(stream_fd)) by (intros E; rewrite <- E, Hl0 in Hstn; done).
  destruct (close_stream t2 fs n4 l.(listener_fd) OpenMode_RD h' n5 H3 Hfd) as (t3 & Ed & Hlk3);
    [by rewrite Hlk2, decide_False|done|].
  exists t3. split.
  - unfold httpd. rewrite (bind_Ret _ _ _ _ _ El), (bind_Ret _ _ _ l (t0, (fs, n0))) by done.
    apply scoped_Ret with (t2, (fs, n4)); [|exact Ed].
    rewrite (bind_Ret _ _ _ (Some st) (t1, (fs, n1))); [|exact En]. cbv beta iota.
    by rewrite (bind_Ret _ _ _ _ _ Eh).
  - intros g. rewrite Hlk3, Hlk2. destruct (decide (g = l.(listener_fd))) as [->|Hg]; [done|].
    destruct (decide (g = st.(stream_fd))) as [->|Hg'].
    + rewrite <- Hstn, Hlk. by rewrite decide_False.
    + rewrite Hrest, Hlk by done. by rewrite decide_False.
Qed.
End stack.

(** ** A client *)
Module HttpdDemo.
Import SocketDemo MemFat.

Definition request : list byte := to_bytes ("GET / HTTP/1.0" +:+ CRLF +:+ CRLF).
Definition server : NetState Wire :=
  live_on (mk_wire [] [[]; [(0, Established)]; []; [(0, Arrive request)]]).
Definition the_files : FatfsState Disk Cursor := no_files.
Definition after_bind : NetState Wire := (smol_bind isol 1 localhost server).2.
Definition after_accept : NetState Wire := (smol_accept isol 1 200 0 after_bind).2.
Definition after_recv : NetState Wire := (smol_recv isol 1 200 0 (replicate 4096 0) after_accept).2.
Definition after_send : NetState Wire := (smol_send isol 1 200 0 response after_recv).2.
Definition after_close : NetState Wire := (smol_close isol 1 200 0 after_send).2.

Example stages : (smol_bind isol 1 localhost server).1 = Ret (Ok 0) ∧ (smol_accept isol 1 200 0 after_bind).1 = Ret (Ok 1) ∧
  (smol_recv isol 1 200 0 (replicate 4096 0) after_accept).1 = Ret (Ok 18, request ++ replicate 4078 0).
Proof. by vm_compute. Qed.
Lemma bound : smol_bind isol 1 localhost server = (Ret (Ok 0), after_bind).
Proof. by vm_compute. Qed.
Lemma came : smol_accept isol 1 200 0 after_bind = (Ret (Ok 1), after_accept).
Proof. by vm_compute. Qed.
Lemma asked : smol_recv isol 1 200 0 (replicate 4096 0) after_accept = (Ret (Ok 18, request ++ replicate 4078 0), after_recv).
Proof. by vm_compute. Qed.
Lemma answered : smol_send isol 1 200 0 response after_recv = (Ret (Ok ()), after_send).
Proof. by vm_compute. Qed.
Lemma closed_first : smol_close isol 1 200 0 after_send = (Ret (Ok ()), after_close).
Proof. by vm_compute. Qed.
Lemma closed_second : smol_close isol 1 200 1 after_close = (Ret (Ok ()), (smol_close isol 1 200 1 after_close).2).
Proof. by vm_compute. Qed.

(** The connection beside the new listener, and nothing more to come. *)
Definition served (w : Wire) : Prop := ∃ t l, w = mk_wire [t; l] [] ∧ sending t = true.
Lemma served_drains : drains 0 served.
Proof.
  intros n d (t & l & -> & Hs) Hd%zlen_pos.
  exists t, (Z.min 4 (zlen d)).
  exists (mk_tcp t.(st) t.(inq) (t.(acc) ++ take (Z.to_nat (Z.min 4 (zlen d))) d) t.(lport) t.(lis)).
  split_and!; [done|exact Hs| |lia|lia|done|].
  - change (send4 d t = (Ok (Z.min 4 (zlen d)), mk_tcp (st t) (inq t)
      (acc t ++ take (Z.to_nat (Z.min 4 (zlen d))) d) (lport t) (lis t))).
    unfold send4. by rewrite Hs.
  - eexists _, _. by split.
Qed.
Lemma served_now : served after_recv.(stack).
Proof. eexists _, _. split; [by vm_compute|done]. Qed.
Definition peer : Tcp := default dead_end (set_get 0 after_recv.(stack)).
Lemma peer_there : set_get 0 after_recv.(stack) = Some peer.
Proof. by vm_compute. Qed.
Lemma lookup_fd_nil g : lookup_fd [] g = None.
Proof. unfold lookup_fd. by destruct (g <? 3). Qed.
Lemma same_pair {A B} (p : A * B) a b b' : p = (a, b) → p = (a, b') → b = b'.
Proof. congruence. Qed.
Lemma room_left : slots server.(stack) + 1 < 2 ^ 32.
Proof. done. Qed.
Lemma response_short : (length response < 200)%nat.
Proof. vm_compute. lia. Qed.

Lemma httpd_answers_witness : ∃ sock' t' n',
  set_get 0 after_send.(stack) = Some sock' ∧ tx sock' = tx peer ++ response ∧
  httpd (FB := stack_backend (SS := tcp_service isol 1 200 no_stdout)) (NS := λ _, mret (Err DNSQueryFailed)) 1
    ([], (the_files, server)) = (Ret (Ok ()), (t', (the_files, n'))) ∧ ∀ g, lookup_fd t' g = None.
Proof.
  destruct (httpd_answers (NS := λ _, mret (Err DNSQueryFailed)) isol 1 200 no_stdout served [] the_files server 0 after_bind 1 after_accept 18
    (request ++ replicate 4078 0) after_recv peer eq_refl (live_up _) room_left bound came asked peer_there
    served_drains served_now response_short) as (n3 & sock' & Es & Hs & Htx & H).
  destruct (same_pair _ _ _ _ answered Es).
  destruct (H _ _ closed_first closed_second) as (t' & E & Hlk).
  exists sock', t', (smol_close isol 1 200 1 after_close).2.
  exact (conj Hs (conj Htx (conj E (λ g, eq_trans (Hlk g) (lookup_fd_nil g))))).
Defined.
End HttpdDemo.
