(* ===== verification/AsStdSpec.v ===== *)
(** * What functions can rely on in as_std

    The file API end to end, from [File] down to the FAT crate; the arguments a
    function finds, from the visor's [write_args] to [args::get]. *)
From S2P Require Import Prelude Bytes Hostcall Mpk Fdtab Fatfs FdSpec FileStack Threads.
From S2P Require Import Visor VisorSpec AsStd.
From stdpp Require Import sorting.
Local Open Scope Z_scope.

(** ** The loops over any reader and any writer

    [at_ c pos s]: the reader is at position [pos] of a file with bytes [c]. *)
Section loops.
Context {S E : Type} (at_ : list byte → nat → S → Prop).

(** One call transfers some bytes, and none only at the end or without room. *)
Definition reads (reader : list byte → prog S (result Z E * list byte)) : Prop :=
  ∀ c pos buf s, at_ c pos s → zlen buf < 2 ^ 64 → (pos ≤ length c)%nat ∧
  ∃ n s', reader buf s = (Ret (Ok (Z.of_nat n), sub c pos n ++ drop n buf), s') ∧
    at_ c (pos + n) s' ∧ (n ≤ length buf)%nat ∧ (pos + n ≤ length c)%nat ∧
    (n = O → buf = [] ∨ pos = length c).

Lemma read_to_end_of reader c : reads reader → zlen c < 2 ^ 64 →
  ∀ fuel pos buffer buf size s, at_ c pos s → length buffer = 1024%nat →
  (length c - pos < fuel)%nat → 0 ≤ size → size + (zlen c - Z.of_nat pos) < 2 ^ 64 →
  ∃ s', read_to_end_loop fuel reader buffer buf size s =
    (Ret (Ok (size + (zlen c - Z.of_nat pos)), buf ++ drop pos c), s') ∧ at_ c (length c) s'.
Proof.
  intros Hr Hc. induction fuel as [|fuel IH]; intros pos buffer buf size s Hat Hb Hf H0 Hsz; [lia|].
  destruct (Hr c pos buffer s Hat) as (Hle & n & s1 & E1 & Hat1 & Hn & Hpn & Hz);
    [unfold zlen; lia|].
  cbn [read_to_end_loop]. rewrite (bind_Ret _ _ _ _ _ E1).
  destruct (Z.eqb_spec (Z.of_nat n) 0) as [Hn0|Hn0].
  - destruct n; [|lia]. destruct (Hz eq_refl) as [-> | ->]; [done|].
    rewrite Nat.add_0_r in Hat1. exists s1. split; [|done].
    rewrite drop_ge, app_nil_r by lia. unfold zlen. by replace (size + _) with size by lia.
  - unfold zlen in *.
    rewrite (bind_Ret _ _ _ _ _ (checked_fits 64 (size + Z.of_nat n) s1
      ltac:(unfold fits; lia))).
    assert (Hls : length (sub c pos n) = n) by (unfold sub; rewrite length_take, length_drop; lia).
    assert (Hsl : slice (sub c pos n ++ drop n buffer) 0 (Z.of_nat n) = Some (sub c pos n)).
    { rewrite slice_ok by (unfold zlen; rewrite ?length_app, ?length_drop; lia).
      f_equal. unfold sub at 1. rewrite Nat2Z.id, drop_0. by apply take_app_length'. }
    rewrite Hsl. unfold unwrap. rewrite (bind_Ret _ _ _ (sub c pos n) s1) by done.
    destruct (IH (pos + n)%nat (sub c pos n ++ drop n buffer) (buf ++ sub c pos n)
      (size + Z.of_nat n) s1 Hat1) as (s2 & E2 & Hat2);
      [rewrite length_app, length_drop; lia|lia|lia|lia|].
    exists s2. split; [|done]. rewrite E2. replace (size + Z.of_nat n + _)
      with (size + (Z.of_nat (length c) - Z.of_nat pos)) by lia.
    rewrite <- app_assoc. do 4 f_equal. unfold sub. rewrite <- drop_drop. by rewrite take_drop.
Qed.

(** [b] in the place of the bytes at [pos]. *)
Definition overwrite (c : list byte) (pos : nat) (b : list byte) : list byte :=
  take pos c ++ b ++ drop (pos + length b) c.

(** One call takes at least one byte of a buffer that is not empty, as long as the
    file does not grow past [limit]. *)
Definition writes (limit : nat) (writer : list byte → prog S (result Z E)) : Prop :=
  ∀ c pos b s, at_ c pos s → b ≠ [] → (pos + length b ≤ limit)%nat → (pos ≤ length c)%nat ∧
  ∃ n s', writer b s = (Ret (Ok (Z.of_nat n)), s') ∧ (0 < n ≤ length b)%nat ∧
    at_ (overwrite c pos (take n b)) (pos + n) s'.

Lemma overwrite_app c pos b g : (pos ≤ length c)%nat →
  overwrite (overwrite c pos b) (pos + length b) g = overwrite c pos (b ++ g).
Proof.
  intros Hle. unfold overwrite.
  assert (length (take pos c) = pos) as Ht by (rewrite length_take; lia).
  assert (take pos c ++ b ++ drop (pos + length b) c = (take pos c ++ b) ++ drop (pos + length b) c)
    as -> by by rewrite app_assoc.
  assert (length (take pos c ++ b) = (pos + length b)%nat) as Hl by (rewrite length_app; lia).
  rewrite <- Hl at 1. rewrite take_app_length, drop_app_ge by lia. rewrite Hl, drop_drop, <- !app_assoc.
  do 4 f_equal. rewrite length_app. lia.
Qed.

Lemma write_all_step fuel (writer : list byte → prog S (result Z E)) b : b ≠ [] →
  write_all (Datatypes.S fuel) writer b =
    (r ← writer b;
     match r with
     | Ok n => if n =? 0 then panic
               else rest ← unwrap (slice b n (zlen b - n)); write_all fuel writer rest
     | Err e => mret (Err e)
     end).
Proof. by destruct b. Qed.

Lemma overwrite_nil c pos : overwrite c pos [] = c.
Proof. unfold overwrite. cbn [app length]. by rewrite Nat.add_0_r, take_drop. Qed.

Lemma write_all_of limit writer : writes limit writer → ∀ fuel c pos b s, at_ c pos s →
  (length b ≤ fuel)%nat → (pos + length b ≤ limit)%nat →
  ∃ s', write_all fuel writer b s = (Ret (Ok ()), s') ∧ at_ (overwrite c pos b) (pos + length b) s'.
Proof.
  intros Hw. induction fuel as [|fuel IH]; intros c pos b s Hat Hf Hl.
  - destruct b; [|cbn in Hf; lia]. exists s. by rewrite overwrite_nil, Nat.add_0_r.
  - destruct (decide (b = [])) as [->|Hne].
    { exists s. by rewrite overwrite_nil, Nat.add_0_r. }
    destruct (Hw c pos b s Hat Hne Hl) as (Hle & n & s1 & E1 & Hn & Hat1).
    rewrite write_all_step, (bind_Ret _ _ _ _ _ E1) by done.
    replace (Z.of_nat n =? 0) with false by lia.
    rewrite slice_ok by (unfold zlen; lia).
    assert (sub b (Z.to_nat (Z.of_nat n)) (Z.to_nat (zlen b - Z.of_nat n)) = drop n b) as ->.
    { unfold sub. rewrite Nat2Z.id. apply take_ge. rewrite length_drop. unfold zlen. lia. }
    unfold unwrap. rewrite (bind_Ret _ _ _ (drop n b) s1) by done.
    assert (length (take n b) = n) as Htn by (rewrite length_take; lia).
    destruct (IH (overwrite c pos (take n b)) (pos + n)%nat (drop n b) s1 Hat1) as (s2 & E2 & Hat2).
    { rewrite length_drop. lia. }
    { rewrite length_drop. lia. }
    exists s2. split; [exact E2|].
    assert (overwrite (overwrite c pos (take n b)) (pos + n) (drop n b) = overwrite c pos b) as Ho.
    { rewrite <- Htn at 2. by rewrite overwrite_app, take_drop. }
    rewrite Ho in Hat2. rewrite length_drop in Hat2.
    by replace (pos + n + (length b - n))%nat with (pos + length b)%nat in Hat2 by lia.
Qed.
End loops.

Section files.
Context {FS F N : Type} {FC : FatCrate FS F} {FSp : FatCrateSpec FS F} {HI : HostImage FS}
  {SS : SockService N}.
Local Abbreviation Files := (LowerState FS F N).

(** A file open for reading and writing: its content and position. *)
Record file_at (file : StdFile) (c : list byte) (pos : nat) (st : FdState Files) : Prop := {
  fa_fd : 3 ≤ file.(raw_fd) ∧ fits 32 file.(raw_fd);
  fa_pos : (pos ≤ length c)%nat;
  fa_open : ∃ h fs f, lookup_fd st.1 file.(raw_fd) = Some (mk_file OpenMode_RDWR (FatFS h)) ∧
    open_slot st.2.1 h fs f ∧ content fs f = c ∧ fpos f = pos
}.

Lemma file_read_at file c pos buf st :
  file_at file c pos st → zlen buf < 2 ^ 64 →
  let n := Nat.min (length buf) (length c - pos) in
  ∃ st', file_read file buf st = (Ret (Ok (Z.of_nat n), sub c pos n ++ drop n buf), st') ∧
    file_at file c (pos + n) st'.
Proof.
  intros [[H3 Hf] Hle (h & fs & f & Hl & Ho & <- & <-)] Hb n. destruct st as [t [w nn]]. cbn in *.
  destruct (fatfs_read_open w h fs f buf Ho Hle Hb) as (fs1 & f1 & Hr & Hc & Hp).
  exists (t, (set_slot w h fs1 f1, nn)). split.
  - apply (read_fat (raw_fd file) t OpenMode_RDWR h); try done. by apply in_fat_Ret.
  - split; [done|unfold n; lia|]. exists h, fs1, f1. cbn. split_and!; try done.
    by eapply open_slot_set.
Qed.

Lemma file_seek_at file c pos p st :
  file_at file c pos st → 0 ≤ p ≤ zlen c →
  ∃ st', file_seek file p st = (Ret (Ok ()), st') ∧ file_at file c (Z.to_nat p) st'.
Proof.
  intros [[H3 Hf] Hle (h & fs & f & Hl & Ho & <- & <-)] Hp. destruct st as [t [w nn]]. cbn in *.
  destruct (fatfs_seek_open w h fs f p Ho Hp) as (fs1 & f1 & Hs & Hc & Hpos).
  exists (t, (set_slot w h fs1 f1, nn)). split.
  - apply (lseek_fat (raw_fd file) t OpenMode_RDWR h); try done. by apply in_fat_Ret.
  - split; [done|unfold zlen in Hp; lia|]. exists h, fs1, f1. cbn. split_and!; try done.
    by eapply open_slot_set.
Qed.

(** The FAT crate takes all of [data] at the file's position. *)
Definition accepts (file : StdFile) (data : list byte) (st : FdState Files) : Prop :=
  ∀ h fs f, lookup_fd st.1 file.(raw_fd) = Some (mk_file OpenMode_RDWR (FatFS h)) →
    open_slot st.2.1 h fs f → ∃ fs1 f1, (f_write_all data ;;? f_flush) (fs, f) = (Ret (Ok ()), (fs1, f1)).

Lemma file_write_at file c pos data st :
  file_at file c pos st → accepts file data st →
  ∃ st', file_write file data st = (Ret (Ok (zlen data)), st') ∧
    file_at file (take pos c ++ data ++ drop (pos + length data) c) (pos + length data) st'.
Proof.
  intros [[H3 Hf] Hle (h & fs & f & Hl & Ho & <- & <-)] Ha. destruct st as [t [w nn]]. cbn in *.
  destruct (Ha h fs f Hl Ho) as (fs1 & f1 & Hw).
  destruct (write_flush_content _ _ _ _ _ Hw Hle) as [Hc Hp].
  exists (t, (set_slot w h fs1 f1, nn)). split.
  - apply (write_fat (raw_fd file) t OpenMode_RDWR h); try done.
    apply in_fat_Ret. by eapply fatfs_write_open.
  - split; [done| |].
    { rewrite !length_app, length_take. lia. }
    exists h, fs1, f1. cbn. split_and!; try done. by eapply open_slot_set.
Qed.

Lemma file_reads file : reads (file_at file) (file_read file).
Proof.
  intros c pos buf st Hat Hb. pose proof (fa_pos _ _ _ _ Hat) as Hle. split; [done|].
  destruct (file_read_at file c pos buf st Hat Hb) as (st' & E & Hat').
  eexists _, st'. split; [exact E|]. split; [exact Hat'|]. split_and!; [lia|lia|].
  intros Hz. destruct buf; [by left|right; cbn [length] in Hz; lia].
Qed.

(** C2: a file gives back what was written to it, end to end: through [File] of
    as_std, the descriptor table, the FAT service and its read loop, writing all of
    a buffer at the file's position, seeking back to any position of the file and
    reading to the end returns, however many 1024-byte reads that takes, exactly
    the file's bytes from there on, the written ones in their place, and reports
    their number; the loops end. *)
Theorem file_round_trip : ∀ (file : StdFile) c pos data p fuel (st : FdState Files),
  file_at file c pos st → accepts file data st → data ≠ [] →
  let c' := take pos c ++ data ++ drop (pos + length data) c in
  zlen c' < 2 ^ 64 → 0 ≤ p ≤ zlen c' → (length c' < fuel)%nat →
  ∃ st', (write_all 1 (file_write file) data ;;? file_seek file p) st = (Ret (Ok ()), st') ∧
  ∃ st'', read_to_end fuel (file_read file) [] st' =
    (Ret (Ok (zlen c' - p), drop (Z.to_nat p) c'), st'') ∧
    file_at file c' (length c') st''.
Proof.
  intros file c pos data p fuel st Hat Ha Hd c' Hc' Hp Hf.
  destruct (file_write_at file c pos data st Hat Ha) as (st1 & Hw & Hat1).
  destruct (file_seek_at file c' _ p st1 Hat1 Hp) as (st2 & Hs & Hat2).
  exists st2. split.
  - rewrite (try_bind_Ok _ _ st () st1); [done|]. destruct data as [|b data]; [done|].
    cbn [write_all]. rewrite (bind_Ret _ _ _ _ _ Hw).
    rewrite (proj2 (Z.eqb_neq _ _)) by (unfold zlen; cbn [length]; lia).
    rewrite slice_ok by (unfold zlen; cbn [length]; lia).
    unfold sub. rewrite Z.sub_diag. by rewrite take_0.
  - unfold zlen in Hp.
    destruct (read_to_end_of (file_at file) (file_read file) c' (file_reads file) Hc' fuel
      (Z.to_nat p) (replicate 1024 0) [] 0 st2 Hat2)
      as (st3 & Hr & Hat3); [by rewrite length_replicate|lia|lia|unfold zlen in *; lia|].
    exists st3. split; [|done]. unfold read_to_end. rewrite Hr. cbn [app].
    by rewrite Z2Nat.id by lia.
Qed.
End files.

(** ** Arguments *)

Lemma round_up_eq {S} x (s : S) : 0 ≤ x → x + 4096 < 2 ^ 64 →
  round_up x s = (Ret ((x + 4095) / 4096 * 4096), s).
Proof.
  intros H0 Hx. unfold round_up, page_mask, mbind, prog_mbind.
  rewrite checked_fits by (unfold fits, PAGE_SIZE; lia).
  rewrite checked_fits by (unfold fits, PAGE_SIZE; lia).
  rewrite checked_fits by (unfold fits, unot, PAGE_SIZE; lia).
  change (unot 64 PAGE_SIZE + 1) with (unot 64 (2 ^ 12 - 1)). unfold mret, prog_mret.
  rewrite land_unot_ones by (unfold fits, PAGE_SIZE; lia).
  do 3 f_equal. unfold PAGE_SIZE. change (2 ^ 12) with 4096. f_equal. lia.
Qed.

Lemma find_btree_item (args : gmap string string) name :
  snd <$> List.find (λ item : string * string, String.eqb item.1 name) (btree_items args) = args !! name.
Proof.
  assert (Hin : ∀ v, (name, v) ∈ btree_items args ↔ args !! name = Some v).
  { intros v. unfold btree_items. rewrite merge_sort_Permutation. apply elem_of_map_to_list. }
  destruct (List.find _ (btree_items args)) as [[k v]|] eqn:Hf.
  - apply List.find_some in Hf as [Hk Heq]. apply String.eqb_eq in Heq. cbn in Heq. subst k.
    symmetry. by apply Hin, list_elem_of_In.
  - cbn. destruct (args !! name) as [v|] eqn:Hl; [|done]. exfalso.
    assert (Hi := proj2 (Hin v) eq_refl). apply list_elem_of_In in Hi.
    apply (List.find_none _ _ Hf) in Hi. cbn in Hi. by rewrite String.eqb_refl in Hi.
Qed.

(** C34: What a function finds in its arguments is what the configuration gave it, as
    long as it asks near the top of its stack: with the visor's list at the top
    of the stack it was given and the stack pointer less than a page below,
    [args::get] returns the configured value of every name and nothing for other
    names; from a page or more below, it looks at another page than the one the
    visor wrote. *)
Theorem args_reach_function {W Lib : Type} :
  ∀ (args : gmap string string) (i i' : Isolation W Lib) items (mem : ArgsMem) stack rsp name,
  write_args args i = (Ret items, i') →
  stack mod 4096 = 0 → 0 ≤ stack ≤ rsp → stack + SERVICE_STACK_SIZE < 2 ^ 64 →
  rsp ≤ stack_top stack → mem (stack_top stack) = Some items →
  if decide (stack_top stack - rsp < 4096)
  then args_get mem rsp name i' = (Ret (Some (args !! name)), i')
  else ∃ page, round_up rsp i' = (Ret page, i') ∧ page ≠ stack_top stack.
Proof.
  intros args i i' items mem stack rsp name Hw Hal H0 Hst Hrsp Hm.
  destruct (write_args_bounds args i) as (_ & _ & Heq). rewrite Hw in Heq.
  assert (items = btree_items args) as -> by (by case_bool_decide; simplify_eq).
  unfold SERVICE_STACK_SIZE in *. unfold stack_top, SERVICE_STACK_SIZE, PAGE_SIZE in *.
  assert (Hr := round_up_eq rsp i' ltac:(lia) ltac:(lia)).
  pose proof (Z.div_mod stack 4096 ltac:(lia)) as Hd.
  generalize dependent (stack / 4096). intros q Hd.
  pose proof (Z.div_mod (rsp + 4095) 4096 ltac:(lia)).
  pose proof (Z.mod_pos_bound (rsp + 4095) 4096 ltac:(lia)).
  clear Heq Hw. case_decide as Hdec.
  - unfold args_get. rewrite (bind_Ret _ _ _ _ _ Hr).
    replace ((rsp + 4095) / 4096 * 4096) with (stack + 8 * 1024 * 1024 - 4096) by lia.
    rewrite Hm. cbn [fmap option_fmap option_map]. by rewrite find_btree_item.
  - eexists. split; [exact Hr|]. lia.
Qed.

Lemma args_reach_function_witness : ∃ i' : Isolation Z string,
  args_get (λ a, if a =? stack_top 0 then Some [("id", "3"); ("slot", "x")]%string else None)
    (stack_top 0 - 100) "slot" i' = (Ret (Some (Some "x"%string)), i').
Proof.
  set (mem := λ a : Z, if a =? stack_top 0 then Some [("id", "3"); ("slot", "x")]%string else None).
  set (args := {["id" := "3"; "slot" := "x"]}%string : gmap string string).
  pose proof (args_reach_function args Demo.isol Demo.isol [("id", "3"); ("slot", "x")]%string
    mem 0 (stack_top 0 - 100) "slot" ltac:(vm_compute; reflexivity) eq_refl
    ltac:(vm_compute; by split) ltac:(vm_compute; reflexivity) ltac:(vm_compute; by intros)
    ltac:(vm_compute; reflexivity)) as Hg.
  rewrite decide_True in Hg by (vm_compute; reflexivity).
  exact (ex_intro _ Demo.isol Hg).
Defined.

(** A five-byte file, written at its start. *)
Lemma file_round_trip_witness : ∃ (st : FdState (LowerState MemFat.Disk MemFat.Cursor ())) st' st'',
  (write_all 1 (file_write (mk_stdfile 3)) [9; 8] ;;? file_seek (mk_stdfile 3) 1) st =
    (Ret (Ok ()), st') ∧
  read_to_end 10 (file_read (mk_stdfile 3)) [] st' = (Ret (Ok 4, [8; 3; 4; 5]), st'').
Proof.
  set (st := ([Some (mk_file OpenMode_RDWR (FatFS 0))],
     (mk_fatfs [Some (MemFat.mk_cursor 0)] false (Some (MemFat.mk_disk [1; 2; 3; 4; 5])), ()))
     : FdState (LowerState MemFat.Disk MemFat.Cursor ())).
  destruct (file_round_trip (mk_stdfile 3) [1; 2; 3; 4; 5] 0 [9; 8] 1 10 st) as
    (st' & H1 & st'' & H2 & _).
  - split; [done|cbn; lia|]. exists 0, (MemFat.mk_disk [1; 2; 3; 4; 5]), (MemFat.mk_cursor 0).
    by repeat split.
  - intros h fs f [= <-] (_ & [= <-] & [= <-]). do 2 eexists. reflexivity.
  - done.
  - vm_compute. reflexivity.
  - vm_compute. by split.
  - cbn. lia.
  - exact (ex_intro _ st (ex_intro _ st' (ex_intro _ st'' (conj H1 H2)))).
Defined.
