(* ===== verification/Trampoline.v ===== *)
(** * The switch to a function's stack (invoke_elf_symbol)

    The assembly of libasvisor/src/service/elf_service.rs that calls a function on
    a stack of its own, for both builds: the instructions it is made of, on a
    machine with registers, bytes of memory and the rights of the protection keys. *)
From Stdlib Require Import Ascii String.
From S2P Require Import Prelude Bytes Hostcall Mpk AsStd AsStdSpec.
Local Open Scope Z_scope.

(** ** The machine *)

Inductive reg : Type :=
  RAX | RBX | RCX | RDX | RSI | RDI | RBP | RSP | R8 | R9 | R10 | R11 | R12 | R13 | R14 | R15.
Scheme Equality for reg.
#[export] Instance reg_eq : EqDecision reg := reg_eq_dec.

Record Machine : Type := mk_machine { regs : reg → Z; ram : Z → byte; rights : Z }.
Definition set_reg (r : reg) (x : Z) (c : Machine) : Machine :=
  mk_machine (λ r', if reg_beq r r' then x else c.(regs) r') c.(ram) c.(rights).
Definition set_ram (m : Z → byte) (c : Machine) : Machine := mk_machine c.(regs) m c.(rights).
Definition set_rights (p : Z) (c : Machine) : Machine := mk_machine c.(regs) c.(ram) p.

Definition load64 (m : Z → byte) (a : Z) : Z := le_decode (map m (seqZ a 8)).
Definition store64 (m : Z → byte) (a x : Z) : Z → byte := λ b,
  if (a <=? b) && (b <? a + 8) then le_encode 8 x !!! Z.to_nat (b - a) else m b.

(** The instructions the two listings use. *)
Inductive instr : Type :=
  | SubRsp (n : Z)
  | AddRsp (n : Z)
  | Mov (dst src : reg)
  | Load (dst base : reg) (off : Z)
  | Store (base : reg) (off : Z) (src : reg)
  | Xor (dst src : reg)
  | Wrpkru
  | Call (r : reg).

Section machine.
(** The key each address is tagged with, the code at an address up to its [ret],
    and the address behind the call. *)
Context (key_of : Z → Z) (callee : Z → Machine → option Machine) (behind : Z).

(** Two bits a key: no access, no writing. *)
Definition readable (p k : Z) : bool := negb (Z.testbit p (2 * k)).
Definition writable (p k : Z) : bool := readable p k && negb (Z.testbit p (2 * k + 1)).
Definition may_load (c : Machine) (a : Z) : bool := forallb (λ b, readable c.(rights) (key_of b)) (seqZ a 8).
Definition may_store (c : Machine) (a : Z) : bool := forallb (λ b, writable c.(rights) (key_of b)) (seqZ a 8).

Definition read (a : Z) (c : Machine) : option Z := if may_load c a then Some (load64 c.(ram) a) else None.
Definition write (a x : Z) (c : Machine) : option Machine :=
  if may_store c a then Some (set_ram (store64 c.(ram) a x) c) else None.

(** One instruction, or the fault it ends in. *)
Definition exec (i : instr) (c : Machine) : option Machine :=
  match i with
  | SubRsp n => Some (set_reg RSP (wrap 64 (c.(regs) RSP - n)) c)
  | AddRsp n => Some (set_reg RSP (wrap 64 (c.(regs) RSP + n)) c)
  | Mov dst src => Some (set_reg dst (c.(regs) src) c)
  | Load dst base off => x ← read (wrap 64 (c.(regs) base + off)) c; Some (set_reg dst x c)
  | Store base off src => write (wrap 64 (c.(regs) base + off)) (c.(regs) src) c
  | Xor dst src => Some (set_reg dst (Z.lxor (c.(regs) dst) (c.(regs) src)) c)
  | Wrpkru => if (wrap 32 (c.(regs) RCX) =? 0) && (wrap 32 (c.(regs) RDX) =? 0)
              then Some (set_rights (wrap 32 (c.(regs) RAX)) c) else None
  | Call r =>
      let sp := wrap 64 (c.(regs) RSP - 8) in
      c1 ← write sp behind (set_reg RSP sp c); callee (c.(regs) r) c1
  end.
Fixpoint exec_all (l : list instr) (c : Machine) : option Machine :=
  match l with [] => Some c | i :: l => c ← exec i c; exec_all l c end.

(** ** invoke_elf_symbol *)

(** The registers saved, and where. *)
Definition saved : list (reg * Z) :=
  [(RCX, 8); (RDX, 16); (RSI, 24); (RDI, 32); (R8, 40); (R9, 48); (R10, 56); (R11, 64)].
Definition save (l : list (reg * Z)) : list instr := map (λ '(r, off), Store RSP off r) l.
Definition restore (l : list (reg * Z)) : list instr := map (λ '(r, off), Load r RSP off) l.

Definition enter (enable_mpk : bool) : list instr :=
  SubRsp 0x90 :: save saved ++
  [Mov R11 R13; Store R12 8 RSP; Mov RSP R12] ++
  (if enable_mpk then [Xor RCX RCX; Mov RDX RCX; Wrpkru] else []) ++ [Call R11].
Definition leave : list instr := Load RSP RSP 8 :: restore saved ++ [AddRsp 0x90].

(** The operands are put into their registers, then the listing runs; the result
    is at the address left in [RAX]. *)
Definition invoke_elf_symbol (enable_mpk : bool) (pkey rust_main user_stack_top : Z) (c : Machine) :
    option (result Machine string) :=
  let operands c := set_reg R13 rust_main (set_reg R12 (user_stack_top - 16) c) in
  if enable_mpk then
    match grant_func_perm 0xCFFFFFFC pkey with
    | Err e => Some (Err ("can't generate pkru: " +:+ e))
    | Ok pkru => fmap Ok (exec_all (enter true ++ leave) (operands (set_reg RAX pkru c)))
    end
  else fmap Ok (exec_all (enter false ++ leave) (operands c)).

(** ** Memory *)

Lemma load_store_same m a x : load64 (store64 m a x) a = x mod 2 ^ 64.
Proof.
  unfold load64. transitivity (le_decode (le_encode 8 x)); [|apply (le_decode_encode 8)]. f_equal.
  apply list_eq_same_length with (n := 8%nat); [done|by rewrite length_map, length_seqZ|].
  intros i y z Hi. rewrite list_lookup_fmap, lookup_seqZ_lt by lia. cbn [fmap option_fmap option_map].
  intros [= <-] Hz. unfold store64. replace ((a <=? _) && _) with true by lia.
  replace (Z.to_nat (a + Z.of_nat i - a)) with i by lia. by apply list_lookup_total_correct.
Qed.
Lemma store_ne m a x b : b < a ∨ a + 8 ≤ b → store64 m a x b = m b.
Proof. intros H. unfold store64. by replace ((a <=? b) && (b <? a + 8)) with false by lia. Qed.
Lemma load_ext m m' a : (∀ b, a ≤ b < a + 8 → m' b = m b) → load64 m' a = load64 m a.
Proof.
  intros H. unfold load64. f_equal. apply map_ext_in. intros b Hb%list_elem_of_In%elem_of_seqZ. apply H. lia.
Qed.

(** ** Runs *)

Lemma exec_app l1 l2 c : exec_all (l1 ++ l2) c = c1 ← exec_all l1 c; exec_all l2 c1.
Proof. revert c. induction l1 as [|i l1 IH]; intros c; [done|]. cbn. destruct (exec i c); [apply IH|done]. Qed.
Lemma may_load_all c a : (∀ b, a ≤ b < a + 8 → readable c.(rights) (key_of b) = true) → may_load c a = true.
Proof. intros H. apply forallb_forall. intros b Hb%list_elem_of_In%elem_of_seqZ. apply H. lia. Qed.
Lemma may_store_all c a : (∀ b, a ≤ b < a + 8 → writable c.(rights) (key_of b) = true) → may_store c a = true.
Proof. intros H. apply forallb_forall. intros b Hb%list_elem_of_In%elem_of_seqZ. apply H. lia. Qed.
Lemma writable_readable p k : writable p k = true → readable p k = true.
Proof. by intros [? _]%andb_true_iff. Qed.

(** A frame of saved registers: at [sp], with room for [l], all of it open. *)
Definition frame (l : list (reg * Z)) (c : Machine) (sp n : Z) : Prop :=
  c.(regs) RSP = sp ∧ 0 ≤ sp ∧ sp + n ≤ 2 ^ 64 ∧
  (∀ b, sp ≤ b < sp + n → writable c.(rights) (key_of b) = true) ∧
  ∀ r off, (r, off) ∈ l → 0 ≤ off ∧ off + 8 ≤ n.

Fixpoint stored (l : list (reg * Z)) (sp : Z) (f : reg → Z) (m : Z → byte) : Z → byte :=
  match l with [] => m | (r, off) :: l => stored l sp f (store64 m (sp + off) (f r)) end.

Lemma frame_wrap l c sp n r off : frame l c sp n → (r, off) ∈ l → wrap 64 (c.(regs) RSP + off) = sp + off.
Proof.
  intros (-> & H0 & Hn & _ & Hl) Hin. destruct (Hl r off Hin). unfold wrap. apply Z.mod_small. lia.
Qed.
Lemma save_run l : ∀ c sp n, frame l c sp n →
  exec_all (save l) c = Some (set_ram (stored l sp c.(regs) c.(ram)) c).
Proof.
  induction l as [|[r off] l IH]; intros c sp n Hf; [by destruct c|]. cbn [save map exec_all exec].
  rewrite (frame_wrap _ _ _ _ _ _ Hf (list_elem_of_here _ _)). destruct Hf as (Hs & H0 & Hn & Hw & Hl).
  destruct (Hl r off (list_elem_of_here _ _)). unfold write. rewrite may_store_all by (intros b Hb; apply Hw; lia).
  cbn [mbind option_bind]. rewrite (IH _ sp n); [done|]. split_and!; try done.
  intros r' off' Hin. by apply (Hl r'), list_elem_of_further.
Qed.
(** Places that do not overlap. *)
Fixpoint spaced (l : list (reg * Z)) : Prop :=
  match l with
  | [] => True
  | (r, off) :: l => (∀ r' off', (r', off') ∈ l → r' ≠ r ∧ (off' + 8 ≤ off ∨ off + 8 ≤ off')) ∧ spaced l
  end.
Lemma stored_kept l sp f : ∀ m b, (∀ r off, (r, off) ∈ l → b < sp + off ∨ sp + off + 8 ≤ b) → stored l sp f m b = m b.
Proof.
  induction l as [|[r off] l IH]; intros m b Hb; [done|]. cbn [stored].
  rewrite IH by (intros r' off' Hin; by eapply Hb, list_elem_of_further). apply store_ne, (Hb r), list_elem_of_here.
Qed.
Lemma stored_load l sp f : spaced l → ∀ m r off, (r, off) ∈ l → load64 (stored l sp f m) (sp + off) = f r mod 2 ^ 64.
Proof.
  induction l as [|[r' off'] l IH]; intros Hs m r off Hin; [by apply not_elem_of_nil in Hin|].
  destruct Hs as [Hr Hs]. apply elem_of_cons in Hin as [[= -> ->]|Hin]; cbn [stored]; [|by apply IH].
  rewrite <- (load_store_same m (sp + off') (f r')). apply load_ext. intros b Hb. apply stored_kept.
  intros r off Hin. destruct (Hr r off Hin). lia.
Qed.

Lemma restore_run l : spaced l → (∀ r off, (r, off) ∈ l → r ≠ RSP) → ∀ c sp n, frame l c sp n →
  ∃ c', exec_all (restore l) c = Some c' ∧ c'.(ram) = c.(ram) ∧ c'.(rights) = c.(rights) ∧
    (∀ r off, (r, off) ∈ l → c'.(regs) r = load64 c.(ram) (sp + off)) ∧
    ∀ r, r ∉ l.*1 → c'.(regs) r = c.(regs) r.
Proof.
  induction l as [|[r off] l IH]; intros Hs Hne c sp n Hf.
  { exists c. split_and!; try done. by intros r off ?%not_elem_of_nil. }
  destruct Hs as [Hr Hs]. cbn [restore map exec_all exec].
  rewrite (frame_wrap _ _ _ _ _ _ Hf (list_elem_of_here _ _)). destruct Hf as (Hsp & H0 & Hn & Hw & Hl).
  destruct (Hl r off (list_elem_of_here _ _)). unfold read.
  rewrite may_load_all by (intros b Hb; apply writable_readable, Hw; lia). cbn [mbind option_bind].
  assert (Hrsp : r ≠ RSP) by (apply (Hne r off), list_elem_of_here).
  destruct (IH Hs (λ r' off' Hin, Hne r' off' (list_elem_of_further _ _ _ Hin)) (set_reg r (load64 (ram c) (sp + off)) c) sp n)
    as (c' & E & Hm & Hk & Hin & Hout).
  { split_and!; try done; [cbn; by destruct r|]. intros r' off' ?. by apply (Hl r'), list_elem_of_further. }
  exists c'. split; [exact E|]. split; [done|]. split; [done|]. split.
  - intros r' off' [[= -> ->]|Hin']%elem_of_cons; [|by apply Hin].
    rewrite Hout; [cbn; by destruct r|]. intros ([r2 off2] & -> & H2)%list_elem_of_fmap_1. by destruct (Hr r2 off2 H2).
  - intros r' Hn'. apply not_elem_of_cons in Hn' as [Hn1 Hn2]. rewrite Hout by done. cbn.
    cbn in Hn1. by destruct r, r'.
Qed.

(** ** The way in and the way back *)

Lemma saved_spaced : spaced saved.
Proof.
  cbn. split_and!; try done; intros r off H;
    repeat (apply elem_of_cons in H as [[= -> ->]|H]; [split; [done|lia]|]); by apply not_elem_of_nil in H.
Qed.
Lemma saved_fits r off : (r, off) ∈ saved → 0 ≤ off ∧ off + 8 ≤ 144 ∧ r ≠ RSP.
Proof. intros H. repeat (apply elem_of_cons in H as [[= -> ->]|H]; [split_and!; [lia..|done]|]); by apply not_elem_of_nil in H. Qed.

Definition operands (mpk : bool) (p main U : Z) (c : Machine) : Machine :=
  set_reg R13 main (set_reg R12 U (if mpk then set_reg RAX p c else c)).

(** Memory when the function is entered. *)
Definition entry_ram (c : Machine) (U : Z) : Z → byte :=
  let S := c.(regs) RSP - 144 in
  store64 (store64 (stored saved S c.(regs) c.(ram)) (U + 8) S) (U - 8) behind.

Lemma enter_run mpk p main U c : wrap 32 p = p → c.(rights) = 0 → 144 ≤ c.(regs) RSP < 2 ^ 64 → 8 ≤ U → U + 16 ≤ 2 ^ 64 →
  (mpk = true → ∀ b, U - 8 ≤ b < U → writable p (key_of b) = true) →
  ∃ ce, (∀ k, exec_all (enter mpk ++ k) (operands mpk p main U c) = c ← callee main ce; exec_all k c) ∧
    ce.(regs) RSP = U - 8 ∧ (∀ r, r ∈ [RBX; RBP; R14; R15] → ce.(regs) r = c.(regs) r) ∧
    ce.(rights) = (if mpk then p else 0) ∧ ce.(ram) = entry_ram c U.
Proof.
  intros Hp Hr HR HU0 HU Hkey. set (S := c.(regs) RSP - 144). set (c1 := set_reg RSP S (operands mpk p main U c)).
  assert (Hall : ∀ k, writable 0 k = true) by (intros k; unfold writable, readable; by rewrite !Z.testbit_0_l).
  assert (H1 : exec (SubRsp 0x90) (operands mpk p main U c) = Some c1).
  { cbn [exec]. unfold c1. do 2 f_equal. replace (regs (operands mpk p main U c) RSP) with (c.(regs) RSP) by by destruct mpk.
    unfold wrap, S. rewrite Z.mod_small by lia. done. }
  assert (Hr1 : rights c1 = 0) by (rewrite <- Hr; by destruct mpk).
  assert (H2 : exec_all (save saved) c1 = Some (set_ram (stored saved S c.(regs) c.(ram)) c1)).
  { rewrite (save_run saved c1 S 144).
    - by destruct mpk.
    - split_and!; [done|unfold S; lia|unfold S; lia| |].
      + intros b _. by rewrite Hr1.
      + intros r off H. apply saved_fits in H. lia. }
  assert (Hmid : exec_all [Mov R11 R13; Store R12 8 RSP; Mov RSP R12] (set_ram (stored saved S c.(regs) c.(ram)) c1) =
    Some (set_reg RSP U (set_ram (store64 (stored saved S c.(regs) c.(ram)) (U + 8) S) (set_reg R11 main c1)))).
  { cbn [exec_all exec set_reg set_ram regs ram reg_beq c1 operands mbind option_bind].
    unfold write. replace (wrap 64 (U + 8)) with (U + 8) by (unfold wrap; rewrite Z.mod_small; lia).
    rewrite may_store_all; [by destruct mpk|]. intros b _. rewrite <- (Hall (key_of b)). f_equal. by destruct mpk. }
  set (c4 := set_reg RSP U _) in Hmid.
  set (c5 := if mpk then set_rights p (set_reg RDX 0 (set_reg RCX 0 c4)) else c4).
  assert (Hjump : exec_all (if mpk then [Xor RCX RCX; Mov RDX RCX; Wrpkru] else []) c4 = Some c5).
  { unfold c5. destruct mpk; [|done]. cbn [exec_all exec mbind option_bind]. rewrite Z.lxor_nilpotent.
    cbn [regs set_reg reg_beq c4 c1 operands set_ram]. change (wrap 32 0 =? 0) with true. cbn [andb]. by rewrite Hp. }
  set (ce := set_ram (entry_ram c U) (set_reg RSP (U - 8) c5)).
  assert (Hcall : exec (Call R11) c5 = callee main ce).
  { cbn [exec]. assert (regs c5 RSP = U ∧ regs c5 R11 = main ∧ ram c5 = store64 (stored saved S c.(regs) c.(ram)) (U + 8) S)
      as (-> & -> & Em) by by destruct mpk.
    replace (wrap 64 (U - 8)) with (U - 8) by (unfold wrap; rewrite Z.mod_small; lia).
    unfold write. rewrite may_store_all.
    - cbn [mbind option_bind set_reg ram]. rewrite Em. done.
    - intros b Hb. unfold c5. destruct mpk; [apply Hkey; [done|lia]|]. rewrite <- (Hall (key_of b)). by rewrite <- Hr1. }
  exists ce. split; [|split; [done|split; [|split; [|done]]]].
  - intros k. unfold enter. rewrite <- app_comm_cons. cbn [exec_all]. rewrite H1. cbn [mbind option_bind].
    rewrite <- !app_assoc, exec_app, H2. cbn [mbind option_bind].
    rewrite exec_app, Hmid. cbn [mbind option_bind]. rewrite exec_app, Hjump. cbn [mbind option_bind app exec_all]. by rewrite Hcall.
  - intros r H. repeat (apply elem_of_cons in H as [->|H]; [by destruct mpk|]). by apply not_elem_of_nil in H.
  - destruct mpk; [done|exact Hr1].
Qed.

Lemma leave_run S U c f : c.(regs) RSP = U → 0 ≤ S → S + 144 < 2 ^ 64 → 0 ≤ U → U + 16 ≤ 2 ^ 64 →
  (∀ b, U + 8 ≤ b < U + 16 → readable c.(rights) (key_of b) = true) →
  (∀ b, S ≤ b < S + 144 → writable c.(rights) (key_of b) = true) →
  load64 c.(ram) (U + 8) = S → (∀ r off, (r, off) ∈ saved → load64 c.(ram) (S + off) = f r) →
  ∃ c', exec_all leave c = Some c' ∧ c'.(regs) RSP = S + 144 ∧ c'.(ram) = c.(ram) ∧ c'.(rights) = c.(rights) ∧
    (∀ r, r ∈ saved.*1 → c'.(regs) r = f r) ∧ ∀ r, r ∉ RSP :: saved.*1 → c'.(regs) r = c.(regs) r.
Proof.
  intros Hsp HS HS' HU HU' Hstack Hframe Hret Hf. set (c1 := set_reg RSP S c).
  destruct (restore_run saved saved_spaced (λ r off H, proj2 (proj2 (saved_fits r off H))) c1 S 144)
    as (c2 & E & Hm & Hr & Hin & Hout).
  { split_and!; [done|lia|lia|exact Hframe|]. intros r off H. apply saved_fits in H. lia. }
  exists (set_reg RSP (S + 144) c2). split_and!.
  - unfold leave. cbn [exec_all exec]. rewrite Hsp. replace (wrap 64 (U + 8)) with (U + 8) by (unfold wrap; rewrite Z.mod_small; lia).
    unfold read. rewrite may_load_all by (intros b Hb; apply Hstack; lia). rewrite Hret. cbn [mbind option_bind].
    rewrite exec_app. fold c1. rewrite E. cbn [mbind option_bind exec_all exec].
    rewrite Hout by (cbn; set_solver). cbn [c1 set_reg regs reg_beq]. do 2 f_equal. unfold wrap. rewrite Z.mod_small; lia.
  - done.
  - exact Hm.
  - exact Hr.
  - intros r Hs. assert (Hs' := Hs). apply list_elem_of_fmap_1 in Hs as ([r' off] & -> & Hs).
    cbn [fst]. rewrite <- (Hf _ _ Hs). change (ram c) with (ram c1). rewrite <- (Hin _ _ Hs).
    destruct (saved_fits _ _ Hs) as (_ & _ & Hne). by destruct r'.
  - intros r [Hne Hs]%not_elem_of_cons. assert (E1 : regs (set_reg RSP (S + 144) c2) r = regs c2 r) by by destruct r.
    rewrite E1, Hout by done. by destruct r.
Qed.

(** What is left in memory. *)
Lemma entry_other c U b : (b < c.(regs) RSP - 144 ∨ c.(regs) RSP ≤ b) → (b < U - 8 ∨ U + 16 ≤ b) →
  entry_ram c U b = c.(ram) b.
Proof.
  intros HS HU. unfold entry_ram. rewrite !store_ne by lia. apply stored_kept.
  intros r off H. apply saved_fits in H. lia.
Qed.
Lemma entry_saved c U r off : fits 64 (c.(regs) r) → (r, off) ∈ saved →
  U + 16 ≤ c.(regs) RSP - 144 ∨ c.(regs) RSP ≤ U - 8 →
  load64 (entry_ram c U) (c.(regs) RSP - 144 + off) = c.(regs) r.
Proof.
  intros Hfit H Hd. destruct (saved_fits _ _ H) as (? & ? & _). unfold entry_ram.
  rewrite (load_ext (stored saved (c.(regs) RSP - 144) c.(regs) c.(ram))) by (intros b Hb; rewrite !store_ne by lia; done).
  rewrite (stored_load saved _ _ saved_spaced _ _ _ H). by apply Z.mod_small.
Qed.

(** The rights of a function are enough for its stack and the visor's. *)
Lemma func_rights k : 0 ≤ k < 16 → ∃ p, grant_func_perm 0xCFFFFFFC k = Ok p ∧ wrap 32 p = p ∧
  writable p k = true ∧ writable p 0 = true.
Proof.
  intros Hk. assert (H : forallb (λ k, match grant_func_perm 0xCFFFFFFC k with
    | Ok p => (wrap 32 p =? p) && writable p k && writable p 0 | Err _ => false end) (seqZ 0 16) = true) by reflexivity.
  rewrite forallb_forall in H. specialize (H k). destruct (grant_func_perm _ k) as [p|e].
  - apply andb_true_iff in H as [[E H1]%andb_true_iff H2]; [|by apply list_elem_of_In, elem_of_seqZ].
    exists p. by apply Z.eqb_eq in E.
  - discriminate H. by apply list_elem_of_In, elem_of_seqZ.
Qed.
End machine.

(** ** What the switch does *)
Section switch.
Context (key_of : Z → Z) (callee : Z → Machine → option Machine) (behind : Z).

(** What a function keeps to: the calling convention, in memory that is its own,
    and the rights, which [rust_main] leaves or opens. *)
Definition callee_saved : list reg := [RBX; RBP; R12; R13; R14; R15].
Definition conforms (main stack : Z) (own : Z → Prop) : Prop := ∀ ce,
  ce.(regs) RSP mod 16 = 8 → stack + SERVICE_STACK_SIZE - 2 * PAGE_SIZE ≤ ce.(regs) RSP ≤ stack_top stack → load64 ce.(ram) (ce.(regs) RSP) = behind →
  (∀ b, stack ≤ b < stack_top stack → writable ce.(rights) (key_of b) = true) →
  ∃ cr, callee main ce = Some cr ∧ cr.(regs) RSP = ce.(regs) RSP + 8 ∧
    (∀ r, r ∈ callee_saved → cr.(regs) r = ce.(regs) r) ∧
    (∀ b, ¬ own b → b < stack ∨ ce.(regs) RSP + 8 ≤ b → cr.(ram) b = ce.(ram) b) ∧
    (cr.(rights) = ce.(rights) ∨ cr.(rights) = 0).

Lemma other_regs r : r ∉ [RAX; R12; R13] → r ≠ RSP → r ∉ saved.*1 → r ∈ [RBX; RBP; R14; R15].
Proof.
  intros H1 H2 H3. apply (bool_decide_pack _) in H1, H2, H3. apply (bool_decide_unpack _).
  by destruct r.
Qed.
Lemma other_saved r : r ∈ [RBX; RBP; R14; R15] → r ∈ callee_saved.
Proof. intros H. apply (bool_decide_pack _) in H. apply (bool_decide_unpack _). by destruct r. Qed.

Lemma entry_place stack : stack mod PAGE_SIZE = 0 → 0 ≤ stack → stack + SERVICE_STACK_SIZE ≤ 2 ^ 63 →
  (stack_top stack - 24) mod 16 = 8 ∧ round_up (stack_top stack - 24) tt = (Ret (stack_top stack), tt).
Proof.
  unfold stack_top. change SERVICE_STACK_SIZE with 8388608. change PAGE_SIZE with 4096.
  intros Ha H0 H1. apply Z.div_exact in Ha; [|done]. rewrite Ha. set (q := stack / 4096) in *. split.
  - replace (4096 * q + 8388608 - 4096 - 24) with (8 + (256 * q + 524030) * 16) by lia. by rewrite Z.mod_add.
  - rewrite round_up_eq by lia. do 2 f_equal.
    replace (4096 * q + 8388608 - 4096 - 24 + 4095) with (4071 + (q + 2047) * 4096) by lia.
    rewrite Z.div_add by done. change (4071 / 4096) with 0. lia.
Qed.
Lemma entry_rights (mpk : bool) pkey : (mpk = true → 0 ≤ pkey < 16) → ∃ p, wrap 32 p = p ∧
  (mpk = true → grant_func_perm 0xCFFFFFFC pkey = Ok p ∧ writable p pkey = true ∧ writable p 0 = true).
Proof.
  intros Hk. destruct mpk; [|by exists 0]. destruct (func_rights pkey (Hk eq_refl)) as (p & E & Hw & Hp & H2).
  by exists p.
Qed.

(** Where the caller's frame and the function's stack are. *)
Record apart (stack : Z) (own : Z → Prop) (c : Machine) : Prop := mk_apart {
  stack_aligned : stack mod PAGE_SIZE = 0;
  stack_in : 0 ≤ stack ∧ stack + SERVICE_STACK_SIZE ≤ 2 ^ 63;
  frame_in : 144 ≤ c.(regs) RSP < 2 ^ 64;
  frame_apart : c.(regs) RSP ≤ stack ∨ stack + SERVICE_STACK_SIZE ≤ c.(regs) RSP - 144;
  own_apart : ∀ b, own b → ¬ (c.(regs) RSP - 144 ≤ b < c.(regs) RSP) ∧ ¬ (stack_top stack - 16 ≤ b < stack_top stack)
}.

(** C19: the stack switch, with protection keys or without: the function is entered on
    its own stack, aligned as the calling convention asks, right below the page of its
    arguments, which is as [write_args] left it, and with the rights of its key; when
    it returns, every register but the result's and the operands' has the value it had
    before, the stack pointer included, the result's register is the function's, and
    no memory has changed but the function's, its stack and the 144 bytes below the
    caller's stack pointer.  Nothing faults, even if the function returns with its own
    rights, which the visor then keeps. *)
Theorem stack_switch (enable_mpk : bool) pkey main stack own c :
  conforms main stack own → apart stack own c → (∀ r, fits 64 (c.(regs) r)) → fits 64 behind → c.(rights) = 0 →
  (enable_mpk = true → 0 ≤ pkey < 16 ∧ (∀ b, stack ≤ b < stack_top stack → key_of b = pkey) ∧
     ∀ b, c.(regs) RSP - 144 ≤ b < c.(regs) RSP → key_of b = 0) →
  ∃ ce cr c', callee main ce = Some cr ∧
    invoke_elf_symbol key_of callee behind enable_mpk pkey main (stack_top stack) c = Some (Ok c') ∧
    (ce.(regs) RSP = stack_top stack - 24 ∧ ce.(regs) RSP mod 16 = 8 ∧
     round_up (ce.(regs) RSP) tt = (Ret (stack_top stack), tt) ∧
     (∀ b, stack_top stack ≤ b < stack_top stack + PAGE_SIZE → ce.(ram) b = c.(ram) b) ∧
     (if enable_mpk then grant_func_perm 0xCFFFFFFC pkey = Ok ce.(rights) else ce.(rights) = 0)) ∧
    (∀ r, r ∉ [RAX; R12; R13] → c'.(regs) r = c.(regs) r) ∧ c'.(regs) RAX = cr.(regs) RAX ∧ c'.(rights) = cr.(rights) ∧
    ∀ b, ¬ own b → b < stack ∨ stack_top stack ≤ b → b < c.(regs) RSP - 144 ∨ c.(regs) RSP ≤ b →
      c'.(ram) b = c.(ram) b.
Proof.
  intros Hconf [Ha H0 HR Hd Hown] Hfit Hb Hr Hk.
  change SERVICE_STACK_SIZE with 8388608 in *. change PAGE_SIZE with 4096 in *.
  assert (Htop : stack_top stack = stack + 8384512) by (unfold stack_top; change SERVICE_STACK_SIZE with 8388608; change PAGE_SIZE with 4096; lia).
  assert (Hall : ∀ k, writable 0 k = true) by (intros k; unfold writable, readable; by rewrite !Z.testbit_0_l).
  destruct (entry_rights enable_mpk pkey (λ Hm, proj1 (Hk Hm))) as (p & Hp & Hgrant).
  set (U := stack_top stack - 16). assert (HU : U = stack + 8384496) by lia. clearbody U.
  destruct (enter_run key_of callee behind enable_mpk p main U c) as (ce & Hrun & Hsp & Hreg & Hri & Hram); try done; [lia|lia| |].
  { intros Hm b Hbs. destruct (Hgrant Hm) as (_ & Hw & _). destruct (Hk Hm) as (_ & -> & _); [done|lia]. }
  assert (Hopen : ∀ b, (stack ≤ b < stack_top stack ∨ c.(regs) RSP - 144 ≤ b < c.(regs) RSP) → writable ce.(rights) (key_of b) = true).
  { intros b Hbs. rewrite Hri. destruct enable_mpk; [|apply Hall]. destruct (Hgrant eq_refl) as (_ & Hw & Hw0).
    destruct (Hk eq_refl) as (_ & Hs & Hf). destruct Hbs as [Hbs|Hbs]; [by rewrite Hs|by rewrite Hf]. }
  destruct (entry_place stack Ha (proj1 H0) (proj2 H0)) as [Hal Hround].
  assert (Esp : ce.(regs) RSP = stack_top stack - 24) by (rewrite Hsp, HU, Htop; lia). rewrite <- Esp in Hal, Hround.
  destruct (Hconf ce) as (cr & Hcall & Hspr & Hcs & Hmem & Hrr); [done|rewrite Esp, Htop; change SERVICE_STACK_SIZE with 8388608; change PAGE_SIZE with 4096; lia| |by intros b Hbs; apply Hopen; left|].
  { rewrite Hram, Hsp. unfold entry_ram. rewrite load_store_same. by apply Z.mod_small. }
  assert (Hopen' : ∀ b, (stack ≤ b < stack_top stack ∨ c.(regs) RSP - 144 ≤ b < c.(regs) RSP) → writable cr.(rights) (key_of b) = true)
    by (intros b Hbs; destruct Hrr as [-> | ->]; [by apply Hopen|apply Hall]).
  destruct (leave_run key_of callee behind (c.(regs) RSP - 144) U cr c.(regs)) as (c' & Hleave & Hs' & Hram' & Hri' & Hin & Hout);
    [lia|lia|lia|lia|lia| | | | |].
  - intros b Hbs. apply writable_readable, Hopen'. lia.
  - intros b Hbs. apply Hopen'. lia.
  - rewrite (load_ext ce.(ram)), Hram.
    + unfold entry_ram. rewrite (load_ext (store64 (stored saved (regs c RSP - 144) (regs c) (ram c)) (U + 8) (regs c RSP - 144)))
        by (intros b Hbs; rewrite store_ne by lia; done).
      rewrite load_store_same. apply Z.mod_small. lia.
    + intros b Hbs. apply Hmem; [|lia]. intros Ho. destruct (Hown b Ho). lia.
  - intros r off Hin. destruct (saved_fits r off Hin) as (? & ? & _). rewrite (load_ext ce.(ram)), Hram.
    + apply entry_saved; [apply Hfit|done|lia].
    + intros b Hbs. destruct Hd; apply Hmem; try lia; intros Ho; destruct (Hown b Ho); lia.
  - exists ce, cr, c'. split_and!; try done; try lia.
    + unfold invoke_elf_symbol. assert (E : exec_all key_of callee behind (enter enable_mpk ++ leave) (operands enable_mpk p main U c) = Some c')
        by (rewrite Hrun, Hcall; exact Hleave).
      replace (stack_top stack - 16) with U by lia.
      destruct enable_mpk; [destruct (Hgrant eq_refl) as (-> & _)|]; unfold operands in E; by rewrite E.
    + intros b Hbs. rewrite Hram. apply entry_other; lia.
    + rewrite Hri. destruct enable_mpk; [by destruct (Hgrant eq_refl)|done].
    + intros r Hn. destruct (decide (r ∈ saved.*1)) as [Hs|Hs]; [by apply Hin|].
      destruct (decide (r = RSP)) as [->|Hne]; [lia|]. rewrite Hout by (apply not_elem_of_cons; by split).
      assert (Hr4 := other_regs r Hn Hne Hs). rewrite Hcs by by apply other_saved. by apply Hreg.
    + apply Hout. cbn. set_solver.
    + intros b Hno Hbs Hbf. rewrite Hram', Hmem, Hram by (done || lia). apply entry_other; lia.
Qed.
End switch.

(** ** A function on the machine *)
Module Demo.
Definition stack : Z := 65536.
Definition key_of (b : Z) : Z := if (stack <=? b) && (b <? stack + SERVICE_STACK_SIZE) then 3 else 0.
(** It keeps a local variable, uses registers as it likes, and returns an address. *)
Definition callee (main : Z) (c : Machine) : option Machine :=
  let sp := c.(regs) RSP in
  Some (set_ram (store64 c.(ram) (sp - 16) 5)
    (set_reg RSP (sp + 8) (set_reg RAX (sp - 16) (set_reg RCX 7 (set_reg R11 main c))))).
Definition caller : Machine := mk_machine (λ r, match r with RSP => 2 ^ 40 | RCX => 11 | RDX => 12 | R11 => 13 | _ => 1 end) (λ _, 0) 0.
Definition own (b : Z) : Prop := False.

(** Entered with keys, the caller's registers come back. *)
Example switched : (λ r, match r with Some (Ok c) => map c.(regs) [RSP; RCX; RDX; R11; RBX] ++ [c.(rights)] | _ => [] end)
    (invoke_elf_symbol key_of callee 9 true 3 4096 (stack_top stack) caller) = [2 ^ 40; 11; 12; 13; 1; 0xCFFFFF3C].
Proof. by vm_compute. Qed.

Lemma callee_conforms main : conforms key_of callee 9 main stack own.
Proof.
  intros ce Hal Hin _ _. eexists. split; [done|]. split; [done|]. split.
  - intros r Hr. apply (bool_decide_pack _) in Hr. by destruct r.
  - split; [|by left]. intros b _ Hb. cbn [callee set_ram ram]. apply store_ne.
    change SERVICE_STACK_SIZE with 8388608 in *. change PAGE_SIZE with 4096 in *. lia.
Qed.
Lemma callee_apart : apart stack own caller.
Proof.
  split; change (caller.(regs) RSP) with (2 ^ 40); change stack with 65536; change SERVICE_STACK_SIZE with 8388608;
    [reflexivity|lia|lia|lia|by intros b []].
Qed.
Lemma caller_fits r : fits 64 (caller.(regs) r).
Proof. unfold fits. destruct r; cbn [caller regs]; lia. Qed.
Lemma caller_keys : true = true → 0 ≤ 3 < 16 ∧ (∀ b, stack ≤ b < stack_top stack → key_of b = 3) ∧
  ∀ b, caller.(regs) RSP - 144 ≤ b < caller.(regs) RSP → key_of b = 0.
Proof.
  intros _. unfold key_of, stack_top. change SERVICE_STACK_SIZE with 8388608. change PAGE_SIZE with 4096.
  change (caller.(regs) RSP) with (2 ^ 40). change stack with 65536. split; [lia|]. split; intros b Hb.
  - by replace ((65536 <=? b) && (b <? 65536 + 8388608)) with true by lia.
  - by replace ((65536 <=? b) && (b <? 65536 + 8388608)) with false by lia.
Qed.
Lemma kept_regs : (RSP ∉ [RAX; R12; R13]) ∧ (RCX ∉ [RAX; R12; R13]).
Proof. split; by apply (bool_decide_unpack _). Qed.
Lemma args_apart b : stack_top stack ≤ b < stack_top stack + PAGE_SIZE →
  ¬ own b ∧ (b < caller.(regs) RSP - 144 ∨ caller.(regs) RSP ≤ b).
Proof.
  unfold stack_top. change (caller.(regs) RSP) with (2 ^ 40). change SERVICE_STACK_SIZE with 8388608.
  change PAGE_SIZE with 4096. change stack with 65536. intros Hb. split; [by intros []|lia].
Qed.
Lemma behind_fits : fits 64 9.
Proof. by vm_compute. Qed.
Lemma stack_switch_witness : ∃ c',
  invoke_elf_symbol key_of callee 9 true 3 4096 (stack_top stack) caller = Some (Ok c') ∧
  c'.(regs) RSP = 2 ^ 40 ∧ c'.(regs) RCX = 11 ∧ ∀ b, stack_top stack ≤ b < stack_top stack + PAGE_SIZE → c'.(ram) b = 0.
Proof.
  destruct (stack_switch key_of callee 9 true 3 4096 stack own caller (callee_conforms 4096) callee_apart caller_fits
    behind_fits eq_refl caller_keys) as (ce & cr & c' & _ & E & _ & Hr & _ & _ & Hm).
  exact (ex_intro _ c' (conj E (conj (Hr RSP (proj1 kept_regs)) (conj (Hr RCX (proj2 kept_regs))
    (λ b Hb, Hm b (proj1 (args_apart b Hb)) (or_intror (proj1 Hb)) (proj2 (args_apart b Hb))))))).
Defined.
End Demo.
