(* ===== verification/DataFiles.v ===== *)
(** * Data buffers in files (as_std::agent, the file-based build)

    With the feature [file-based] a [DataBuffer] is not memory the functions share:
    dropping a buffer writes its value as JSON to the file named after its slot,
    and [from_buffer_slot] reads the file back.  The crate serde_json is [Serde].
    A file is closed when its scope ends, also by a panic. *)
From S2P Require Import Prelude Bytes Hostcall Fdtab AsStd.

(** serde_json for values of [T], and [T]'s default value. *)
Class Serde (T : Type) : Type := {
  to_string : T → option (list byte);
  from_slice : list byte → option T;
  default_value : T
}.

Record FileBuffer (T : Type) : Type := mk_filebuf { inner : T; slot : string; used : bool }.
Arguments mk_filebuf {T}.
Arguments inner {T}.
Arguments slot {T}.
Arguments used {T}.

Section datafiles.
Context {W T : Type} `{FB : !FdBackend W} `{SD : !Serde T}.
Local Abbreviation M := (prog (FdState W)).

(** [body] with [f] in scope, which is dropped at its end. *)
Definition scope_file {A} (f : StdFile) (body : M A) : M A := λ s,
  match body s with
  | (Ret a, s) => (file_drop f;; mret a) s
  | (Panic, s) => (Panic, (file_drop f s).2)
  | r => r
  end.

Definition imd (slot : string) : string := slot +:+ ".imd".

Definition with_slot (slot : string) : FileBuffer T := mk_filebuf default_value slot false.
Definition new : FileBuffer T := with_slot "".

(** [*b] and [*b = v]. *)
Definition deref (b : FileBuffer T) : T := b.(inner).
Definition assign (b : FileBuffer T) (v : T) : FileBuffer T := mk_filebuf v b.(slot) b.(used).
(** [From<T>] *)
Definition from_value (v : T) : FileBuffer T := assign new v.

Definition from_buffer_slot (fuel : nat) (slot : string) : M (option (FileBuffer T)) :=
  r ← file_open (imd slot);
  match r with
  | Err _ => mret None
  | Ok content =>
      scope_file content (
        '(r, buffer) ← read_to_end fuel (file_read content) [];
        _ ← unwrap_ok r;
        v ← unwrap (from_slice buffer);
        mret (Some (mk_filebuf v slot true)))
  end.
Definition from_buffer (fuel : nat) : M (option (FileBuffer T)) := from_buffer_slot fuel "".

(** [File::write_str] *)
Definition write_str (f : StdFile) (s : list byte) : M (result () ()) :=
  r ← write_all (length s) (file_write f) s; mret (map_err (λ _, ()) r).

(** [Drop for DataBuffer] *)
Definition drop_buffer (b : FileBuffer T) : M () :=
  if b.(used) then mret ()
  else
    r ← file_create (imd b.(slot));
    content ← unwrap_ok r;
    scope_file content (
      data_str ← unwrap (to_string b.(inner));
      r ← write_str content data_str;
      unwrap_ok r).
End datafiles.
