(* ===== verification/DataFilesSpec.v ===== *)
(** * Handing values over in files

    What the file-based buffers give the receiver, with the descriptor table and
    the FAT service running below: the file of a slot keeps the bytes a longer
    value left there, since creating a file does not empty it. *)
From Stdlib Require Import Ascii.
From stdpp Require Import functions.
From S2P Require Import Prelude Bytes Hostcall Fdtab Fatfs FileStack AsStd AsStdSpec DataFiles.
Local Open Scope Z_scope.

(** ** Names of files

    The names this development uses with the crate: letters, digits, [_], [-] and [.],
    which it allows in long names, at most 255 of them, with no dot at either end; a
    short alias the crate makes up for another file has a [~] in it.  The crate
    compares names without regard to case. *)
Definition fat_char (c : ascii) : bool :=
  let n := N_of_ascii c in
  ((48 <=? n) && (n <=? 57) || (65 <=? n) && (n <=? 90) || (97 <=? n) && (n <=? 122) ||
   (n =? 45) || (n =? 46) || (n =? 95))%N.
Definition fat_name (p : string) : bool :=
  let l := String.list_ascii_of_string p in
  forallb fat_char l && (String.length p <=? 255)%nat &&
  match head l, last l with
  | Some a, Some z => negb (bool_decide (a = "."%char)) && negb (bool_decide (z = "."%char))
  | _, _ => false
  end.

Definition fold_char (c : ascii) : ascii :=
  let n := N_of_ascii c in if ((65 <=? n) && (n <=? 90))%N then ascii_of_N (n + 32) else c.
Fixpoint fold_case (p : string) : string :=
  match p with EmptyString => EmptyString | String c p => String (fold_char c) (fold_case p) end.

(** What the fatfs crate documents about names: [dir fs] has the files of the root
    directory under their names in lower case.  [free fs m n] says that [m] files can
    be added and [n] bytes, were each byte to take a cluster of its own, that the root
    directory has no directories in it and that the host reads and writes the image.
    Creating a file that exists opens it as it is.  Dropping a file flushes it, which
    does nothing to a [clean] one, opened or read or flushed since the last write. *)
Class FatNames (FS F : Type) {FC : FatCrate FS F} {FSp : FatCrateSpec FS F} : Type := {
  dir : FS → string → option (list byte);
  fname : F → string;
  clean : F → Prop;
  free : FS → nat → nat → Prop;
  create_names : ∀ p fs m n, fat_name p = true → free fs (S m) n →
    ∃ f fs', create_file p fs = (Ret (Some f), fs') ∧
    fname f = fold_case p ∧ clean f ∧ fpos f = O ∧ content fs' f = default [] (dir fs (fold_case p)) ∧
    free fs' m n ∧
    ∀ q, dir fs' q = if decide (q = fold_case p) then Some (content fs' f) else dir fs q;
  open_names : ∀ p fs c, fat_name p = true → dir fs (fold_case p) = Some c →
    ∃ f fs', open_file p fs = (Ret (Some f), fs') ∧
    fname f = fold_case p ∧ clean f ∧ fpos f = O ∧ content fs' f = c ∧
    (∀ m n, free fs m n → free fs' m n) ∧ ∀ q, dir fs' q = dir fs q;
  open_missing : ∀ p fs, fat_name p = true → dir fs (fold_case p) = None →
    ∃ fs', open_file p fs = (Ret None, fs') ∧
    (∀ m n, free fs m n → free fs' m n) ∧ ∀ q, dir fs' q = dir fs q;
  write_names : ∀ fs f b m n, free fs m n → (length b ≤ n)%nat →
    (fpos f ≤ length (content fs f))%nat → Z.of_nat (fpos f) + zlen b < 2 ^ 32 →
    ∃ fs' f', (f_write_all b ;;? f_flush) (fs, f) = (Ret (Ok ()), (fs', f')) ∧ fname f' = fname f ∧
      clean f' ∧ free fs' m (n - length b) ∧
      ∀ q, dir fs' q = if decide (q = fname f) then Some (content fs' f') else dir fs q;
  read_names : ∀ fs f buf r fs' f', f_read buf (fs, f) = (Ret r, (fs', f')) →
    fname f' = fname f ∧ (clean f → clean f') ∧ (∀ m n, free fs m n → free fs' m n) ∧
    ∀ q, dir fs' q = dir fs q;
  drop_names : ∀ fs f, clean f → ∃ r fs' f', f_flush (fs, f) = (Ret r, (fs', f')) ∧
    (∀ m n, free fs m n → free fs' m n) ∧ ∀ q, dir fs' q = dir fs q
}.

Section spec.
Context {FS F N : Type} {FC : FatCrate FS F} {FSp : FatCrateSpec FS F} {FN : FatNames FS F}
  {HI : HostImage FS} {SS : SockService N}.
Local Abbreviation State := (FdState (LowerState FS F N)).
Implicit Types (st : State) (d : string → option (list byte)).

(** The file system a call finds: mounted already, or by the call. *)
Definition mounts (s : FatfsState FS F) (fs : FS) : Prop :=
  s.(poisoned) = false ∧ (s.(fs_ref) = Some fs ∨ (s.(fs_ref) = None ∧ open_image = Some fs)).

(** The files are [d], [m] files and [n] bytes can be added, and [k] files opened. *)
Record ready d (m n : nat) (k : Z) st : Prop := {
  rd_fds : zlen st.1 + k + 3 < 2 ^ 32;
  rd_slots : zlen st.2.1.(table) + k < 2 ^ 32;
  rd_fs : ∃ fs, mounts st.2.1 fs ∧ free fs m n ∧ ∀ q, dir fs q = d q
}.

(** File [p] is open as [fd] with its bytes [c], at [pos]. *)
Record opened (md : Z) (p : string) (fd : Fd) (c : list byte) (pos : nat) d (m n : nat) (k : Z) st
    : Prop := {
  op_fd : 3 ≤ fd ∧ fits 32 fd;
  op_pos : (pos ≤ length c)%nat;
  op_fds : zlen st.1 + k + 3 < 2 ^ 32;
  op_slots : zlen st.2.1.(table) + k < 2 ^ 32;
  op_file : ∃ h fs f, lookup_fd st.1 fd = Some (mk_file md (FatFS h)) ∧ 0 ≤ h ∧
    open_slot st.2.1 h fs f ∧ (fname f = p ∧ clean f) ∧ content fs f = c ∧ fpos f = pos ∧ free fs m n ∧
    ∀ q, dir fs q = d q
}.

Lemma get_fs_ref_mounts s fs : mounts s fs →
  get_fs_ref s = (Ret fs, mk_fatfs s.(table) s.(poisoned) (Some fs)).
Proof.
  intros [Hp Hm]. unfold get_fs_ref, mbind, prog_mbind, gets, unwrap, modify. destruct s as [t b r].
  cbn in *. destruct Hm as [-> | [-> Ho]]; [done|]. by rewrite Ho.
Qed.

(** Opening a file the crate can open or create. *)
Lemma fatfs_open_found p flags s fs f fs' : mounts s fs → zlen s.(table) < 2 ^ 32 →
  (if contains flags O_CREAT then create_file p else open_file p) fs = (Ret (Some f), fs') →
  fatfs_open p flags s =
    (Ret (Ok (zlen s.(table))), mk_fatfs (s.(table) ++ [Some f]) false (Some fs')).
Proof.
  intros Hm Hl E. assert (Hp := proj1 Hm). unfold fatfs_open. apply locked_Ret; [done|].
  rewrite (bind_Ret _ _ _ _ _ (get_fs_ref_mounts s fs Hm)).
  unfold mbind at 1, prog_mbind at 1, on_fs. cbn [fs_ref table]. rewrite E, Hp. cbn.
  unfold add_file, mbind, prog_mbind, modify, gets, mret, prog_mret. cbn [table fs_ref poisoned].
  rewrite zlen_app. unfold wrap. rewrite Z.mod_small; [|unfold zlen in *; cbn; lia].
  do 3 f_equal. unfold zlen. cbn. lia.
Qed.
Lemma fatfs_open_none p s fs fs' : mounts s fs → open_file p fs = (Ret None, fs') →
  fatfs_open p 0 s = (Ret (Err Unknown), mk_fatfs s.(table) false (Some fs')).
Proof.
  intros Hm E. assert (Hp := proj1 Hm). unfold fatfs_open. apply locked_Ret; [done|].
  rewrite (bind_Ret _ _ _ _ _ (get_fs_ref_mounts s fs Hm)).
  unfold mbind at 1, prog_mbind at 1, on_fs. cbn [fs_ref table]. change (contains 0 O_CREAT) with false.
  cbn iota. by rewrite E, Hp.
Qed.

(** [fd] is new, on a new slot; the other descriptors and slots are as before. *)
Definition adds (fd : Fd) st st' : Prop :=
  lookup_fd st.1 fd = None ∧ (∀ fd', fd' ≠ fd → lookup_fd st'.1 fd' = lookup_fd st.1 fd') ∧
  (∃ md, lookup_fd st'.1 fd = Some (mk_file md (FatFS (zlen st.2.1.(table))))) ∧
  ∃ f, st'.2.1.(table) = st.2.1.(table) ++ [Some f].

Lemma fdtab_open_found p q flags md d d' m m' n n' k st fs f fs' c :
  ready d m n (k + 1) st → 0 ≤ k → mounts st.2.1 fs →
  (if contains flags O_CREAT then create_file p else open_file p) fs = (Ret (Some f), fs') →
  fname f = q → clean f → fpos f = O → content fs' f = c → free fs' m' n' → (∀ q, dir fs' q = d' q) →
  ∃ fd st', Fdtab.open p flags md st = (Ret (Ok fd), st') ∧ opened md q fd c 0 d' m' n' k st' ∧ adds fd st st'.
Proof.
  intros [Hf Hs _] Hk Hm E Hn Hcl Hp Hc Hfr Hd. destruct st as [t [w nn]]. cbn in *.
  set (w' := mk_fatfs (w.(table) ++ [Some f]) false (Some fs')).
  assert (Ho := fatfs_open_found p flags w fs f fs' Hm ltac:(lia) E).
  set (h := zlen w.(table)) in *.
  destruct (wp_add_file (mk_file md (FatFS h)) t (w', nn) ltac:(lia))
    as (fd & t' & Ha & H3 & Hle & Hnone & _ & Hlk & Hlen).
  exists fd, (t', (w', nn)). split; [|split].
  - unfold Fdtab.open.
    rewrite (try_bind_Ok _ _ _ h (t, (w', nn))).
    + by rewrite (bind_Ret _ _ _ _ _ Ha).
    + apply (fmap_Ret lift_fat _ _ (Ok h)). unfold below, on. cbn [snd hc_fatfs_open stack_backend].
      rewrite (in_fat_Ret _ _ _ _ _ Ho). done.
  - split; cbn; try lia.
    + split; [done|]. unfold fits. lia.
    + rewrite zlen_app. unfold h, zlen in *. cbn. lia.
    + exists h, fs', f. rewrite Hlk, decide_True by done. split_and!; try done.
      * unfold h. apply zlen_nonneg.
      * split; [done|]. split; [done|]. unfold w', h, zlen. cbn.
        by rewrite Nat2Z.id, lookup_app_r, Nat.sub_diag.
  - split; [done|]. split; [intros fd' Hne; cbn; by rewrite Hlk, decide_False|].
    split; [exists md; cbn; by rewrite Hlk, decide_True|by exists f].
Qed.

Lemma file_open_ready p c d m n k st : ready d m n (k + 1) st → 0 ≤ k → fat_name p = true → d (fold_case p) = Some c →
  ∃ fd st', file_open p st = (Ret (Ok (mk_stdfile fd)), st') ∧ opened OpenMode_RD (fold_case p) fd c 0 d m n k st' ∧
    adds fd st st'.
Proof.
  intros Hr Hk Hp Hd. destruct (rd_fs _ _ _ _ _ Hr) as (fs & Hm & Hfr & Hdir).
  destruct (open_names p fs c Hp) as (f & fs' & E & Hn & Hcl & Hpos & Hc & Hfr' & Hdir'); [by rewrite Hdir|].
  destruct (fdtab_open_found p _ 0 OpenMode_RD d d m m n n k st fs f fs' c Hr Hk Hm E Hn Hcl Hpos Hc)
    as (fd & st' & Eo & Ho); [by apply Hfr'|intros q; by rewrite Hdir'|].
  exists fd, st'. split; [|done]. unfold file_open. by rewrite (try_bind_Ok _ _ _ _ _ Eo).
Qed.

Lemma file_create_ready p d m n k st : ready d (S m) n (k + 1) st → 0 ≤ k → fat_name p = true →
  let q := fold_case p in let c := default [] (d q) in
  ∃ fd st', file_create p st = (Ret (Ok (mk_stdfile fd)), st') ∧
    opened OpenMode_RDWR q fd c 0 (<[q := Some c]> d) m n k st' ∧ adds fd st st'.
Proof.
  intros Hr Hk Hp p' c. destruct (rd_fs _ _ _ _ _ Hr) as (fs & Hm & Hfr & Hdir).
  destruct (create_names p fs m n Hp Hfr) as (f & fs' & E & Hn & Hcl & Hpos & Hc & Hfr' & Hdir').
  rewrite Hdir in Hc.
  destruct (fdtab_open_found p _ O_CREAT OpenMode_RDWR d (<[p' := Some c]> d) (S m) m n n k st fs f fs' c
    Hr Hk Hm E Hn Hcl Hpos Hc Hfr') as (fd & st' & Eo & Ho).
  { intros q. rewrite Hdir', Hc. case_decide as Hq; [subst; by rewrite fn_lookup_insert|].
    rewrite fn_lookup_insert_ne by done. apply Hdir. }
  exists fd, st'. split; [|done]. unfold file_create. by rewrite (try_bind_Ok _ _ _ _ _ Eo).
Qed.

(** ** Reading, writing and closing *)

Lemma read_loop_names fuel : ∀ buf fs f r0 r fs' f', Fatfs.read_loop fuel buf r0 (fs, f) = (Ret r, (fs', f')) →
  fname f' = fname f ∧ (clean f → clean f') ∧ (∀ m n, free fs m n → free fs' m n) ∧ ∀ q, dir fs' q = dir fs q.
Proof.
  induction fuel as [|fuel IH]; intros buf fs f r0 r fs' f'.
  { destruct buf; [|done]. by intros [= _ <- <-]. }
  destruct (decide (buf = [])) as [->|Hne]; [by intros [= _ <- <-]|].
  rewrite read_loop_cons by done.
  intros ([r1 b1] & [fs1 f1] & E1 & E2)%bind_Ret_inv. destruct (read_names _ _ _ _ _ _ E1) as (Hn & Hcl & Hf & Hd).
  destruct r1 as [size|e]; [|by injection E2 as _ <- <-].
  destruct (size =? 0); [by injection E2 as _ <- <-|].
  apply bind_Ret_inv in E2 as (rs & s2 & E2 & E3).
  assert (s2 = (fs1, f1)) as -> by (revert E2; unfold checked; case_match; by intros [= _ <-]).
  apply bind_Ret_inv in E3 as (rest & s3 & E3 & E4).
  assert (s3 = (fs1, f1)) as -> by (revert E3; unfold unwrap; case_match; by intros [= _ <-]).
  apply bind_Ret_inv in E4 as ([r2 b2] & [fs4 f4] & E4 & [= _ <- <-]).
  destruct (IH _ _ _ _ _ _ _ E4) as (Hn' & Hcl' & Hf' & Hd'). split_and!; [congruence|eauto|eauto|].
  intros q. by rewrite Hd'.
Qed.

(** A call that changes the file of [fd] only. *)
Definition moves_file (fd : Fd) st st' : Prop := ∃ md h fs f,
  lookup_fd st.1 fd = Some (mk_file md (FatFS h)) ∧ 0 ≤ h ∧ st' = (st.1, (set_slot st.2.1 h fs f, st.2.2)).

Lemma opened_read md p fd d u n k c pos buf st : contains md OpenMode_RD = true →
  opened md p fd c pos d u n k st → zlen buf < 2 ^ 64 → (pos ≤ length c)%nat ∧
  ∃ m st', file_read (mk_stdfile fd) buf st = (Ret (Ok (Z.of_nat m), sub c pos m ++ drop m buf), st') ∧
    (opened md p fd c (pos + m) d u n k st' ∧ moves_file fd st st') ∧ (m ≤ length buf)%nat ∧
    (pos + m ≤ length c)%nat ∧ (m = O → buf = [] ∨ pos = length c).
Proof.
  intros Hmd [[H3 Hfd] Hle Hf Hs (h & fs & f & Hl & Hh & Ho & [Hn Hcl] & <- & <- & Hfr & Hd)] Hb.
  split; [done|]. destruct st as [t [w nn]]. cbn in *.
  destruct (read_loop_spec (S (length buf)) buf fs f 0) as (fs1 & f1 & Hr & Hc & Hp); [lia..|].
  destruct (read_loop_names _ _ _ _ _ _ _ _ Hr) as (Hn1 & Hcl1 & Hfr1 & Hd1).
  set (m := Nat.min (length buf) (length (content fs f) - fpos f)) in *.
  exists m, (t, (set_slot w h fs1 f1, nn)). split.
  - apply (read_fat fd t md h); try done. apply in_fat_Ret. unfold fatfs_read.
    destruct Ho as (Hpo & Hfs & Ht). apply locked_Ret; [done|].
    rewrite (get_file_mut_bind w h f) by (unfold get_file_mut; by rewrite Ht).
    by apply on_slot_Ret with (fs := fs).
  - split; [split; [split; cbn; try done; try lia|by exists md, h, fs1, f1]|].
    + unfold zlen. rewrite length_insert. exact Hs.
    + exists h, fs1, f1. split_and!; try done; [by eapply open_slot_set|congruence|by apply Hcl1|by apply Hfr1|].
      intros q. by rewrite Hd1.
    + split_and!; [lia|lia|]. intros Hz. destruct buf; [by left|right; unfold m in Hz; cbn [length] in Hz; lia].
Qed.
Lemma opened_reads md p fd d u n k : contains md OpenMode_RD = true →
  reads (λ c pos st, opened md p fd c pos d u n k st) (file_read (mk_stdfile fd)).
Proof.
  intros Hmd c pos buf st Ho Hb.
  destruct (opened_read md p fd d u n k c pos buf st Hmd Ho Hb) as (Hle & m & st' & E & [Ho' _] & H).
  split; [done|]. by exists m, st'.
Qed.

Lemma opened_write_at p fd c pos d m n k b st : opened OpenMode_RDWR p fd c pos d m n k st → (length b ≤ n)%nat →
  Z.of_nat pos + zlen b < 2 ^ 32 → let c' := overwrite c pos b in
  ∃ st', file_write (mk_stdfile fd) b st = (Ret (Ok (zlen b)), st') ∧
    opened OpenMode_RDWR p fd c' (pos + length b) (<[p := Some c']> d) m (n - length b) k st' ∧ moves_file fd st st'.
Proof.
  intros [[H3 Hfd] Hle Hf Hs (h & fs & f & Hl & Hh & Ho & [Hn Hcl] & <- & <- & Hfr & Hd)] Hb H32 c'.
  destruct st as [t [w nn]]. cbn in *.
  destruct (write_names fs f b m n Hfr Hb Hle H32) as (fs1 & f1 & Hw & Hn1 & Hcl1 & Hfr1 & Hd1).
  destruct (write_flush_content _ _ _ _ _ Hw Hle) as [Hc Hp].
  exists (t, (set_slot w h fs1 f1, nn)). split; [|split; [|by exists OpenMode_RDWR, h, fs1, f1]].
  - apply (write_fat fd t OpenMode_RDWR h); try done. apply in_fat_Ret. by eapply fatfs_write_open.
  - split; cbn; try done.
    + unfold c', overwrite. rewrite !length_app, length_take. lia.
    + unfold zlen. rewrite length_insert. exact Hs.
    + exists h, fs1, f1. split_and!; try done; [by eapply open_slot_set|congruence|].
      intros q. rewrite Hd1. rewrite Hn in *. case_decide as Hq.
      * subst q. by rewrite fn_lookup_insert, Hc.
      * rewrite fn_lookup_insert_ne by done. apply Hd.
Qed.

(** Dropping a file flushes it, empties its slot and removes its descriptor. *)
Lemma file_drop_slot fd md h fs f t w nn : 3 ≤ fd → fits 32 fd → lookup_fd t fd = Some (mk_file md (FatFS h)) →
  open_slot w h fs f → clean f →
  ∃ t' fs', file_drop (mk_stdfile fd) ((t, (w, nn)) : State) =
    (Ret (), (t', (mk_fatfs (<[Z.to_nat h := None]> w.(table)) w.(poisoned) (Some fs'), nn))) ∧
    (∀ m n, free fs m n → free fs' m n) ∧ (∀ q, dir fs' q = dir fs q) ∧
    zlen t' = zlen t ∧ ∀ fd', lookup_fd t' fd' = if decide (fd' = fd) then None else lookup_fd t fd'.
Proof.
  intros H3 Hfd Hl (Hpo & Hfs & Ht) Hcl. destruct (remove_file_ge fd t (w, nn) H3 Hfd) as (t' & Er & Hlen & Hlk).
  destruct (drop_names fs f Hcl) as (r & fs' & f' & Ef & Hfr & Hd).
  set (w' := mk_fatfs (<[Z.to_nat h := None]> w.(table)) w.(poisoned) (Some fs')).
  assert (Ec : fatfs_close h w = (Ret (Ok ()), w')).
  { unfold fatfs_close. apply locked_Ret; [done|]. unfold Fatfs.remove_file, drop_file, mbind, prog_mbind, gets, modify.
    rewrite Ht. cbn [fs_ref]. by rewrite Hfs, Ef. }
  exists t', fs'. split; [|done].
  - unfold file_drop. cbn [raw_fd]. rewrite (bind_Ret _ _ _ (Ok ()) (t', (w', nn))); [done|].
    unfold close. rewrite std_fd_false by done. rewrite (bind_Ret _ _ _ _ _ Er), Hl. cbn [src].
    unfold mbind, prog_mbind, below, on. cbn [snd hc_fatfs_close stack_backend].
    by rewrite (in_fat_Ret _ _ _ _ _ Ec).
Qed.

Lemma opened_drop md p fd c pos d m n k st : opened md p fd c pos d m n k st →
  ∃ st', file_drop (mk_stdfile fd) st = (Ret (), st') ∧ ready d m n k st'.
Proof.
  intros [[H3 Hfd] Hle Hf Hs (h & fs & f & Hl & Hh & Ho & [Hn Hcl] & Hc & Hp & Hfr & Hd)].
  destruct st as [t [w nn]]. cbn in *.
  destruct (file_drop_slot fd md h fs f t w nn H3 Hfd Hl Ho Hcl) as (t' & fs' & E & Hfr' & Hd' & Hlen & _).
  eexists. split; [exact E|]. split; cbn; [lia|unfold zlen in *; by rewrite length_insert|].
  exists fs'. split_and!; [by split; [apply Ho|left]|by apply Hfr'|]. intros q. by rewrite Hd'.
Qed.

(** ** Buffers *)

Lemma ready_ext d d' m n k st : ready d m n k st → (∀ q, d q = d' q) → ready d' m n k st.
Proof.
  intros [Hf Hs (fs & Hm & Hfr & Hd)] E. split; [done|done|]. exists fs.
  split_and!; try done. intros q. by rewrite Hd.
Qed.

(** Calls that change the file of [fd] only, if any. *)
Definition touches (fd : Fd) st st' : Prop := st' = st ∨ moves_file fd st st'.

Lemma opened_write_str p fd c d m n k b st : opened OpenMode_RDWR p fd c 0 d m n k st → d p = Some c →
  (length b ≤ n)%nat → zlen b < 2 ^ 32 → let c' := overwrite c 0 b in
  ∃ st', write_str (mk_stdfile fd) b st = (Ret (Ok ()), st') ∧
    opened OpenMode_RDWR p fd c' (length b) (<[p := Some c']> d) m (n - length b) k st' ∧ touches fd st st'.
Proof.
  intros Ho Hd Hb H32 c'. destruct b as [|x b].
  - exists st. split; [done|]. split; [|by left]. unfold c'. rewrite overwrite_nil. cbn [length]. rewrite Nat.sub_0_r.
    destruct Ho as [H1 H2 H3 H4 (h & fs & f & ? & ? & ? & [? ?] & ? & ? & ? & Hq)]. split; try done.
    exists h, fs, f. split_and!; try done. intros q. rewrite Hq.
    destruct (decide (q = p)) as [->|Hne]; [by rewrite fn_lookup_insert|by rewrite fn_lookup_insert_ne].
  - destruct (opened_write_at p fd c 0 d m n k (x :: b) st Ho Hb) as (st' & E & Ho' & Hm); [lia|]. exists st'.
    split; [|split; [exact Ho'|by right]]. unfold write_str. cbn [length write_all].
    unfold mbind at 1, prog_mbind at 1. rewrite (bind_Ret _ _ _ _ _ E).
    rewrite (proj2 (Z.eqb_neq _ _)) by (unfold zlen; cbn [length]; lia).
    rewrite slice_ok by (unfold zlen; lia). rewrite Z.sub_diag. unfold sub. cbn [Z.to_nat take unwrap].
    by destruct (length b).
Qed.

Context {T : Type} {SD : Serde T}.

Lemma scope_file_Ret {A} fd (body : prog State A) a st st1 st2 : body st = (Ret a, st1) →
  file_drop (mk_stdfile fd) st1 = (Ret (), st2) → scope_file (mk_stdfile fd) body st = (Ret a, st2).
Proof. intros E Hd. unfold scope_file. by rewrite E, (bind_Ret _ _ _ _ _ Hd). Qed.

(** The name of a slot's file on the disk. *)
Definition slot_file (slot : string) : string := fold_case (imd slot).

Lemma drop_buffer_spec (v : T) slot text d m n k st : ready d (S m) n (k + 1) st → 0 ≤ k → fat_name (imd slot) = true →
  to_string v = Some text → (length text ≤ n)%nat → zlen text < 2 ^ 32 →
  ∃ st', drop_buffer (mk_filebuf v slot false) st = (Ret (), st') ∧
    ready (<[slot_file slot := Some (overwrite (default [] (d (slot_file slot))) 0 text)]> d) m (n - length text) k st'.
Proof.
  intros Hr Hk Hp Ht Hb H32. set (c := default [] (d (slot_file slot))).
  destruct (file_create_ready (imd slot) d m n k st Hr Hk Hp) as (fd & st1 & E1 & Ho1 & _). fold (slot_file slot) c in Ho1.
  destruct (opened_write_str (slot_file slot) fd c (<[slot_file slot := Some c]> d) m n k text st1 Ho1)
    as (st2 & E2 & Ho2 & _); [by rewrite fn_lookup_insert|done|done|].
  destruct (opened_drop _ _ _ _ _ _ _ _ _ _ Ho2) as (st3 & E3 & Hr3). exists st3. split.
  - unfold drop_buffer. cbn [used DataFiles.slot inner]. rewrite (bind_Ret _ _ _ _ _ E1).
    unfold unwrap_ok. rewrite bind_ret_l. apply (scope_file_Ret fd _ () st1 st2); [|done].
    rewrite Ht. cbn [unwrap]. rewrite bind_ret_l. by rewrite (bind_Ret _ _ _ _ _ E2).
  - eapply ready_ext; [exact Hr3|]. intros q. destruct (decide (q = slot_file slot)) as [->|Hne].
    + by rewrite !fn_lookup_insert.
    + by rewrite !fn_lookup_insert_ne.
Qed.

Lemma from_buffer_slot_spec slot c d m n k fuel st : ready d m n (k + 1) st → 0 ≤ k → fat_name (imd slot) = true →
  d (slot_file slot) = Some c → zlen c < 2 ^ 64 → (length c < fuel)%nat →
  ∃ st', from_buffer_slot (T := T) fuel slot st =
    (match from_slice c with Some v => Ret (Some (mk_filebuf v slot true)) | None => Panic end, st') ∧
    ready d m n k st'.
Proof.
  intros Hr Hk Hp Hd Hc Hf. destruct (file_open_ready (imd slot) c d m n k st Hr Hk Hp Hd) as (fd & st1 & E1 & Ho1 & _).
  destruct (read_to_end_of (λ c pos st, opened OpenMode_RD (slot_file slot) fd c pos d m n k st)
    (file_read (mk_stdfile fd)) c (opened_reads OpenMode_RD _ _ _ _ _ _ eq_refl) Hc fuel 0
    (replicate 1024 0) [] 0 st1 Ho1) as (st2 & E2 & Ho2); [by rewrite length_replicate|lia|lia|lia|].
  destruct (opened_drop _ _ _ _ _ _ _ _ _ _ Ho2) as (st3 & E3 & Hr3). exists st3. split; [|done].
  unfold from_buffer_slot. rewrite (bind_Ret _ _ _ _ _ E1). unfold scope_file, read_to_end.
  rewrite (bind_Ret _ _ _ _ _ E2). cbn [app unwrap_ok]. rewrite bind_ret_l, drop_0.
  destruct (from_slice c) as [v|]; cbn [unwrap].
  - rewrite bind_ret_l. unfold mret at 1, prog_mret at 1. by rewrite (bind_Ret _ _ _ _ _ E3).
  - unfold mbind at 1, prog_mbind at 1. cbn. by rewrite E3.
Qed.

Lemma from_buffer_slot_none slot d m n k fuel st : ready d m n k st → fat_name (imd slot) = true → d (slot_file slot) = None →
  ∃ st', from_buffer_slot (T := T) fuel slot st = (Ret None, st') ∧ ready d m n k st'.
Proof.
  intros [Hf Hs (fs & Hm & Hfr & Hdir)] Hp Hd. destruct st as [t [w nn]]. cbn in *.
  destruct (open_missing (imd slot) fs Hp) as (fs' & E & Hfr' & Hdir'); [by rewrite Hdir|].
  exists (t, (mk_fatfs w.(table) false (Some fs'), nn)). split.
  - assert (Ef : (lift_fat <$> below (hc_fatfs_open (imd slot) 0)) (t, (w, nn)) =
      (Ret (Err (FatfsErr Unknown)), (t, (mk_fatfs w.(table) false (Some fs'), nn)))).
    { apply (fmap_Ret lift_fat _ _ (Err Unknown)). unfold below, on. cbn [snd hc_fatfs_open stack_backend].
      rewrite (in_fat_Ret _ _ _ _ _ (fatfs_open_none _ _ _ _ Hm E)). done. }
    unfold from_buffer_slot. rewrite (bind_Ret _ _ _ (Err (FatfsErr Unknown))
      (t, (mk_fatfs w.(table) false (Some fs'), nn))); [done|].
    unfold file_open, Fdtab.open, try_bind. rewrite (bind_Ret _ _ _ (Err (FatfsErr Unknown))
      (t, (mk_fatfs w.(table) false (Some fs'), nn))); [done|].
    by rewrite (bind_Ret _ _ _ _ _ Ef).
  - split; cbn; [done|done|]. exists fs'. split_and!; [by split; [|left]|by apply Hfr'|].
    intros q. by rewrite Hdir'.
Qed.

(** The laws of serde_json: a value is read back from the text it is printed as. *)
Class SerdeSpec : Prop := {
  from_to_string : ∀ (v : T) t, to_string v = Some t → from_slice t = Some v
}.

(** [m] functions receive from a slot one after the other. *)
Definition receivers (fuel : nat) (slot : string) (m : nat) : prog State (list (option (FileBuffer T))) :=
  traverse (λ _, from_buffer_slot fuel slot) (replicate m ()).

Lemma receivers_spec slot c v d m n fuel r : ∀ st k, ready d m n (k + Z.of_nat r) st → 0 ≤ k → fat_name (imd slot) = true →
  d (slot_file slot) = Some c → from_slice c = Some v → zlen c < 2 ^ 64 → (length c < fuel)%nat →
  ∃ st', receivers fuel slot r st = (Ret (replicate r (Some (mk_filebuf v slot true))), st') ∧ ready d m n k st'.
Proof.
  unfold receivers. induction r as [|r IH]; intros st k Hr Hk Hp Hd Hv Hc Hf.
  - exists st. rewrite Z.add_0_r in Hr. done.
  - destruct (from_buffer_slot_spec slot c d m n (k + Z.of_nat r) fuel st) as (st1 & E1 & Hr1); try done;
      [by replace (k + Z.of_nat r + 1) with (k + Z.of_nat (Datatypes.S r)) by lia|lia|].
    rewrite Hv in E1. destruct (IH st1 k Hr1 Hk Hp Hd Hv Hc Hf) as (st2 & E2 & Hr2).
    exists st2. split; [|done]. cbn [replicate traverse]. rewrite (bind_Ret _ _ _ _ _ E1).
    by rewrite (bind_Ret _ _ _ _ _ E2).
Qed.

(** C21: handing a value over in a file: dropping a buffer that holds [v] succeeds,
    and every function that then receives from the slot gets [v], however many
    they are, where a buffer in memory goes to the first of them only; for a slot
    whose name with .imd is one of [fat_name] and whose file is not longer than [v]'s
    text, a new one among them, on a disk with room for the file and the text. *)
Theorem file_handover {SDS : SerdeSpec} : ∀ (v : T) slot text d m n r fuel st,
  ready d (S m) n (Z.of_nat r + 1) st → fat_name (imd slot) = true → to_string v = Some text →
  (length text ≤ n)%nat → (length (default [] (d (slot_file slot))) ≤ length text)%nat →
  zlen text < 2 ^ 32 → (length text < fuel)%nat →
  ∃ st', drop_buffer (mk_filebuf v slot false) st = (Ret (), st') ∧
  ∃ st'', receivers fuel slot r st' = (Ret (replicate r (Some (mk_filebuf v slot true))), st'').
Proof.
  intros v slot text d m n r fuel st Hr Hp Ht Hn Hold Hz Hf.
  destruct (drop_buffer_spec v slot text d m n (Z.of_nat r) st Hr ltac:(lia) Hp Ht Hn Hz) as (st1 & E1 & Hr1).
  assert (Ho : overwrite (default [] (d (slot_file slot))) 0 text = text).
  { unfold overwrite. cbn [take app]. rewrite drop_ge by lia. apply app_nil_r. }
  rewrite Ho in Hr1. exists st1. split; [done|].
  destruct (receivers_spec slot text v _ _ _ fuel r st1 0 Hr1) as (st2 & E2 & _); try done; try lia;
    [by rewrite fn_lookup_insert|by apply from_to_string|by exists st2].
Qed.

(** C22: a slot that is used again for a shorter value: the file is created over the
    old one without being emptied, so what the receiver reads is the new text with
    the end of the old one behind it; when serde_json takes that for another
    value, the receiver gets that value, and when it refuses it, it panics.  The
    file is found again when the slot's name is written in other letter case. *)
Theorem slot_reuse_mixes : ∀ (v : T) slot slot' text old d m n fuel st,
  ready d (S m) n 2 st → fat_name (imd slot) = true → fat_name (imd slot') = true →
  slot_file slot' = slot_file slot → to_string v = Some text → (length text ≤ n)%nat →
  d (slot_file slot) = Some old → (length text < length old < fuel)%nat → zlen old < 2 ^ 32 →
  ∃ st', drop_buffer (mk_filebuf v slot false) st = (Ret (), st') ∧
  ∃ st'', from_buffer_slot fuel slot' st' =
    (match from_slice (text ++ drop (length text) old) with
     | Some v' => Ret (Some (mk_filebuf v' slot' true))
     | None => Panic
     end, st'').
Proof.
  intros v slot slot' text old d m n fuel st Hr Hp Hp' Hs Ht Hn Hd Hl Hz.
  destruct (drop_buffer_spec v slot text d m n 1 st Hr ltac:(lia) Hp Ht Hn ltac:(unfold zlen in *; lia))
    as (st1 & E1 & Hr1).
  exists st1. split; [done|]. rewrite Hd in Hr1. unfold overwrite in Hr1. cbn [default take app Nat.add] in Hr1.
  assert (Hlen : length (text ++ drop (length text) old) = length old)
    by (rewrite length_app, length_drop; lia).
  destruct (from_buffer_slot_spec slot' (text ++ drop (length text) old) _ _ _ 0 fuel st1 Hr1)
    as (st2 & E2 & _); [lia|done|by rewrite Hs, fn_lookup_insert|unfold zlen in *; lia|lia|by exists st2].
Qed.
End spec.

(** ** A disk of named files, and numbers below 100 as JSON *)
Module FileDemo.
Abbreviation Disk := (gmap string (list byte)).
Abbreviation Cursor := (string * nat)%type.
Definition bytes_of (d : Disk) (p : string) : list byte := default [] (d !! p).

#[export] Instance name_fat : FatCrate Disk Cursor := {
  create_file p := λ d, let q := fold_case p in
    if fat_name p then (Ret (Some (q, O)), <[q := bytes_of d q]> d) else (Ret None, d);
  open_file p := λ d, let q := fold_case p in (Ret (if d !! q is Some _ then Some (q, O) else None), d);
  f_read buf := λ '(d, (p, i)), let n := Nat.min (length buf) (length (bytes_of d p) - i) in
    (Ret (Ok (Z.of_nat n), sub (bytes_of d p) i n ++ drop n buf), (d, (p, (i + n)%nat)));
  f_write_all b := λ '(d, (p, i)),
    (Ret (Ok ()), (<[p := overwrite (bytes_of d p) i b]> d, (p, (i + length b)%nat)));
  f_flush := mret (Ok ());
  f_seek pos := λ '(d, (p, i)), (Ret (Ok ()), (d, (p, Z.to_nat pos)));
  f_stream_len := λ '(d, (p, i)), (Ret (Ok (zlen (bytes_of d p))), (d, (p, i)))
}.

Lemma bytes_of_insert d p c : bytes_of (<[p := c]> d) p = c.
Proof. unfold bytes_of. by rewrite lookup_insert_eq. Qed.

#[export] Instance name_fat_spec : FatCrateSpec Disk Cursor.
Proof.
  refine {| content := λ d c, bytes_of d c.1; fpos := snd |}.
  - intros d [p i] buf Hp. cbn [fst snd] in *. do 3 eexists. split; [reflexivity|].
    split; [lia|]. split; [lia|]. split; [|done]. intros Hz. destruct buf; [by left|right].
    cbn [length] in Hz. lia.
  - intros d [p i] b d' [p' i'] [= <- <- <-] Hp. cbn [fst snd]. by rewrite bytes_of_insert.
  - intros d [p i] r d' [p' i'] [= _ <- <- <-]. done.
  - intros d [p i] pos Hp. do 2 eexists. done.
Defined.

#[export] Instance name_fat_names : FatNames Disk Cursor.
Proof.
  refine {| dir := λ d p, d !! p; fname := fst; clean _ := True; free := λ _ _ _, True |}.
  - intros p d m n Hp _. set (q := fold_case p). exists (q, O), (<[q := bytes_of d q]> d).
    split; [cbn; by rewrite Hp|]. cbn.
    rewrite bytes_of_insert. split_and!; try done. intros q'. case_decide; simplify_map_eq; done.
  - intros p d c _ Hc. exists (fold_case p, O), d. cbn. unfold bytes_of. rewrite Hc. done.
  - intros p d _ Hn. exists d. cbn. by rewrite Hn.
  - intros d [p i] b m n _ _ _ _. do 2 eexists. split; [reflexivity|]. split; [done|]. split; [done|]. split; [done|].
    intros q. cbn -[bytes_of]. rewrite bytes_of_insert. case_decide; simplify_map_eq; done.
  - intros d [p i] buf r d' [p' i'] [= _ <- <- <-]. done.
  - intros d [p i] _. by do 3 eexists.
Defined.

#[export] Instance demo_image : HostImage Disk := Some ∅.

(** Numbers as decimal digits; serde_json refuses numbers that begin with zero. *)
Definition digit (c : byte) : bool := (48 <=? c) && (c <=? 57).
Lemma digit_ok a : 0 ≤ a < 10 → digit (48 + a) = true.
Proof. intros H. unfold digit. apply andb_true_iff. split; [apply Z.leb_le|apply Z.leb_le]; lia. Qed.
#[export] Instance demo_serde : Serde Z := {
  to_string v := if (0 <=? v) && (v <? 10) then Some [48 + v]
                 else if (10 <=? v) && (v <? 100) then Some [48 + v / 10; 48 + v mod 10] else None;
  from_slice l := match l with
                  | [a] => if digit a then Some (a - 48) else None
                  | [a; b] => if digit a && digit b && negb (a =? 48)
                              then Some (10 * (a - 48) + (b - 48)) else None
                  | _ => None
                  end;
  default_value := 0
}.
#[export] Instance demo_serde_spec : SerdeSpec (T := Z).
Proof.
  split. intros v t. unfold to_string, from_slice, demo_serde.
  destruct ((0 <=? v) && (v <? 10)) eqn:E1.
  - apply andb_true_iff in E1 as [H1%Z.leb_le H2%Z.ltb_lt]. intros [= <-].
    rewrite digit_ok by lia. f_equal. lia.
  - destruct ((10 <=? v) && (v <? 100)) eqn:E2; [|done].
    apply andb_true_iff in E2 as [H1%Z.leb_le H2%Z.ltb_lt]. intros [= <-].
    pose proof (Z.div_mod v 10 ltac:(lia)). pose proof (Z.mod_pos_bound v 10 ltac:(lia)).
    rewrite !digit_ok by lia. rewrite (proj2 (Z.eqb_neq _ _)) by lia. cbn [andb negb]. f_equal. lia.
Defined.

(** Nothing mounted yet, and an image with the files [d]. *)
Definition start (d : Disk) : FdState (LowerState Disk Cursor ()) := ([], (mk_fatfs [] false (Some d), ())).

Lemma start_ready d k : k < 1000 → ready (λ p, d !! p) 100 100 k (start d).
Proof.
  intros Hk. split; [change (zlen _) with 0; lia|change (zlen _) with 0; lia|].
  exists d. split; [|done]. split; [done|]. by left.
Qed.

(** 42 is handed to two functions, through a slot that does not exist yet. *)
Lemma file_handover_witness : ∃ st' st'',
  drop_buffer (mk_filebuf 42 "out" false) (start ∅) = (Ret (), st') ∧
  receivers 9 "out" 2 st' = (Ret [Some (mk_filebuf 42 "out" true); Some (mk_filebuf 42 "out" true)], st'').
Proof.
  destruct (file_handover 42 "out" [52; 50] (λ p, (∅ : Disk) !! p) 99 100 2 9 (start ∅)
    (start_ready ∅ 3 eq_refl)) as (st' & H1 & st'' & H2);
    [reflexivity|reflexivity|cbn; lia|vm_compute; lia|reflexivity|cbn; lia|].
  exact (ex_intro _ st' (ex_intro _ st'' (conj H1 H2))).
Defined.

(** 5 is handed over in a slot that held 12, and 52 arrives. *)
Lemma slot_reuse_mixes_witness : ∃ st' st'',
  drop_buffer (mk_filebuf 5 "out" false) (start {["out.imd" := [49; 50]]}) = (Ret (), st') ∧
  from_buffer_slot 9 "Out" st' = (Ret (Some (mk_filebuf 52 "Out" true)), st'').
Proof.
  set (d := {["out.imd" := [49; 50]]} : Disk).
  destruct (slot_reuse_mixes 5 "out" "Out" [53] [49; 50] (λ p, d !! p) 99 100 9 (start d)
    (start_ready d 2 eq_refl)) as (st' & H1 & st'' & H2);
    [reflexivity|reflexivity|reflexivity|reflexivity|cbn; lia|reflexivity|cbn; lia|reflexivity|].
  exact (ex_intro _ st' (ex_intro _ st'' (conj H1 H2))).
Defined.
End FileDemo.
