(* ===== verification/SimpleFile.v ===== *)
(** * A function that works on a file (user/simple_file)

    The function writes a line to a file, opens the file a second time while the
    first handle is still open, reads it back twice and compares: the whole file
    interface as a function uses it, down to the FAT crate. *)
From Stdlib Require Import Ascii String.
From stdpp Require Import functions.
From S2P Require Import Prelude Bytes Hostcall Ipv4 Text Fdtab Fatfs FileStack AsStd AsStdSpec DataFiles DataFilesSpec.
Local Open Scope Z_scope.

Section simple_file.
Context {W : Type} `{FB : !FdBackend W}.
Local Abbreviation M := (prog (FdState W)).

Definition path : string := "lines.txt".
Definition line : list byte := to_bytes "Rust LibOS Cool.".

(** [?] on an error of the descriptor table: its text. *)
Definition shown {A} (m : M (result A FdtabError)) : M (result A string) := fmap (map_err show_fdtab) m.

(** The end of [main], on the file opened for reading: it is read twice. *)
Definition check_file (fuel : nat) (input_file : StdFile) : M (result () string) :=
  '(r, file_content_buf) ← read_to_end fuel (file_read input_file) [];
  _ ← unwrap_ok r;
  let file_content := from_utf8_lossy file_content_buf in
  assert (bool_decide (file_content = line));;
  shown (file_seek input_file 0) ;;?
  '(r, file_content_buf) ← read_to_end fuel (file_read input_file) [];
  _ ← unwrap_ok r;
  assert (bool_decide (file_content = from_utf8_lossy file_content_buf));;
  r ← file_metadata input_file;
  meta ← unwrap_ok r;
  mret (if negb (meta.(st_size) =? zlen file_content) then Err "seek failed" else Ok ()).

(** [main]: the files are dropped in the opposite order. *)
Definition simple_file (fuel : nat) : M (result () string) :=
  output ←? shown (file_create path);
  scope_file output (
    r ← write_str output line;
    _ ← unwrap_ok r;
    input_file ←? shown (file_open path);
    scope_file input_file (check_file fuel input_file)).
End simple_file.

(** What [std::io::Seek] documents, for files of an image: moving does not change
    the files, and asking for the length does not move. *)
Class FatMoves (FS F : Type) {FC : FatCrate FS F} {FSp : FatCrateSpec FS F} {FN : FatNames FS F} : Prop := {
  seek_names : ∀ fs f p r fs' f', f_seek p (fs, f) = (Ret r, (fs', f')) →
    fname f' = fname f ∧ (clean f → clean f') ∧ (∀ m n, free fs m n → free fs' m n) ∧ ∀ q, dir fs' q = dir fs q;
  stream_len_names : ∀ fs f, (fpos f ≤ length (content fs f))%nat →
    ∃ fs' f', f_stream_len (fs, f) = (Ret (Ok (zlen (content fs f))), (fs', f')) ∧
    content fs' f' = content fs f ∧ fpos f' = fpos f ∧ fname f' = fname f ∧ (clean f → clean f') ∧
    (∀ m n, free fs m n → free fs' m n) ∧ ∀ q, dir fs' q = dir fs q
}.

Section spec.
Context {FS F N : Type} {FC : FatCrate FS F} {FSp : FatCrateSpec FS F} {FN : FatNames FS F}
  {FM : FatMoves FS F} {HI : HostImage FS} {SS : SockService N}.
Local Abbreviation State := (FdState (LowerState FS F N)).
Implicit Types (st : State) (d : string → option (list byte)).

(** ** What is open *)

(** The same descriptors on the same slots, and the same slots in use. *)
Definition same_open st st' : Prop := (∀ fd, lookup_fd st'.1 fd = lookup_fd st.1 fd) ∧
  ∀ i, is_Some (mjoin (st'.2.1.(table) !! i)) ↔ is_Some (mjoin (st.2.1.(table) !! i)).

(** One more than [st0]: the descriptor [fd] with a slot of its own. *)
Definition above st0 (fd : Fd) st : Prop := lookup_fd st0.1 fd = None ∧
  (∀ fd', fd' ≠ fd → lookup_fd st.1 fd' = lookup_fd st0.1 fd') ∧
  ∃ md h, lookup_fd st.1 fd = Some (mk_file md (FatFS h)) ∧ ¬ is_Some (mjoin (st0.2.1.(table) !! Z.to_nat h)) ∧
    ∀ i, i ≠ Z.to_nat h → (is_Some (mjoin (st.2.1.(table) !! i)) ↔ is_Some (mjoin (st0.2.1.(table) !! i))).

(** [fd] is dropped. *)
Definition drops (fd : Fd) st st' : Prop :=
  (∀ fd', lookup_fd st'.1 fd' = if decide (fd' = fd) then None else lookup_fd st.1 fd') ∧
  ∃ md h, lookup_fd st.1 fd = Some (mk_file md (FatFS h)) ∧ st'.2.1.(table) = <[Z.to_nat h := None]> st.2.1.(table).

Lemma above_adds fd st st' : adds fd st st' → above st fd st'.
Proof.
  intros (Hn & Hlk & (md & Hl) & f & Ht). split; [done|]. split; [done|]. exists md, (zlen st.2.1.(table)).
  unfold zlen. rewrite Nat2Z.id. split; [exact Hl|]. split.
  - rewrite lookup_ge_None_2 by done. by intros [? ?].
  - intros i Hi. rewrite Ht. destruct (decide (i < length (table st.2.1))%nat); [by rewrite lookup_app_l|].
    rewrite !lookup_ge_None_2; [done|lia|rewrite length_app; cbn; lia].
Qed.
Lemma above_moves st0 fd st st' : above st0 fd st → moves_file fd st st' → above st0 fd st'.
Proof.
  intros (Hn & Hlk & md & h & Hl & Hh & Ht) (md2 & h2 & fs & f & Hl2 & _ & ->). rewrite Hl in Hl2. simplify_eq.
  split; [done|]. split; [done|]. exists md2, h2. split; [done|]. split; [done|]. intros i Hi. cbn.
  rewrite list_lookup_insert_ne by done. by apply Ht.
Qed.
Lemma above_touches st0 fd st st' : above st0 fd st → touches fd st st' → above st0 fd st'.
Proof. intros H [-> | Hm]; [done|by eapply above_moves]. Qed.
Lemma above_same st0 fd st st' : above st0 fd st → same_open st st' → above st0 fd st'.
Proof.
  intros (Hn & Hlk & md & h & Hl & Hh & Ht) [Hs Hi]. split; [done|]. split; [intros fd' Hne; by rewrite Hs, Hlk|].
  exists md, h. rewrite Hs. split; [done|]. split; [done|]. intros i Hne. by rewrite Hi, Ht.
Qed.
Lemma above_drops st0 fd st st' : above st0 fd st → drops fd st st' → same_open st0 st'.
Proof.
  intros (Hn & Hlk & md & h & Hl & Hh & Ht) (Hd & md2 & h2 & Hl2 & Ht2). rewrite Hl in Hl2. simplify_eq. split.
  - intros fd'. rewrite Hd. case_decide as Hf; [by subst|by apply Hlk].
  - intros i. rewrite Ht2. destruct (decide (i = Z.to_nat h2)) as [->|Hne].
    + destruct (decide (Z.to_nat h2 < length (table st.2.1))%nat).
      * rewrite list_lookup_insert_eq by done. split; [by intros [? ?]|done].
      * rewrite list_insert_ge, (lookup_ge_None_2 (table st.2.1)) by lia. split; [by intros [? ?]|done].
    + rewrite list_lookup_insert_ne by done. by apply Ht.
Qed.

(** ** Two handles *)

(** [other] is open on a file of its own beside [fd]. *)
Definition beside (other fd : Fd) st : Prop := 3 ≤ other ∧ fits 32 other ∧ other ≠ fd ∧
  ∃ md h md' h' f, lookup_fd st.1 other = Some (mk_file md (FatFS h)) ∧
    lookup_fd st.1 fd = Some (mk_file md' (FatFS h')) ∧ Z.to_nat h ≠ Z.to_nat h' ∧
    st.2.1.(table) !! Z.to_nat h = Some (Some f) ∧ clean f.

Lemma beside_moves other fd st st' : beside other fd st → moves_file fd st st' → beside other fd st'.
Proof.
  intros (H3 & Hf & Hne & md & h & md' & h' & f & Ho & Hfd & Hh & Ht & Hc) (md2 & h2 & fs & f2 & E & _ & ->).
  rewrite Hfd in E. simplify_eq. split_and!; try done. exists md, h, md2, h2, f. cbn.
  split_and!; try done. by rewrite list_lookup_insert_ne.
Qed.
Lemma opened_ready md p fd c pos d m n k st : opened md p fd c pos d m n k st → ready d m n k st.
Proof.
  intros [_ _ Hf Hs (h & fs & f & _ & _ & (Hp & Hfs & _) & _ & _ & _ & Hfr & Hd)]. split; [done|done|].
  exists fs. split_and!; try done. split; [done|by left].
Qed.
Lemma beside_adds md p fd c pos d m n k st fd' st' : opened md p fd c pos d m n k st → adds fd' st st' →
  beside fd fd' st'.
Proof.
  intros [[H3 Hfd] _ _ _ (h & fs & f & Hl & Hh & (_ & _ & Ht) & [_ Hcl] & _)] (Hnone & Hlk & (md' & Hl') & f' & Ht').
  assert (Hne : fd ≠ fd') by (intros ->; congruence). split_and!; try done.
  assert (Hlt := lookup_lt_Some _ _ _ Ht).
  exists md, h, md', (zlen st.2.1.(table)), f. rewrite Hlk by done. split_and!; try done.
  - unfold zlen. lia.
  - rewrite Ht'. by apply lookup_app_l_Some.
Qed.

(** Both are dropped, [fd] first. *)
Lemma drop_beside md p fd c pos d m n k other st : opened md p fd c pos d m n k st → beside other fd st →
  ∃ st1 st2, file_drop (mk_stdfile fd) st = (Ret (), st1) ∧ file_drop (mk_stdfile other) st1 = (Ret (), st2) ∧
    drops fd st st1 ∧ drops other st1 st2 ∧ ready d m n k st2.
Proof.
  intros [[H3 Hfd] _ Hf Hs (h & fs & f & Hl & _ & Hos & [_ Hcl] & _ & _ & Hfr & Hd)]
    (H3' & Hfo & Hne & md1 & h1 & md2 & h2 & f1 & Ho & Hfd2 & Hh & Ht1 & Hcl1).
  rewrite Hl in Hfd2. simplify_eq. destruct st as [t [w nn]]. cbn in *.
  destruct (file_drop_slot fd md2 h2 fs f t w nn H3 Hfd Hl Hos Hcl) as (t1 & fs1 & E1 & Hfr1 & Hd1 & Hlen1 & Hlk1).
  set (w1 := mk_fatfs _ _ _) in E1.
  assert (Hl1 : lookup_fd t1 other = Some (mk_file md1 (FatFS h1))) by by rewrite Hlk1, decide_False.
  destruct (file_drop_slot other md1 h1 fs1 f1 t1 w1 nn H3' Hfo Hl1) as (t2 & fs2 & E2 & Hfr2 & Hd2 & Hlen2 & Hlk2); [|done|].
  - split; [apply Hos|]. split; [done|]. cbn. by rewrite list_lookup_insert_ne.
  - eexists _, _. split; [exact E1|]. split; [exact E2|]. split; [|split; [|split; cbn]].
    + split; [exact Hlk1|]. by exists md2, h2.
    + split; [exact Hlk2|]. by exists md1, h1.
    + rewrite Hlen2, Hlen1. done.
    + unfold zlen in *. by rewrite !length_insert.
    + exists fs2. split_and!; [split; [apply Hos|by left]|by apply Hfr2, Hfr1|]. intros q. by rewrite Hd2, Hd1.
Qed.

Lemma stat_fat fd t md h meta (w w' : LowerState FS F N) :
  3 ≤ fd → fits 32 fd → lookup_fd t fd = Some (mk_file md (FatFS h)) →
  hc_fatfs_stat h w = (Ret (Ok meta), w') → stat fd (t, w) = (Ret (Ok meta), (t, w')).
Proof.
  intros H3 Hf Hl Hs. unfold stat. rewrite std_fd_false, with_file_ge, Hl by done. cbn [src].
  unfold mbind, prog_mbind, below, on. cbn [snd]. by rewrite Hs.
Qed.

Lemma opened_seek md p fd c pos d m n k q st : opened md p fd c pos d m n k st → 0 ≤ q ≤ zlen c →
  ∃ st', file_seek (mk_stdfile fd) q st = (Ret (Ok ()), st') ∧ opened md p fd c (Z.to_nat q) d m n k st' ∧
    moves_file fd st st'.
Proof.
  intros [[H3 Hfd] Hle Hf Hs (h & fs & f & Hl & Hh & Ho & [Hn Hcl] & <- & <- & Hfr & Hd)] Hq.
  destruct st as [t [w nn]]. cbn in *. destruct (f_seek_spec fs f q Hq) as (fs1 & f1 & E & Hc & Hp).
  destruct (seek_names _ _ _ _ _ _ E) as (Hn1 & Hcl1 & Hfr1 & Hd1).
  exists (t, (set_slot w h fs1 f1, nn)). split; [|split; [|by exists md, h, fs1, f1]].
  - apply (lseek_fat fd t md h); try done. apply in_fat_Ret. unfold fatfs_seek. apply locked_Ret; [apply Ho|].
    rewrite (get_file_mut_bind w h f) by (by eapply open_slot_get).
    by rewrite (bind_Ret _ _ _ _ _ (on_slot_Ret w h f fs _ _ _ _ (proj1 (proj2 Ho)) E)).
  - split; cbn; try done; [unfold zlen in Hq; lia|unfold zlen; by rewrite length_insert|].
    exists h, fs1, f1. split_and!; try done; [by eapply open_slot_set|congruence|by apply Hcl1|by apply Hfr1|].
    intros q'. by rewrite Hd1.
Qed.

Lemma opened_metadata md p fd c pos d m n k st : opened md p fd c pos d m n k st →
  ∃ st' meta, file_metadata (mk_stdfile fd) st = (Ret (Ok meta), st') ∧ meta.(st_size) = zlen c ∧
    opened md p fd c pos d m n k st' ∧ moves_file fd st st'.
Proof.
  intros [[H3 Hfd] Hle Hf Hs (h & fs & f & Hl & Hh & Ho & [Hn Hcl] & <- & <- & Hfr & Hd)].
  destruct st as [t [w nn]]. cbn in *.
  destruct (stream_len_names fs f Hle) as (fs1 & f1 & E & Hc & Hp & Hn1 & Hcl1 & Hfr1 & Hd1).
  assert (Es : ∃ meta, fatfs_stat h w = (Ret (Ok meta), set_slot w h fs1 f1) ∧ meta.(st_size) = zlen (content fs f)).
  { eexists. split.
    - unfold fatfs_stat. apply locked_Ret; [apply Ho|].
      rewrite (get_file_mut_bind w h f) by (by eapply open_slot_get).
      by rewrite (bind_Ret _ _ _ _ _ (on_slot_Ret w h f fs _ _ _ _ (proj1 (proj2 Ho)) E)).
    - done. }
  destruct Es as (meta & Es & Hm). exists (t, (set_slot w h fs1 f1, nn)), meta.
  split; [|split; [done|split; [|by exists md, h, fs1, f1]]].
  - unfold file_metadata. by apply (stat_fat fd t md h); [..|by apply in_fat_Ret].
  - split; cbn; try done; [unfold zlen; by rewrite length_insert|].
    exists h, fs1, f1. split_and!; try done; [by eapply open_slot_set|congruence|by apply Hcl1|by apply Hfr1|].
    intros q'. by rewrite Hd1.
Qed.

(** Reading to the end beside the other handle, over [st0]. *)
Lemma read_to_end_beside md p fd c pos d m n k other fuel st0 st : contains md OpenMode_RD = true →
  opened md p fd c pos d m n k st → beside other fd st → above st0 fd st → zlen c < 2 ^ 64 → (length c < fuel)%nat →
  ∃ st', read_to_end fuel (file_read (mk_stdfile fd)) [] st =
    (Ret (Ok (zlen c - Z.of_nat pos), drop pos c), st') ∧ opened md p fd c (length c) d m n k st' ∧
    beside other fd st' ∧ above st0 fd st'.
Proof.
  intros Hmd Ho Hb Hab Hc Hf.
  destruct (read_to_end_of (λ c pos st, opened md p fd c pos d m n k st ∧ beside other fd st ∧ above st0 fd st)
    (file_read (mk_stdfile fd)) c) with (fuel := fuel) (pos := pos) (buffer := replicate 1024 0)
    (buf := []:list byte) (size := 0) (s := st) as (st' & E & Ho' & Hb' & Hab'); try done; try lia.
  - intros c' pos' buf st' (Ho' & Hb' & Hab') Hbuf.
    destruct (opened_read md p fd d m n k c' pos' buf st' Hmd Ho' Hbuf) as (Hle & r & st2 & E & [Ho2 Hm] & H).
    split; [done|]. exists r, st2. split_and!; try done; try apply H; [by eapply beside_moves|by eapply above_moves].
  - exists st'. by split.
Qed.

(** ** What the function does *)

Lemma line_ascii : Forall (λ b, 0 ≤ b < 128) line.
Proof. apply (bool_decide_unpack _). by vm_compute. Qed.
Lemma length_line : length line = 16%nat.
Proof. done. Qed.

(** What is read equals what was written just if nothing is behind it. *)
Lemma line_over c : let c' := overwrite c 0 line in
  ((length c ≤ 16)%nat → c' = line) ∧
  (from_utf8_lossy c' = line ↔ (length c ≤ 16)%nat).
Proof.
  intros c'. assert (Hc' : c' = line ++ drop 16 c) by done.
  assert (Heq : (length c ≤ 16)%nat → c' = line) by (intros H; by rewrite Hc', drop_ge, app_nil_r).
  split; [done|]. split.
  - rewrite Hc', lossy_ascii_app by apply line_ascii. intros E. destruct (drop 16 c) as [|b l] eqn:El.
    + apply (f_equal length) in El. rewrite length_drop in El. cbn in El. lia.
    + exfalso. apply (lossy_nonempty b l). apply (app_inv_head line). by rewrite app_nil_r.
  - intros H. rewrite (Heq H). apply lossy_ascii, line_ascii.
Qed.

Lemma try_shown {A B} (m : prog State (result A FdtabError)) (f : A → prog State (result B string)) st a st' :
  m st = (Ret (Ok a), st') → try_bind (shown m) f st = f a st'.
Proof. intros E. apply try_bind_Ok. unfold shown. by apply (fmap_Ret (map_err show_fdtab) _ _ (Ok a)). Qed.

(** From the second opening on: the file opened second is dropped, and then the
    first one can be. *)
Lemma read_back fuel output c d m n k st : let p := path in
  opened OpenMode_RDWR p output c (length line) d m n (k + 1) st → 0 ≤ k → d p = Some c →
  zlen c < 2 ^ 64 → (length c < fuel)%nat →
  ∃ st1 st2, (input_file ←? shown (file_open p);
   scope_file input_file (check_file fuel input_file)) st =
  (if decide (from_utf8_lossy c = line)
   then Ret (if negb (zlen c =? zlen line) then Err "seek failed" else Ok ()) else Panic, st1) ∧
  file_drop (mk_stdfile output) st1 = (Ret (), st2) ∧ same_open st st1 ∧ drops output st1 st2 ∧ ready d m n k st2.
Proof.
  intros p Ho Hk Hd Hc Hf.
  destruct (file_open_ready p c d m n k st) as (fd & st1 & E1 & Ho1 & Hadd); [by eapply opened_ready|done|done|done|].
  assert (Hb1 := beside_adds _ _ _ _ _ _ _ _ _ _ _ _ Ho Hadd). apply above_adds in Hadd as Hab1.
  destruct (read_to_end_beside OpenMode_RD p fd c 0 d m n k output fuel st st1 eq_refl Ho1 Hb1 Hab1 Hc Hf)
    as (st2 & E2 & Ho2 & Hb2 & Hab2).
  rewrite (try_shown _ _ _ _ _ E1). unfold scope_file, check_file. rewrite (bind_Ret _ _ _ _ _ E2).
  cbn [unwrap_ok]. rewrite bind_ret_l, drop_0. destruct (decide (from_utf8_lossy c = line)) as [El|El].
  2: { unfold mbind at 1, prog_mbind at 1. rewrite bool_decide_false by done. cbn.
       destruct (drop_beside _ _ _ _ _ _ _ _ _ _ _ Ho2 Hb2) as (st3 & st4 & E3 & E4 & D3 & D4 & Hr).
       exists st3, st4. rewrite E3. split; [done|]. split; [exact E4|].
       split; [by eapply above_drops|by split]. }
  rewrite bool_decide_true by done. cbn [assert]. rewrite bind_ret_l.
  destruct (opened_seek _ _ _ _ _ _ _ _ _ 0 _ Ho2) as (st3 & E3 & Ho3 & Hm3); [assert (H0 := zlen_nonneg c); lia|].
  rewrite (try_shown _ _ _ _ _ E3).
  destruct (read_to_end_beside OpenMode_RD p fd c 0 d m n k output fuel st st3 eq_refl Ho3) as (st4 & E4 & Ho4 & Hb4 & Hab4);
    [by eapply beside_moves|by eapply above_moves|done|done|].
  rewrite (bind_Ret _ _ _ _ _ E4). cbn [unwrap_ok]. rewrite bind_ret_l, drop_0.
  rewrite bool_decide_true by done. cbn [assert]. rewrite bind_ret_l.
  destruct (opened_metadata _ _ _ _ _ _ _ _ _ _ Ho4) as (st5 & meta & E5 & Hmeta & Ho5 & Hm5).
  rewrite (bind_Ret _ _ _ _ _ E5). cbn [unwrap_ok]. rewrite bind_ret_l. unfold mret at 1, prog_mret at 1.
  destruct (drop_beside _ _ _ _ _ _ _ _ _ _ _ Ho5 (beside_moves _ _ _ _ Hb4 Hm5))
    as (st6 & st7 & E6 & E7 & D6 & D7 & Hr).
  rewrite (bind_Ret _ _ _ _ _ E6). exists st6, st7. rewrite Hmeta, El.
  split; [done|]. split; [exact E7|]. split; [|by split].
  eapply above_drops; [|exact D6]. by eapply above_moves.
Qed.

(** A file in scope of a computation after which it can be dropped. *)
Lemma scope_file_end {A} fd (body : prog State A) o st st1 st2 : body st = (o, st1) →
  (∃ a, o = Ret a) ∨ o = Panic → file_drop (mk_stdfile fd) st1 = (Ret (), st2) →
  scope_file (mk_stdfile fd) body st = (o, st2).
Proof.
  intros E Ho Hd. unfold scope_file. rewrite E. destruct Ho as [[a ->] | ->]; [|by rewrite Hd].
  by rewrite (bind_Ret _ _ _ _ _ Hd).
Qed.

Lemma simple_file_ends fuel d m n k st : let c := default [] (d path) in
  ready d (Datatypes.S m) n (k + 2) st → 0 ≤ k → (16 ≤ n)%nat → zlen c < 2 ^ 64 - 16 → (length c + 16 < fuel)%nat →
  ∃ st', simple_file fuel st = (if decide (length c ≤ 16)%nat then Ret (Ok ()) else Panic, st') ∧
    ready (<[path := Some (line ++ drop 16 c)]> d) m (n - 16) k st' ∧ same_open st st'.
Proof.
  intros c Hr Hk Hn Hc Hf. destruct (line_over c) as [Hle Hiff].
  change (line ++ drop 16 c) with (overwrite c 0 line). set (c' := overwrite c 0 line) in *.
  assert (Hlen : (length c' ≤ length c + 16)%nat).
  { unfold c', overwrite. rewrite !length_app, length_drop, length_take, length_line. lia. }
  destruct (file_create_ready path d m n (k + 1) st) as (fd & st1 & E1 & Ho1 & Hadd);
    [by replace (k + 1 + 1) with (k + 2) by lia|lia|done|].
  destruct (opened_write_str path fd c _ m n (k + 1) line st1 Ho1) as (st2 & E2 & Ho2 & Ht);
    [by rewrite fn_lookup_insert|by rewrite length_line|done|].
  assert (Hab := above_touches _ _ _ _ (above_adds _ _ _ Hadd) Ht).
  destruct (read_back fuel fd c' _ m (n - 16) k st2 Ho2) as (st3 & st4 & E3 & E4 & Hs & Hd & Hr4);
    [done|by rewrite fn_lookup_insert|unfold zlen in *; lia|lia|].
  exists st4. split; [|split].
  - unfold simple_file. rewrite (try_shown _ _ _ _ _ E1).
    apply (scope_file_end fd _ _ _ st3); [|destruct (decide (length c ≤ 16)%nat); [left; by exists (Ok ())|by right]|done].
    rewrite (bind_Ret _ _ _ _ _ E2). cbn [unwrap_ok]. rewrite bind_ret_l, E3.
    destruct (decide (length c ≤ 16)%nat) as [Hl|Hl].
    + rewrite decide_True by by apply Hiff. by rewrite (Hle Hl), Z.eqb_refl.
    + rewrite decide_False; [done|]. intros El. by apply Hl, Hiff.
  - eapply ready_ext; [exact Hr4|]. intros q.
    destruct (decide (q = path)) as [->|Hne]; [by rewrite !fn_lookup_insert|by rewrite !fn_lookup_insert_ne].
  - by eapply above_drops; [eapply above_same|].
Qed.

(** C18: the function of user/simple_file, run over the file interface, the descriptor
    table and the FAT service with two handles on one file: on an image whose
    lines.txt is no longer than the line it writes, it ends with [Ok] and the file
    holds the line; on an image where the file is longer it panics, since creating
    the file does not empty it and the comparison finds the old end behind the line,
    which is then in the file.  Either way both files are closed: the descriptors are
    those from before on the slots from before, and no other slot of the FAT service
    is in use. *)
Theorem simple_file_result : ∀ fuel d m n k st, let c := default [] (d path) in
  ready d (Datatypes.S m) n (k + 2) st → 0 ≤ k → (16 ≤ n)%nat → zlen c < 2 ^ 64 - 16 → (length c + 16 < fuel)%nat →
  ∃ st', simple_file fuel st = (if decide (length c ≤ 16)%nat then Ret (Ok ()) else Panic, st') ∧
    ready (<[path := Some (line ++ drop 16 c)]> d) m (n - 16) k st' ∧ same_open st st'.
Proof. exact simple_file_ends. Qed.
End spec.

(** ** Two images *)
Import FileDemo.
#[local] Instance name_fat_moves : FatMoves FileDemo.Disk FileDemo.Cursor.
Proof.
  split.
  - intros d [p i] pos r d' [p' i'] [= _ <- <- <-]. done.
  - intros d [p i] Hp. do 2 eexists. split; [reflexivity|]. done.
Qed.

Lemma simple_file_result_witness :
  (∃ st', simple_file 99 (FileDemo.start ∅) = (Ret (Ok ()), st') ∧
     ready (<[path := Some (line ++ [])]> (λ p, (∅ : FileDemo.Disk) !! p)) 99 84 1 st' ∧
     same_open (FileDemo.start ∅) st') ∧
  (simple_file 99 (FileDemo.start {["lines.txt" := replicate 20 65]})).1 = Panic.
Proof.
  split.
  - exact (simple_file_result 99 (λ p, (∅ : FileDemo.Disk) !! p) 99 100 1 (FileDemo.start ∅)
      (FileDemo.start_ready ∅ 3 eq_refl) ltac:(lia) ltac:(lia) eq_refl ltac:(vm_compute; lia)).
  - destruct (simple_file_result 99 (λ p, ({["lines.txt" := replicate 20 65]} : FileDemo.Disk) !! p) 99 100 1
      (FileDemo.start {["lines.txt" := replicate 20 65]}) (FileDemo.start_ready _ 3 eq_refl)
      ltac:(lia) ltac:(lia) eq_refl ltac:(vm_compute; lia)) as (st' & E & _). by rewrite E.
Defined.
