(* ===== verification/Slots.v ===== *)
(** * Buffers as slots

    What a function promises the next one through [DataBuffer]: a value published
    under a slot name is what the function that takes the slot gets.  [Slots] is
    the interface the functions under user/ are written against, with its laws in
    [SlotsSpec]; a buffer is published where its value has been given its last
    form, since no one takes it before the function's group has ended.  A function
    is a [thread] whose steps are the calls on slots, and [twp] is what it does
    whatever the other threads do on the slots that are not its own. *)
From S2P Require Import Prelude Bytes Hostcall Threads.

(** ** Programs of threads *)
#[global] Instance thread_mret {S} : MRet (thread S) := λ A a, Done (Ret a).
#[global] Instance thread_mbind {S} : MBind (thread S) := λ A B k t, thread_bind t k.

(** [unwrap], and a computation that can panic. *)
Definition get_or_panic {S A} (o : option A) : thread S A :=
  match o with Some a => mret a | None => Done Panic end.
(** [for a in l { body }] *)
Fixpoint for_each {S A} (l : list A) (body : A → thread S ()) : thread S () :=
  match l with
  | [] => mret ()
  | a :: l => _ ← body a; for_each l body
  end.
(** [l.map(f).collect()] *)
Fixpoint collect {S A B} (f : A → thread S B) (l : list A) : thread S (list B) :=
  match l with
  | [] => mret []
  | a :: l => b ← f a; bs ← collect f l; mret (b :: bs)
  end.

(** ** The interface *)
Class Slots (S V : Type) : Type := {
  publish_slot : string → V → prog S ();
  take_slot : string → prog S (option V)
}.

(** What is in a slot: nothing yet, a value, or no one knows. *)
Inductive SlotState (V : Type) : Type := Empty | Full (v : V) | Unknown.
Arguments Empty {V}.
Arguments Full {V} v.
Arguments Unknown {V}.

(** [able k s]: there is room for [k] more calls. *)
Class SlotsSpec (S V : Type) {SL : Slots S V} : Type := {
  at_slot : S → string → SlotState V;
  good : V → Prop;
  able : nat → S → Prop;
  able_mono : ∀ k j s, able k s → (j ≤ k)%nat → able j s;
  publish_spec : ∀ slot v s k, able (Datatypes.S k) s → good v → at_slot s slot = Empty →
    ∃ s', publish_slot slot v s = (Ret (), s') ∧ able k s' ∧ at_slot s' slot = Full v ∧
      ∀ q, q ≠ slot → at_slot s' q = at_slot s q;
  take_full : ∀ slot v s k, able (Datatypes.S k) s → at_slot s slot = Full v →
    ∃ s', take_slot slot s = (Ret (Some v), s') ∧ able k s' ∧
      ∀ q, q ≠ slot → at_slot s' q = at_slot s q;
  take_empty : ∀ slot s k, able (Datatypes.S k) s → at_slot s slot = Empty →
    ∃ s', take_slot slot s = (Ret None, s') ∧ able k s' ∧ ∀ q, at_slot s' q = at_slot s q
}.

(** ** Input files

    A function reads an input file from [File::open] to its end; no function of a
    workflow writes one, so a read is one step.  [T] has the files' texts. *)
Class Files (S : Type) : Type := {
  read_file : string → prog S (result string FdtabError)
}.
Class FilesSpec (S V : Type) {SL : Slots S V} {SLS : SlotsSpec S V} {FL : Files S}
    (T : gmap string string) : Type := {
  read_spec : ∀ p c s k, T !! p = Some c → able (Datatypes.S k) s →
    ∃ s', read_file p s = (Ret (Ok c), s') ∧ able k s' ∧ ∀ q, at_slot s' q = at_slot s q
}.

Definition publish {S V} {SL : Slots S V} (slot : string) (v : V) : thread S () :=
  atomic (publish_slot slot v).
Definition take_from {S V} {SL : Slots S V} (slot : string) : thread S (option V) :=
  atomic (take_slot slot).

(** ** What a thread does on its own slots *)
Section twp.
Context {S V : Type} {SL : Slots S V} {SLS : SlotsSpec S V}.
Local Abbreviation View := (string → SlotState V).

(** Run with the slots in [own] as in [v], and never mind the others, [t] ends
    within [n] steps, keeps out of the others, and its outcome and final view are
    in [Q]. *)
Fixpoint twp {A} (n : nat) (own : string → Prop) (t : thread S A) (Q : outcome A → View → Prop)
    (v : View) {struct t} : Prop :=
  match t, n with
  | Done o, _ => Q o v
  | Step _, O => False
  | Step m, Datatypes.S n => ∀ s k, able (Datatypes.S k) s → (∀ q, own q → at_slot s q = v q) →
      able k (m s).2 ∧ (∀ q, ¬ own q → at_slot (m s).2 q = at_slot s q) ∧
      match (m s).1 with
      | Ret t' => twp n own t' Q (at_slot (m s).2)
      | Panic => Q Panic (at_slot (m s).2)
      | Deadlock => Q Deadlock (at_slot (m s).2)
      | NoFuel => Q NoFuel (at_slot (m s).2)
      end
  end.

(** [Q] looks at the own slots only. *)
Definition local_to {A} (own : string → Prop) (Q : outcome A → View → Prop) : Prop :=
  ∀ o v v', (∀ q, own q → v q = v' q) → Q o v → Q o v'.

Lemma twp_view {A} n own (t : thread S A) Q v v' : local_to own Q → (∀ q, own q → v q = v' q) →
  twp n own t Q v → twp n own t Q v'.
Proof.
  intros HQ Hv. destruct t as [o|m], n as [|n]; cbn [twp]; try by apply HQ.
  - done.
  - intros H s k Hk Hs. apply H; [done|]. intros q Hq. by rewrite Hs, Hv.
Qed.

Lemma twp_mono {A} own (t : thread S A) (P Q : outcome A → View → Prop) : ∀ n m v, (n ≤ m)%nat →
  (∀ o v', P o v' → Q o v') → twp n own t P v → twp m own t Q v.
Proof.
  revert t. fix IH 1. intros [o|f] n m v Hle H; cbn [twp]; [by apply H|].
  destruct n as [|n]; [done|]. destruct m as [|m]; [lia|].
  intros Ht s k Hk Hs. destruct (Ht s k Hk Hs) as (Ha & Ho & Hr). split; [done|]. split; [done|].
  destruct (f s) as [[t'| | |] s']; cbn in *; [by apply (IH t' n m); [lia|..]|by apply H..].
Qed.

Lemma twp_bind {A B} own (t : thread S A) (k : A → thread S B) Q n m : ∀ v,
  twp n own t (λ o v', match o with
                       | Ret a => twp m own (k a) Q v'
                       | Panic => Q Panic v'
                       | Deadlock => Q Deadlock v'
                       | NoFuel => Q NoFuel v'
                       end) v →
  twp (n + m) own (t ≫= k) Q v.
Proof.
  unfold mbind, thread_mbind. revert t n. fix IH 1. intros [[a| | |]|f] n v; cbn [twp thread_bind].
  - intros H. apply (twp_mono own _ Q Q m); [lia|done|done].
  - by destruct (n + m)%nat.
  - by destruct (n + m)%nat.
  - by destruct (n + m)%nat.
  - destruct n as [|n]; [done|]. cbn [Nat.add].
    intros Ht s j Hk Hs. destruct (Ht s j Hk Hs) as (Ha & Ho & Hr).
    destruct (f s) as [[t'| | |] s']; cbn in *; (split; [done|]; split; [done|]); try done.
    by apply IH.
Qed.

Lemma twp_ret {A} n own (a : A) (Q : outcome A → View → Prop) v : Q (Ret a) v → twp n own (mret a) Q v.
Proof. by destruct n. Qed.

(** One call, and then [k]. *)
Lemma twp_publish {A} n own slot x (k : () → thread S A) (Q : outcome A → View → Prop) v :
  own slot → good x → v slot = Empty →
  (∀ v', v' slot = Full x → (∀ q, own q → q ≠ slot → v' q = v q) → twp n own (k ()) Q v') →
  twp (Datatypes.S n) own (publish slot x ≫= k) Q v.
Proof.
  intros Hown Hx Hv HQ s j Hk Hs.
  destruct (publish_spec slot x s j Hk Hx) as (s' & E & Ha & Hf & Ho); [by rewrite Hs|].
  unfold mbind, prog_mbind. rewrite E. cbn. split; [done|]. split.
  - intros q Hq. apply Ho. by intros ->.
  - apply HQ; [done|]. intros q Hq Hne. by rewrite Ho, Hs.
Qed.

Lemma twp_take {A} n own slot x (k : option V → thread S A) (Q : outcome A → View → Prop) v :
  own slot → v slot = Full x →
  (∀ v', (∀ q, own q → q ≠ slot → v' q = v q) → twp n own (k (Some x)) Q v') →
  twp (Datatypes.S n) own (take_from slot ≫= k) Q v.
Proof.
  intros Hown Hv HQ s j Hk Hs.
  destruct (take_full slot x s j Hk) as (s' & E & Ha & Ho); [by rewrite Hs|].
  unfold mbind, prog_mbind. rewrite E. cbn. split; [done|]. split.
  - intros q Hq. apply Ho. by intros ->.
  - apply HQ. intros q Hq Hne. by rewrite Ho, Hs.
Qed.

Lemma twp_take_empty {A} n own slot (k : option V → thread S A) (Q : outcome A → View → Prop) v :
  own slot → v slot = Empty → (∀ v', (∀ q, own q → v' q = v q) → twp n own (k None) Q v') →
  twp (Datatypes.S n) own (take_from slot ≫= k) Q v.
Proof.
  intros Hown Hv HQ s j Hk Hs.
  destruct (take_empty slot s j Hk) as (s' & E & Ha & Ho); [by rewrite Hs|].
  unfold mbind, prog_mbind. rewrite E. cbn. split; [done|]. split; [intros q _; apply Ho|].
  apply HQ. intros q Hq. by rewrite Ho, Hs.
Qed.

Lemma twp_read {A} {FL : Files S} {T} {FSp : FilesSpec S V T} n own p c
    (k : result string FdtabError → thread S A) (Q : outcome A → View → Prop) v :
  T !! p = Some c → (∀ v', (∀ q, own q → v' q = v q) → twp n own (k (Ok c)) Q v') →
  twp (Datatypes.S n) own (atomic (read_file p) ≫= k) Q v.
Proof.
  intros Hp HQ s j Hk Hs. destruct (read_spec p c s j Hp Hk) as (s' & E & Ha & Ho).
  unfold mbind, prog_mbind. rewrite E. cbn. split; [done|]. split; [intros q _; apply Ho|].
  apply HQ. intros q Hq. by rewrite Ho, Hs.
Qed.

(** ** Many threads, each with slots of its own *)

(** What is asked of a thread: its slots, and how it ends. *)
Record job (A : Type) : Type := mk_job {
  own : string → Prop;
  ends_in : outcome A → View → Prop
}.
Arguments mk_job {A}.
Arguments own {A}.
Arguments ends_in {A}.
Definition does {A} (n : nat) (j : job A) (t : thread S A) (s : S) : Prop :=
  local_to j.(own) j.(ends_in) ∧ twp n j.(own) t j.(ends_in) (at_slot s).
Definition disjoint_jobs {A} (jobs : list (job A)) : Prop :=
  ∀ i j a b q, jobs !! i = Some a → jobs !! j = Some b → i ≠ j → a.(own) q → ¬ b.(own) q.

Lemma advance_twp {A} n own (t : thread S A) Q s k : local_to own Q → able (Datatypes.S k) s →
  twp n own t Q (at_slot s) →
  able k (advance t s).2 ∧ (∀ q, ¬ own q → at_slot (advance t s).2 q = at_slot s q) ∧
  twp (pred n) own (advance t s).1 Q (at_slot (advance t s).2).
Proof.
  intros HQ Hk. destruct t as [o|m], n as [|n]; cbn [twp advance pred]; try done;
    try (intros H; split; [eapply able_mono; [exact Hk|lia]|by destruct n]).
  - intros H. split; [eapply able_mono; [exact Hk|lia]|done].
  - intros H. destruct (H s k Hk ltac:(done)) as (Ha & Ho & Hr).
    destruct (m s) as [[t'| | |] s']; cbn in *; (split; [done|]; split; [done|]); by destruct n.
Qed.

(** A turn of one thread leaves every job where it was, one step nearer its end
    for the thread whose turn it was. *)
Lemma turn_does {A} (jobs : list (job A)) ns ts s k i t : disjoint_jobs jobs →
  able (Datatypes.S k) s → length ns = length jobs → length ts = length jobs →
  (∀ i j n t, jobs !! i = Some j → ns !! i = Some n → ts !! i = Some t → does n j t s) →
  ts !! i = Some t →
  let '(t', s') := advance t s in
  able k s' ∧ (∀ q, (∀ i j, jobs !! i = Some j → ¬ j.(own) q) → at_slot s' q = at_slot s q) ∧
  ∀ i' j n u, jobs !! i' = Some j → alter pred i ns !! i' = Some n → <[i := t']> ts !! i' = Some u →
    does n j u s'.
Proof.
  intros Hap Hk Hln Hlt Hts Hi.
  destruct (lookup_lt_is_Some_2 jobs i) as [a Ha]; [rewrite <- Hlt; by eapply lookup_lt_Some|].
  destruct (lookup_lt_is_Some_2 ns i) as [n Hn]; [rewrite Hln, <- Hlt; by eapply lookup_lt_Some|].
  destruct (Hts i a n t Ha Hn Hi) as [Hloc Ht].
  destruct (advance_twp n _ t _ s _ Hloc Hk Ht) as (Hk' & Hout & Ht').
  destruct (advance t s) as [t' s']; cbn in *. split; [done|]. split; [by intros q Hq; apply Hout, (Hq i)|].
  intros j b m u Hb Hm Hu. destruct (decide (i = j)) as [<-|Hne].
  - rewrite list_lookup_insert_eq in Hu by (by eapply lookup_lt_Some).
    rewrite list_lookup_alter_eq, Hn in Hm. simplify_eq/=. by split.
  - rewrite list_lookup_insert_ne in Hu by done. rewrite list_lookup_alter_ne in Hm by done.
    destruct (Hts j b m u Hb Hm Hu) as [Hlb Hu']. split; [done|].
    eapply twp_view; [done| |exact Hu']. intros q Hq. symmetry. apply Hout.
    by apply (Hap j i b a q).
Qed.

Lemma turns_cons i j sched :
  turns i (j :: sched) = if decide (i = j) then Datatypes.S (turns i sched) else turns i sched.
Proof. unfold turns. cbn. by case_decide. Qed.

(** Under any schedule that gives each thread its steps, all of them end as they
    were asked to, and slots of no thread are left alone. *)
Lemma schedule_ends {A} (jobs : list (job A)) : disjoint_jobs jobs → ∀ sched ns ts s k,
  able (length sched + k) s → length ns = length jobs → length ts = length jobs →
  (∀ i j n t, jobs !! i = Some j → ns !! i = Some n → ts !! i = Some t → does n j t s) →
  (∀ i n, ns !! i = Some n → (n ≤ turns i sched)%nat) →
  let '(ts', s') := run_schedule sched ts s in
  able k s' ∧ (∀ q, (∀ i j, jobs !! i = Some j → ¬ j.(own) q) → at_slot s' q = at_slot s q) ∧
  Forall2 (λ j t, ∃ o, t = Done o ∧ j.(ends_in) o (at_slot s')) jobs ts'.
Proof.
  intros Hap. induction sched as [|i sched IH]; intros ns ts s k Hk Hln Hlt Hts Hns; cbn [run_schedule].
  - split; [done|]. split; [done|]. apply Forall2_same_length_lookup_2; [done|]. intros i j t Hj Ht.
    destruct (lookup_lt_is_Some_2 ns i) as [n Hn]; [rewrite Hln; by eapply lookup_lt_Some|].
    destruct (Hts i j n t Hj Hn Ht) as [_ Hw]. specialize (Hns i n Hn). destruct n; [|cbn in Hns; lia].
    destruct t; [eauto|done].
  - cbn [length Nat.add] in Hk. destruct (ts !! i) as [t|] eqn:Hi.
    + assert (H1 := turn_does jobs ns ts s _ i t Hap Hk Hln Hlt Hts Hi).
      destruct (advance t s) as [t' s'] eqn:E. destruct H1 as (Hk' & Hq & Hts').
      specialize (IH (alter pred i ns) (<[i := t']> ts) s' k Hk').
      destruct (run_schedule sched (<[i := t']> ts) s') as [ts'' s''].
      destruct IH as (Ha & Hq' & Hf); [by rewrite length_alter|by rewrite length_insert|done| |].
      { intros j n Hn. destruct (decide (i = j)) as [<-|Hne].
        - rewrite list_lookup_alter_eq in Hn. destruct (ns !! i) as [m|] eqn:Hm; [|done].
          injection Hn as <-. specialize (Hns i m Hm).
          rewrite turns_cons, decide_True in Hns by done. lia.
        - rewrite list_lookup_alter_ne in Hn by done. specialize (Hns j n Hn).
          by rewrite turns_cons, decide_False in Hns by done. }
      split; [done|]. split; [|done]. intros q Hown. by rewrite Hq', Hq.
    + apply (IH ns); try done; [eapply able_mono; [exact Hk|lia]|]. intros j n Hn.
      specialize (Hns j n Hn). rewrite turns_cons, decide_False in Hns; [done|].
      intros ->. apply lookup_ge_None_1 in Hi.
      apply lookup_lt_Some in Hn. lia.
Qed.
End twp.

(** ** Slots in memory: the register of the mm service, by what a receiver sees,
    beside files that can only be read *)
Record Memory (V : Type) : Type := mk_memory { in_files : gmap string string; in_slots : gmap string V }.
Arguments mk_memory {V}.
Arguments in_files {V}.
Arguments in_slots {V}.

Section memory.
Context {V : Type} (T : gmap string string).
#[export] Instance mem_slots : Slots (Memory V) V := {
  publish_slot slot v := modify (λ s, mk_memory s.(in_files) (<[slot := v]> s.(in_slots)));
  take_slot slot := λ s, (Ret (s.(in_slots) !! slot), mk_memory s.(in_files) (delete slot s.(in_slots)))
}.
#[export] Instance mem_files : Files (Memory V) := {
  read_file p := λ s, (Ret (match s.(in_files) !! p with
                            | Some c => Ok c
                            | None => Err (FatfsErr Hostcall.Unknown)
                            end), s)
}.
Definition mem_slots_spec : SlotsSpec (Memory V) V.
Proof.
  refine {| at_slot s q := match s.(in_slots) !! q with Some v => Full v | None => Empty end;
            good _ := True; able _ s := s.(in_files) = T |}; try done.
  - intros slot v s k Hs _ _. eexists. split; [reflexivity|]. split; [done|]. cbn.
    rewrite lookup_insert_eq. split; [done|]. intros q Hq. by rewrite lookup_insert_ne.
  - intros slot v s k Hs Hv. destruct (s.(in_slots) !! slot) as [w|] eqn:E; [|done]. injection Hv as ->.
    eexists. cbn. rewrite E. split; [reflexivity|]. split; [done|]. intros q Hq.
    cbn. by rewrite lookup_delete_ne.
  - intros slot s k Hs Hv. destruct (s.(in_slots) !! slot) as [w|] eqn:E; [done|].
    eexists. cbn. rewrite E. split; [reflexivity|]. split; [done|]. intros q. cbn.
    by rewrite delete_id.
Defined.
Definition mem_files_spec : @FilesSpec (Memory V) V mem_slots mem_slots_spec mem_files T.
Proof.
  refine {| read_spec := _ |}. intros p c s k Hp Hs. change (s.(in_files) = T) in Hs.
  exists s. cbn. by rewrite Hs, Hp.
Defined.
End memory.
