(* ===== verification/FileInputs.v ===== *)
(** * Input files

    How a function reads an input file (user/file_reader): from opening it to its
    end, through the File API, the descriptor table and the FAT service. *)
From Stdlib Require Import Ascii String.
From S2P Require Import Prelude Bytes Hostcall Text Fdtab Fatfs FileStack AsStd AsStdSpec DataFiles DataFilesSpec.
Local Open Scope Z_scope.

Section inputs.
Context {FS F N : Type} {FC : FatCrate FS F} {FSp : FatCrateSpec FS F} {FN : FatNames FS F}
  {HI : HostImage FS} {SS : SockService N}.
Context (fuel : nat).
Local Abbreviation State := (FdState (LowerState FS F N)).

(** A function's use of an input file, which is closed at the end. *)
Definition read_input (p : string) : prog State (result string FdtabError) :=
  r ← file_open p;
  match r with
  | Err e => mret (Err e)
  | Ok f =>
      scope_file f (
        '(r, text) ← read_to_string fuel (file_read f) "";
        _ ← unwrap_ok r;
        mret (Ok text))
  end.

(** The inputs [T] are on the disk. *)
Definition holds_inputs (T : gmap string string) (d : string → option (list byte)) : Prop :=
  ∀ p c, T !! p = Some c → fat_name p = true ∧
    ∃ b, d (fold_case p) = Some b ∧ of_bytes (from_utf8_lossy b) = c.

Lemma ready_mono d m n k j (st : State) : ready d m n k st → j ≤ k → ready d m n j st.
Proof. intros [H1 H2 H3] Hj. split; [lia|lia|done]. Qed.

Context (fuel_fits : Z.of_nat fuel ≤ 2 ^ 64).

Lemma read_input_ready p b d m n k (st : State) : ready d m n (k + 1) st → 0 ≤ k → fat_name p = true →
  d (fold_case p) = Some b → (length b < fuel)%nat →
  ∃ st', read_input p st = (Ret (Ok (of_bytes (from_utf8_lossy b))), st') ∧ ready d m n k st'.
Proof using fuel_fits.
  intros Hr Hk Hp Hd Hlb. destruct (file_open_ready p b d m n k st Hr Hk Hp Hd) as (fd & st1 & E1 & Ho1 & _).
  destruct (read_to_end_of (λ c pos st, opened OpenMode_RD (fold_case p) fd c pos d m n k st)
    (file_read (mk_stdfile fd)) b (opened_reads OpenMode_RD _ _ _ _ _ _ eq_refl)
    ltac:(unfold zlen; lia) fuel 0 (replicate 1024 0) [] 0 st1 Ho1) as (st2 & E2 & Ho2);
    [by rewrite length_replicate|lia|lia|unfold zlen; lia|].
  destruct (opened_drop _ _ _ _ _ _ _ _ _ _ Ho2) as (st3 & E3 & Hr3). exists st3. split; [|done].
  unfold read_input. rewrite (bind_Ret _ _ _ _ _ E1).
  apply (scope_file_Ret fd _ _ _ st2); [|done]. unfold read_to_string, read_to_end.
  rewrite drop_0 in E2. unfold mbind at 1, prog_mbind at 1. by rewrite (bind_Ret _ _ _ _ _ E2).
Qed.
End inputs.
