(* ===== verification/Contracts.v ===== *)
(** * Workflows on slots

    What the groups of a workflow promise each other, by name: [contract] is what a
    function finds in its slots, how it ends and what it leaves; [group_meets] is
    that a group whose functions meet contracts on different slots, run as the visor
    runs it, keeps all of them under any schedule with enough turns.  The functions
    are an argument ([code]), as they are for the visor. *)
From Stdlib Require Import Ascii String.
From S2P Require Import Prelude Bytes Ipv4 Threads Visor AsStdSpec Slots.
Local Open Scope Z_scope.

(** ** Arguments *)

(** [args::get] on the arguments the function was given, and parsed. *)
Definition arg (args : list (string * string)) (name : string) : option string :=
  snd <$> List.find (λ item, String.eqb item.1 name) args.
Definition arg_num (w : Z) (args : list (string * string)) (name : string) : option Z :=
  arg args name ≫= parse_uint w.

(** [format!("{}{}", ..)] of a text and a number. *)
Definition numbered (prefix : string) (n : Z) : string := prefix +:+ pretty n.

Lemma string_assoc (a b c : string) : a +:+ (b +:+ c) = (a +:+ b) +:+ c.
Proof.
  induction a as [|x a IH]; [done|].
  change (String x (a +:+ (b +:+ c)) = String x ((a +:+ b) +:+ c)). by rewrite IH.
Qed.

Lemma pretty_nat_Z (n : nat) : pretty.pretty n = pretty (Z.of_nat n).
Proof. by destruct n. Qed.

Lemma arg_lookup (args : gmap string string) name : arg (btree_items args) name = args !! name.
Proof. apply find_btree_item. Qed.
Lemma arg_num_lookup w (args : gmap string string) name x : fits w x → args !! name = Some (pretty x) →
  arg_num w (btree_items args) name = Some x.
Proof. intros Hx Ha. unfold arg_num. rewrite arg_lookup, Ha. cbn. by apply parse_uint_pretty. Qed.

(** The [i]-th of [n] functions of a group. *)
Lemma group_app n name gargs i : (i < n)%nat → gargs !! "id" = None →
  ∃ a, Config.group_to_isolation (Config.mk_group (replicate n (Config.Name name)) gargs) !! i = Some a ∧
    a.(Config.app_name) = name ∧ a.(Config.args) !! "id" = Some (pretty (Z.of_nat i)) ∧
    ∀ k, k ≠ "id" → a.(Config.args) !! k = gargs !! k.
Proof.
  intros Hi Hid. unfold Config.group_to_isolation. cbn [Config.list_ Config.group_args].
  rewrite list_lookup_imap, lookup_replicate_2 by done. cbn. eexists. split; [done|]. cbn.
  unfold Config.extend. rewrite pretty_nat_Z. split; [done|]. split.
  - by rewrite lookup_union_l, lookup_insert_eq.
  - intros k Hk. by rewrite lookup_union_r by by rewrite lookup_insert_ne.
Qed.

(** ** Running a configuration's groups *)
Section flow.
Context {S : Type} (code : string → list (string * string) → thread S (result () string)).

Definition function_thread (a : Config.App) : thread S (result () string) :=
  code a.(Config.app_name) (btree_items a.(Config.args)).
(** A group in parallel, joined as the visor joins it. *)
Definition run_members (sched : list nat) (g : Config.IsolationGroup) : prog S (result () string) := λ s,
  let '(ts, s) := run_schedule sched (map function_thread (Config.group_to_isolation g)) s in
  (join_all (map thread_outcome ts), s).
End flow.

(** One group after the other, up to the first that fails. *)
Fixpoint run_workflow {S} (run_group : list nat → Config.IsolationGroup → prog S (result () string))
    (scheds : list (list nat)) (gs : list Config.IsolationGroup) : prog S (result () string) :=
  match gs, scheds with
  | g :: gs, sched :: scheds => run_group sched g ;;? run_workflow run_group scheds gs
  | _, _ => mret (Ok ())
  end.

(** ** Slots by name *)

(** The names a workflow gives its slots, which differ for different names. *)
Class SlotNames (N : Type) : Type := {
  slot_name : N → string;
  nonneg : N → Prop;
  slot_name_inj : ∀ n n', nonneg n → nonneg n' → slot_name n = slot_name n' → n = n'
}.

(** What a function is asked for: its slots with what it finds in them, how it
    ends, and what it leaves in some of them. *)
Record contract (V N R : Type) : Type := mk_contract {
  needs : list (N * SlotState V);
  gives : outcome R;
  leaves : list (N * SlotState V)
}.
Arguments mk_contract {V N R}.
Arguments needs {V N R}.
Arguments gives {V N R}.
Arguments leaves {V N R}.

Section names.
Context {S Value Name R : Type} {SL : Slots S Value} {SLS : SlotsSpec S Value} {SN : SlotNames Name}.
Local Abbreviation View := (string → SlotState Value).

Definition owned (ns : list Name) (q : string) : Prop := q ∈ map slot_name ns.
Lemma owned_in (nm : Name) ns : nm ∈ ns → owned ns (slot_name nm).
Proof. apply list_elem_of_fmap_2. Qed.
Lemma owned_name (nm : Name) ns : nonneg nm → Forall nonneg ns → owned ns (slot_name nm) → nm ∈ ns.
Proof.
  intros Hnm Hns (nm' & E & Hin)%list_elem_of_fmap_1. rewrite Forall_forall in Hns.
  apply slot_name_inj in E as ->; [done|done|by apply Hns].
Qed.

Definition holds (facts : list (Name * SlotState Value)) (v : View) : Prop :=
  ∀ nm st, (nm, st) ∈ facts → v (slot_name nm) = st.
Definition names (K : contract Value Name R) : list Name := K.(needs).*1.
Definition meets (n : nat) (K : contract Value Name R) (t : thread S R) : Prop :=
  ∀ v, holds K.(needs) v →
    twp n (owned (names K)) t (λ o v', o = K.(gives) ∧ holds K.(leaves) v') v.
Definition well_formed (K : contract Value Name R) : Prop :=
  NoDup (names K) ∧ Forall nonneg (names K) ∧ K.(leaves).*1 ⊆ names K.
Definition apart (Ks : list (contract Value Name R)) : Prop :=
  ∀ i j K K' nm, Ks !! i = Some K → Ks !! j = Some K' → i ≠ j → nm ∈ names K → nm ∉ names K'.

Definition job_of (K : contract Value Name R) : job R :=
  {| own := owned (names K); ends_in := λ o v, o = K.(gives) ∧ holds K.(leaves) v |}.

Lemma local_job K : well_formed K → local_to (own _ (job_of K)) (ends_in _ (job_of K)).
Proof.
  intros (_ & _ & Hl) o v v' Hv [Ho Hh]. split; [done|]. intros nm st Hin. rewrite <- Hv; [by apply Hh|].
  apply owned_in, Hl. by apply (list_elem_of_fmap_2 fst _ (nm, st)).
Qed.

(** What is left alone by all contracts of a list. *)
Definition unused (Ks : list (contract Value Name R)) (nm : Name) : Prop := ∀ K, K ∈ Ks → nm ∉ names K.

Lemma disjoint_contracts Ks : Forall well_formed Ks → apart Ks → disjoint_jobs (map job_of Ks).
Proof.
  intros Hwf Hap i j a b q Hi Hj Hne. rewrite Forall_forall in Hwf.
  apply list_lookup_fmap_Some in Hi as (K & -> & HK). apply list_lookup_fmap_Some in Hj as (K' & -> & HK').
  cbn. intros (nm & -> & Hnm)%list_elem_of_fmap_1 Hb.
  destruct (Hwf K) as (_ & HnK & _); [by eapply list_elem_of_lookup_2|].
  destruct (Hwf K') as (_ & HnK' & _); [by eapply list_elem_of_lookup_2|].
  apply (Hap i j K K' nm); try done. apply owned_name; [|done|done].
  rewrite Forall_forall in HnK. by apply HnK.
Qed.

Lemma ends_of_jobs Ks (ts : list (thread S R)) (v : View) :
  Forall2 (λ j t, ∃ o, t = Done o ∧ ends_in R j o v) (map job_of Ks) ts →
  ts = map (λ K, Done K.(gives)) Ks ∧ ∀ K, K ∈ Ks → holds K.(leaves) v.
Proof.
  revert ts. induction Ks as [|K Ks IH]; intros ts Hts.
  - apply Forall2_nil_inv_l in Hts as ->. split; [done|]. by intros K ?%not_elem_of_nil.
  - apply Forall2_cons_inv_l in Hts as (t & ts' & (o & -> & -> & HK) & Hts & ->).
    destruct (IH ts' Hts) as [E Hl]. cbn. split; [by rewrite E|].
    by intros K' [-> | Hin]%elem_of_cons; [|apply Hl].
Qed.

(** Threads that meet contracts that are apart end as the contracts say, under any
    schedule with enough turns. *)
Lemma threads_meet Ks ts c sched s k : Forall well_formed Ks → apart Ks →
  Forall2 (λ K t, meets c K t) Ks ts → (∀ i, (i < length Ks)%nat → (c ≤ turns i sched)%nat) →
  able (length sched + k) s → (∀ K, K ∈ Ks → holds K.(needs) (at_slot s)) →
  ∃ s', run_schedule sched ts s = (map (λ K, Done K.(gives)) Ks, s') ∧ able k s' ∧
    (∀ K, K ∈ Ks → holds K.(leaves) (at_slot s')) ∧
    ∀ nm, nonneg nm → unused Ks nm → at_slot s' (slot_name nm) = at_slot s (slot_name nm).
Proof.
  intros Hwf Hap Hm Hturns Hk Hs. assert (Hdj := disjoint_contracts Ks Hwf Hap).
  rewrite Forall_forall in Hwf. assert (Hlen := Forall2_length _ _ _ Hm).
  assert (H := schedule_ends _ Hdj sched (map (λ _, c) Ks) ts s k Hk).
  destruct (run_schedule sched _ s) as [ts' s'].
  destruct H as (Hk' & Hout & Hts); [by rewrite !length_map|by rewrite length_map| | |].
  { intros i j n t Hj Hn Ht. apply list_lookup_fmap_Some in Hj as (K & -> & HK).
    apply list_lookup_fmap_Some in Hn as (K' & -> & _).
    split; [apply local_job, Hwf; by eapply list_elem_of_lookup_2|].
    apply (Forall2_lookup_lr _ _ _ _ _ _ Hm HK Ht), Hs. by eapply list_elem_of_lookup_2. }
  { intros i n Hn. apply list_lookup_fmap_Some in Hn as (K & -> & HK).
    apply Hturns. by eapply lookup_lt_Some. }
  exists s'. apply ends_of_jobs in Hts as [-> Hl].
  split; [done|]. split; [done|]. split; [done|]. intros nm Hnm Hno. apply Hout. intros i j Hj Hown.
  apply list_lookup_fmap_Some in Hj as (K & -> & HK). apply list_elem_of_lookup_2 in HK.
  apply (Hno K HK). destruct (Hwf K HK) as (_ & HnK & _). by apply owned_name.
Qed.

Lemma contract_names K : well_formed K → NoDup (names K) ∧
  ∀ nm, nm ∈ names K → nonneg nm ∧ owned (names K) (slot_name nm).
Proof.
  intros (Hnd & Hnn & _). split; [done|]. intros nm Hnm. split; [|by apply owned_in].
  rewrite Forall_forall in Hnn. by apply Hnn.
Qed.
End names.

(** ** Groups *)
Section groups.
Context {S Value Name : Type} {SL : Slots S Value} {SLS : SlotsSpec S Value} {SN : SlotNames Name}.
Context (code : string → list (string * string) → thread S (result () string)).

(** A group whose functions meet contracts that are apart has the result of the
    contracts. *)
Lemma group_meets g Ks c sched s k : Forall well_formed Ks → apart Ks →
  Forall2 (λ K a, meets c K (function_thread code a)) Ks (Config.group_to_isolation g) →
  (∀ i, (i < length Ks)%nat → (c ≤ turns i sched)%nat) →
  able (length sched + k) s → (∀ K, K ∈ Ks → holds K.(needs) (at_slot s)) →
  ∃ s', run_members code sched g s = (join_all (map gives Ks), s') ∧ able k s' ∧
    (∀ K, K ∈ Ks → holds K.(leaves) (at_slot s')) ∧
    ∀ nm, nonneg nm → (∀ K, K ∈ Ks → nm ∉ names K) →
      at_slot s' (slot_name nm) = at_slot s (slot_name nm).
Proof.
  intros Hwf Hap Hm Hturns Hk Hs.
  destruct (threads_meet Ks (map (function_thread code) (Config.group_to_isolation g)) c sched s k)
    as (s' & E & H); try done; [by apply Forall2_fmap_r|].
  exists s'. unfold run_members. rewrite E, map_map. by split.
Qed.

Lemma join_all_ok (Ks : list (contract Value Name (result () string))) : (∀ K, K ∈ Ks → K.(gives) = Ret (Ok ())) → join_all (map gives Ks) = Ret (Ok ()).
Proof.
  intros H. assert (map gives Ks = replicate (length Ks) (Ret (Ok ()))) as ->.
  { induction Ks as [|K Ks IH]; [done|]. cbn. rewrite (H K) by apply list_elem_of_here. f_equal.
    apply IH. intros K' ?. by apply H, list_elem_of_further. }
  generalize (length Ks). intros n. unfold join_all.
  assert (existsb is_nofuel (replicate n (Ret (Ok () : result () string))) = false ∧
    existsb is_deadlock (replicate n (Ret (Ok () : result () string))) = false ∧
    join_loop (replicate n (Ret (Ok ()))) = Ret (Ok ())) as (-> & -> & ->); [|done].
  by induction n as [|n (H1 & H2 & H3)].
Qed.

(** ** What is promised of running a group

    The groups run on a state of their own, of which the functions see a part, and
    on which they may cost more turns than the functions alone.  The functions keep
    contracts and take their arguments; an error of theirs may be reworded. *)
Definition same_result (o o' : outcome (result () string)) : Prop :=
  match o, o' with Ret (Err _), Ret (Err _) => True | _, _ => o = o' end.
Class RunsGroups {St : Type} (run_group : list nat → Config.IsolationGroup → prog St (result () string)) : Type := {
  view : St → S;
  ready : nat → St → Prop;
  extra : nat;
  takes : Config.App → Prop;
  ready_able : ∀ k s, ready k s → able k (view s);
  ready_less : ∀ k j s, ready k s → (j ≤ k)%nat → ready j s;
  group_ends : ∀ (N : Type) (SN' : SlotNames N) g (Ks : list (contract Value N (result () string))) c sched s k,
    Forall well_formed Ks → apart Ks →
    Forall2 (λ K a, meets c K (function_thread code a)) Ks (Config.group_to_isolation g) →
    Forall takes (Config.group_to_isolation g) → (∀ i, (i < length Ks)%nat → (c + extra ≤ turns i sched)%nat) →
    ready (length sched + k) s → (∀ K, K ∈ Ks → holds K.(needs) (at_slot (view s))) →
    ∃ o s', run_group sched g s = (o, s') ∧ same_result o (join_all (map gives Ks)) ∧ ready k s' ∧
      (∀ K, K ∈ Ks → holds K.(leaves) (at_slot (view s'))) ∧
      ∀ nm, nonneg nm → (∀ K, K ∈ Ks → nm ∉ names K) →
        at_slot (view s') (slot_name nm) = at_slot (view s) (slot_name nm)
}.
End groups.
Arguments view {S Value SL SLS code St run_group _} _.
Arguments ready {S Value SL SLS code St run_group _} _ _.
Arguments extra {S Value SL SLS code St run_group _}.
Arguments takes {S Value SL SLS code St run_group _} _.
Arguments group_ends {S Value SL SLS code St run_group _ N SN'}.

Lemma same_result_refl o : same_result o o.
Proof. by destruct o as [[]| | |]. Qed.
Lemma same_result_ok o : same_result o (Ret (Ok ())) → o = Ret (Ok ()).
Proof. by destruct o as [[]| | |]. Qed.
Lemma same_result_err o e : same_result o (Ret (Err e)) → ∃ e', o = Ret (Err e').
Proof. destruct o as [[]| | |]; try done. by eexists. Qed.

Lemma same_result_panic o : same_result o Panic → o = Panic.
Proof. by destruct o as [[]| | |]. Qed.

Lemma join_loop_same os os' : Forall2 same_result os os' → same_result (join_loop os) (join_loop os') ∧
  existsb is_nofuel os = existsb is_nofuel os' ∧ existsb is_deadlock os = existsb is_deadlock os' ∧
  existsb is_panic os = existsb is_panic os'.
Proof.
  induction 1 as [|o o' os os' Ho _ (IH & H1 & H2 & H3)]; [done|].
  destruct o as [[[]|e]| | |], o' as [[[]|e']| | |]; try done; cbn; rewrite ?H1, ?H2, ?H3; split_and!; try done.
  by destruct (existsb is_panic os').
Qed.
Lemma join_all_same os os' : Forall2 same_result os os' → same_result (join_all os) (join_all os').
Proof.
  intros (H & H1 & H2 & _)%join_loop_same. unfold join_all. rewrite H1, H2.
  by destruct (existsb is_nofuel os'), (existsb is_deadlock os').
Qed.

(** A contract but for the words of an error. *)
Record reworded {V N} (K K' : contract V N (result () string)) : Prop := mk_reworded {
  same_needs : K'.(needs) = K.(needs);
  same_leaves : K'.(leaves) = K.(leaves);
  same_gives : same_result K'.(gives) K.(gives)
}.
Section reworded.
Context {V N : Type} {SN : SlotNames N}.
Implicit Types Ks : list (contract V N (result () string)).
Lemma reworded_formed Ks Ks' : Forall2 reworded Ks Ks' → Forall well_formed Ks → Forall well_formed Ks'.
Proof.
  intros H Hwf. apply Forall_lookup_2. intros i K' HK'.
  destruct (Forall2_lookup_r _ _ _ _ _ H HK') as (K & HK & [En El _]).
  unfold well_formed, names. rewrite En, El. by apply (Forall_lookup_1 _ _ _ _ Hwf HK).
Qed.
Lemma reworded_apart Ks Ks' : Forall2 reworded Ks Ks' → apart Ks → apart Ks'.
Proof.
  intros H Hap i j K1 K2 nm H1 H2. destruct (Forall2_lookup_r _ _ _ _ _ H H1) as (K1' & H1' & [E1 _ _]).
  destruct (Forall2_lookup_r _ _ _ _ _ H H2) as (K2' & H2' & [E2 _ _]). unfold names. rewrite E1, E2.
  by apply (Hap i j K1' K2').
Qed.
Lemma reworded_in Ks Ks' K : Forall2 reworded Ks Ks' → K ∈ Ks → ∃ K', K' ∈ Ks' ∧ reworded K K'.
Proof.
  intros H [i HK]%list_elem_of_lookup. destruct (Forall2_lookup_l _ _ _ _ _ H HK) as (K' & HK' & Hr).
  exists K'. split; [by eapply list_elem_of_lookup_2|done].
Qed.
Lemma reworded_from Ks Ks' K' : Forall2 reworded Ks Ks' → K' ∈ Ks' → ∃ K, K ∈ Ks ∧ reworded K K'.
Proof.
  intros H [i HK]%list_elem_of_lookup. destruct (Forall2_lookup_r _ _ _ _ _ H HK) as (K & HK' & Hr).
  exists K. split; [by eapply list_elem_of_lookup_2|done].
Qed.
Lemma reworded_join Ks Ks' : Forall2 reworded Ks Ks' → same_result (join_all (map gives Ks')) (join_all (map gives Ks)).
Proof. intros H. apply join_all_same. induction H as [|K K' Ks Ks' [_ _ Hg]]; by constructor. Qed.
End reworded.

(** A group of functions that all succeed. *)
Section succeeds.
Context {S Value Name : Type} {SL : Slots S Value} {SLS : SlotsSpec S Value} {SN : SlotNames Name}.
Context {code : string → list (string * string) → thread S (result () string)}.
Context {St : Type} {run_group : list nat → Config.IsolationGroup → prog St (result () string)} {RG : RunsGroups code run_group}.
Lemma group_succeeds g (Ks : list (contract Value Name (result () string))) c sched s k :
  Forall well_formed Ks → apart Ks → Forall2 (λ K a, meets c K (function_thread code a)) Ks (Config.group_to_isolation g) →
  Forall (takes (run_group := run_group)) (Config.group_to_isolation g) → (∀ K, K ∈ Ks → K.(gives) = Ret (Ok ())) →
  (∀ i, (i < length Ks)%nat → (c + extra ≤ turns i sched)%nat) →
  ready (length sched + k) s → (∀ K, K ∈ Ks → holds K.(needs) (at_slot (view s))) →
  ∃ s', run_group sched g s = (Ret (Ok ()), s') ∧ ready k s' ∧
    (∀ K, K ∈ Ks → holds K.(leaves) (at_slot (view s'))) ∧
    ∀ nm, nonneg nm → (∀ K, K ∈ Ks → nm ∉ names K) →
      at_slot (view s') (slot_name nm) = at_slot (view s) (slot_name nm).
Proof.
  intros Hwf Hap Hm Ht Hg Hturns Hs Hn.
  destruct (group_ends (run_group := run_group) g Ks c sched s k Hwf Hap Hm Ht Hturns Hs Hn) as (o & s' & E & Ho & H).
  rewrite join_all_ok in Ho by done. apply same_result_ok in Ho as ->. by exists s'.
Qed.
End succeeds.

(** The groups on their own keep that promise. *)
Section members.
Context {S Value : Type} {SL : Slots S Value} {SLS : SlotsSpec S Value}.
Context (code : string → list (string * string) → thread S (result () string)).
Definition members_run : RunsGroups code (run_members code).
Proof.
  refine {| view s := s; ready := able; extra := 0; takes _ := True |}; [done|exact able_mono|].
  intros N SN' g Ks c sched s k Hwf Hap Hm _ Ht Hs Hn.
  destruct (group_meets code g Ks c sched s k Hwf Hap Hm) as (s' & E & H); [|done|done|].
  - intros i Hi. rewrite <- (Nat.add_0_r c). by apply Ht.
  - exists (join_all (map gives Ks)), s'. by split; [|split; [apply same_result_refl|]].
Defined.
End members.

(** ** Calls on facts about slots *)
Section facts.
Context {S Value Name : Type} {SL : Slots S Value} {SLS : SlotsSpec S Value} {SN : SlotNames Name}.
Local Abbreviation View := (string → SlotState Value).
Local Abbreviation Facts := (list (Name * SlotState Value)).

(** Facts about different slots, all of them [own]. *)
Definition facts_of (own : string → Prop) (fs : Facts) : Prop :=
  NoDup fs.*1 ∧ ∀ nm, nm ∈ fs.*1 → nonneg nm ∧ own (slot_name nm).

Lemma holds_sub fs fs' (v : View) : fs ⊆ fs' → holds fs' v → holds fs v.
Proof. intros H Hv nm st Hin. by apply Hv, H. Qed.
Lemma facts_of_perm own fs fs' : fs ≡ₚ fs' → facts_of own fs → facts_of own fs'.
Proof. intros H [Hnd Hof]. split; [by rewrite <- H|]. intros nm. rewrite <- H. apply Hof. Qed.

(** One slot changes: the facts about the others stay. *)
Lemma other_facts own nm st fs v v' : facts_of own ((nm, st) :: fs) → holds ((nm, st) :: fs) v →
  (∀ q, own q → q ≠ slot_name nm → v' q = v q) → holds fs v'.
Proof.
  intros [Hnd Hof] Hv Hv' nm' st' Hin. cbn [fmap list_fmap fst] in *.
  apply NoDup_cons in Hnd as [Hnm _]. assert (Hf := list_elem_of_fmap_2 fst _ _ Hin). cbn in Hf.
  destruct (Hof nm') as [Hn' Ho']; [by apply list_elem_of_further|].
  destruct (Hof nm) as [Hn Ho]; [apply list_elem_of_here|].
  rewrite Hv'; [by apply Hv, list_elem_of_further|done|]. intros E. apply Hnm.
  by apply slot_name_inj in E as <-.
Qed.

Lemma facts_head own nm st fs v : facts_of own ((nm, st) :: fs) → holds ((nm, st) :: fs) v →
  own (slot_name nm) ∧ v (slot_name nm) = st.
Proof. intros [_ Hof] Hv. split; [apply Hof|apply Hv]; apply list_elem_of_here. Qed.
Lemma facts_tail own nm st fs : facts_of own ((nm, st) :: fs) → facts_of own fs.
Proof.
  intros [Hnd Hof]. cbn [fmap list_fmap fst] in *. apply NoDup_cons in Hnd as [_ Hnd]. split; [done|].
  intros nm' H. by apply Hof, list_elem_of_further.
Qed.

Lemma twp_take_fact {A} k own nm x fs (f : option Value → thread S A) Q v :
  facts_of own ((nm, Full x) :: fs) → holds ((nm, Full x) :: fs) v →
  (∀ v', holds fs v' → twp k own (f (Some x)) Q v') →
  twp (Datatypes.S k) own (take_from (slot_name nm) ≫= f) Q v.
Proof.
  intros Hf Hv HQ. destruct (facts_head _ _ _ _ _ Hf Hv) as [Ho E].
  apply (twp_take k own _ x); [done|done|]. intros v' Hv'. by apply HQ, (other_facts own nm (Full x) fs v).
Qed.
Lemma twp_publish_fact {A} k own nm x fs (f : () → thread S A) Q v :
  good x → facts_of own ((nm, Empty) :: fs) → holds ((nm, Empty) :: fs) v →
  (∀ v', holds ((nm, Full x) :: fs) v' → twp k own (f ()) Q v') →
  twp (Datatypes.S k) own (publish (slot_name nm) x ≫= f) Q v.
Proof.
  intros Hx Hf Hv HQ. destruct (facts_head _ _ _ _ _ Hf Hv) as [Ho E].
  apply twp_publish; [done|done|done|]. intros v' Hx' Hv'. apply HQ.
  intros nm' st [E' | Hin]%elem_of_cons; [by simplify_eq|].
  by apply (other_facts own nm Empty fs v).
Qed.
Lemma twp_publish_each {A B} k own (nm : A → Name) (x : A → Value) (f : () → thread S B) Q : ∀ xs fs v,
  (∀ a, a ∈ xs → good (x a)) → facts_of own (map (λ a, (nm a, Empty)) xs ++ fs) → holds (map (λ a, (nm a, Empty)) xs ++ fs) v →
  (∀ v', holds (map (λ a, (nm a, Full (x a))) xs ++ fs) v' → twp k own (f ()) Q v') →
  twp (length xs + k) own (for_each xs (λ a, publish (slot_name (nm a)) (x a)) ≫= f) Q v.
Proof.
  intros xs fs v Hg Hf Hv HQ. apply twp_bind. revert fs v Hg Hf Hv HQ.
  induction xs as [|a xs IH]; intros fs v Hg Hf Hv HQ; cbn [for_each length]; [apply twp_ret, HQ, Hv|].
  apply (twp_publish_fact _ own (nm a) (x a) _ _ _ _ (Hg a (list_elem_of_here _ _)) Hf Hv).
  intros v1 Hv1. apply (IH ((nm a, Full (x a)) :: fs)).
  - intros b Hb. by apply Hg, list_elem_of_further.
  - apply (facts_of_perm own ((nm a, Full (x a)) :: map (λ a, (nm a, Empty)) xs ++ fs)); [apply Permutation_middle|].
    exact Hf.
  - eapply holds_sub; [|exact Hv1]. cbn. by rewrite Permutation_middle.
  - intros v2 Hv2. apply HQ. eapply holds_sub; [|exact Hv2]. cbn. by rewrite Permutation_middle.
Qed.
End facts.

Lemma names_map {A B Name} (f : A → Name) (g : A → B) l : (map (λ a, (f a, g a)) l).*1 = map f l.
Proof. induction l as [|a l IH]; [done|]. cbn. by f_equal. Qed.
Lemma NoDup_map {A Name} (f : A → Name) l : (∀ a b, f a = f b → a = b) → NoDup l → NoDup (map f l).
Proof. intros Hinj. apply NoDup_fmap_2. intros a b. apply Hinj. Qed.
Lemma Forall_map_nonneg {Name A} {SN : SlotNames Name} (f : A → Name) l : (∀ a, a ∈ l → nonneg (f a)) → Forall nonneg (map f l).
Proof. intros H. apply Forall_forall. by intros nm (a & -> & Ha)%list_elem_of_fmap_1; apply H. Qed.

Lemma elem_of_map_pair {A B Name : Type} (f : A → Name) (g : A → B) l nm st :
  (nm, st) ∈ map (λ a, (f a, g a)) l → ∃ a, a ∈ l ∧ nm = f a ∧ st = g a.
Proof. intros (a & E & Ha)%list_elem_of_fmap_1. exists a. by simplify_eq. Qed.
Lemma in_names {V N R} (K : contract V N R) nm : nm ∈ names K → ∃ st, (nm, st) ∈ K.(needs).
Proof. intros ([nm' st] & -> & H)%list_elem_of_fmap_1. by exists st. Qed.

(** ** Lists by their index *)

Lemma elem_of_concat {A} (x : A) ls : x ∈ concat ls ↔ ∃ l, l ∈ ls ∧ x ∈ l.
Proof.
  rewrite list_elem_of_In, in_concat. by setoid_rewrite list_elem_of_In.
Qed.
Lemma Forall2_seq {A B} (R : A → B → Prop) (f : nat → A) l n : length l = n →
  (∀ i b, l !! i = Some b → R (f i) b) → Forall2 R (map f (seq 0 n)) l.
Proof.
  intros Hl H. apply Forall2_same_length_lookup_2; [by rewrite length_map, length_seq|].
  intros i a b Ha Hb. apply list_lookup_fmap_Some in Ha as (k & -> & Hk).
  apply lookup_seq in Hk as [-> _]. by apply H.
Qed.
Lemma elem_of_map_seq {A} (f : nat → A) n a : a ∈ map f (seq 0 n) ↔ ∃ i, (i < n)%nat ∧ a = f i.
Proof.
  split.
  - intros (i & -> & Hi)%list_elem_of_fmap_1. apply elem_of_seq in Hi. exists i. split; [lia|done].
  - intros (i & Hi & ->). apply (list_elem_of_fmap_2 f), elem_of_seq. lia.
Qed.
Lemma lookup_map_seq {A} (f : nat → A) n i a : map f (seq 0 n) !! i = Some a → (i < n)%nat ∧ a = f i.
Proof.
  intros H. apply list_lookup_fmap_Some in H as (k & -> & Hk). apply lookup_seq in Hk as [-> Hk].
  split; [lia|done].
Qed.

(** The numbers of a list's elements, and those that are left. *)
Lemma numbered_parts {A} (parts : list A) m : (length parts ≤ m)%nat →
  seqZ 0 (Z.of_nat m) = map fst (imap (λ j p, (Z.of_nat j, p)) parts) ++
    seqZ (zlen parts) (Z.of_nat m - zlen parts).
Proof.
  intros Hm. unfold zlen. assert (map fst (imap (λ j p, (Z.of_nat j, p)) parts) = seqZ 0 (Z.of_nat (length parts))) as ->.
  { apply list_eq. intros j. rewrite list_lookup_fmap, list_lookup_imap.
    destruct (parts !! j) as [p|] eqn:E; cbn; symmetry.
    - apply lookup_seqZ. apply lookup_lt_Some in E. lia.
    - apply lookup_seqZ_ge. apply lookup_ge_None_1 in E. lia. }
  replace (Z.of_nat m) with (Z.of_nat (length parts) + (Z.of_nat m - Z.of_nat (length parts))) at 1 by lia.
  by rewrite seqZ_app by lia.
Qed.

Lemma length_concat_in {A} (l : list A) ls : l ∈ ls → (length l ≤ length (concat ls))%nat.
Proof.
  induction ls as [|k ls IH]; [by intros ?%not_elem_of_nil|]. cbn. rewrite length_app.
  intros [-> | H%IH]%elem_of_cons; lia.
Qed.

(** A choice for each of the first [m] numbers. *)
Lemma choose_each {A} (P : nat → A → Prop) m : (∀ j, (j < m)%nat → ∃ a, P j a) →
  ∃ l, length l = m ∧ ∀ j a, l !! j = Some a → P j a.
Proof.
  induction m as [|m IH]; intros H; [by exists []|].
  destruct IH as (l & Hl & Hp); [intros; apply H; lia|]. destruct (H m) as [a Ha]; [lia|].
  exists (l ++ [a]). split; [rewrite length_app; cbn; lia|]. intros j b Hj.
  apply lookup_app_Some in Hj as [Hj|[Hge Hj]]; [by apply Hp|].
  destruct (j - length l)%nat as [|k] eqn:E; [|done]. cbn in Hj. injection Hj as <-.
  by replace j with m by lia.
Qed.

Lemma group_length k name gargs :
  length (Config.group_to_isolation (Config.mk_group (replicate k (Config.Name name)) gargs)) = k.
Proof. unfold Config.group_to_isolation. rewrite length_imap. apply length_replicate. Qed.

Lemma in_group k name gargs i a : gargs !! "id" = None →
  Config.group_to_isolation (Config.mk_group (replicate k (Config.Name name)) gargs) !! i = Some a →
  (i < k)%nat ∧ a.(Config.app_name) = name ∧ a.(Config.args) !! "id" = Some (pretty (Z.of_nat i)) ∧
  ∀ q, q ≠ "id" → a.(Config.args) !! q = gargs !! q.
Proof.
  intros Hid Ha. assert (Hi : (i < k)%nat) by (rewrite <- (group_length k name gargs); by eapply lookup_lt_Some).
  destruct (group_app k name gargs i Hi Hid) as (a' & Ha' & H). rewrite Ha in Ha'. by injection Ha' as <-.
Qed.

(** ** Programs of one thread *)
Section programs.
Context {S : Type}.

Lemma ret_bind {A B} (a : A) (f : A → thread S B) : mret a ≫= f = f a.
Proof. done. Qed.

(** A loop of computations that make no call. *)
Lemma collect_pure {A B} (f : A → thread S B) (g : A → B) l :
  (∀ a, a ∈ l → f a = mret (g a)) → collect f l = mret (map g l).
Proof.
  induction l as [|a l IH]; intros H; [done|]. cbn [collect map].
  rewrite (H a) by apply list_elem_of_here. rewrite IH by (intros b Hb; by apply H, list_elem_of_further).
  done.
Qed.

Lemma for_each_ext {A} (f g : A → thread S ()) l : (∀ a, f a = g a) → for_each l f = for_each l g.
Proof. intros H. induction l as [|a l IH]; [done|]. cbn. by rewrite H, IH. Qed.

End programs.
