(* ===== verification/Entry.v ===== *)
(** * The entry of a function (as_std/src/lib.rs, agent.rs)

    [rust_main] is the symbol the visor calls.  It runs [main], catches its panic if
    the function is built with the feature [unwinding], and makes a text of its
    error; the pointer it returns is to the result modelled here. *)
From Stdlib Require Import Ascii String.
From S2P Require Import Prelude Bytes Threads Slots Contracts.
Local Open Scope Z_scope.

(** [FaaSFuncError::msg], of the text of what was converted into the error. *)
Definition msg (e : string) : string := "user function error: " +:+ e.

Definition returned (unwinding : bool) (o : outcome (result () string)) : outcome (result () string) :=
  match o with
  | Ret (Err e) => Ret (Err ("function exec error: " +:+ msg e))
  | Panic => if unwinding then Ret (Err "catch user function panic.") else Panic
  | o => o
  end.

(** A thread whose outcome is changed when it ends. *)
Fixpoint thread_map {S A B} (f : outcome A → outcome B) (t : thread S A) : thread S B :=
  match t with
  | Done o => Done (f o)
  | Step m => Step (λ s,
      match m s with
      | (Ret t', s') => (Ret (thread_map f t'), s')
      | (Panic, s') => (Ret (Done (f Panic)), s')
      | (Deadlock, s') => (Ret (Done (f Deadlock)), s')
      | (NoFuel, s') => (Ret (Done (f NoFuel)), s')
      end)
  end.
Definition rust_main {S} (unwinding : bool) (main : thread S (result () string)) : thread S (result () string) :=
  thread_map (returned unwinding) main.

Section meets.
Context {S V Name : Type} {SL : Slots S V} {SLS : SlotsSpec S V} {SN : SlotNames Name}.

Lemma twp_map {A B} (f : outcome A → outcome B) own n (t : thread S A) Q v :
  twp n own t (λ o v', Q (f o) v') v → twp n own (thread_map f t) Q v.
Proof.
  revert n v. revert t. fix IH 1. intros [o|m] n v; [by destruct n|]. destruct n as [|n]; [done|].
  cbn [twp thread_map]. intros H s k Hk Hs. destruct (H s k Hk Hs) as (Ha & Ho & Hr). clear H Hk Hs.
  destruct (m s) as [[t'| | |] s']; cbn in *; (split; [done|]; split; [done|]); [by apply IH|by destruct n..].
Qed.

(** A function keeps the contract of its [main], with the outcome changed. *)
Definition entry_contract (unwinding : bool) (K : contract V Name (result () string)) :=
  mk_contract K.(needs) (returned unwinding K.(gives)) K.(leaves).
Lemma entry_meets n unwinding (K : contract V Name (result () string)) main : meets n K main →
  meets n (entry_contract unwinding K) (rust_main unwinding main).
Proof.
  intros H v Hv. apply twp_map. eapply twp_mono; [done| |exact (H v Hv)].
  by intros o v' [-> Hl].
Qed.
End meets.

(** The outcomes of [main], and what the visor gets of them. *)
Example returned_ex : map (returned true) [Ret (Ok ()); Ret (Err "full"); Panic; NoFuel] =
  [Ret (Ok ()); Ret (Err "function exec error: user function error: full"); Ret (Err "catch user function panic."); NoFuel].
Proof. reflexivity. Qed.
