(* ===== verification/SortFuncs.v ===== *)
(** * The parallel sort (user/file_reader, sorter, splitter, merger,
    checker)

    The functions of the workflow, each a thread over [Slots]: [main] with its
    arguments, one call on a slot a step.  A slot holds a text (Reader2Sorter) or
    an array (VecArg, Pivots); the receiver checks which.  Lines that are only
    printed are left out. *)
From Stdlib Require Import Ascii String.
From stdpp Require Import sorting.
From S2P Require Import Prelude Bytes Hostcall Ipv4 Text Threads Slots Contracts.
Local Open Scope Z_scope.

Inductive Value : Type := Content (content : string) | Array (array : list Z).

Section functions.
Context {S : Type} {SL : Slots S Value} {FL : Files S}.
Local Abbreviation M := (thread S).

(** [DataBuffer::<T>::from_buffer_slot(slot).unwrap()] at either type. *)
Definition take_content (slot : string) : M string :=
  v ← take_from slot;
  match v with Some (Content s) => mret s | _ => Done Panic end.
Definition take_array (slot : string) : M (list Z) :=
  v ← take_from slot;
  match v with Some (Array l) => mret l | _ => Done Panic end.

(** ** file_reader *)

(** A buffer whose function fails is dropped with what was in it, an empty text. *)
Definition file_reader (args : list (string * string)) : M (result () string) :=
  slot_name ← get_or_panic (arg args "slot_name");
  input_file ← get_or_panic (arg args "input_file");
  r ← atomic (read_file input_file);
  match r with
  | Err e => _ ← publish slot_name (Content ""); mret (Err (show_fdtab e))
  | Ok content => _ ← publish slot_name (Content content); mret (Ok ())
  end.

(** ** sorter *)

(** The loop over [content.split(',')], on the array built so far; the first
    number that cannot be parsed ends it. *)
Fixpoint parse_loop (pieces : list string) (array : list Z) : list Z * result () string :=
  match pieces with
  | [] => (array, Ok ())
  | num :: pieces =>
      let num := trim num in
      if String.eqb num "" then parse_loop pieces array
      else match parse_u32 num with
           | Some n => parse_loop pieces (array ++ [n])
           | None => (array, Err ("parse Int failed, num=" +:+ num))
           end
  end.

(** [(0..merger_num - 1).map(..).collect()]; the product may overflow and the
    index may be out of range. *)
Definition pivot (array : list Z) (merger_num i : Z) : M Z :=
  p ← get_or_panic (if fitsb 64 ((i + 1) * zlen array) then Some ((i + 1) * zlen array) else None);
  get_or_panic (array !! Z.to_nat (p / merger_num)).
Definition pivots_of (array : list Z) (merger_num : Z) : M (list Z) :=
  n ← get_or_panic (if fitsb 64 (merger_num - 1) then Some (merger_num - 1) else None);
  collect (pivot array merger_num) (seqZ 0 n).

Definition sorter (args : list (string * string)) : M (result () string) :=
  my_id ← get_or_panic (arg args "id");
  sorter_num ← get_or_panic (arg_num 64 args "sorter_num");
  merger_num ← get_or_panic (arg_num 64 args "merger_num");
  content ← take_content ("input-part-" +:+ my_id);
  let '(array, r) := parse_loop (split "," content) [] in
  match r with
  | Err e => _ ← publish ("sorter-resp-part-" +:+ my_id) (Array array); mret (Err e)
  | Ok _ =>
      let array := merge_sort Z.le array in
      _ ← publish ("sorter-resp-part-" +:+ my_id) (Array array);
      if String.eqb my_id "0" then
        pivots ← pivots_of array merger_num;
        _ ← for_each (seqZ 0 sorter_num) (λ i, publish (numbered "pivots-" i) (Array pivots));
        mret (Ok ())
      else mret (Ok ())
  end.

(** ** splitter *)

(** The numbers below [pivot] at the front. *)
Fixpoint under_pivot (pivot : Z) (numbers : list Z) : list Z :=
  match numbers with
  | num :: numbers => if num <? pivot then num :: under_pivot pivot numbers else []
  | [] => []
  end.
Fixpoint split_loop (numbers : list Z) (pivots : list Z) (current_start : nat) (result : list (list Z)) :
    list (list Z) * nat :=
  match pivots with
  | [] => (result, current_start)
  | pivot :: pivots =>
      let current_partition := under_pivot pivot (drop current_start numbers) in
      let result := result ++ [current_partition] in
      let current_start := (current_start + length current_partition)%nat in
      if (length numbers <=? current_start)%nat then (result, current_start)
      else split_loop numbers pivots current_start result
  end.
Definition split_numbers (numbers pivots : list Z) : list (list Z) :=
  let '(result, current_start) := split_loop numbers pivots 0 [] in
  result ++ [drop current_start numbers].

Definition splitter (args : list (string * string)) : M (result () string) :=
  my_id ← get_or_panic (arg args "id");
  numbers ← take_array ("sorter-resp-part-" +:+ my_id);
  pivots ← take_array ("pivots-" +:+ my_id);
  let partitions := split_numbers numbers pivots in
  _ ← for_each (imap (λ idx p, (Z.of_nat idx, p)) partitions)
        (λ '(idx, partition), publish (numbered ("splitter-" +:+ my_id +:+ "-resp-part-") idx) (Array partition));
  mret (Ok ()).

(** ** merger *)

(** One pass over the partitions: the least of their next numbers, which must be
    below [min_value], and whose it is. *)
Fixpoint scan (partitions : list (list Z)) (i : nat) (indices : list nat) (min_value : Z)
    (min_partition : option nat) : option (Z * option nat) :=
  match indices with
  | [] => Some (min_value, min_partition)
  | index :: indices =>
      part ← partitions !! i;
      if (index <? length part)%nat && (default U32_MAX (part !! index) <? min_value)
      then v ← part !! index; scan partitions (Datatypes.S i) indices v (Some i)
      else scan partitions (Datatypes.S i) indices min_value min_partition
  end.
Fixpoint merge_loop (fuel : nat) (partitions : list (list Z)) (indices : list nat) (dst : list Z) :
    outcome (list Z) :=
  match fuel with
  | O => NoFuel
  | Datatypes.S fuel =>
      match scan partitions 0 indices U32_MAX None with
      | None => Panic
      | Some (min_value, Some partition_idx) =>
          merge_loop fuel partitions (alter Datatypes.S partition_idx indices) (dst ++ [min_value])
      | Some (_, None) => Ret dst
      end
  end.
(** No more numbers can be merged than there are. *)
Definition merge_partitions (partitions : list (list Z)) (dst : list Z) : outcome (list Z) :=
  merge_loop (Datatypes.S (length (concat partitions))) partitions (map (λ _, O) partitions) dst.

Definition merger (args : list (string * string)) : M (result () string) :=
  my_id ← get_or_panic (arg args "id");
  sorter_num ← get_or_panic (arg_num 32 args "sorter_num");
  partitions ← collect (λ idx, take_array (numbered "splitter-" idx +:+ "-resp-part-" +:+ my_id))
                 (seqZ 0 sorter_num);
  merged_result ← Done (merge_partitions partitions []);
  _ ← publish ("merge_result_" +:+ my_id) (Array merged_result);
  mret (Ok ()).

(** ** checker *)

Fixpoint is_sorted (l : list Z) : bool :=
  match l with
  | a :: (b :: _) as l' => (a <=? b) && is_sorted l'
  | _ => true
  end.

(** The loop over the results; [map] is lazy, so a result is taken when the loop
    comes to it. *)
Fixpoint check_loop (idxs : list Z) (last_max counter : Z) : M (result Z string) :=
  match idxs with
  | [] => mret (Ok counter)
  | idx :: idxs =>
      array ← take_array (numbered "merge_result_" idx);
      counter ← get_or_panic (if fitsb 64 (counter + zlen array) then Some (counter + zlen array) else None);
      if negb (is_sorted array) then mret (Err "sort result is wrong")
      else match array with
           | first :: _ => if first <? last_max then mret (Err "sort result is wrong")
                           else check_loop idxs first counter
           | [] => check_loop idxs last_max counter
           end
  end.
Definition checker (args : list (string * string)) : M (result () string) :=
  merger_num ← get_or_panic (arg_num 32 args "merger_num");
  r ← check_loop (seqZ 0 merger_num) 0 0;
  mret (match r with Ok _ => Ok () | Err e => Err e end).
End functions.

Example split_ex : split_numbers [1; 2; 5; 9] [2; 6] = [[1]; [2; 5]; [9]].
Proof. reflexivity. Qed.
Example split_short : split_numbers [1] [5; 9] = [[1]; []].
Proof. reflexivity. Qed.
Example merge_ex : merge_partitions [[1; 4]; [2; 2; 9]; []] [] = Ret [1; 2; 2; 4; 9].
Proof. reflexivity. Qed.
Example parse_sort_ex : parse_loop (split "," " 3, 1,,2 
") [] = ([3; 1; 2], Ok ()).
Proof. reflexivity. Qed.
