(* ===== verification/SortSpec.v ===== *)
(** * The parallel sort sorts: the algorithms

    What [split_numbers] and [merge_partitions] compute: a partition of sorted
    numbers by the pivots, and the merge of sorted partitions - but for the numbers
    equal to [u32::MAX], which the merge loses, and but for the last partitions,
    which a splitter leaves out when its numbers run out before its pivots do. *)
From Stdlib Require Import Ascii String.
From stdpp Require Import sorting.
From S2P Require Import Prelude Bytes Ipv4 Text Threads Slots Contracts SortFuncs.
Local Open Scope Z_scope.

Abbreviation sorted := (StronglySorted Z.le).

(** ** Parsing *)

Lemma digits_ge s : ∀ acc n, 0 ≤ acc → digits acc s = Some n → 0 ≤ n.
Proof.
  induction s as [|c s IH]; intros acc n Ha; cbn [digits]; [by intros [= <-]|].
  destruct (digit c) as [d|] eqn:Hd; [|done]. cbn. apply IH. unfold digit in Hd.
  destruct ((48 <=? _) && (_ <=? 57)) eqn:E; [|done]. injection Hd as <-.
  apply andb_true_iff in E as [E _]. apply Z.leb_le in E. lia.
Qed.
Lemma parse_uint_fits w s n : parse_uint w s = Some n → fits w n.
Proof.
  unfold parse_uint. set (s' := match s with String "+" s => s | _ => s end). clearbody s'. clear s.
  destruct s' as [|c s]; [done|]. destruct (digits 0 (String c s)) as [x|] eqn:E; [|done]. cbn [mbind option_bind].
  destruct (Z.ltb_spec x (2 ^ w)); [|done]. intros [= <-]. split; [|done].
  apply (digits_ge (String c s) 0); [lia|done].
Qed.
Lemma parse_loop_fits pieces : ∀ array, Forall (fits 32) array →
  Forall (fits 32) (parse_loop pieces array).1.
Proof.
  induction pieces as [|num pieces IH]; intros array Ha; [done|]. cbn [parse_loop].
  destruct (String.eqb _ _); [by apply IH|].
  destruct (parse_u32 (trim num)) as [n|] eqn:E; [|done].
  apply IH, Forall_app. split; [done|]. constructor; [by eapply parse_uint_fits|done].
Qed.

(** ** Splitting *)

Lemma below_app p l : under_pivot p l ++ drop (length (under_pivot p l)) l = l.
Proof.
  induction l as [|x l IH]; [done|]. cbn [under_pivot]. destruct (x <? p); [|done].
  cbn [length drop app]. by rewrite IH.
Qed.
Lemma below_lt p l x : x ∈ under_pivot p l → x < p.
Proof.
  induction l as [|y l IH]; cbn [under_pivot]; [by intros ?%not_elem_of_nil|].
  destruct (Z.ltb_spec y p); [|by intros ?%not_elem_of_nil]. intros [-> | Hx]%elem_of_cons; [done|by apply IH].
Qed.
Lemma below_ge p l x : sorted l → x ∈ drop (length (under_pivot p l)) l → p ≤ x.
Proof.
  induction l as [|y l IH]; cbn [under_pivot]; [by intros _ ?%not_elem_of_nil|].
  intros [Hy Hl]%StronglySorted_cons. destruct (Z.ltb_spec y p) as [|Hle].
  - cbn [length drop]. by apply IH.
  - cbn [length drop]. intros [-> | Hx]%elem_of_cons; [done|]. rewrite Forall_forall in Hy.
    specialize (Hy x Hx). lia.
Qed.
Lemma below_all p l : (∀ x, x ∈ l → x < p) → under_pivot p l = l.
Proof.
  induction l as [|y l IH]; intros H; [done|]. cbn [under_pivot].
  rewrite (proj2 (Z.ltb_lt _ _)) by (apply H, list_elem_of_here). f_equal. apply IH.
  intros x Hx. by apply H, list_elem_of_further.
Qed.

Lemma sorted_drop n l : sorted l → sorted (drop n l).
Proof. intros H. rewrite <- (take_drop n l) in H. by apply StronglySorted_app in H as (_ & _ & ?). Qed.
Lemma sorted_part l1 l2 l3 : sorted (l1 ++ l2 ++ l3) → sorted l2.
Proof. intros H. by apply StronglySorted_app in H as (_ & _ & (_ & H & _)%StronglySorted_app). Qed.

(** Below the pivot with its number, if there is one, and not below those before. *)
Definition in_range (pivots : list Z) (j : nat) (x : Z) : Prop :=
  (∀ p, pivots !! j = Some p → x < p) ∧ ∀ i p, (i < j)%nat → pivots !! i = Some p → p ≤ x.

(** The loop from [cur] on: the partitions it adds, and where it stops. *)
Lemma split_loop_spec numbers : sorted numbers → ∀ pivots cur result,
  (cur ≤ length numbers)%nat → ∃ parts stop,
  split_loop numbers pivots cur result = (result ++ parts, stop) ∧ (stop ≤ length numbers)%nat ∧
  concat parts ++ drop stop numbers = drop cur numbers ∧
  (Nat.min 1 (length pivots) ≤ length parts ≤ length pivots)%nat ∧
  ((length parts < length pivots)%nat → stop = length numbers) ∧
  (∀ j part x, (parts ++ [drop stop numbers]) !! j = Some part → x ∈ part → in_range pivots j x) ∧
  ∀ i p, pivots !! i = Some p → (∀ x, x ∈ drop cur numbers → x < p) → (length parts ≤ i + 1)%nat.
Proof.
  intros Hs. induction pivots as [|p pivots IH]; intros cur result Hcur; cbn [split_loop].
  - exists [], cur. rewrite app_nil_r. split_and!; try done. cbn. lia.
  - set (b := under_pivot p (drop cur numbers)). assert (Hb : b ++ drop (length b) (drop cur numbers) = drop cur numbers)
      by apply below_app.
    assert (Hlb : (length b ≤ length numbers - cur)%nat).
    { apply (f_equal length) in Hb. rewrite length_app, !length_drop in Hb. lia. }
    rewrite drop_drop in Hb.
    destruct (Nat.leb_spec (length numbers) (cur + length b)) as [Hend|Hgo].
    + exists [b], (cur + length b)%nat. split_and!; try done; try (cbn; lia).
      * cbn [concat]. by rewrite app_nil_r.
      * intros [|[|j]] part x; cbn.
        -- intros [= <-] Hx. split; [|intros; lia]. intros q [= <-]. by eapply below_lt.
        -- rewrite drop_ge by lia. by intros [= <-] ?%not_elem_of_nil.
        -- done.
    + destruct (IH (cur + length b)%nat (result ++ [b]) ltac:(lia))
        as (parts & stop & E & Hstop & Hc & Hlen & Hshort & Hin & Hall).
      exists (b :: parts), stop. rewrite E, <- app_assoc. split_and!; try done; try (cbn; lia).
      * cbn [concat]. by rewrite <- app_assoc, Hc.
      * intros [|j] part x; cbn.
        { intros [= <-] Hx. split; [|intros; lia]. intros q [= <-]. by eapply below_lt. }
        intros Hj Hx. destruct (Hin j part x Hj Hx) as [H1 H2]. split; [done|].
        intros [|i] q Hi; cbn; [|by apply H2; lia]. intros [= <-].
        apply (below_ge p (drop cur numbers)); [by apply sorted_drop|]. fold b. rewrite drop_drop, <- Hc.
        apply elem_of_app. apply list_elem_of_lookup_2, elem_of_app in Hj as [Hj|Hj].
        { left. apply elem_of_concat. eauto. }
        { right. by apply list_elem_of_singleton in Hj as ->. }
      * intros [|i] q; cbn.
        { intros [= <-] H. unfold b in Hgo. rewrite below_all in Hgo by done. rewrite length_drop in Hgo. lia. }
        intros Hi H. specialize (Hall i q Hi). cut (length parts ≤ i + 1)%nat; [lia|]. apply Hall.
        intros x Hx. apply H. rewrite <- Hb. apply elem_of_app. by right.
Qed.

Lemma split_numbers_spec numbers pivots : sorted numbers →
  let parts := split_numbers numbers pivots in
  concat parts = numbers ∧ (0 < length parts ≤ Datatypes.S (length pivots))%nat ∧
  ∀ j part x, parts !! j = Some part → x ∈ part → in_range pivots j x.
Proof.
  intros Hs parts.
  destruct (split_loop_spec numbers Hs pivots 0 [] ltac:(lia)) as (ps & stop & E & _ & Hc & Hl & _ & Hin & _).
  unfold parts, split_numbers. rewrite E. cbn [app]. split_and!; [|rewrite length_app; cbn; lia..|done].
  rewrite drop_0 in Hc. rewrite concat_app. cbn [concat]. by rewrite app_nil_r.
Qed.

(** All partitions are there if some number reaches every pivot but the last. *)
Lemma split_numbers_full numbers pivots : sorted numbers →
  (length pivots ≤ 1)%nat ∨ (∃ x, x ∈ numbers ∧ ∀ i p, (i + 1 < length pivots)%nat → pivots !! i = Some p → p ≤ x) →
  length (split_numbers numbers pivots) = Datatypes.S (length pivots).
Proof.
  intros Hs Hx.
  destruct (split_loop_spec numbers Hs pivots 0 [] ltac:(lia)) as (ps & stop & E & Hstop & Hc & Hl & Hshort & Hin & _).
  unfold split_numbers. rewrite E. cbn [app]. rewrite length_app. cbn [length].
  destruct (decide (length ps = length pivots)) as [->|Hne]; [lia|exfalso].
  destruct Hx as [Hx|(x & Hx & Hlast)]; [lia|].
  rewrite drop_0 in Hc. specialize (Hshort ltac:(lia)). subst stop.
  rewrite drop_all, app_nil_r in Hc. rewrite <- Hc in Hx.
  apply elem_of_concat in Hx as (part & [j Hj]%list_elem_of_lookup & Hx).
  assert (Hjl := lookup_lt_Some _ _ _ Hj). destruct (lookup_lt_is_Some_2 pivots j) as [q Hq]; [lia|].
  assert (Hlt := proj1 (Hin j part x (lookup_app_l_Some _ _ _ _ Hj) Hx) q Hq).
  specialize (Hlast j q ltac:(lia) Hq). lia.
Qed.

(** Some are missing if all numbers are below a pivot that is not the last. *)
Lemma split_numbers_short numbers pivots i p : sorted numbers → pivots !! i = Some p →
  (i + 1 < length pivots)%nat → (∀ x, x ∈ numbers → x < p) →
  (length (split_numbers numbers pivots) ≤ length pivots)%nat.
Proof.
  intros Hs Hi Hlt Hall.
  destruct (split_loop_spec numbers Hs pivots 0 [] ltac:(lia)) as (ps & stop & E & _ & _ & _ & _ & _ & H).
  unfold split_numbers. rewrite E. cbn [app]. rewrite length_app. cbn [length].
  specialize (H i p Hi ltac:(done)). lia.
Qed.

(** ** Merging *)

(** What is left of the partitions behind the indices. *)
Definition rests (partitions : list (list Z)) (indices : list nat) : list (list Z) :=
  zip_with drop indices partitions.

Lemma scan_spec partitions : ∀ indices i mv mp, (i + length indices ≤ length partitions)%nat →
  let rs := rests (drop i partitions) indices in
  ∃ m o, scan partitions i indices mv mp = Some (m, o) ∧ m ≤ mv ∧
    (∀ r v, r ∈ rs → head r = Some v → m ≤ v) ∧
    ((m = mv ∧ o = mp) ∨ ∃ j r, o = Some (i + j)%nat ∧ m < mv ∧ rs !! j = Some (m :: r)).
Proof.
  induction indices as [|index indices IH]; intros i mv mp Hi rs; cbn [length] in Hi.
  - exists mv, mp. split; [done|]. split; [lia|]. split; [by intros r v ?%not_elem_of_nil|by left].
  - destruct (lookup_lt_is_Some_2 partitions i) as [part Hp]; [lia|].
    assert (Hrs : rs = drop index part :: rests (drop (Datatypes.S i) partitions) indices).
    { unfold rs, rests. by rewrite (drop_S _ part i Hp). }
    assert (Hnext : ∀ mv' mp', (∀ v, head (drop index part) = Some v → mv' ≤ v) → mv' ≤ mv →
      (mv' = mv ∧ mp' = mp ∨ mv' < mv ∧ mp' = Some i ∧ ∃ r, drop index part = mv' :: r) →
      ∃ m o, scan partitions (Datatypes.S i) indices mv' mp' = Some (m, o) ∧ m ≤ mv ∧
      (∀ r v, r ∈ rs → head r = Some v → m ≤ v) ∧
      ((m = mv ∧ o = mp) ∨ ∃ j r, o = Some (i + j)%nat ∧ m < mv ∧ rs !! j = Some (m :: r))).
    { intros mv' mp' Hhd Hle Hcase.
      destruct (IH (Datatypes.S i) mv' mp' ltac:(lia)) as (m & o & E & Hm & Hmin & Ho).
      exists m, o. split; [done|]. split; [lia|]. split.
      - intros r v. rewrite Hrs. intros [-> | Hr]%elem_of_cons Hv; [specialize (Hhd v Hv); lia|by eapply Hmin].
      - rewrite Hrs. destruct Ho as [[-> ->]|(j & r & -> & Hlt & Hr)].
        + destruct Hcase as [[-> ->]|(Hlt & -> & r & Hr)]; [by left|right].
          exists O, r. rewrite Nat.add_0_r. by rewrite Hr.
        + right. exists (Datatypes.S j), r. split; [f_equal; lia|]. split; [lia|done]. }
    cbn [scan]. rewrite Hp. cbn [mbind option_bind].
    destruct (part !! index) as [v|] eqn:Hv.
    + assert (Hdrop := drop_S _ _ _ Hv).
      rewrite (proj2 (Nat.ltb_lt _ _)) by (by eapply lookup_lt_Some).
      cbn [from_option andb mbind option_bind]. unfold id.
      destruct (Z.ltb_spec v mv); apply Hnext; rewrite ?Hdrop; try done; try lia; try by left.
      * intros w [= <-]. lia.
      * right. eauto.
      * intros w [= <-]. lia.
    + rewrite (proj2 (Nat.ltb_ge _ _)) by (by apply lookup_ge_None_1). cbn [andb].
      apply Hnext; [|lia|by left]. rewrite drop_ge by (by apply lookup_ge_None_1). done.
Qed.

Lemma rests_next partitions indices k v r : rests partitions indices !! k = Some (v :: r) →
  rests partitions (alter Datatypes.S k indices) = <[k := r]> (rests partitions indices).
Proof.
  intros Hk. apply list_eq. intros j. unfold rests in *.
  rewrite lookup_zip_with in Hk. destruct (indices !! k) as [n|] eqn:Hn; [|done]. cbn in Hk.
  destruct (partitions !! k) as [p|] eqn:Hp; [|done]. injection Hk as Hk.
  rewrite lookup_zip_with. destruct (decide (k = j)) as [<-|Hne].
  - rewrite list_lookup_alter_eq, Hn, Hp. rewrite list_lookup_insert_eq.
    + cbn. f_equal. by rewrite <- Nat.add_1_r, <- drop_drop, Hk.
    + rewrite length_zip_with. apply lookup_lt_Some in Hn, Hp. lia.
  - by rewrite list_lookup_alter_ne, list_lookup_insert_ne, lookup_zip_with by done.
Qed.

Lemma concat_insert {A} (ls : list (list A)) k v r : ls !! k = Some (v :: r) →
  concat ls ≡ₚ v :: concat (<[k := r]> ls).
Proof.
  revert k. induction ls as [|l ls IH]; intros [|k]; cbn; [done|done|by intros [= ->]|].
  intros Hk. rewrite (IH k Hk). symmetry. apply Permutation_middle.
Qed.

(** The numbers the merge keeps. *)
Definition kept (l : list Z) : list Z := filter (λ x, x < U32_MAX) l.

Lemma merge_loop_spec partitions : ∀ fuel indices dst, length indices = length partitions →
  Forall sorted (rests partitions indices) → (length (concat (rests partitions indices)) < fuel)%nat →
  ∃ out, merge_loop fuel partitions indices dst = Ret (dst ++ out) ∧
    out ≡ₚ kept (concat (rests partitions indices)) ∧ sorted out.
Proof.
  induction fuel as [|fuel IH]; intros indices dst Hlen Hs Hf; [lia|]. cbn [merge_loop].
  destruct (scan_spec partitions indices 0 U32_MAX None ltac:(lia)) as (m & o & -> & _ & Hmin & Ho).
  rewrite drop_0 in Hmin, Ho. set (rs := rests partitions indices) in *.
  assert (Hge : ∀ x, x ∈ concat rs → m ≤ x).
  { intros x (r & Hr & Hx)%elem_of_concat. rewrite Forall_forall in Hs.
    specialize (Hs r Hr). destruct r as [|v r]; [by apply not_elem_of_nil in Hx|].
    specialize (Hmin (v :: r) v Hr eq_refl). apply StronglySorted_cons in Hs as [Hs _].
    rewrite Forall_forall in Hs. apply elem_of_cons in Hx as [-> | Hx]; [done|]. specialize (Hs x Hx). lia. }
  destruct Ho as [[-> ->]|(k & r & -> & Hlt & Hr)].
  - exists []. rewrite app_nil_r. split; [done|]. split; [|by constructor].
    unfold kept.
    destruct (filter (λ x, x < U32_MAX) (concat rs)) as [|y l] eqn:E; [done|exfalso].
    assert (Hy : y ∈ filter (λ x, x < U32_MAX) (concat rs)) by (rewrite E; apply list_elem_of_here).
    apply list_elem_of_filter in Hy as [Hy1 Hy2]. specialize (Hge y Hy2). lia.
  - cbn [Nat.add]. assert (Hp := concat_insert rs k m r Hr).
    assert (Hnext := rests_next partitions indices k m r Hr).
    destruct (IH (alter Datatypes.S k indices) (dst ++ [m])) as (out & E & Hperm & Hsort).
    + by rewrite length_alter.
    + rewrite Hnext. apply Forall_insert; [done|]. rewrite Forall_forall in Hs.
      specialize (Hs _ (list_elem_of_lookup_2 _ _ _ Hr)). by apply StronglySorted_cons in Hs as [_ ?].
    + rewrite Hnext. fold rs. apply Permutation_length in Hp. cbn [length] in Hp. lia.
    + rewrite Hnext in Hperm. fold rs in Hperm. exists (m :: out). rewrite E, <- app_assoc. split; [done|].
      assert (Hk : kept (concat rs) ≡ₚ m :: kept (concat (<[k := r]> rs))).
      { unfold kept. rewrite Hp. rewrite filter_cons_True by done. done. }
      split; [by rewrite Hk, Hperm|]. apply StronglySorted_cons. split; [|done].
      apply Forall_forall. intros x Hx. apply Hge. rewrite Hp. apply list_elem_of_further.
      rewrite Hperm in Hx. by apply list_elem_of_filter in Hx as [_ ?].
Qed.

Lemma rests_start partitions : rests partitions (map (λ _, O) partitions) = partitions.
Proof. unfold rests. induction partitions as [|p ps IH]; [done|]. cbn. by rewrite drop_0, IH. Qed.

Lemma merge_partitions_spec partitions : Forall sorted partitions →
  ∃ out, merge_partitions partitions [] = Ret out ∧ out ≡ₚ kept (concat partitions) ∧ sorted out.
Proof.
  intros Hs. unfold merge_partitions.
  destruct (merge_loop_spec partitions (Datatypes.S (length (concat partitions)))
    (map (λ _, O) partitions) []) as (out & E & Hp & Ho); rewrite ?rests_start in *; try done.
  - by rewrite length_map.
  - lia.
  - by exists out.
Qed.
