(* ===== verification/SortFlow.v ===== *)
(** * The parallel sort sorts: the workflow

    Sorters, splitters and mergers as the visor runs them: the configuration of
    isol_config/parallel_sort_c3.json with [n] sorters and [m] mergers, and the
    contract each function meets. *)
From Stdlib Require Import Ascii String.
From stdpp Require Import sorting.
From S2P Require Import Prelude Bytes Ipv4 Text Threads Visor AsStdSpec Slots Contracts Entry SortFuncs SortSpec.
Local Open Scope Z_scope.

(** The functions of the workflow, by name; all but the reader are built to catch
    their panics. *)
Definition sort_code {S} {SL : Slots S Value} {FL : Files S} (name : string) (args : list (string * string)) :
    thread S (result () string) :=
  if String.eqb name "file_reader" then rust_main false (file_reader args)
  else if String.eqb name "sorter" then rust_main true (sorter args)
  else if String.eqb name "splitter" then rust_main true (splitter args)
  else if String.eqb name "merger" then rust_main true (merger args)
  else if String.eqb name "checker" then rust_main true (checker args)
  else Done Panic.

(** The groups of the configuration. *)
Definition data_file (i : nat) : string := "sort_data_" +:+ pretty (Z.of_nat i) +:+ ".txt".
Definition reader_group (n : nat) : Config.IsolationGroup :=
  Config.mk_group (map (λ i, Config.Detailed (Config.mk_app "file_reader"
    {["slot_name" := numbered "input-part-" (Z.of_nat i); "input_file" := data_file i]})) (seq 0 n)) ∅.
Definition sorter_group (n m : nat) : Config.IsolationGroup :=
  Config.mk_group (replicate n (Config.Name "sorter"))
    {["sorter_num" := pretty (Z.of_nat n); "merger_num" := pretty (Z.of_nat m)]}.
Definition splitter_group (n : nat) : Config.IsolationGroup :=
  Config.mk_group (replicate n (Config.Name "splitter")) ∅.
Definition merger_group (n m : nat) : Config.IsolationGroup :=
  Config.mk_group (replicate m (Config.Name "merger")) {["sorter_num" := pretty (Z.of_nat n)]}.
Definition sort_groups (n m : nat) : list Config.IsolationGroup :=
  [reader_group n; sorter_group n m; splitter_group n; merger_group n m].

(** ** The names of the slots *)

Inductive Name : Type :=
  | NInput (i : Z) | NSorted (i : Z) | NPivots (i : Z) | NPart (i j : Z) | NMerged (j : Z).
Definition sort_slot (n : Name) : string :=
  match n with
  | NInput i => "input-part-" +:+ pretty i
  | NSorted i => "sorter-resp-part-" +:+ pretty i
  | NPivots i => "pivots-" +:+ pretty i
  | NPart i j => "splitter-" +:+ pretty i +:+ "-resp-part-" +:+ pretty j
  | NMerged j => "merge_result_" +:+ pretty j
  end.
Definition sort_nonneg (n : Name) : Prop :=
  match n with
  | NInput i | NSorted i | NPivots i | NMerged i => 0 ≤ i
  | NPart i j => 0 ≤ i ∧ 0 ≤ j
  end.
(** The name between its dashes. *)
Definition words (n : Name) : list string :=
  match n with
  | NInput i => ["input"; "part"; pretty i]
  | NSorted i => ["sorter"; "resp"; "part"; pretty i]
  | NPivots i => ["pivots"; pretty i]
  | NPart i j => ["splitter"; pretty i; "resp"; "part"; pretty j]
  | NMerged j => ["merge_result_" +:+ pretty j]
  end.

Lemma split_words n : sort_nonneg n → split "-" (sort_slot n) = words n.
Proof.
  assert (Hp : ∀ i, 0 ≤ i → split "-" (pretty i) = [pretty i]) by (intros; by apply split_free, pretty_free).
  destruct n as [i|i|i|i j|j]; cbn [sort_nonneg sort_slot words]; intros H.
  - change ("input-part-" +:+ pretty i) with ("input" +:+ String "-" ("part" +:+ String "-" (pretty i))).
    by rewrite !split_app, Hp.
  - change ("sorter-resp-part-" +:+ pretty i)
      with ("sorter" +:+ String "-" ("resp" +:+ String "-" ("part" +:+ String "-" (pretty i)))).
    by rewrite !split_app, Hp.
  - change ("pivots-" +:+ pretty i) with ("pivots" +:+ String "-" (pretty i)). by rewrite split_app, Hp.
  - change ("splitter-" +:+ pretty i +:+ "-resp-part-" +:+ pretty j)
      with ("splitter" +:+ String "-" (pretty i +:+ String "-" ("resp" +:+ String "-" ("part" +:+
        String "-" (pretty j))))).
    destruct H as [Hi Hj]. rewrite split_app by done.
    rewrite split_app by by apply pretty_free. by rewrite !split_app, Hp.
  - apply split_free, free_of_app; [done|by apply pretty_free].
Qed.

Lemma sort_slot_inj n n' : sort_nonneg n → sort_nonneg n' → sort_slot n = sort_slot n' → n = n'.
Proof.
  intros Hn Hn' H. apply (f_equal (split "-")) in H. rewrite !split_words in H by done.
  destruct n, n'; cbn [words] in H; try discriminate H; by simplify_eq.
Qed.

#[export] Instance sort_names : SlotNames Name :=
  {| slot_name := sort_slot; nonneg := sort_nonneg; slot_name_inj := sort_slot_inj |}.

(** ** The pivots *)
Section pivots.
Context {S : Type} {SL : Slots S Value}.

Definition pivot_list (array : list Z) (m : nat) : list Z :=
  map (λ i, default 0 (array !! Z.to_nat ((i + 1) * zlen array / Z.of_nat m))) (seqZ 0 (Z.of_nat m - 1)).

Lemma length_pivot_list array m : length (pivot_list array m) = (m - 1)%nat.
Proof. unfold pivot_list. rewrite length_map, length_seqZ. lia. Qed.

Lemma pivots_of_eq array m : (0 < m)%nat → Z.of_nat m * zlen array < 2 ^ 64 → Z.of_nat m < 2 ^ 64 →
  (array ≠ [] ∨ m = 1%nat) → pivots_of (S := S) array (Z.of_nat m) = mret (pivot_list array m).
Proof.
  intros Hm Hf Hm64 Hne. assert (H0 := zlen_nonneg array). unfold pivots_of, fitsb.
  rewrite (proj2 (Z.leb_le _ _)), (proj2 (Z.ltb_lt _ _)) by lia. cbn [andb get_or_panic].
  change (mret (Z.of_nat m - 1) ≫= λ n, collect (pivot array (Z.of_nat m)) (seqZ 0 n))
    with (collect (S := S) (pivot array (Z.of_nat m)) (seqZ 0 (Z.of_nat m - 1))).
  apply collect_pure. intros i [Hi1 Hi2]%elem_of_seqZ.
  assert (Ha : 0 < zlen array).
  { destruct Hne as [Hne|]; [|lia]. unfold zlen. destruct array; [done|cbn; lia]. }
  unfold pivot, fitsb. rewrite (proj2 (Z.leb_le _ _)), (proj2 (Z.ltb_lt _ _)) by nia.
  cbn [andb get_or_panic].
  assert (Hlt : (i + 1) * zlen array / Z.of_nat m < zlen array) by (apply Z.div_lt_upper_bound; nia).
  assert (Hge : 0 ≤ (i + 1) * zlen array / Z.of_nat m) by (apply Z.div_pos; nia).
  destruct (lookup_lt_is_Some_2 array (Z.to_nat ((i + 1) * zlen array / Z.of_nat m))) as [x Hx];
    [unfold zlen in *; lia|].
  change (mret ((i + 1) * zlen array) ≫= λ p, get_or_panic (array !! Z.to_nat (p / Z.of_nat m)))
    with (get_or_panic (S := S) (array !! Z.to_nat ((i + 1) * zlen array / Z.of_nat m))).
  by rewrite Hx.
Qed.
End pivots.

(** ** Taking a text or an array *)
Section facts.
Context {S : Type} {SL : Slots S Value} {SLS : SlotsSpec S Value}.
Local Abbreviation View := (string → SlotState Value).

Lemma twp_content_fact {A} k own nm x fs (f : string → thread S A) Q v :
  facts_of own ((nm, Full (Content x)) :: fs) → holds ((nm, Full (Content x)) :: fs) v →
  (∀ v', holds fs v' → twp k own (f x) Q v') →
  twp (Datatypes.S k) own (take_content (slot_name nm) ≫= f) Q v.
Proof.
  intros Hf Hv HQ. change (Datatypes.S k) with (1 + k)%nat. apply twp_bind. unfold take_content.
  apply (twp_take_fact 0 own nm _ _ _ _ _ Hf Hv). intros v1 Hv1. by apply twp_ret, HQ.
Qed.
Lemma twp_array_fact {A} k own nm x fs (f : list Z → thread S A) Q v :
  facts_of own ((nm, Full (Array x)) :: fs) → holds ((nm, Full (Array x)) :: fs) v →
  (∀ v', holds fs v' → twp k own (f x) Q v') →
  twp (Datatypes.S k) own (take_array (slot_name nm) ≫= f) Q v.
Proof.
  intros Hf Hv HQ. change (Datatypes.S k) with (1 + k)%nat. apply twp_bind. unfold take_array.
  apply (twp_take_fact 0 own nm _ _ _ _ _ Hf Hv). intros v1 Hv1. by apply twp_ret, HQ.
Qed.

(** Loops that take from each slot, and that publish in each. *)
Lemma twp_take_each {A} own (nm : A → Name) (l : A → list Z) fs : ∀ xs v Q,
  let ns := map (λ a, (nm a, Full (Array (l a)))) xs in
  facts_of own (ns ++ fs) → holds (ns ++ fs) v → (∀ v', holds fs v' → Q (Ret (map l xs)) v') →
  twp (length xs) own (collect (λ a, take_array (slot_name (nm a))) xs) Q v.
Proof.
  induction xs as [|x xs IH]; intros v Q ns Hf Hv HQ; cbn [collect length]; [apply twp_ret, HQ, Hv|].
  apply (twp_array_fact _ own (nm x) (l x) _ _ _ _ Hf Hv). intros v1 Hv1.
  rewrite <- (Nat.add_0_r (length xs)). apply twp_bind. apply IH; [exact (facts_tail _ _ _ _ Hf)|exact Hv1|].
  intros v2 Hv2. by apply twp_ret, HQ.
Qed.
(** A slot with nothing in it stops the loop. *)
Lemma twp_take_missing {A} own (nm : A → Name) (l : A → option (list Z)) fs : ∀ xs v
    (Q : outcome (list (list Z)) → View → Prop),
  let ns := map (λ a, (nm a, match l a with Some p => Full (Array p) | None => Empty end)) xs in
  facts_of own (ns ++ fs) → holds (ns ++ fs) v → (∃ a, a ∈ xs ∧ l a = None) → (∀ v', Q Panic v') →
  twp (length xs) own (collect (λ a, take_array (slot_name (nm a))) xs) Q v.
Proof.
  induction xs as [|x xs IH]; intros v Q ns Hf Hv (a & Ha & Hl) HQ; cbn [collect length];
    [by apply not_elem_of_nil in Ha|].
  destruct (l x) as [p|] eqn:E; unfold ns in Hf, Hv; cbn [map app] in Hf, Hv; rewrite E in Hf, Hv.
  - apply (twp_array_fact _ own (nm x) p _ _ _ _ Hf Hv). intros v1 Hv1.
    rewrite <- (Nat.add_0_r (length xs)). apply twp_bind.
    apply IH; [exact (facts_tail _ _ _ _ Hf)|exact Hv1| |done].
    exists a. split; [|done]. apply elem_of_cons in Ha as [-> | Ha]; [congruence|done].
  - destruct (facts_head _ _ _ _ _ Hf Hv) as [Ho Hx].
    change (Datatypes.S (length xs)) with (1 + length xs)%nat. apply twp_bind. unfold take_array.
    apply (twp_take_empty 0 own); [done|done|]. intros v1 _. apply HQ.
Qed.
End facts.

(** ** The contracts of the functions *)

Definition reader_contract (i : nat) (content : string) : contract Value Name (result () string) :=
  let id := Z.of_nat i in
  mk_contract [(NInput id, Empty)] (Ret (Ok ())) [(NInput id, Full (Content content))].
Definition sorter_contract (n i : nat) (content : string) (l pivots : list Z) : contract Value Name (result () string) :=
  let id := Z.of_nat i in
  let ks := if decide (i = 0%nat) then seqZ 0 (Z.of_nat n) else [] in
  mk_contract
    ((NInput id, Full (Content content)) :: (NSorted id, Empty) :: map (λ k, (NPivots k, Empty)) ks)
    (Ret (Ok ()))
    ((NSorted id, Full (Array l)) :: map (λ k, (NPivots k, Full (Array pivots))) ks).
Definition splitter_contract (m i : nat) (l pivots : list Z) : contract Value Name (result () string) :=
  let id := Z.of_nat i in
  let parts := split_numbers l pivots in
  mk_contract
    ((NSorted id, Full (Array l)) :: (NPivots id, Full (Array pivots)) ::
      map (λ j, (NPart id j, Empty)) (seqZ 0 (Z.of_nat m)))
    (Ret (Ok ()))
    (map (λ '(j, p), (NPart id j, Full (Array p))) (imap (λ j p, (Z.of_nat j, p)) parts) ++
     map (λ j, (NPart id j, Empty)) (seqZ (zlen parts) (Z.of_nat m - zlen parts))).
(** A merger ends with a merged array, or panics since a part is missing. *)
Definition merger_contract (n j : nat) (parts : Z → option (list Z)) (out : option (list Z)) : contract Value Name (result () string) :=
  let id := Z.of_nat j in
  mk_contract
    (map (λ i, (NPart i id, match parts i with Some p => Full (Array p) | None => Empty end))
       (seqZ 0 (Z.of_nat n)) ++ [(NMerged id, Empty)])
    (match out with Some _ => Ret (Ok ()) | None => Panic end)
    (match out with Some out => [(NMerged id, Full (Array out))] | None => [] end).

Lemma reader_wf i content : well_formed (reader_contract i content).
Proof.
  split_and!; [apply NoDup_singleton|by constructor; [cbn; lia|constructor]|done].
Qed.

Lemma sorter_wf n i content l pivots : well_formed (sorter_contract n i content l pivots).
Proof.
  unfold well_formed, names, sorter_contract. cbn [needs leaves fmap list_fmap fst].
  rewrite !names_map. set (ks := if decide _ then _ else _).
  assert (Hks : NoDup ks ∧ ∀ k, k ∈ ks → 0 ≤ k).
  { unfold ks. case_decide; [|by split; [constructor|intros k ?%not_elem_of_nil]].
    split; [apply NoDup_seqZ|]. intros k Hk%elem_of_seqZ. lia. }
  destruct Hks as [Hnd Hks]. split_and!.
  - apply NoDup_cons. split; [|apply NoDup_cons; split].
    + intros [?|(k & ? & _)%list_elem_of_fmap_1]%elem_of_cons; done.
    + by intros (k & ? & _)%list_elem_of_fmap_1.
    + apply NoDup_map; [congruence|done].
  - constructor; [cbn; lia|]. constructor; [cbn; lia|]. by apply Forall_map_nonneg.
  - set_solver.
Qed.

Lemma splitter_wf m i l pivots : (length (split_numbers l pivots) ≤ m)%nat →
  well_formed (splitter_contract m i l pivots).
Proof.
  intros Hm. unfold well_formed, names, splitter_contract. cbn [needs leaves fmap list_fmap fst].
  rewrite fmap_app, !names_map. split_and!.
  - apply NoDup_cons. split; [|apply NoDup_cons; split].
    + intros [?|(k & ? & _)%list_elem_of_fmap_1]%elem_of_cons; done.
    + by intros (k & ? & _)%list_elem_of_fmap_1.
    + apply NoDup_map; [congruence|apply NoDup_seqZ].
  - constructor; [cbn; lia|]. constructor; [cbn; lia|]. apply Forall_map_nonneg.
    intros j Hj%elem_of_seqZ. cbn; lia.
  - intros nm [Hin|Hin]%elem_of_app; apply list_elem_of_further, list_elem_of_further.
    + apply list_elem_of_fmap_1 in Hin as ([nm' st] & -> & Hin).
      apply list_elem_of_fmap_1 in Hin as ([j p] & [= -> ->] & Hin).
      apply list_elem_of_lookup_1 in Hin as [k Hk]. rewrite list_lookup_imap in Hk.
      destruct (_ !! k) as [p'|] eqn:Ek; [|done]. injection Hk as <- <-. apply lookup_lt_Some in Ek.
      apply (list_elem_of_fmap_2 (NPart (Z.of_nat i))), elem_of_seqZ. lia.
    + apply list_elem_of_fmap_1 in Hin as (j & -> & Hin%elem_of_seqZ). unfold zlen in Hin.
      apply (list_elem_of_fmap_2 (NPart (Z.of_nat i))), elem_of_seqZ. lia.
Qed.

Lemma merger_wf n j parts out : well_formed (merger_contract n j parts out).
Proof.
  unfold well_formed, names, merger_contract. cbn [needs leaves fmap list_fmap fst].
  rewrite fmap_app, names_map. split_and!.
  - apply NoDup_app. split_and!; [apply NoDup_map; [congruence|apply NoDup_seqZ]| |apply NoDup_singleton].
    intros nm (k & -> & _)%list_elem_of_fmap_1. by intros ?%list_elem_of_singleton.
  - apply Forall_app. split; [|by repeat constructor; cbn; lia]. apply Forall_map_nonneg.
    intros k Hk%elem_of_seqZ. cbn; lia.
  - destruct out; set_solver.
Qed.

Section meets.
Context {S : Type} {SL : Slots S Value} {SLS : SlotsSpec S Value}.

Lemma contract_facts (K : contract Value Name (result () string)) : well_formed K → facts_of (owned (names K)) K.(needs).
Proof. apply contract_names. Qed.

Lemma reader_meets {FL : Files S} {T} {FSp : FilesSpec S Value T} i content args :
  args !! "slot_name" = Some (numbered "input-part-" (Z.of_nat i)) →
  args !! "input_file" = Some (data_file i) → T !! data_file i = Some content →
  good (Content content) →
  meets 2 (reader_contract i content) (file_reader (btree_items args)).
Proof.
  intros Hsl Hin HT Hg v Hv. assert (Hf := contract_facts _ (reader_wf i content)).
  set (own := owned _) in *. cbn [needs gives leaves reader_contract] in *.
  unfold file_reader. rewrite !arg_lookup, Hsl, Hin. cbn [get_or_panic]. rewrite !ret_bind.
  apply (twp_read 1 own (data_file i) content); [done|]. intros v1 Hv1.
  assert (Hv1' : holds [(NInput (Z.of_nat i), Empty)] v1).
  { intros nm st Hnm. rewrite Hv1; [by apply Hv|]. apply Hf.
    by apply (list_elem_of_fmap_2 fst _ (nm, st)). }
  apply (twp_publish_fact 0 own (NInput (Z.of_nat i)) _ _ _ _ _ Hg Hf Hv1').
  intros v2 Hv2. by apply twp_ret.
Qed.

Lemma sorter_meets n m i content l pivots args :
  fits 64 (Z.of_nat n) → fits 64 (Z.of_nat m) →
  args !! "id" = Some (pretty (Z.of_nat i)) → args !! "sorter_num" = Some (pretty (Z.of_nat n)) →
  args !! "merger_num" = Some (pretty (Z.of_nat m)) →
  parse_loop (split "," content) [] = (l, Ok ()) →
  (i = 0%nat → pivots_of (S := S) (merge_sort Z.le l) (Z.of_nat m) = mret pivots) →
  good (Array (merge_sort Z.le l)) → good (Array pivots) →
  meets (n + 2) (sorter_contract n i content (merge_sort Z.le l) pivots) (sorter (btree_items args)).
Proof.
  intros Hn Hm Hid Hsn Hmn Hp Hpiv Hgl Hgp v Hv.
  assert (Hf := contract_facts _ (sorter_wf n i content (merge_sort Z.le l) pivots)).
  set (own := owned _) in *. cbn [needs gives leaves sorter_contract] in *.
  unfold sorter. rewrite arg_lookup, Hid, (arg_num_lookup 64 _ _ _ Hn Hsn),
    (arg_num_lookup 64 _ _ _ Hm Hmn).
  cbn [get_or_panic]. rewrite !ret_bind. replace (n + 2)%nat with (Datatypes.S (Datatypes.S n)) by lia.
  apply (twp_content_fact _ own (NInput (Z.of_nat i)) content _ _ _ _ Hf Hv). intros v1 Hv1.
  apply facts_tail in Hf. rewrite Hp.
  apply (twp_publish_fact _ own (NSorted (Z.of_nat i)) _ _ _ _ _ Hgl Hf Hv1). intros v2 Hv2.
  destruct (decide (i = 0%nat)) as [->|Hi].
  - change (String.eqb (pretty (Z.of_nat 0)) "0") with true. cbn [andb].
    rewrite Hpiv, ret_bind by done.
    assert (Hln : length (seqZ 0 (Z.of_nat n)) = n) by (rewrite length_seqZ; lia).
    rewrite <- (Nat.add_0_r n), <- Hln at 1.
    change (for_each (seqZ 0 (Z.of_nat n)) ?f) with
      (for_each (seqZ 0 (Z.of_nat n)) (λ i, publish (S := S) (slot_name (NPivots i)) (Array pivots))).
    apply (twp_publish_each 0 own NPivots (λ _, Array pivots) _ _ _
      [(NSorted (Z.of_nat 0), Full (Array (merge_sort Z.le l)))]); [by intros a _|..].
    + apply (facts_of_perm own ((NSorted 0, Full (Array (merge_sort Z.le l))) ::
        map (λ k, (NPivots k, Empty)) (seqZ 0 (Z.of_nat n)))); [by rewrite Permutation_app_comm|exact Hf].
    + eapply holds_sub; [|exact Hv2]. by rewrite Permutation_app_comm.
    + intros v3 Hv3. apply twp_ret. split; [done|]. eapply holds_sub; [|exact Hv3].
      rewrite Permutation_app_comm. done.
  - assert (String.eqb (pretty (Z.of_nat i)) "0" = false) as ->.
    { apply String.eqb_neq. intros E. apply Hi. change "0" with (pretty 0) in E. simplify_eq. lia. }
    apply twp_ret. by split.
Qed.

Lemma splitter_meets m i l pivots args : (length (split_numbers l pivots) ≤ m)%nat →
  args !! "id" = Some (pretty (Z.of_nat i)) → (∀ p, p ∈ split_numbers l pivots → good (Array p)) →
  meets (m + 2) (splitter_contract m i l pivots) (splitter (btree_items args)).
Proof.
  intros Hm Hid Hg v Hv. assert (Hf := contract_facts _ (splitter_wf m i l pivots Hm)).
  set (own := owned _) in *. cbn [needs gives leaves splitter_contract] in *.
  unfold splitter. rewrite arg_lookup, Hid. cbn [get_or_panic]. rewrite !ret_bind.
  replace (m + 2)%nat with (Datatypes.S (Datatypes.S m)) by lia.
  apply (twp_array_fact _ own (NSorted (Z.of_nat i)) l _ _ _ _ Hf Hv). intros v1 Hv1. apply facts_tail in Hf.
  apply (twp_array_fact _ own (NPivots (Z.of_nat i)) pivots _ _ _ _ Hf Hv1). intros v2 Hv2. apply facts_tail in Hf.
  set (parts := split_numbers l pivots) in *. set (items := imap (λ idx p, (Z.of_nat idx, p)) parts).

  assert (Hsplit := numbered_parts parts m Hm). fold items in Hsplit.
  assert (Hmap : map (λ j, (NPart (Z.of_nat i) j, Empty : SlotState Value)) (seqZ 0 (Z.of_nat m)) =
    map (λ a, (NPart (Z.of_nat i) a.1, Empty)) items ++
    map (λ j, (NPart (Z.of_nat i) j, Empty)) (seqZ (zlen parts) (Z.of_nat m - zlen parts))).
  { rewrite Hsplit, map_app. f_equal. by rewrite map_map. }
  rewrite Hmap in Hf, Hv2. erewrite for_each_ext.
  2: { intros [j p]. instantiate (1 := λ a, publish (slot_name (NPart (Z.of_nat i) a.1)) (Array a.2)).
       cbn. f_equal. unfold numbered. by rewrite <- !string_assoc. }
  assert (Hlen : length items = length parts) by apply length_imap.
  eapply (twp_mono own _ _ _ (length items + 0)); [lia|intros o v' H; exact H|].
  assert (Hgi : ∀ a, a ∈ items → good (Array a.2)).
  { intros [j p] (k & Hk)%list_elem_of_lookup. unfold items in Hk. rewrite list_lookup_imap in Hk.
    destruct (parts !! k) as [p'|] eqn:Ek; [|done]. injection Hk as <- <-. by eapply Hg, list_elem_of_lookup_2. }
  apply (twp_publish_each 0 own (λ a, NPart (Z.of_nat i) a.1) (λ a, Array a.2) _ _ _ _ _ Hgi Hf Hv2).
  intros v3 Hv3. apply twp_ret. split; [done|]. eapply holds_sub; [|exact Hv3].
  intros [nm st]. rewrite !elem_of_app. intros [H|H]; [left|by right].
  apply list_elem_of_fmap_1 in H as ([j p] & E & H). rewrite E. 
  by apply (list_elem_of_fmap_2 (λ a : Z * list Z, (NPart (Z.of_nat i) a.1, Full (Array a.2))) _ (j, p)).
Qed.

(** The array a merger gets for each sorter, unless a part is missing. *)
Lemma merger_meets n j (parts : Z → option (list Z)) l out args : fits 32 (Z.of_nat n) →
  (∀ i, i ∈ seqZ 0 (Z.of_nat n) → parts i = Some (l i)) →
  merge_partitions (map l (seqZ 0 (Z.of_nat n))) [] = Ret out →
  args !! "id" = Some (pretty (Z.of_nat j)) → args !! "sorter_num" = Some (pretty (Z.of_nat n)) →
  good (Array out) →
  meets (n + 1) (merger_contract n j parts (Some out)) (merger (btree_items args)).
Proof.
  intros Hn Hl E Hid Hsn Hg v Hv.
  assert (Hf := contract_facts _ (merger_wf n j parts (Some out))).
  set (own := owned _) in *. cbn [needs gives leaves merger_contract] in *.
  rewrite (map_ext_in _ (λ i, (NPart i (Z.of_nat j), Full (Array (l i))))) in Hf, Hv
    by (intros i Hi%list_elem_of_In; by rewrite Hl).
  unfold merger. rewrite arg_lookup, Hid, (arg_num_lookup 32 _ _ _ Hn Hsn).
  cbn [get_or_panic]. rewrite !ret_bind.
  assert (Hln : length (seqZ 0 (Z.of_nat n)) = n) by (rewrite length_seqZ; lia).
  rewrite <- Hln at 1. apply twp_bind.
  apply (twp_take_each own (λ i, NPart i (Z.of_nat j)) l _ _ _ _ Hf Hv). intros v1 Hv1.
  rewrite E. change (Done (Ret out)) with (mret out : thread S (list Z)). rewrite ret_bind.
  assert (Hf1 : facts_of own [(NMerged (Z.of_nat j), Empty : SlotState Value)]).
  { destruct Hf as [_ Hf]. split; [apply NoDup_singleton|]. intros nm Hnm. apply Hf.
    rewrite fmap_app. apply elem_of_app. by right. }
  apply (twp_publish_fact 0 own (NMerged (Z.of_nat j)) _ _ _ _ _ Hg Hf1 Hv1). intros v2 Hv2.
  apply twp_ret. by split.
Qed.

Lemma merger_misses n j (parts : Z → option (list Z)) args : fits 32 (Z.of_nat n) →
  (∃ i, i ∈ seqZ 0 (Z.of_nat n) ∧ parts i = None) →
  args !! "id" = Some (pretty (Z.of_nat j)) → args !! "sorter_num" = Some (pretty (Z.of_nat n)) →
  meets (n + 1) (merger_contract n j parts None) (merger (btree_items args)).
Proof.
  intros Hn Hmiss Hid Hsn v Hv.
  assert (Hf := contract_facts _ (merger_wf n j parts None)).
  set (own := owned _) in *. cbn [needs gives leaves merger_contract] in *.
  unfold merger. rewrite arg_lookup, Hid, (arg_num_lookup 32 _ _ _ Hn Hsn).
  cbn [get_or_panic]. rewrite !ret_bind.
  assert (Hln : length (seqZ 0 (Z.of_nat n)) = n) by (rewrite length_seqZ; lia).
  rewrite <- Hln at 1. apply twp_bind.
  apply (twp_take_missing own (λ i, NPart i (Z.of_nat j)) parts _ _ _ _ Hf Hv Hmiss).
  split; [done|]. by intros nm st ?%not_elem_of_nil.
Qed.
End meets.
