(* ===== verification/ParallelSort.v ===== *)
(** * The parallel sort sorts: the theorems

    The three groups of the workflow put together: when the inputs can be parsed and
    every sorter's numbers reach all pivots but the last, the merged arrays, one
    after the other, are the numbers of the inputs in order; when some sorter's
    numbers do not, a merger panics.  And what the checker accepts. *)
From Stdlib Require Import Ascii String.
From stdpp Require Import sorting.
From S2P Require Import Prelude Bytes Ipv4 Text Threads Visor AsStdSpec Slots Contracts Entry SortFuncs SortSpec SortFlow.
Local Open Scope Z_scope.

(** The parts by row and by column are the same numbers. *)
Lemma concat_swap {A B C} (f : A → B → list C) l k :
  concat (map (λ a, concat (map (f a) k)) l) ≡ₚ concat (map (λ b, concat (map (λ a, f a b) l)) k).
Proof.
  induction l as [|a l IH]; cbn.
  - induction k as [|b k IHk]; [done|]. cbn. by rewrite <- IHk.
  - rewrite IH. clear IH. induction k as [|b k IHk]; [done|]. cbn.
    rewrite <- IHk, <- !app_assoc. apply Permutation_app_head.
    rewrite !app_assoc. apply Permutation_app_tail, Permutation_app_comm.
Qed.
Lemma concat_each_perm {A} (f : nat → list A) (ls : list (list A)) : ∀ k,
  (∀ j l, ls !! j = Some l → l ≡ₚ f (k + j)%nat) → concat ls ≡ₚ concat (map f (seq k (length ls))).
Proof.
  induction ls as [|l ls IH]; intros k H; [done|]. cbn.
  rewrite (H 0%nat l eq_refl), Nat.add_0_r. apply Permutation_app_head, IH. intros j l' Hj.
  replace (Datatypes.S k + j)%nat with (k + Datatypes.S j)%nat by lia. by apply H.
Qed.
Lemma concat_map_perm {A B} (f g : A → list B) l : (∀ a, a ∈ l → f a ≡ₚ g a) →
  concat (map f l) ≡ₚ concat (map g l).
Proof.
  induction l as [|a l IH]; intros H; [done|]. cbn. rewrite (H a) by apply list_elem_of_here.
  rewrite IH; [done|]. intros b Hb. by apply H, list_elem_of_further.
Qed.

(** ** What is in a contract *)

Lemma in_sorter n i content l pivots nm st : (nm, st) ∈ (sorter_contract n i content l pivots).(needs) →
  (nm = NInput (Z.of_nat i) ∧ st = Full (Content content)) ∨ (nm = NSorted (Z.of_nat i) ∧ st = Empty) ∨
  (i = 0%nat ∧ ∃ k, 0 ≤ k < Z.of_nat n ∧ nm = NPivots k ∧ st = Empty).
Proof.
  intros [E | [E | H]%elem_of_cons]%elem_of_cons; [left|right; left|right; right]; try by simplify_eq.
  apply elem_of_map_pair in H as (k & Hk & -> & ->). case_decide; [|by apply not_elem_of_nil in Hk].
  split; [done|]. exists k. apply elem_of_seqZ in Hk. by split; [lia|].
Qed.
Lemma in_splitter m i l pivots nm st : (nm, st) ∈ (splitter_contract m i l pivots).(needs) →
  (nm = NSorted (Z.of_nat i) ∧ st = Full (Array l)) ∨ (nm = NPivots (Z.of_nat i) ∧ st = Full (Array pivots)) ∨
  ∃ j, 0 ≤ j < Z.of_nat m ∧ nm = NPart (Z.of_nat i) j ∧ st = Empty.
Proof.
  intros [E | [E | H]%elem_of_cons]%elem_of_cons; [left|right; left|right; right]; try by simplify_eq.
  apply elem_of_map_pair in H as (k & Hk & -> & ->). exists k. apply elem_of_seqZ in Hk. by split; [lia|].
Qed.
Lemma in_merger n j parts out nm st : (nm, st) ∈ (merger_contract n j parts out).(needs) →
  (nm = NMerged (Z.of_nat j) ∧ st = Empty) ∨
  ∃ i, 0 ≤ i < Z.of_nat n ∧ nm = NPart i (Z.of_nat j) ∧
    st = match parts i with Some p => Full (Array p) | None => Empty end.
Proof.
  intros [H | H]%elem_of_app; [right|left].
  - apply elem_of_map_pair in H as (k & Hk & -> & ->). exists k. apply elem_of_seqZ in Hk. by split; [lia|].
  - apply list_elem_of_singleton in H. by simplify_eq.
Qed.
(** The values that go through slots: texts and arrays of no more than [bound]
    characters or numbers. *)
Definition small (bound : nat) (x : Value) : Prop :=
  match x with
  | Content s => (String.length s ≤ bound)%nat
  | Array l => (length l ≤ bound)%nat ∧ Forall (fits 32) l
  end.

Lemma length_concat_le {A} (f g : nat → list A) l : (∀ i, i ∈ l → (length (f i) ≤ length (g i))%nat) →
  (length (concat (map f l)) ≤ length (concat (map g l)))%nat.
Proof.
  induction l as [|i l IH]; intros H; [done|]. cbn. rewrite !length_app.
  specialize (IH (λ j Hj, H j (list_elem_of_further _ _ _ Hj))).
  specialize (H i (list_elem_of_here _ _)). lia.
Qed.

(** ** The sort *)
Section sort.
Context {S : Type} {SL : Slots S Value} {SLS : SlotsSpec S Value}.
Context {FL : Files S} {T : gmap string string} {FSp : FilesSpec S Value T}.
Context (bound : nat) (small_good : ∀ x, small bound x → good x).
Context (n m : nat) (contents : nat → string) (numbers : nat → list Z).
Context {St : Type} {run_group : list nat → Config.IsolationGroup → prog St (result () string)}.
Context {RG : RunsGroups sort_code run_group}.
Context (args_fit : ∀ g, g ∈ sort_groups n m → Forall (takes (run_group := run_group)) (Config.group_to_isolation g)).

Definition sorted_of (i : nat) : list Z := merge_sort Z.le (numbers i).
Definition pivots : list Z := pivot_list (sorted_of 0) m.
Definition part (i j : nat) : option (list Z) := split_numbers (sorted_of i) pivots !! j.

(** What the workflow is run on: input files that can be parsed, and numbers of
    functions and of numbers that keep clear of overflow. *)
Record plan : Prop := mk_plan {
  some_sorter : (0 < n)%nat;
  some_merger : (0 < m)%nat;
  sorters_fit : fits 32 (Z.of_nat n);
  mergers_fit : fits 64 (Z.of_nat m);
  first_fits : Z.of_nat m * zlen (numbers 0) < 2 ^ 64;
  first_nonempty : numbers 0%nat ≠ [] ∨ m = 1%nat;
  parsed : ∀ i, (i < n)%nat → parse_loop (split "," (contents i)) [] = (numbers i, Ok ());
  files : ∀ i, (i < n)%nat → T !! data_file i = Some (contents i);
  texts_small : ∀ i, (i < n)%nat → (String.length (contents i) ≤ bound)%nat;
  numbers_small : (length (concat (map numbers (seq 0 n))) ≤ bound)%nat;
  mergers_small : (m ≤ bound)%nat
}.
(** Nothing is in the slots, or only the texts of the inputs. *)
Definition fresh (s : S) : Prop := ∀ nm, nonneg nm → at_slot s (slot_name nm) = Empty.
Record loaded (s : S) : Prop := mk_loaded {
  inputs : ∀ i, (i < n)%nat → at_slot s (slot_name (NInput (Z.of_nat i))) = Full (Content (contents i));
  others : ∀ nm, nonneg nm → match nm with NInput _ => True | _ => at_slot s (slot_name nm) = Empty end
}.
Record enough_turns (more : nat) (r a b c : list nat) : Prop := mk_turns {
  reader_turns : ∀ i, (i < n)%nat → (2 + more ≤ turns i r)%nat;
  sorter_turns : ∀ i, (i < n)%nat → (n + 2 + more ≤ turns i a)%nat;
  splitter_turns : ∀ i, (i < n)%nat → (m + 2 + more ≤ turns i b)%nat;
  merger_turns : ∀ j, (j < m)%nat → (n + 1 + more ≤ turns j c)%nat
}.

Lemma sorted_merge_sort i : sorted (sorted_of i).
Proof. apply StronglySorted_merge_sort; [intros x y; lia|apply _]. Qed.

(** Whatever is published is small. *)
Lemma numbers_fit i : plan → (i < n)%nat → (length (numbers i) ≤ bound)%nat ∧ Forall (fits 32) (numbers i).
Proof.
  intros H Hi. split.
  - etrans; [|apply (numbers_small H)]. apply length_concat_in, elem_of_map_seq. by exists i.
  - assert (Hf := parse_loop_fits (split "," (contents i)) [] (Forall_nil_2 _)).
    by rewrite (parsed H i Hi) in Hf.
Qed.
Lemma sorted_small i : plan → (i < n)%nat → small bound (Array (sorted_of i)).
Proof.
  intros H Hi. cbn. unfold sorted_of. rewrite merge_sort_Permutation. by apply numbers_fit.
Qed.
Lemma pivots_small : plan → small bound (Array pivots).
Proof.
  intros H. split; [unfold pivots; rewrite length_pivot_list; assert (Hm := mergers_small H); lia|].
  apply Forall_forall. intros x (i & -> & _)%list_elem_of_fmap_1.
  destruct (_ !! _) as [x|] eqn:E; [|cbn; split; lia]. cbn. apply list_elem_of_lookup_2 in E.
  assert (Hf := sorted_small 0 H (some_sorter H)). destruct Hf as [_ Hf].
  rewrite Forall_forall in Hf. by apply Hf.
Qed.
Lemma part_in i j p x : part i j = Some p → x ∈ p → x ∈ sorted_of i.
Proof.
  intros Hp Hx. destruct (split_numbers_spec (sorted_of i) pivots (sorted_merge_sort i)) as (<- & _).
  apply elem_of_concat. exists p. split; [by eapply list_elem_of_lookup_2|done].
Qed.
Lemma part_length i j : (length (default [] (part i j)) ≤ length (numbers i))%nat.
Proof.
  destruct (part i j) as [p|] eqn:Hp; cbn; [|lia].
  assert (length (numbers i) = length (sorted_of i)) as -> by (unfold sorted_of; by rewrite merge_sort_Permutation).
  destruct (split_numbers_spec (sorted_of i) pivots (sorted_merge_sort i)) as (<- & _).
  by eapply length_concat_in, list_elem_of_lookup_2.
Qed.
Lemma part_small i j p : plan → (i < n)%nat → part i j = Some p → small bound (Array p).
Proof.
  intros H Hi Hp. destruct (numbers_fit i H Hi) as [Hl _]. split.
  - assert (Hpl := part_length i j). rewrite Hp in Hpl. cbn in Hpl. lia.
  - apply Forall_forall. intros x Hx. destruct (sorted_small i H Hi) as [_ Hf].
    rewrite Forall_forall in Hf. apply Hf. by eapply part_in.
Qed.

Lemma readers_done s sched k : plan → fresh (view s) → (∀ i, (i < n)%nat → (2 + extra ≤ turns i sched)%nat) →
  ready (length sched + k) s →
  ∃ s', run_group sched (reader_group n) s = (Ret (Ok ()), s') ∧ ready k s' ∧ loaded (view s').
Proof.
  intros H Hfr Hturns Hk. set (K i := reader_contract i (contents i)).
  destruct (group_succeeds (run_group := run_group) (reader_group n) (map K (seq 0 n)) 2 sched s k) as (s' & E & Hk' & Hl & Hf).
  - apply Forall_forall. intros c (i & Hi & ->)%elem_of_map_seq. apply reader_wf.
  - intros i j c c' nm Hi Hj Hne. apply lookup_map_seq in Hi as [Hi ->]. apply lookup_map_seq in Hj as [Hj ->].
    intros ->%list_elem_of_singleton ?%list_elem_of_singleton. by simplify_eq.
  - unfold Config.group_to_isolation, reader_group. cbn [Config.list_ Config.group_args].
    apply Forall2_seq; [by rewrite length_imap, length_map, length_seq|]. intros i a Ha.
    rewrite list_lookup_imap, list_lookup_fmap in Ha.
    destruct (seq 0 n !! i) as [i'|] eqn:Ei; [|done]. apply lookup_seq in Ei as [-> Hi].
    injection Ha as <-. refine (entry_meets 2 false (K i) _ _). apply (reader_meets (T := T)); [done|done|by apply H|by apply small_good, H].
  - apply args_fit. unfold sort_groups. set_solver.
  - by intros c (i & _ & ->)%elem_of_map_seq.
  - by rewrite length_map, length_seq.
  - done.
  - intros c (i & Hi & ->)%elem_of_map_seq nm st Hin. apply list_elem_of_singleton in Hin as [= -> ->].
    apply Hfr. cbn; lia.
  - exists s'. split; [done|]. split; [done|]. split.
    + intros i Hi. apply (Hl (K i)); [by apply elem_of_map_seq; exists i|]. apply list_elem_of_here.
    + intros nm Hnm. destruct nm; try done; (rewrite Hf; [by apply Hfr|done|]);
        intros c (j' & Hj & ->)%elem_of_map_seq; by intros ?%list_elem_of_singleton.
Qed.

Lemma sorters_done s sched k : plan → loaded (view s) → (∀ i, (i < n)%nat → (n + 2 + extra ≤ turns i sched)%nat) →
  ready (length sched + k) s →
  ∃ s', run_group sched (sorter_group n m) s = (Ret (Ok ()), s') ∧ ready k s' ∧
    (∀ i, (i < n)%nat → at_slot (view s') (slot_name (NSorted (Z.of_nat i))) = Full (Array (sorted_of i))) ∧
    (∀ i, (i < n)%nat → at_slot (view s') (slot_name (NPivots (Z.of_nat i))) = Full (Array pivots)) ∧
    ∀ nm, nonneg nm → match nm with NPart _ _ | NMerged _ => at_slot (view s') (slot_name nm) = Empty | _ => True end.
Proof.
  intros H Hld Hturns Hk. set (K i := sorter_contract n i (contents i) (sorted_of i) pivots).
  destruct (group_succeeds (run_group := run_group) (sorter_group n m) (map K (seq 0 n)) (n + 2) sched s k) as (s' & E & Hk' & Hl & Hf).
  - apply Forall_forall. intros c (i & Hi & ->)%elem_of_map_seq. apply sorter_wf.
  - intros i j c c' nm Hi Hj Hne. apply lookup_map_seq in Hi as [Hi ->]. apply lookup_map_seq in Hj as [Hj ->].
    intros [st Hin]%in_names [st' Hin']%in_names. apply in_sorter in Hin, Hin'. naive_solver lia.
  - apply Forall2_seq; [apply group_length|]. intros i a Ha.
    apply in_group in Ha as (Hi & Hn & Hid & Hargs); [|done].
    unfold function_thread. rewrite Hn. refine (entry_meets (n + 2) true (K i) _ _). apply (sorter_meets n m); try by apply H.
    + destruct (sorters_fit H). split; lia.
    + done.
    + by rewrite Hargs.
    + by rewrite Hargs.
    + intros ->. assert (Hlen : zlen (merge_sort Z.le (numbers 0%nat)) = zlen (numbers 0)).
      { unfold zlen. by rewrite merge_sort_Permutation. }
      apply pivots_of_eq; [apply H|rewrite Hlen; apply H|apply H|].
      destruct (first_nonempty H) as [Hne|]; [left|by right]. intros E. apply Hne.
      apply Permutation_nil_r. rewrite <- E. by rewrite merge_sort_Permutation.
    + by apply small_good, sorted_small.
    + by apply small_good, pivots_small.
  - apply args_fit. unfold sort_groups. set_solver.
  - by intros c (i & _ & ->)%elem_of_map_seq.
  - by rewrite length_map, length_seq.
  - done.
  - intros c (i & Hi & ->)%elem_of_map_seq nm st Hin. apply in_sorter in Hin as
      [[-> ->]|[[-> ->]|(-> & j & Hj & -> & ->)]]; [by apply Hld| |].
    + apply (others (view s) Hld (NSorted (Z.of_nat i))). cbn; lia.
    + apply (others (view s) Hld (NPivots j)). cbn; lia.
  - exists s'. split_and!; try done.
    + intros i Hi. apply (Hl (K i)); [by apply elem_of_map_seq; exists i|]. apply list_elem_of_here.
    + intros i Hi. apply (Hl (K 0%nat)); [apply elem_of_map_seq; exists 0%nat; by split; [lia|]|].
      apply list_elem_of_further, (list_elem_of_fmap_2 (λ k, (NPivots k, Full (Array pivots)))), elem_of_seqZ. lia.
    + intros nm Hnm. assert (Hfr := others (view s) Hld nm Hnm).
      destruct nm; try done; rewrite Hf; try done; intros c (j' & Hj & ->)%elem_of_map_seq;
        intros [st Hin]%in_names; apply in_sorter in Hin; naive_solver.
Qed.

Lemma splitters_done s sched k : plan →
  (∀ i, (i < n)%nat → (length (split_numbers (sorted_of i) pivots) ≤ m)%nat) →
  (∀ i, (i < n)%nat → (m + 2 + extra ≤ turns i sched)%nat) → ready (length sched + k) s →
  (∀ i, (i < n)%nat → at_slot (view s) (slot_name (NSorted (Z.of_nat i))) = Full (Array (sorted_of i))) →
  (∀ i, (i < n)%nat → at_slot (view s) (slot_name (NPivots (Z.of_nat i))) = Full (Array pivots)) →
  (∀ nm, nonneg nm → match nm with NPart _ _ | NMerged _ => at_slot (view s) (slot_name nm) = Empty | _ => True end) →
  ∃ s', run_group sched (splitter_group n) s = (Ret (Ok ()), s') ∧ ready k s' ∧
    (∀ i j, (i < n)%nat → (j < m)%nat → at_slot (view s') (slot_name (NPart (Z.of_nat i) (Z.of_nat j))) =
       match part i j with Some p => Full (Array p) | None => Empty end) ∧
    ∀ j, 0 ≤ j → at_slot (view s') (slot_name (NMerged j)) = Empty.
Proof.
  intros H Hm Hturns Hk Hs Hp Hfr. set (K i := splitter_contract m i (sorted_of i) pivots).
  destruct (group_succeeds (run_group := run_group) (splitter_group n) (map K (seq 0 n)) (m + 2) sched s k) as (s' & E & Hk' & Hl & Hf).
  - apply Forall_forall. intros c (i & Hi & ->)%elem_of_map_seq. by apply splitter_wf, Hm.
  - intros i j c c' nm Hi Hj Hne. apply lookup_map_seq in Hi as [Hi ->]. apply lookup_map_seq in Hj as [Hj ->].
    intros [st Hin]%in_names [st' Hin']%in_names. apply in_splitter in Hin, Hin'. naive_solver lia.
  - apply Forall2_seq; [apply group_length|]. intros i a Ha.
    apply in_group in Ha as (Hi & Hn & Hid & Hargs); [|done].
    unfold function_thread. rewrite Hn. refine (entry_meets (m + 2) true (K i) _ _). apply splitter_meets; [by apply Hm|done|].
    intros p [j Hj]%list_elem_of_lookup. by apply small_good, (part_small i j).
  - apply args_fit. unfold sort_groups. set_solver.
  - by intros c (i & _ & ->)%elem_of_map_seq.
  - by rewrite length_map, length_seq.
  - done.
  - intros c (i & Hi & ->)%elem_of_map_seq nm st Hin. apply in_splitter in Hin as
      [[-> ->]|[[-> ->]|(j & Hj & -> & ->)]]; [by apply Hs|by apply Hp|].
    apply (Hfr (NPart (Z.of_nat i) j)). cbn; lia.
  - exists s'. split_and!; try done.
    + intros i j Hi Hj. assert (HK : K i ∈ map K (seq 0 n)) by (apply elem_of_map_seq; by exists i).
      apply (Hl (K i) HK), elem_of_app. unfold part. destruct (_ !! j) as [p|] eqn:Ep; [left|right].
      * apply (list_elem_of_fmap_2 (λ '(j, p), (NPart (Z.of_nat i) j, Full (Array p))) _ (Z.of_nat j, p)).
        apply (list_elem_of_lookup_2 _ j). by rewrite list_lookup_imap, Ep.
      * apply (list_elem_of_fmap_2 (λ j, (NPart (Z.of_nat i) j, Empty))), elem_of_seqZ.
        apply lookup_ge_None_1 in Ep. unfold zlen. lia.
    + intros j Hj. rewrite Hf; [by apply (Hfr (NMerged j))|done|].
      intros c (i & Hi & ->)%elem_of_map_seq [st Hin]%in_names. apply in_splitter in Hin. naive_solver.
Qed.

(** A merger, by whether all its parts are there. *)
Definition column (j : nat) : list (list Z) := map (λ i, default [] (part i j)) (seq 0 n).
Definition complete (j : nat) : Prop := ∀ i, (i < n)%nat → is_Some (part i j).
#[local] Instance complete_dec j : Decision (complete j).
Proof.
  refine (cast_if (decide (Forall (λ i, is_Some (part i j)) (seq 0 n)))); unfold complete;
    rewrite Forall_forall in *; [intros i Hi|intros H]; [apply f, elem_of_seq; lia|].
  apply n0. intros i Hi%elem_of_seq. apply H. lia.
Defined.

Lemma missing j : ¬ complete j → ∃ i, (i < n)%nat ∧ part i j = None.
Proof.
  intros Hc. destruct (decide (Exists (λ i, part i j = None) (seq 0 n))) as [He|He].
  - apply Exists_exists in He as (i & Hi%elem_of_seq & Hn). exists i. split; [lia|done].
  - exfalso. apply Hc. intros i Hi. apply not_eq_None_Some. intros E. apply He, Exists_exists.
    exists i. split; [apply elem_of_seq; lia|done].
Qed.

Lemma part_sorted i j p : part i j = Some p → sorted p.
Proof.
  unfold part. intros Hp. assert (Hs := sorted_merge_sort i).
  destruct (split_numbers_spec (sorted_of i) pivots Hs) as (Hc & _).
  rewrite <- Hc, <- (take_drop_middle _ _ _ Hp), concat_app in Hs. cbn [concat] in Hs.
  by apply sorted_part in Hs.
Qed.

#[export] Instance kept_perm : Proper ((≡ₚ) ==> (≡ₚ)) kept.
Proof. intros l l' H. unfold kept. by rewrite H. Qed.

Lemma column_small j out : plan → out ≡ₚ kept (concat (column j)) → small bound (Array out).
Proof.
  intros H Hp. split.
  - rewrite Hp. unfold kept. etrans; [apply length_filter|].
    etrans; [|apply (numbers_small H)]. apply length_concat_le. intros i _. apply part_length.
  - apply Forall_forall. intros x. rewrite Hp.
    intros [_ (l & (i & -> & Hi%elem_of_seq)%list_elem_of_fmap_1 & Hx)%elem_of_concat]%list_elem_of_filter.
    destruct (part i j) as [p|] eqn:E; cbn in Hx; [|by apply not_elem_of_nil in Hx].
    destruct (part_small i j p H ltac:(lia) E) as [_ Hf]. rewrite Forall_forall in Hf. by apply Hf.
Qed.

Lemma merger_choice j : plan →
  ∃ o, (if decide (complete j) then ∃ out, o = Some out ∧ sorted out ∧
      out ≡ₚ kept (concat (column j)) else o = None) ∧
    ∀ args : gmap string string, args !! "id" = Some (pretty (Z.of_nat j)) →
      args !! "sorter_num" = Some (pretty (Z.of_nat n)) →
      meets (n + 1) (merger_contract n j (λ i, part (Z.to_nat i) j) o) (merger (btree_items args)).
Proof.
  intros H. assert (Hn := sorters_fit H). assert (Hcol : map (λ i, default [] (part (Z.to_nat i) j)) (seqZ 0 (Z.of_nat n)) = column j).
  { unfold column, seqZ. rewrite Nat2Z.id, map_map. apply map_ext. intros i. do 2 f_equal. lia. }
  destruct (decide (complete j)) as [Hc|Hc].
  - destruct (merge_partitions_spec (column j)) as (out & E & Hp & Ho).
    { apply Forall_forall. intros l (i & -> & Hi%elem_of_seq)%list_elem_of_fmap_1.
      destruct (Hc i) as [p Hp]; [lia|]. rewrite Hp. by apply (part_sorted i j). }
    exists (Some out). split; [by exists out|]. intros args Hid Hsn. rewrite <- Hcol in E.
    apply (merger_meets n j _ (λ i, default [] (part (Z.to_nat i) j))); try done.
    2: { apply small_good, (column_small j out); [done|]. by rewrite Hp. }
    intros i Hi%elem_of_seqZ. destruct (Hc (Z.to_nat i)) as [p Hpi]; [lia|]. by rewrite Hpi.
  - exists None. split; [done|]. intros args Hid Hsn. apply merger_misses; try done.
    destruct (missing j Hc) as (i & Hi & Hm). exists (Z.of_nat i). rewrite elem_of_seqZ, Nat2Z.id.
    split; [lia|done].
Qed.

(** How a merger ends that has, or has not, all its parts. *)
Definition merged (o : option (list Z)) : outcome (result () string) :=
  returned true (match o with Some _ => Ret (Ok ()) | None => Panic end).
Lemma mergers_done s sched k :
  (∀ j, (j < m)%nat → (n + 1 + extra ≤ turns j sched)%nat) → ready (length sched + k) s → plan →
  (∀ i j, (i < n)%nat → (j < m)%nat → at_slot (view s) (slot_name (NPart (Z.of_nat i) (Z.of_nat j))) =
       match part i j with Some p => Full (Array p) | None => Empty end) →
  (∀ j, 0 ≤ j → at_slot (view s) (slot_name (NMerged j)) = Empty) →
  ∃ s' r (outs : list (option (list Z))), length outs = m ∧ run_group sched (merger_group n m) s = (r, s') ∧
    same_result r (join_all (map merged outs)) ∧ ready k s' ∧ ∀ j o, outs !! j = Some o →
      if decide (complete j) then ∃ out, o = Some out ∧ sorted out ∧ out ≡ₚ kept (concat (column j)) ∧
          at_slot (view s') (slot_name (NMerged (Z.of_nat j))) = Full (Array out)
      else o = None.
Proof.
  intros Hturns Hk Hn Hp Hmg. set (pt j := λ i, part (Z.to_nat i) j).
  destruct (choose_each (λ j o, (if decide (complete j) then ∃ out, o = Some out ∧ sorted out ∧
      out ≡ₚ kept (concat (column j)) else o = None) ∧
    ∀ args : gmap string string, args !! "id" = Some (pretty (Z.of_nat j)) →
      args !! "sorter_num" = Some (pretty (Z.of_nat n)) →
      meets (n + 1) (merger_contract n j (pt j) o) (merger (btree_items args))) m) as (outs & Hl & Ho).
  { intros j Hj. by apply merger_choice. }
  set (K j := entry_contract true (merger_contract n j (pt j) (default None (outs !! j)))).
  destruct (group_ends (run_group := run_group) (merger_group n m) (map K (seq 0 m)) (n + 1) sched s k) as (r & s' & E & Hr & Hk' & Hlv & Hf).
  - apply Forall_forall. intros c (j & Hj & ->)%elem_of_map_seq. apply merger_wf.
  - intros i j c c' nm Hi Hj Hne. apply lookup_map_seq in Hi as [Hi ->]. apply lookup_map_seq in Hj as [Hj ->].
    intros [st Hin]%in_names [st' Hin']%in_names. apply (in_merger n i (pt i) (default None (outs !! i))) in Hin.
    apply (in_merger n j (pt j) (default None (outs !! j))) in Hin'. naive_solver lia.
  - apply Forall2_seq; [apply group_length|]. intros j a Ha.
    apply in_group in Ha as (Hj & Hnm & Hid & Hargs); [|done].
    unfold function_thread. rewrite Hnm. destruct (lookup_lt_is_Some_2 outs j) as [o Eo]; [lia|].
    unfold K. rewrite Eo. cbn [default]. apply entry_meets. by apply Ho; [..|rewrite Hargs].
  - apply args_fit. unfold sort_groups. set_solver.
  - by rewrite length_map, length_seq.
  - done.
  - intros c (j & Hj & ->)%elem_of_map_seq nm st Hin. apply (in_merger n j (pt j) (default None (outs !! j))) in Hin as
      [[-> ->]|(i & Hi & -> & ->)]; [apply Hmg; lia|].
    rewrite <- (Z2Nat.id i) at 1 by lia. apply Hp; lia.
  - exists s', r, outs. split; [done|]. split; [done|]. split; [|split; [done|]].
    + enough (map merged outs = map gives (map K (seq 0 m))) as -> by done.
      rewrite map_map. unfold K. cbn [gives entry_contract merger_contract]. apply list_eq. intros j.
      rewrite !list_lookup_fmap. destruct (decide (j < m)%nat) as [Hj|Hj].
      * destruct (lookup_lt_is_Some_2 outs j) as [o Eo]; [lia|].
        rewrite lookup_seq_lt by done. cbn. by rewrite Eo.
      * rewrite lookup_seq_ge, lookup_ge_None_2 by lia. done.
    + intros j o Eo. destruct (Ho j o Eo) as [Hc _]. case_decide; [|done].
      destruct Hc as (out & -> & Hs & Hperm). exists out. split_and!; try done.
      apply (Hlv (K j)); [apply elem_of_map_seq; exists j; split; [|done]; apply lookup_lt_Some in Eo; lia|].
      unfold K. rewrite Eo. apply list_elem_of_here.
Qed.

(** ** The whole workflow *)

Lemma length_pivots : length pivots = (m - 1)%nat.
Proof. apply length_pivot_list. Qed.
Lemma parts_le i : (0 < m)%nat → (length (split_numbers (sorted_of i) pivots) ≤ m)%nat.
Proof.
  intros Hm. destruct (split_numbers_spec (sorted_of i) pivots (sorted_merge_sort i)) as (_ & Hl & _).
  rewrite length_pivots in Hl. lia.
Qed.
Lemma elem_of_sorted i x : x ∈ sorted_of i ↔ x ∈ numbers i.
Proof. unfold sorted_of. by rewrite merge_sort_Permutation. Qed.

(** The numbers of sorter [i] reach every pivot but the last. *)
Definition reaches (i : nat) : Prop :=
  (m ≤ 2)%nat ∨ ∃ x, x ∈ numbers i ∧ ∀ k p, (k + 2 < m)%nat → pivots !! k = Some p → p ≤ x.

Lemma reaches_complete i : (0 < m)%nat → reaches i → length (split_numbers (sorted_of i) pivots) = m.
Proof.
  intros Hm Hr. rewrite split_numbers_full; [rewrite length_pivots; lia|apply sorted_merge_sort|].
  rewrite length_pivots. destruct Hr as [Hr|(x & Hx & Hr)]; [left; lia|right].
  exists x. rewrite elem_of_sorted. split; [done|]. intros k p Hk. apply Hr. lia.
Qed.

(** Splitting and merging up to the last group. *)
Lemma first_groups s r a b c k : plan → fresh (view s) → enough_turns extra r a b c →
  ready (length r + (length a + (length b + k))) s →
  ∃ s2, run_workflow run_group [r; a; b; c] (sort_groups n m) s =
      (run_group c (merger_group n m) ;;? mret (Ok ())) s2 ∧ ready k s2 ∧
    (∀ i j, (i < n)%nat → (j < m)%nat → at_slot (view s2) (slot_name (NPart (Z.of_nat i) (Z.of_nat j))) =
       match part i j with Some p => Full (Array p) | None => Empty end) ∧
    ∀ j, 0 ≤ j → at_slot (view s2) (slot_name (NMerged j)) = Empty.
Proof.
  intros H Hfr Ht Hk. destruct (readers_done s r _ H Hfr (reader_turns _ _ _ _ _ Ht) Hk) as (s0 & E0 & Hk0 & Hld).
  destruct (sorters_done s0 a _ H Hld (sorter_turns _ _ _ _ _ Ht) Hk0) as (s1 & E1 & Hk1 & Hs & Hp & Hf).
  destruct (splitters_done s1 b k) as (s2 & E2 & Hk2 & Hparts & Hmg); try done.
  { intros i _. apply parts_le, H. }
  { apply Ht. }
  exists s2. split; [|done]. unfold sort_groups. cbn [run_workflow].
  unfold try_bind. by rewrite (bind_Ret _ _ _ _ _ E0), (bind_Ret _ _ _ _ _ E1), (bind_Ret _ _ _ _ _ E2).
Qed.

(** The parts of all sorters are the numbers of all of them. *)
Lemma columns_numbers : (∀ i, (i < n)%nat → length (split_numbers (sorted_of i) pivots) = m) →
  concat (map (λ j, concat (column j)) (seq 0 m)) ≡ₚ concat (map numbers (seq 0 n)).
Proof.
  intros Hl. unfold column. rewrite (concat_swap (λ j i, default [] (part i j))).
  apply concat_map_perm. intros i Hi%elem_of_seq. specialize (Hl i ltac:(lia)).
  assert (map (λ j, default [] (part i j)) (seq 0 m) = split_numbers (sorted_of i) pivots) as ->.
  { apply list_eq. intros j. rewrite list_lookup_fmap. unfold part.
    destruct (decide (j < m)%nat) as [Hj|Hj].
    - rewrite lookup_seq_lt by done. destruct (lookup_lt_is_Some_2 (split_numbers (sorted_of i) pivots) j) as [p Hp];
        [by rewrite Hl|]. cbn. by rewrite Hp.
    - rewrite lookup_seq_ge by lia. symmetry. apply lookup_ge_None_2. lia. }
  destruct (split_numbers_spec (sorted_of i) pivots (sorted_merge_sort i)) as (-> & _).
  unfold sorted_of. by rewrite merge_sort_Permutation.
Qed.

Lemma column_range j x : x ∈ concat (column j) → in_range pivots j x.
Proof.
  intros (l & (i & -> & Hi)%list_elem_of_fmap_1 & Hx)%elem_of_concat.
  destruct (part i j) as [p|] eqn:Hp; cbn in Hx; [|by apply not_elem_of_nil in Hx].
  destruct (split_numbers_spec (sorted_of i) pivots (sorted_merge_sort i)) as (_ & _ & H).
  by apply (H j p).
Qed.

(** What is merged lies between its pivots, so one after the other is in order. *)
Lemma merged_sorted (outs : list (list Z)) : length outs = m →
  (∀ j out, outs !! j = Some out → sorted out ∧ ∀ x, x ∈ out → in_range pivots j x) → sorted (concat outs).
Proof.
  intros Hl H. assert (Hgo : ∀ l k, (k + length l = m)%nat →
    (∀ j out, l !! j = Some out → sorted out ∧ ∀ x, x ∈ out → in_range pivots (k + j) x) → sorted (concat l)).
  { clear outs Hl H. induction l as [|out l IH]; intros k Hk H; cbn [concat]; [constructor|].
    destruct (H 0%nat out eq_refl) as [Hs Hr]. apply StronglySorted_app. split; [|split; [done|]].
    - intros x y Hx (o & [j Hj]%list_elem_of_lookup & Hy)%elem_of_concat.
      assert (Hjl := lookup_lt_Some _ _ _ Hj). cbn [length] in Hk.
      destruct (lookup_lt_is_Some_2 pivots k) as [p Hp]; [rewrite length_pivots; lia|].
      destruct (H (Datatypes.S j) o Hj) as [_ Hr']. destruct (Hr x Hx) as [Hlt _].
      destruct (Hr' y Hy) as [_ Hge]. rewrite Nat.add_0_r in Hlt.
      specialize (Hlt p Hp). specialize (Hge k p ltac:(lia) Hp). lia.
    - apply (IH (Datatypes.S k)); [cbn in Hk; lia|]. intros j o Hj.
      replace (Datatypes.S k + j)%nat with (k + Datatypes.S j)%nat by lia. by apply H. }
  by apply (Hgo outs 0%nat).
Qed.

Lemma kept_concat (ls : list (list Z)) : kept (concat ls) = concat (map kept ls).
Proof. induction ls as [|l ls IH]; [done|]. cbn. unfold kept in *. by rewrite filter_app, IH. Qed.
Lemma join_all_some (outs : list (option (list Z))) : Forall is_Some outs →
  join_all (map merged outs) = Ret (Ok ()).
Proof.
  intros H. rewrite (map_ext_Forall _ (λ _, Ret (Ok ()))) by (eapply Forall_impl; [exact H|]; by intros o [x ->]).
  unfold join_all. clear H. induction outs as [|o outs IH]; [done|]. done.
Qed.
Lemma join_all_none (outs : list (option (list Z))) : None ∈ outs →
  join_all (map merged outs) = Ret (Err "catch user function panic.").
Proof.
  intros H. unfold join_all.
  assert (Hn : ∀ l : list (option (list Z)), existsb is_nofuel (map merged l) = false ∧
    existsb is_deadlock (map merged l) = false ∧ existsb is_panic (map merged l) = false).
  { induction l as [|[x|] l IH]; [done|exact IH|exact IH]. }
  destruct (Hn outs) as (-> & -> & _). induction outs as [|[x|] outs IH]; [by apply not_elem_of_nil in H|..].
  - apply IH. apply elem_of_cons in H as [?|]; done.
  - cbn [map merged returned join_loop]. by rewrite (proj2 (proj2 (Hn outs))).
Qed.

Lemma merged_whole (outs : list (list Z)) : length outs = m →
  (∀ i, (i < n)%nat → length (split_numbers (sorted_of i) pivots) = m) →
  (∀ j out, outs !! j = Some out → sorted out ∧ out ≡ₚ kept (concat (column j))) →
  sorted (concat outs) ∧ concat outs ≡ₚ kept (concat (map numbers (seq 0 n))).
Proof.
  intros Hl Hfull H. split.
  - apply merged_sorted; [done|]. intros j out Hj. destruct (H j out Hj) as [Hs Hp]. split; [done|].
    intros x Hx. rewrite Hp in Hx. apply list_elem_of_filter in Hx as [_ Hx]. by apply column_range.
  - rewrite <- (columns_numbers Hfull), kept_concat, map_map, <- Hl.
    apply concat_each_perm. intros j out Hj. by apply H.
Qed.

Lemma sort_workflow s r a b c k : plan → fresh (view s) → enough_turns extra r a b c →
  ready (length r + (length a + (length b + (length c + k)))) s →
  (∀ i, (i < n)%nat → reaches i) →
  ∃ s' outs, run_workflow run_group [r; a; b; c] (sort_groups n m) s = (Ret (Ok ()), s') ∧ ready k s' ∧ length outs = m ∧
    (∀ j out, outs !! j = Some out → at_slot (view s') (slot_name (NMerged (Z.of_nat j))) = Full (Array out)) ∧
    sorted (concat outs) ∧ concat outs ≡ₚ kept (concat (map numbers (seq 0 n))).
Proof.
  intros H Hfr Ht Hk Hr. destruct (first_groups s r a b c _ H Hfr Ht Hk) as (s2 & -> & Hk2 & Hparts & Hmg).
  destruct (mergers_done s2 c k) as (s3 & res & os & Hl & E3 & Hres & Hk3 & Ho); try done; [apply Ht|].
  assert (Hfull : ∀ i, (i < n)%nat → length (split_numbers (sorted_of i) pivots) = m)
    by (intros i Hi; apply reaches_complete; [apply H|by apply Hr]).
  assert (Hc : ∀ j, (j < m)%nat → complete j).
  { intros j Hj i Hi. apply lookup_lt_is_Some_2. by rewrite Hfull. }
  assert (Ho' : ∀ j o, os !! j = Some o → ∃ out, o = Some out ∧ sorted out ∧ out ≡ₚ kept (concat (column j)) ∧
          at_slot (view s3) (slot_name (NMerged (Z.of_nat j))) = Full (Array out)).
  { intros j o Hj. specialize (Ho j o Hj). rewrite decide_True in Ho; [done|].
    apply Hc. rewrite <- Hl. by eapply lookup_lt_Some. }
  set (outs := map (default []) os).
  assert (Houts : ∀ j out, outs !! j = Some out → sorted out ∧ out ≡ₚ kept (concat (column j)) ∧
          at_slot (view s3) (slot_name (NMerged (Z.of_nat j))) = Full (Array out)).
  { intros j out Hj. apply list_lookup_fmap_Some in Hj as (o & -> & Hj).
    by destruct (Ho' j o Hj) as (out & -> & H1). }
  assert (Hlen : length outs = m) by (unfold outs; by rewrite length_map).
  exists s3, outs. split; [|split; [done|split; [done|split; [by intros j out Hj; apply Houts|]]]].
  { rewrite join_all_some in Hres; [apply same_result_ok in Hres as ->; unfold try_bind; by rewrite (bind_Ret _ _ _ _ _ E3)|].
    apply Forall_lookup_2. intros j o Hj. destruct (Ho' j o Hj) as (out & -> & _). by exists out. }
  apply (merged_whole outs Hlen Hfull). intros j out Hj. by destruct (Houts j out Hj) as (? & ? & _).
Qed.

Lemma short_workflow s r a b c k i p x : plan → fresh (view s) → enough_turns extra r a b c →
  ready (length r + (length a + (length b + (length c + k)))) s → (i < n)%nat →
  pivots !! p = Some x → (p + 2 < m)%nat → (∀ y, y ∈ numbers i → y < x) →
  ∃ s' e, run_workflow run_group [r; a; b; c] (sort_groups n m) s = (Ret (Err e), s').
Proof.
  intros H Hfr Ht Hk Hi Hp Hpm Hy. destruct (first_groups s r a b c _ H Hfr Ht Hk) as (s2 & -> & Hk2 & Hparts & Hmg).
  destruct (mergers_done s2 c k) as (s3 & res & os & Hl & E3 & Hres & Hk3 & Ho); try done; [apply Ht|].
  assert (Hs : (length (split_numbers (sorted_of i) pivots) ≤ length pivots)%nat).
  { apply (split_numbers_short _ _ p x); [apply sorted_merge_sort|done|rewrite length_pivots; lia|].
    intros y. rewrite elem_of_sorted. apply Hy. }
  rewrite length_pivots in Hs.
  destruct (lookup_lt_is_Some_2 os (m - 1)) as [o Eo]; [lia|].
  specialize (Ho _ o Eo). rewrite decide_False in Ho.
  2: { intros Hc. specialize (Hc i Hi). apply lookup_lt_is_Some_1 in Hc. lia. }
  subst o. rewrite join_all_none in Hres by (by eapply list_elem_of_lookup_2).
  apply same_result_err in Hres as [e ->]. exists s3, e. unfold try_bind. by rewrite (bind_Ret _ _ _ _ _ E3).
Qed.
End sort.

(** ** The checker *)

Lemma is_sorted_spec l : is_sorted l = true ↔ sorted l.
Proof.
  split.
  - intros H. apply Sorted_StronglySorted; [intros x y z; lia|]. induction l as [|a [|b l] IH]; [constructor|by repeat constructor|].
    cbn [is_sorted] in H. apply andb_true_iff in H as [Hab H]. constructor; [by apply IH|].
    constructor. by apply Z.leb_le.
  - intros H%StronglySorted_Sorted. induction l as [|a [|b l] IH]; [done|done|].
    inversion H as [|? ? Hs Hh]; subst. inversion Hh; subst. cbn [is_sorted].
    apply andb_true_iff. split; [by apply Z.leb_le|by apply IH].
Qed.

(** Each result is in order, and no result starts below the start of the one
    before. *)
Fixpoint accepts (results : list (list Z)) (last : Z) : bool :=
  match results with
  | [] => true
  | r :: results =>
      is_sorted r &&
      match r with first :: _ => (last <=? first) && accepts results first | [] => accepts results last end
  end.

Lemma accepts_sorted results last : sorted (concat results) → (∀ x, x ∈ concat results → last ≤ x) →
  accepts results last = true.
Proof.
  revert last. induction results as [|r results IH]; intros last Hs Hl; [done|]. cbn [concat accepts] in *.
  apply StronglySorted_app in Hs as (Hx & Hr & Hs). rewrite (proj2 (is_sorted_spec r) Hr). cbn [andb].
  destruct r as [|a r]; [by apply IH|].
  rewrite (proj2 (Z.leb_le _ _)) by (apply Hl; set_solver). apply IH; [done|].
  intros x H. apply Hx; [set_solver|done].
Qed.

Section checker.
Context {S : Type} {SL : Slots S Value} {SLS : SlotsSpec S Value} {FL : Files S}.
Local Abbreviation View := (string → SlotState Value).

Lemma twp_check own (l : Z → list Z) : ∀ xs v last counter,
  let ns := map (λ x, (NMerged x, Full (Array (l x)))) xs in
  facts_of own ns → holds ns v → 0 ≤ counter → counter + zlen (concat (map l xs)) < 2 ^ 64 →
  twp (length xs) own (check_loop xs last counter)
    (λ o v', ∃ r, o = Ret r ∧ r = if accepts (map l xs) last
       then Ok (counter + zlen (concat (map l xs))) else Err "sort result is wrong") v.
Proof.
  induction xs as [|x xs IH]; intros v last counter ns Hf Hv H0 Hc; cbn [check_loop length].
  - apply twp_ret. eexists. split; [done|]. cbn. by rewrite Z.add_0_r.
  - apply (twp_array_fact _ own (NMerged x) (l x) _ _ _ _ Hf Hv). intros v1 Hv1.
    apply facts_tail in Hf. cbn [map concat] in *. rewrite zlen_app in *.
    assert (H1 := zlen_nonneg (l x)). assert (H2 := zlen_nonneg (concat (map l xs))).
    unfold fitsb. rewrite (proj2 (Z.leb_le _ _)), (proj2 (Z.ltb_lt _ _)) by lia. cbn [andb get_or_panic].
    rewrite ret_bind. cbn [accepts].
    destruct (is_sorted (l x)); cbn [negb andb]; [|apply twp_ret; by eexists].
    rewrite Z.add_assoc. destruct (l x) as [|first rest] eqn:E.
    + apply IH; try done; lia.
    + destruct (Z.ltb_spec first last).
      * rewrite (proj2 (Z.leb_gt _ _)) by lia. apply twp_ret. by eexists.
      * rewrite (proj2 (Z.leb_le _ _)) by lia. apply IH; try done; lia.
Qed.

Definition checker_group (m : nat) : Config.IsolationGroup :=
  Config.mk_group [Config.Name "checker"] {["merger_num" := pretty (Z.of_nat m)]}.
Definition checker_contract (results : list (list Z)) : contract Value Name (result () string) :=
  mk_contract (map (λ j, (NMerged j, Full (Array (results !!! Z.to_nat j)))) (seqZ 0 (zlen results)))
    (Ret (if accepts results 0 then Ok () else Err "sort result is wrong")) [].

Lemma checker_wf results : well_formed (checker_contract results).
Proof.
  unfold well_formed, names, checker_contract. cbn [needs leaves]. rewrite names_map. split_and!.
  - apply NoDup_map; [congruence|apply NoDup_seqZ].
  - apply Forall_map_nonneg. intros j Hj%elem_of_seqZ. cbn. lia.
  - by intros nm ?%not_elem_of_nil.
Qed.

Lemma checker_meets results args : fits 32 (zlen results) → zlen (concat results) < 2 ^ 64 →
  args !! "merger_num" = Some (pretty (zlen results)) →
  meets (length results) (checker_contract results) (checker (btree_items args)).
Proof.
  intros Hn Hc Hm v Hv. assert (Hf := contract_facts _ (checker_wf results)).
  set (own := owned _) in *. cbn [needs gives leaves checker_contract] in *.
  unfold checker. rewrite (arg_num_lookup 32 _ _ _ Hn Hm). cbn [get_or_panic]. rewrite ret_bind.
  assert (Hmap : map (λ j, results !!! Z.to_nat j) (seqZ 0 (zlen results)) = results).
  { apply list_eq. intros j. rewrite list_lookup_fmap. unfold zlen. destruct (decide (j < length results)%nat).
    - rewrite lookup_seqZ_lt by lia. cbn [fmap option_fmap option_map].
      rewrite Z.add_0_l, Nat2Z.id. by rewrite list_lookup_lookup_total_lt.
    - rewrite lookup_seqZ_ge, lookup_ge_None_2 by lia. done. }
  assert (Hlen : length (seqZ 0 (zlen results)) = length results) by (rewrite length_seqZ; unfold zlen; lia).
  rewrite <- (Nat.add_0_r (length results)), <- Hlen. apply twp_bind.
  eapply twp_mono; [done| |apply (twp_check own _ _ v 0 0 Hf Hv); rewrite ?Hmap; lia].
  cbn beta. rewrite Hmap. intros o v' (r & -> & ->). apply twp_ret. split; [|by intros nm st ?%not_elem_of_nil].
  by destruct (accepts results 0).
Qed.

Lemma checker_verdict_eq results sched s k : fits 32 (zlen results) → zlen (concat results) < 2 ^ 64 →
  (length results ≤ turns 0 sched)%nat → able (length sched + k) s →
  (∀ j r, results !! j = Some r → at_slot s (slot_name (NMerged (Z.of_nat j))) = Full (Array r)) →
  ∃ s', run_members sort_code sched (checker_group (length results)) s =
    (returned true (Ret (if accepts results 0 then Ok () else Err "sort result is wrong")), s').
Proof.
  intros Hn Hc Ht Hk Hr.
  destruct (group_meets sort_code (checker_group (length results)) [entry_contract true (checker_contract results)] (length results) sched s k)
    as (s' & E & _).
  - constructor; [apply checker_wf|done].
  - intros i j K K' nm Hi Hj Hne. apply list_lookup_singleton_Some in Hi as [-> _], Hj as [-> _]. done.
  - apply Forall2_cons. split; [|constructor]. apply entry_meets. by apply checker_meets.
  - intros i Hi. cbn in Hi. by replace i with 0%nat by lia.
  - done.
  - intros K ->%list_elem_of_singleton nm st Hin. apply elem_of_map_pair in Hin as (j & Hj & -> & ->).
    apply elem_of_seqZ in Hj. unfold zlen in Hj.
    rewrite <- (Z2Nat.id j) at 1 by lia. apply Hr. rewrite list_lookup_lookup_total_lt; [done|lia].
  - exists s'. rewrite E. cbn. by destruct (accepts results 0).
Qed.
End checker.

(** ** The theorems *)
Section theorems.
Context {S : Type} {SL : Slots S Value} {SLS : SlotsSpec S Value}.
Context {FL : Files S} {T : gmap string string} {FSp : FilesSpec S Value T}.

Lemma fits_any (gs : list Config.IsolationGroup) g : g ∈ gs →
  Forall (takes (RunsGroups := members_run (sort_code (S := S)))) (Config.group_to_isolation g).
Proof. intros _. by apply Forall_true. Qed.

(** C12: the parallel sort sorts: with any numbers of sorters and mergers, under every
    schedule that gives each function its turns, the workflow succeeds and the merged
    arrays one after the other are, in order, all the numbers of the input files that
    are below [u32::MAX] - provided the files can be parsed and every sorter's numbers
    reach all pivots but the last. *)
Theorem parallel_sort bound n m contents numbers (s : S) r a b c k :
  (∀ x, small bound x → good x) → plan (T := T) bound n m contents numbers → fresh s → enough_turns n m 0 r a b c →
  able (length r + (length a + (length b + (length c + k)))) s →
  (∀ i, (i < n)%nat → reaches m numbers i) →
  ∃ s' outs, run_workflow (run_members sort_code) [r; a; b; c] (sort_groups n m) s = (Ret (Ok ()), s') ∧ length outs = m ∧
    (∀ j out, outs !! j = Some out → at_slot s' (slot_name (NMerged (Z.of_nat j))) = Full (Array out)) ∧
    sorted (concat outs) ∧ concat outs ≡ₚ kept (concat (map numbers (seq 0 n))).
Proof.
  intros Hg H Hf Ht Hk Hr.
  destruct (sort_workflow (RG := members_run sort_code) bound Hg n m contents numbers (fits_any _) s r a b c k)
    as (s' & outs & E & _ & Ho); try done. by exists s', outs.
Qed.

(** A sorter whose numbers are all below a pivot that is not the last makes
    the workflow fail: its splitter leaves out the last part, the last merger panics,
    and the entry of the merger makes an error of that. *)
Theorem short_part_panics bound n m contents numbers (s : S) r a b c k i p x :
  (∀ x, small bound x → good x) → plan (T := T) bound n m contents numbers → fresh s → enough_turns n m 0 r a b c →
  able (length r + (length a + (length b + (length c + k)))) s → (i < n)%nat →
  pivots m numbers !! p = Some x → (p + 2 < m)%nat → (∀ y, y ∈ numbers i → y < x) →
  ∃ s' e, run_workflow (run_members sort_code) [r; a; b; c] (sort_groups n m) s = (Ret (Err e), s').
Proof.
  intros Hg. by apply (short_workflow (RG := members_run sort_code) bound Hg n m contents numbers (fits_any _)).
Qed.

(** what the checker says: that the sort is right if each result is in order and
    none starts below the start of the one before, and no later number is looked at.
    Results in order one after the other are accepted. *)
Theorem checker_verdict results sched (s : S) k :
  fits 32 (zlen results) → zlen (concat results) < 2 ^ 64 → Forall (λ x, 0 ≤ x) (concat results) →
  (length results ≤ turns 0 sched)%nat → able (length sched + k) s →
  (∀ j r, results !! j = Some r → at_slot s (slot_name (NMerged (Z.of_nat j))) = Full (Array r)) →
  (∃ s', run_members sort_code sched (checker_group (length results)) s =
    (Ret (if accepts results 0 then Ok () else Err ("function exec error: " +:+ msg "sort result is wrong")), s')) ∧
  (sorted (concat results) → accepts results 0 = true).
Proof.
  intros H1 H2 H3 H4 H5 H6. split; [destruct (checker_verdict_eq results sched s k) as [s' E]; [done..|exists s'; rewrite E; by destruct (accepts results 0)]|].
  rewrite Forall_forall in H3. intros Hs. by apply accepts_sorted.
Qed.
End theorems.

(** ** Witnesses, on slots in memory *)

Definition texts (l : list string) (i : nat) : string := default "" (l !! i).
Definition arrays (l : list (list Z)) (i : nat) : list Z := default [] (l !! i).
Definition data_files (l : list string) : gmap string string :=
  list_to_map (imap (λ i x, (data_file i, x)) l).
Definition round_robin (n k : nat) : list nat := concat (replicate k (seq 0 n)).

Lemma memory_plan n m l ls : (0 < n)%nat → (0 < m)%nat → fits 32 (Z.of_nat n) → fits 64 (Z.of_nat m) →
  Z.of_nat m * zlen (arrays ls 0) < 2 ^ 64 → arrays ls 0 ≠ [] →
  Forall (λ i, parse_loop (split "," (texts l i)) [] = (arrays ls i, Ok ()) ∧
    data_files l !! data_file i = Some (texts l i) ∧ (String.length (texts l i) ≤ 20)%nat) (seq 0 n) →
  (length (concat (map (arrays ls) (seq 0 n))) ≤ 20)%nat → (m ≤ 20)%nat →
  plan (T := data_files l) 20 n m (texts l) (arrays ls).
Proof.
  intros Hn Hm Hfn Hfm Hl Hne Hf Hns Hms. rewrite Forall_forall in Hf.
  split; try done; [by left|..]; intros i Hi; apply Hf, elem_of_seq; lia.
Qed.

(** A memory with these files and nothing in the slots. *)
Definition memory (T : gmap string string) : Memory Value := mk_memory T ∅.
Lemma memory_fresh T : @fresh _ _ (mem_slots_spec T) (memory T).
Proof. done. Qed.

Definition ex_texts : list string := ["3, 1,2,9"; "7,5, 4,8"].
Definition ex_arrays : list (list Z) := [[3; 1; 2; 9]; [7; 5; 4; 8]].
Lemma ex_plan : plan (T := data_files ex_texts) 20 2 3 (texts ex_texts) (arrays ex_arrays).
Proof. apply memory_plan; try lia; try done; [by repeat constructor; cbn; lia|cbn; lia]. Qed.
Lemma ex_turns : enough_turns 2 3 0 (round_robin 2 2) (round_robin 2 4) (round_robin 2 5) (round_robin 3 3).
Proof. split; intros i Hi; destruct i as [|[|[|i]]]; try lia; vm_compute; lia. Qed.
Lemma ex_reaches i : (i < 2)%nat → reaches 3 (arrays ex_arrays) i.
Proof.
  intros Hi. right. destruct i as [|[|i]]; [exists 9|exists 7|lia];
    (split; [vm_compute; set_solver|]); intros [|p] x Hp; try lia;
    change (pivots 3 (arrays ex_arrays) !! 0%nat) with (Some 2); intros [= <-]; lia.
Qed.

Lemma parallel_sort_witness : ∃ s' outs,
  run_workflow (run_members sort_code) [round_robin 2 2; round_robin 2 4; round_robin 2 5; round_robin 3 3]
    (sort_groups 2 3) (memory (data_files ex_texts)) = (Ret (Ok ()), s') ∧ length outs = 3%nat ∧
  (∀ j out, outs !! j = Some out →
     @at_slot _ _ _ (mem_slots_spec (data_files ex_texts)) s' (slot_name (NMerged (Z.of_nat j))) =
       Full (Array out)) ∧
  sorted (concat outs) ∧ concat outs ≡ₚ kept [3; 1; 2; 9; 7; 5; 4; 8].
Proof.
  exact (parallel_sort (SLS := mem_slots_spec (data_files ex_texts))
    (FSp := mem_files_spec (data_files ex_texts)) 20 2 3 (texts ex_texts) (arrays ex_arrays)
    (memory (data_files ex_texts)) (round_robin 2 2) (round_robin 2 4) (round_robin 2 5) (round_robin 3 3) 0
    (λ _ _, I) ex_plan (memory_fresh _) ex_turns eq_refl ex_reaches).
Defined.

Definition short_texts : list string := ["3, 1,2,9"; "1"].
Definition short_arrays : list (list Z) := [[3; 1; 2; 9]; [1]].
Lemma short_plan : plan (T := data_files short_texts) 20 2 3 (texts short_texts) (arrays short_arrays).
Proof. apply memory_plan; try lia; try done; [by repeat constructor; cbn; lia|cbn; lia]. Qed.
Lemma short_below y : y ∈ arrays short_arrays 1 → y < 2.
Proof. cbn. intros ->%list_elem_of_singleton. lia. Qed.

Lemma short_part_panics_witness : ∃ s' e,
  run_workflow (run_members sort_code) [round_robin 2 2; round_robin 2 4; round_robin 2 5; round_robin 3 3]
    (sort_groups 2 3) (memory (data_files short_texts)) = (Ret (Err e), s').
Proof.
  exact (short_part_panics (SLS := mem_slots_spec (data_files short_texts))
    (FSp := mem_files_spec (data_files short_texts)) 20 2 3 (texts short_texts) (arrays short_arrays)
    (memory (data_files short_texts)) (round_robin 2 2) (round_robin 2 4) (round_robin 2 5) (round_robin 3 3)
    0 1 0 2 (λ _ _, I) short_plan (memory_fresh _) ex_turns eq_refl
    ltac:(lia) eq_refl ltac:(lia) short_below).
Defined.

(** Two results out of order that the checker takes for a sort. *)
Definition overlap : Memory Value :=
  mk_memory ∅ {["merge_result_0" := Array [1; 5]; "merge_result_1" := Array [2; 3]]}.
Lemma overlap_results j r : [[1; 5]; [2; 3]] !! j = Some r →
  @at_slot _ _ _ (mem_slots_spec ∅) overlap (slot_name (NMerged (Z.of_nat j))) = Full (Array r).
Proof. by destruct j as [|[|j]]; [intros [= <-]|intros [= <-]|]. Qed.
Lemma overlap_nonneg : Forall (λ x, 0 ≤ x) (concat [[1; 5]; [2; 3]]).
Proof. cbn. repeat (apply Forall_cons; split; [lia|]). constructor. Qed.

Lemma checker_verdict_witness :
  (∃ s', run_members sort_code [0; 0]%nat (checker_group 2) overlap =
     (Ret (if accepts [[1; 5]; [2; 3]] 0 then Ok () else Err ("function exec error: " +:+ msg "sort result is wrong")), s')) ∧
  accepts [[1; 5]; [2; 3]] 0 = true ∧ ¬ sorted (concat [[1; 5]; [2; 3]]).
Proof.
  split; [|split; [reflexivity|]].
  - apply (checker_verdict (SLS := mem_slots_spec ∅) [[1; 5]; [2; 3]] [0; 0]%nat overlap 0);
      [split; [done|reflexivity]|reflexivity|exact overlap_nonneg|vm_compute; lia|reflexivity|exact overlap_results].
  - intros H%is_sorted_spec. discriminate H.
Defined.
