(* ===== verification/VisorFlow.v ===== *)
(** * Workflows under the visor (libasvisor, with the functions' interface)

    A workflow run by [Visor.run]: its functions are loaded when they are first
    asked for, marked, given their arguments on the stack and joined, on an
    isolation whose world has the slots and the files they work on.  [visor_runs]
    is the promise of [RunsGroups], so what holds of a workflow's groups holds of
    it under the visor; [run_ends] adds the rest of [Isolation::run]. *)
From Stdlib Require Import Ascii String.
From S2P Require Import Prelude Bytes Hostcall Metric Threads Visor VisorSpec Slots Contracts.
Local Open Scope Z_scope.

(** ** A thread on a part of the state *)
Section on_thread.
Context {S T : Type} (get : T → S) (put : S → T → T).
Fixpoint on_thread {A} (t : thread S A) : thread T A :=
  match t with
  | Done o => Done o
  | Step m => Step (λ s,
      match m (get s) with
      | (Ret t', x) => (Ret (on_thread t'), put x s)
      | (Panic, x) => (Panic, put x s)
      | (Deadlock, x) => (Deadlock, put x s)
      | (NoFuel, x) => (NoFuel, put x s)
      end)
  end.
End on_thread.

(** ** Marks that go through *)

(** No lock is poisoned and the end is not marked. *)
Record clear (b : MetricBucket) : Prop := mk_clear {
  bucket_free : b.(poisoned) = false;
  buckets_free : Forall (λ s, s.(svc_poisoned) = false) b.(svc_metrics);
  no_end : b.(end_t) = 0
}.
Definition of_run (e : MetricEvent) : bool :=
  match e with SvcInit | SvcRun | SvcEnd => true | _ => false end.

Lemma mark_service_clear h now e b : clear b → of_run e = true → (h < length b.(svc_metrics))%nat →
  ∃ b', mark_service h now e b = (Ret (), b') ∧ clear b' ∧ length b'.(svc_metrics) = length b.(svc_metrics).
Proof.
  intros [Hp Hs He] Hev Hh. unfold mark_service.
  destruct (lookup_lt_is_Some_2 _ _ Hh) as [s Es]. rewrite Es.
  assert (Hf := Forall_lookup_1 _ _ _ _ Hs Es). cbn in Hf. unfold svc_mark. rewrite Hf.
  destruct e; try done; (eexists; split; [reflexivity|]; split; [split|]; cbn; try done;
    [by apply Forall_insert|by rewrite length_insert]).
Qed.
Lemma new_svc_metric_clear name path b : clear b →
  ∃ b', new_svc_metric name path b = (Ret (length b.(svc_metrics)), b') ∧ clear b' ∧
    length b'.(svc_metrics) = Datatypes.S (length b.(svc_metrics)).
Proof.
  intros [Hp Hs He]. unfold new_svc_metric, lock_metric. rewrite Hp. eexists. split; [reflexivity|].
  split; [split|]; cbn; try done; [by apply Forall_app; split; [|constructor]|].
  rewrite length_app. cbn. lia.
Qed.
Lemma mark_mem_clear now b : clear b →
  ∃ b', mark now Mem b = (Ret (), b') ∧ clear b' ∧ b'.(svc_metrics) = b.(svc_metrics).
Proof.
  intros [Hp Hs He]. unfold mark, lock_metric. rewrite Hp. eexists. by split; [reflexivity|].
Qed.

Section flow.
Context {W Lib V : Type} {HH : Host W Lib} {SL : Slots W V} {SLS : SlotsSpec W V}.
Context (code : string → list (string * string) → thread W (result () string)).
(** The function at an address. *)
Context (entry : Z → string).
Local Abbreviation Isol := (Isolation W Lib).

#[local] Instance module_code : ModuleCode W Lib :=
  λ addr items, on_thread world set_world (code (entry addr) items).

(** ** The host *)

(** A call of the host that returns, with [P], and leaves the slots alone. *)
Definition quiet {A} (m : prog W A) (P : A → Prop) : Prop := ∀ w k, able (Datatypes.S k) w →
  ∃ a w', m w = (Ret a, w') ∧ P a ∧ able k w' ∧ ∀ q, at_slot w' q = at_slot w q.

Record quiet_host : Prop := mk_quiet_host {
  millis_quiet : quiet now_millis (λ _, True);
  micros_quiet : quiet now_micros (λ _, True);
  heap_quiet : quiet alloc_heap (λ _, True)
}.
(** A library with the function [name] that takes its context. *)
Record good_lib (name : string) (lib : Lib) : Prop := mk_good_lib {
  has_main : ∃ addr, lib_symbol lib "rust_main" = Some addr ∧ code (entry addr) = code name;
  takes_context : ∃ set get, lib_symbol lib "set_handler_addr" = Some set ∧
    lib_symbol lib "get_handler_addr" = Some get ∧
    (∀ ctx, quiet (call_set_handler set ctx) (λ r, r = Ok ())) ∧
    quiet (call_get_handler get) (λ h, h = find_host_call_addr)
}.
Definition loads (name path : string) : Prop :=
  ∀ ns, quiet (load_dynlib path ns) (λ r, ∃ lib, r = Ok lib ∧ good_lib name lib).

(** ** Isolations that run the functions [names] *)
Context (names : list string).

Definition serves (name : string) (b : MetricBucket) (svc : Service Lib) : Prop :=
  good_lib name svc.(s_lib) ∧ (svc.(s_metric) < length b.(svc_metrics))%nat ∧ svc.(s_name) = name.
Record in_order (i : Isol) : Prop := mk_in_order {
  lock_free : i.(inner_poisoned) = false;
  marks_clear : clear i.(metric);
  each_module : ∀ name, name ∈ names →
    match i.(modules) !! name with
    | Some svc => serves name i.(metric) svc
    | None => ∃ path, i.(registered) !! name = Some path ∧ loads name path
    end
}.
(** Six calls of the host load a function. *)
Definition unloaded (m : gmap string (Service Lib)) : nat :=
  length (filter (λ name, m !! name = None) names).
Definition isol_ready (k : nat) (i : Isol) : Prop :=
  in_order i ∧ able (k + 6 * unloaded i.(modules)) i.(world).

(** ** Loading a function *)

(** How far an isolation has come from [i0] while nothing was added to its modules:
    [n] modules have marks and there is room for [k] calls. *)
Record stage (i0 : Isol) (n k : nat) (i : Isol) : Prop := mk_stage {
  same_modules : i.(modules) = i0.(modules);
  same_registered : i.(registered) = i0.(registered);
  same_lock : i.(inner_poisoned) = i0.(inner_poisoned);
  stage_clear : clear i.(metric);
  stage_marks : length i.(metric).(svc_metrics) = n;
  stage_able : able k i.(world);
  same_slots : ∀ q, at_slot i.(world) q = at_slot i0.(world) q
}.

Lemma stage_host {A} (m : prog W A) P i0 n k i : quiet m P → stage i0 n (Datatypes.S k) i →
  wp (host m) (λ a i', P a ∧ stage i0 n k i') i.
Proof.
  intros Hq [H1 H2 H3 H4 H5 H6 H7]. destruct (Hq _ _ H6) as (a & w & E & HP & Hk & Hs).
  unfold wp, host, on. rewrite E. split; [done|]. split; try done. intros q. cbn. by rewrite Hs.
Qed.
Lemma stage_metric {A} (m : prog MetricBucket A) a i0 n n' k i : (∀ b, clear b → length b.(svc_metrics) = n →
    ∃ b', m b = (Ret a, b') ∧ clear b' ∧ length b'.(svc_metrics) = n') →
  stage i0 n k i → wp (on_metric m) (λ a' i', a' = a ∧ stage i0 n' k i') i.
Proof.
  intros Hm [H1 H2 H3 H4 H5 H6 H7]. destruct (Hm _ H4 H5) as (b & E & Hc & Hl).
  unfold wp, on_metric, on. rewrite E. by split.
Qed.
Lemma stage_mark (QH : quiet_host) h e i0 n k i : of_run e = true → (h < n)%nat →
  stage i0 n (Datatypes.S k) i → wp (mark_svc h e) (λ _ i', stage i0 n k i') i.
Proof.
  intros He Hh Hi. apply wp_bind. eapply wp_mono; [exact (stage_host _ _ _ _ _ _ (millis_quiet QH) Hi)|].
  intros now i1 [_ Hi1]. eapply wp_mono; [apply (stage_metric _ () i0 n n k i1); [|exact Hi1]|by intros ? ? [_ ?]].
  intros b Hb Hl. destruct (mark_service_clear h now e b Hb He) as (b' & E & Hc & Hl'); [lia|].
  exists b'. by rewrite Hl'.
Qed.
Lemma stage_less i0 n k j i : stage i0 n k i → (j ≤ k)%nat → stage i0 n j i.
Proof. intros [] Hj. split; try done. by eapply able_mono. Qed.

Lemma init_ends name svc i0 n k i : good_lib name svc.(s_lib) → stage i0 n (2 + k) i →
  ∀ isol_id, wp (service_init svc isol_id) (λ r i', r = Ok () ∧ stage i0 n k i') i.
Proof.
  intros [_ (set & get & Es & Eg & Hset & Hget)] Hi isol_id.
  assert (Hless : stage i0 n k i) by (by eapply stage_less; [exact Hi|lia]).
  unfold service_init. destruct (s_libos svc); [|by apply wp_ret]. unfold libos_init.
  destruct (negb _); [by apply wp_ret|]. rewrite Es. apply wp_bind.
  eapply wp_mono; [exact (stage_host _ _ _ _ _ _ (Hset _) Hi)|]. intros r i1 [-> H1]. rewrite Eg.
  apply wp_bind. eapply wp_mono; [exact (stage_host _ _ _ _ _ _ Hget H1)|]. intros h i2 [-> H2].
  rewrite Z.eqb_refl. by apply wp_ret.
Qed.

Lemma load_ends (QH : quiet_host) name path i k : i.(registered) !! name = Some path → loads name path →
  clear i.(metric) → able (k + 6) i.(world) →
  let n := length i.(metric).(svc_metrics) in
  wp (load name) (λ r i', ∃ svc, r = Ok svc ∧ good_lib name svc.(s_lib) ∧ svc.(s_metric) = n ∧ svc.(s_name) = name ∧
    stage i (Datatypes.S n) k i') i.
Proof.
  intros Hr Hload Hc Hk n. assert (H0 : stage i n (6 + k) i) by (split; try done; by rewrite Nat.add_comm).
  unfold load. wp_steps. rewrite Hr. wp_steps.
  eapply wp_mono; [apply (stage_metric _ n i n (Datatypes.S n) (6 + k) i); [|exact H0]|].
  { intros b Hb Hl. rewrite <- Hl. by apply new_svc_metric_clear. }
  intros h i1 [-> H1]. wp_steps. eapply wp_mono; [eapply (stage_mark QH n SvcInit _ _ _ _ eq_refl); [|exact H1]; lia|].
  intros [] i2 H2. wp_steps.
  eapply wp_mono; [exact (stage_host _ _ _ _ _ _ (Hload (namespace i2)) H2)|]. intros r i3 [(lib & -> & Hlib) H3].
  wp_steps. apply (wp_mono _ (λ svc i', svc.(s_lib) = lib ∧ svc.(s_metric) = n ∧ svc.(s_name) = name ∧
    stage i (Datatypes.S n) (2 + k) i')).
  - unfold service_new. wp_steps.
    eapply wp_mono; [eapply (stage_mark QH n SvcInit _ _ _ _ eq_refl); [|exact H3]; lia|]. intros [] i4 H4.
    destruct (loader_libos i3).
    + wp_steps. eapply wp_mono; [exact (stage_host _ _ _ _ _ _ (heap_quiet QH) H4)|].
      intros heap i5 [_ H5]. by apply wp_ret.
    + apply wp_ret. split; [done|]. split; [done|]. split; [done|]. by eapply stage_less; [exact H4|lia].
  - intros svc i4 (El & Em & En & H4). wp_steps. set (i5 := set_namespace _ i4).
    assert (H5 : stage i (Datatypes.S n) (2 + k) i5) by by destruct H4.
    rewrite <- El in Hlib. eapply wp_mono; [exact (init_ends name svc _ _ _ _ Hlib H5 (id i5))|].
    intros r i6 [-> H6]. apply wp_ret. by exists svc.
Qed.

Lemma unloaded_insert m name svc : name ∈ names → m !! name = None →
  (Datatypes.S (unloaded (<[name := svc]> m)) ≤ unloaded m)%nat.
Proof.
  intros Hin Hm. unfold unloaded. apply Nat.le_succ_l.
  assert (Hsub : ∀ x, <[name := svc]> m !! x = None → m !! x = None)
    by (intros x; by rewrite lookup_insert_None; intros []).
  assert (Hle : ∀ l, (length (filter (λ x, <[name := svc]> m !! x = None) l) ≤
      length (filter (λ x, m !! x = None) l))%nat).
  { intros l. induction l as [|x l IH]; [done|]. rewrite !filter_cons.
    specialize (Hsub x). repeat case_decide; cbn [length]; tauto || lia. }
  revert Hin. induction names as [|x l IH]; intros Hin; [by apply not_elem_of_nil in Hin|].
  specialize (Hle l). rewrite !filter_cons. destruct (decide (x = name)) as [->|Hne].
  - rewrite decide_False, decide_True by (try done; by rewrite lookup_insert_eq). cbn [length]. lia.
  - apply elem_of_cons in Hin as [?|Hin]; [congruence|]. specialize (IH Hin). specialize (Hsub x).
    repeat case_decide; cbn [length]; tauto || lia.
Qed.
Lemma serves_more name b b' svc : (length b.(svc_metrics) ≤ length b'.(svc_metrics))%nat →
  serves name b svc → serves name b' svc.
Proof. intros Hl (Hg & Hm & Hn). split; [done|]. split; [lia|done]. Qed.

(** An isolation that has come from [i] with more modules. *)
Record grown (k : nat) (i i' : Isol) : Prop := mk_grown {
  grown_ready : isol_ready k i';
  more_modules : i.(modules) ⊆ i'.(modules);
  kept_slots : ∀ q, at_slot i'.(world) q = at_slot i.(world) q
}.
Lemma isol_grown_trans k i j l : grown k i j → grown k j l → grown k i l.
Proof. intros [_ H1 H2] [H3 H4 H5]. split; [done|by etrans|]. intros q. by rewrite H5. Qed.

Lemma app_ready (QH : quiet_host) name i k : name ∈ names → isol_ready k i →
  wp (app_or_load name) (λ r i', ∃ svc, r = Ok svc ∧ i'.(modules) !! name = Some svc ∧ grown k i i' ∧
    ∀ q, q ≠ name → i'.(modules) !! q = i.(modules) !! q) i.
Proof.
  intros Hin [[Hfree Hclear Heach] Hk].
  destruct (i.(modules) !! name) as [svc|] eqn:Em.
  { unfold wp, app_or_load. rewrite (or_load_known _ _ svc) by done. exists svc. by split. }
  assert (Hn := Heach name Hin). rewrite Em in Hn. destruct Hn as (path & Hr & Hload).
  assert (Hu := λ svc, unloaded_insert i.(modules) name svc Hin Em).
  unfold app_or_load, or_load. unfold wp, lock_inner. rewrite Hfree.
  lazymatch goal with |- match (match ?m i with _ => _ end) with _ => _ end => change (m i) with (m i);
    enough (Hw : wp m (λ r i', ∃ svc, r = Ok svc ∧ i'.(modules) !! name = Some svc ∧ grown k i i' ∧
      ∀ q, q ≠ name → i'.(modules) !! q = i.(modules) !! q) i)
      by (unfold wp in Hw; by destruct (m i) as [[]]) end.
  wp_steps. rewrite Em. wp_steps.
  eapply wp_mono; [apply (load_ends QH name path i (k + 6 * (unloaded i.(modules) - 1))); try done|].
  { eapply able_mono; [exact Hk|]. enough (0 < unloaded i.(modules))%nat by lia. unfold unloaded.
    assert (Hf : name ∈ filter (λ x, i.(modules) !! x = None) names) by by apply list_elem_of_filter.
    destruct (filter _ names); [by apply not_elem_of_nil in Hf|cbn; lia]. }
  intros r i1 (svc & -> & Hlib & Hmet & Hname & [H1 H2 H3 H4 H5 H6 H7]). specialize (Hu svc).
  wp_steps. exists svc. split; [done|]. cbn [modules set_modules]. split; [by rewrite lookup_insert_eq|].
  split; [|intros q Hq; by rewrite lookup_insert_ne, H1].
  split; [split; [split|]|..]; cbn [inner_poisoned metric modules registered set_modules world].
  - by rewrite H3.
  - done.
  - intros x Hx. rewrite H1, H2. destruct (decide (x = name)) as [->|Hne].
    + rewrite lookup_insert_eq. split; [done|]. rewrite H5, Hmet. split; [lia|done].
    + rewrite lookup_insert_ne by done. specialize (Heach x Hx).
      destruct (modules i !! x); [|done]. eapply serves_more; [|exact Heach]. rewrite H5. lia.
  - eapply able_mono; [exact H6|]. rewrite H1. lia.
  - rewrite H1. by apply insert_subseteq.
  - done.
Qed.

Lemma group_ready (QH : quiet_host) (g : list Config.App) : ∀ i k,
  Forall (λ a, a.(Config.app_name) ∈ names) g → isol_ready k i →
  wp (load_group g) (λ r i', ∃ svcs, r = Ok svcs ∧ grown k i i' ∧
    Forall2 (λ svc a, i'.(modules) !! a.(Config.app_name) = Some svc) svcs g) i.
Proof.
  induction g as [|a g IH]; intros i k Hg Hi; cbn [load_group].
  { apply wp_ret. exists []. split; [done|]. by split; [split|constructor]. }
  apply Forall_cons in Hg as [Ha Hg]. wp_steps. eapply wp_mono; [exact (app_ready QH _ i k Ha Hi)|].
  intros r i1 (svc & -> & Hsvc & H1 & _). wp_steps. eapply wp_mono; [exact (IH i1 k Hg (grown_ready _ _ _ H1))|].
  intros r i2 (svcs & -> & H2 & Hsvcs). wp_steps. exists (svc :: svcs). split; [done|].
  split; [by eapply isol_grown_trans|]. constructor; [|done].
  eapply lookup_weaken; [exact Hsvc|]. by apply H2.
Qed.

(** ** The functions of a group *)

Definition isol_slots : Slots Isol V :=
  {| publish_slot slot v := host (publish_slot slot v); take_slot slot := host (take_slot slot) |}.

(** An isolation whose functions run, all of them loaded. *)
Record running (i0 : Isol) (k : nat) (i : Isol) : Prop := mk_running {
  run_modules : i.(modules) = i0.(modules);
  run_registered : i.(registered) = i0.(registered);
  run_lock : i.(inner_poisoned) = i0.(inner_poisoned);
  run_clear : clear i.(metric);
  run_marks : length i.(metric).(svc_metrics) = length i0.(metric).(svc_metrics);
  run_able : able (k + 6 * unloaded i0.(modules)) i.(world)
}.
Lemma running_world i0 k j i w : running i0 k i → able (j + 6 * unloaded i0.(modules)) w →
  running i0 j (set_world w i).
Proof. by intros [H1 H2 H3 H4 H5 H6] Hw. Qed.
Lemma running_stage i0 n k i i' : running i0 n i →
  stage i (length i0.(metric).(svc_metrics)) (k + 6 * unloaded i0.(modules)) i' → running i0 k i'.
Proof. intros [H1 H2 H3 H4 H5 H6] []. split; congruence. Qed.
Lemma stage_running i0 k i : running i0 k i →
  stage i (length i0.(metric).(svc_metrics)) (k + 6 * unloaded i0.(modules)) i.
Proof. by intros []. Qed.

Definition frame_spec (i0 : Isol) : @SlotsSpec Isol V isol_slots.
Proof.
  refine {| at_slot i := at_slot i.(world); good := good; able := running i0 |}.
  - intros k j i [] Hj. split; try done. eapply able_mono; [done|lia].
  - intros slot v i k Hi Hv He. destruct (publish_spec slot v i.(world) _ (run_able _ _ _ Hi) Hv He)
      as (w & E & Hk & H). exists (set_world w i). cbn. unfold host, on. rewrite E.
    split; [done|]. split; [by eapply running_world|exact H].
  - intros slot v i k Hi He. destruct (take_full slot v i.(world) _ (run_able _ _ _ Hi) He)
      as (w & E & Hk & H). exists (set_world w i). cbn. unfold host, on. rewrite E.
    split; [done|]. split; [by eapply running_world|exact H].
  - intros slot i k Hi He. destruct (take_empty slot i.(world) _ (run_able _ _ _ Hi) He)
      as (w & E & Hk & H). exists (set_world w i). cbn. unfold host, on. rewrite E.
    split; [done|]. split; [by eapply running_world|exact H].
Defined.

(** What a thread does in the world it does in the isolation. *)
Lemma twp_world {A} i0 own (t : thread W A) Q : ∀ n v, twp n own t Q v →
  twp (SLS := frame_spec i0) n own (on_thread world set_world t) Q v.
Proof.
  revert t. fix IH 1. intros [o|f] n v; cbn [on_thread twp]; [done|]. destruct n as [|n]; [done|].
  intros Ht i k Hk Hi. destruct (Ht i.(world) (k + 6 * unloaded i0.(modules))%nat (run_able _ _ _ Hk) Hi)
    as (Ha & Ho & Hr).
  destruct (f (world i)) as [[t'| | |] w]; cbn [fst snd] in *;
    (split; [by eapply running_world|]; split; [exact Ho|]); try exact Hr.
  by apply IH.
Qed.
Lemma twp_mark {A} (QH : quiet_host) i0 h e n own (k : () → thread Isol A) Q (v : string → SlotState V) :
  of_run e = true → (h < length i0.(metric).(svc_metrics))%nat →
  (∀ v', (∀ q, own q → v' q = v q) → twp (SLS := frame_spec i0) n own (k ()) Q v') →
  twp (SLS := frame_spec i0) (Datatypes.S n) own (thread_bind (atomic (mark_svc h e)) k) Q v.
Proof.
  intros He Hh HQ i j Hj Hi.
  assert (Hw := stage_mark QH h e i _ _ i He Hh (stage_running i0 _ i Hj)).
  apply wp_inv in Hw as ([] & i' & E & H'). unfold mbind, prog_mbind. rewrite E. cbn [fst snd mret prog_mret].
  split; [by eapply running_stage|]. split; [intros q _; by apply (same_slots _ _ _ _ H')|].
  apply HQ. intros q Hq. etrans; [by apply (same_slots _ _ _ _ H')|by apply Hi].
Qed.
Lemma twp_still {A B} i0 (m : prog Isol A) a n own (k : A → thread Isol B) Q (v : string → SlotState V) :
  (∀ i, m i = (Ret a, i)) →
  (∀ v', (∀ q, own q → v' q = v q) → twp (SLS := frame_spec i0) n own (k a) Q v') →
  twp (SLS := frame_spec i0) (Datatypes.S n) own (thread_bind (atomic m) k) Q v.
Proof.
  intros Hm HQ i j Hj Hi. unfold mbind, prog_mbind. rewrite Hm. cbn [fst snd mret prog_mret].
  split; [by eapply (able_mono (SlotsSpec := frame_spec i0)); [exact Hj|lia]|]. split; [done|]. by apply HQ.
Qed.

(** Arguments that reach a function. *)
Definition takes_args (args : gmap string string) : Prop :=
  map_Forall (λ k v, fits_item (k, v) = true) args ∧ (size args ≤ 16)%nat.
Lemma write_args_ok args (i : Isol) : takes_args args → write_args args i = (Ret (btree_items args), i).
Proof.
  intros H. destruct (write_args_bounds args i) as (_ & _ & ->). by rewrite bool_decide_eq_true_2.
Qed.

Lemma holds_local {Name} {SN : SlotNames Name} (own : string → Prop) (fs : list (Name * SlotState V)) v v' :
  (∀ nm, nm ∈ fs.*1 → own (slot_name nm)) → (∀ q, own q → v' q = v q) → holds fs v → holds fs v'.
Proof.
  intros Hown Hv H nm st Hin. rewrite Hv; [by apply H|]. apply Hown. by apply (list_elem_of_fmap_2 fst _ (nm, st)).
Qed.

(** Loaded and with arguments that fit, a function keeps its contract in three
    steps more: two marks and the arguments. *)
(** What is left of a contract when the visor runs the function [name]. *)
Definition service_contract {Name} (name : string) (K : contract V Name (result () string)) :=
  mk_contract K.(needs) match K.(gives) with
    | Ret (Err e) => Ret (Err ("function " +:+ name +:+ " run failed: " +:+ e)) | o => o end K.(leaves).
Lemma service_reworded {Name} name (K : contract V Name (result () string)) : reworded K (service_contract name K).
Proof. split; try done. cbn. by destruct K.(gives) as [[[]|e]| | |]. Qed.

Lemma service_meets {Name} {SN : SlotNames Name} (QH : quiet_host) i0 c (K : contract V Name (result () string)) name args svc :
  serves name i0.(metric) svc → takes_args args → well_formed K → meets c K (code name (btree_items args)) →
  meets (SLS := frame_spec i0) (c + 3) (service_contract name K) (service_thread svc args).
Proof.
  intros ([(addr & Emain & Eentry) _] & Hh & Hname) Hargs (_ & _ & Hleaves) Hm v Hv.
  set (own := owned _).
  assert (Hneeds : ∀ nm, nm ∈ K.(needs).*1 → own (slot_name nm)) by (intros nm; apply owned_in).
  assert (Hleft : ∀ nm, nm ∈ K.(leaves).*1 → own (slot_name nm)) by (intros nm Hnm; by apply owned_in, Hleaves).
  replace (c + 3)%nat with (Datatypes.S (Datatypes.S (c + 1))) by lia. unfold service_thread.
  apply (twp_mark QH); [done|done|]. intros v1 Hv1. rewrite Emain.
  apply (twp_still i0 _ (btree_items args)); [intros i; by apply write_args_ok|]. intros v2 Hv2.
  apply (twp_bind (SLS := frame_spec i0)). unfold call_main, module_code. rewrite Eentry.
  assert (H2 : holds K.(needs) v2).
  { apply (holds_local own _ v); [exact Hneeds| |exact Hv]. intros q Hq. by rewrite Hv2, Hv1. }
  eapply (twp_mono (SLS := frame_spec i0)); [done| |exact (twp_world i0 _ _ _ _ _ (Hm v2 H2))].
  intros o v3 [-> H3]. cbn [gives leaves service_contract]. rewrite Hname. destruct K.(gives) as [[[]|e]| | |] eqn:Eg; [|by split..].
  apply (twp_mark QH); [done|done|]. intros v4 Hv4. cbn [twp]. split; [done|].
  by apply (holds_local own _ v3).
Qed.
Lemma app_meets {Name} {SN : SlotNames Name} (QH : quiet_host) i0 c (K : contract V Name (result () string)) a svc :
  serves a.(Config.app_name) i0.(metric) svc → takes_args a.(Config.args) → well_formed K →
  meets c K (function_thread code a) →
  ∃ K', reworded K K' ∧ meets (SLS := frame_spec i0) (c + 3) K' (app_thread svc a).
Proof.
  intros Hs Hargs Hwf Hm. assert (Hm1 := service_meets QH i0 c K _ _ svc Hs Hargs Hwf Hm).
  destruct (service_reworded a.(Config.app_name) K) as [En El Eg]. revert En El Eg Hm1.
  generalize (service_contract a.(Config.app_name) K). intros K1 En El Eg Hm1.
  exists (mk_contract K.(needs) match K1.(gives) with
    | Ret (Err e) => Ret (Err ("app " +:+ svc.(s_name) +:+ " run failed. " +:+ e)) | o => o end K.(leaves)).
  split; [split; try done; cbn; by destruct K1.(gives) as [[[]|e]| | |], K.(gives) as [[]| | |]|].
  intros v Hv. unfold app_thread. rewrite <- (Nat.add_0_r (c + 3)).
  apply (twp_bind (SLS := frame_spec i0) _ _ _ _ (c + 3) 0). cbn [needs gives leaves] in *.
  rewrite <- En in Hv. assert (Hm' := Hm1 v Hv). unfold Contracts.names in *. rewrite En, El in Hm'.
  eapply (twp_mono (SLS := frame_spec i0)); [done| |exact Hm'].
  intros o v1 [-> H1]. by destruct K1.(gives) as [[[]|e]| | |].
Qed.

Lemma ready_running i k : isol_ready k i → running i k i.
Proof. by intros [[] ?]. Qed.
Lemma running_ready i0 i k : in_order i0 → running i0 k i → isol_ready k i.
Proof.
  intros [H1 H2 H3] [R1 R2 R3 R4 R5 R6]. split; [split|].
  - by rewrite R3.
  - done.
  - intros x Hx. rewrite R1, R2. specialize (H3 x Hx). destruct (modules i0 !! x); [|done].
    eapply serves_more; [|exact H3]. by rewrite R5.
  - by rewrite R1.
Qed.

Lemma apps_meet {Name} {SN : SlotNames Name} (QH : quiet_host) i0 c (Ks : list (contract V Name (result () string))) :
  in_order i0 → ∀ svcs g, Forall2 (λ svc a, i0.(modules) !! a.(Config.app_name) = Some svc) svcs g →
  Forall (λ a, a.(Config.app_name) ∈ names ∧ takes_args a.(Config.args)) g → Forall well_formed Ks →
  Forall2 (λ K a, meets c K (function_thread code a)) Ks g →
  ∃ Ks', Forall2 reworded Ks Ks' ∧
    Forall2 (λ K t, meets (SLS := frame_spec i0) (c + 3) K t) Ks' (zip_with app_thread svcs g).
Proof.
  intros Hi. induction Ks as [|K Ks IH]; intros svcs g Hs Ht Hwf Hm.
  - apply Forall2_nil_inv_l in Hm as ->. apply Forall2_nil_inv_r in Hs as ->. by exists [].
  - apply Forall2_cons_inv_l in Hm as (a & g' & Hm & Hms & ->).
    apply Forall2_cons_inv_r in Hs as (svc & svcs' & Hs & Hss & ->).
    apply Forall_cons in Ht as [[Hin Hargs] Ht], Hwf as [Hw Hwf].
    destruct (IH svcs' g' Hss Ht Hwf Hms) as (Ks' & HKs & Hms').
    destruct (app_meets QH i0 c K a svc) as (K' & HK & Hm'); [|done..|].
    { assert (H := each_module _ Hi _ Hin). by rewrite Hs in H. }
    exists (K' :: Ks'). by split; constructor.
Qed.

(** A group under the visor: loaded, then run in parallel. *)
Definition visor_group (sched : list nat) (g : Config.IsolationGroup) : prog Isol (result () string) :=
  run_group_in_parallel sched (Config.group_to_isolation g).

Definition visor_runs (QH : quiet_host) : RunsGroups code visor_group.
Proof.
  refine {| view := world; ready := isol_ready; extra := 3;
            takes a := a.(Config.app_name) ∈ names ∧ takes_args a.(Config.args) |}.
  - intros k i [_ Hk]. eapply able_mono; [exact Hk|lia].
  - intros k j i [Hi Hk] Hj. split; [done|]. eapply able_mono; [exact Hk|lia].
  - intros N SN g Ks c sched i k Hwf Hap Hm Ht Hturns Hi Hneeds.
    assert (Hl := group_ready QH (Config.group_to_isolation g) i _ ltac:(by eapply Forall_impl; [exact Ht|intros a []]) Hi).
    apply wp_inv in Hl as (r & i1 & E & svcs & -> & Hgr & Hsvcs).
    assert (Hin := proj1 (grown_ready _ _ _ Hgr)).
    destruct (apps_meet QH i1 c Ks Hin svcs (Config.group_to_isolation g)) as (Ks' & HKs & Hmeet); [done..|].
    destruct (threads_meet (SLS := frame_spec i1) Ks' (zip_with app_thread svcs (Config.group_to_isolation g))
      (c + 3) sched i1 k) as (i2 & E2 & Hk & Hlv & Hout).
    + by eapply reworded_formed.
    + by eapply reworded_apart.
    + done.
    + by rewrite <- (Forall2_length _ _ _ HKs).
    + apply ready_running, Hgr.
    + intros K' HK' nm st. destruct (reworded_from Ks Ks' K' HKs HK') as (K & HK & [-> _ _]). intros Hnm.
      etrans; [apply (kept_slots _ _ _ Hgr)|by apply (Hneeds K HK)].
    + exists (join_all (map gives Ks')), i2. split; [|split; [by apply reworded_join|split; [by eapply running_ready|split]]].
      * unfold visor_group, run_group_in_parallel, try_bind. rewrite (bind_Ret _ _ _ _ _ E).
        unfold run_threads, mbind, prog_mbind. rewrite E2, map_map. done.
      * intros K HK. destruct (reworded_in Ks Ks' K HKs HK) as (K' & HK' & [_ <- _]). by apply Hlv.
      * intros nm Hnm Hno. etrans; [|apply (kept_slots _ _ _ Hgr)]. apply Hout; [done|].
        intros K' HK'. destruct (reworded_from Ks Ks' K' HKs HK') as (K & HK & [En _ _]).
        unfold Contracts.names. rewrite En. by apply Hno.
Defined.

(** ** The whole run *)

(** The groups of the configuration one after the other; only an error is worded
    differently. *)
Lemma groups_run scheds : ∀ gs k (i : Isol) o i',
  run_workflow visor_group (map scheds (seq k (length gs))) gs i = (o, i') →
  ∃ o', run_groups scheds k (map Config.group_to_isolation gs) i = (o', i') ∧ same_result o' o.
Proof.
  induction gs as [|g gs IH]; intros k i o i' H; [by exists o; injection H as <- <-|].
  cbn [map length seq run_workflow run_groups] in *. unfold visor_group in H at 1.
  unfold try_bind, fmap, prog_fmap, mbind, prog_mbind in *.
  destruct (run_group_in_parallel (scheds k) (Config.group_to_isolation g) i) as [[[[]|e]| | |] i1] eqn:E;
    cbn [map_err mret prog_mret] in *; [by apply IH|injection H as <- <-; by eexists..].
Qed.

Lemma stage_ready (i : Isol) k i' : in_order i →
  stage i (length i.(metric).(svc_metrics)) (k + 6 * unloaded i.(modules)) i' → isol_ready k i'.
Proof. intros Hi [H1 H2 H3 H4 H5 H6 H7]. apply (running_ready i); [done|]. by split. Qed.
Lemma mark_mem_ready (QH : quiet_host) i k : isol_ready (Datatypes.S k) i →
  wp (mark_isol Mem) (λ _ i', isol_ready k i' ∧ i'.(groups) = i.(groups) ∧
    (i'.(app_names) = i.(app_names) ∧ i'.(modules) = i.(modules)) ∧ ∀ q, at_slot i'.(world) q = at_slot i.(world) q) i.
Proof.
  intros Hi. assert (Hr := ready_running _ _ Hi). destruct Hi as [Hi Hk].
  enough (Hw : wp (mark_isol Mem) (λ _ i', isol_ready k i' ∧ i'.(modules) = i.(modules) ∧
    ∀ q, at_slot i'.(world) q = at_slot i.(world) q) i).
  { apply wp_inv in Hw as ([] & i' & E & H1 & H2 & H3). unfold wp. rewrite E. split; [done|].
    apply (within_eq (⊆)) in E; [|apply _..]. split; [apply E|]. split; [split; [apply E|done]|done]. }
  apply wp_bind. eapply wp_mono; [exact (stage_host _ _ _ _ _ _ (micros_quiet QH) (stage_running _ _ _ Hr))|].
  intros now i1 [_ H1]. eapply wp_mono; [eapply (stage_metric _ () i _ _ _ i1); [|exact H1]|].
  - intros b Hb Hl. destruct (mark_mem_clear now b Hb) as (b' & E & Hc & Hs). exists b'. rewrite Hs. by split.
  - intros [] i2 [_ H2]. split; [by eapply stage_ready|]. split; [apply H2|]. by apply (same_slots _ _ _ _ H2).
Qed.

Lemma mark_end_ends (QH : quiet_host) i k : isol_ready (Datatypes.S k) i →
  wp (mark_isol IsolEnd) (λ _ i', ∀ q, at_slot i'.(world) q = at_slot i.(world) q) i.
Proof.
  intros [Hi Hk]. destruct (micros_quiet QH (world i) _ Hk) as (now & w & E & _ & _ & Hs).
  unfold wp, mark_isol, host, on_metric, on, mbind, prog_mbind. rewrite E. cbn [metric set_world].
  rewrite mark_isol_end_fresh by apply Hi. exact Hs.
Qed.

(** A run succeeds if its groups do. *)
Lemma run_ends (QH : quiet_host) fuel scheds gs i k (P : Isol → Prop) : gs ≠ [] →
  i.(groups) = map Config.group_to_isolation gs → isol_ready (Datatypes.S k) i →
  (∀ i1, isol_ready k i1 → (∀ q, at_slot i1.(world) q = at_slot i.(world) q) →
    wp (run_workflow visor_group (map scheds (seq 0 (length gs))) gs)
      (λ r i2, r = Ok () ∧ isol_ready 2 i2 ∧ P i2) i1) →
  ∃ i2 i', run fuel scheds i = (Ret (Ok ()), i') ∧ P i2 ∧ ∀ q, at_slot i'.(world) q = at_slot i2.(world) q.
Proof.
  intros Hne Hgs Hi H.
  destruct (wp_inv _ _ _ (mark_mem_ready QH i k Hi)) as ([] & i1 & E1 & H1 & Hg1 & Ha1 & Hs1).
  destruct (wp_inv _ _ _ (H i1 H1 Hs1)) as (r & i2 & E2 & -> & H2 & HP).
  destruct (wp_inv _ _ _ (mark_mem_ready QH i2 1 H2)) as ([] & i3 & E3 & H3 & _ & _ & Hs3).
  destruct (wp_inv _ _ _ (mark_end_ends QH i3 0 H3)) as ([] & i4 & E4 & Hs4).
  exists i2, i4. split; [|split; [done|intros q; by rewrite Hs4, Hs3]].
  assert (Ef : run_functions fuel scheds i1 = (Ret (Ok ()), i2)).
  { unfold run_functions, mbind, prog_mbind, gets. rewrite Hg1, Hgs.
    destruct gs as [|g gs]; [done|]. destruct (groups_run scheds (g :: gs) 0 _ _ _ E2) as (o & Eo & Ho).
    apply same_result_ok in Ho as ->. exact Eo. }
  unfold run, try_bind. by rewrite (bind_Ret _ _ _ _ _ E1), (bind_Ret _ _ _ _ _ Ef), (bind_Ret _ _ _ _ _ E3),
    (bind_Ret _ _ _ _ _ E4).
Qed.

(** A run ends as its groups do, if they fail. *)
Lemma run_stops (QH : quiet_host) fuel scheds gs i k (P : outcome (result () string) → Prop) : gs ≠ [] →
  i.(groups) = map Config.group_to_isolation gs → isol_ready (Datatypes.S k) i → ¬ P (Ret (Ok ())) →
  (∀ i1, isol_ready k i1 → (∀ q, at_slot i1.(world) q = at_slot i.(world) q) →
    ∃ o i2, run_workflow visor_group (map scheds (seq 0 (length gs))) gs i1 = (o, i2) ∧ P o) →
  ∃ o o' i', run fuel scheds i = (o', i') ∧ same_result o' o ∧ P o.
Proof.
  intros Hne Hgs Hi Ho H. destruct (wp_inv _ _ _ (mark_mem_ready QH i k Hi)) as ([] & i1 & E1 & H1 & Hg1 & Ha1 & Hs1).
  destruct (H i1 H1 Hs1) as (o & i2 & E2 & HP). destruct (groups_run scheds gs 0 _ _ _ E2) as (o' & Eo & Hsame).
  exists o, o', i2. split; [|done].
  assert (Ef : run_functions fuel scheds i1 = (o', i2)).
  { unfold run_functions, mbind, prog_mbind, gets. rewrite Hg1, Hgs. by destruct gs as [|g gs]. }
  unfold run, try_bind. rewrite (bind_Ret _ _ _ _ _ E1). unfold mbind, prog_mbind. rewrite Ef.
  destruct o' as [[[]|e]| | |]; try done. by destruct o as [[[]|]| | |].
Qed.

(** A new isolation of a configuration whose functions can be loaded. *)
Lemma new_ready (QH : quiet_host) new_id config w k : able (2 + (k + 6 * length names)) w →
  (∀ name, name ∈ names → ∃ path, register config ∅ !! name = Some path ∧ loads name path) →
  ∃ i, isolation_new new_id config w = (Ret (), i) ∧ isol_ready k i ∧
    i.(groups) = map Config.group_to_isolation config.(Config.groups) ∧
    (i.(app_names) = map Config.unit_name config.(Config.apps) ∧ i.(modules) = ∅) ∧
    ∀ q, at_slot i.(world) q = at_slot w q.
Proof.
  intros Hk Hload. unfold isolation_new. set (i0 := mk_isol _ _ _ _ _ _ _ _ _ _ _ : Isol).
  destruct (micros_quiet QH w _ Hk) as (now & w1 & E1 & _ & Hk1 & Hs1).
  set (b1 := mk_metric [] now 0 0 [] false). set (i1 := set_metric b1 (set_world w1 i0)).
  assert (Eb : (mark_isol IsolBegin : prog Isol ()) i0 = (Ret (), i1)).
  { unfold mark_isol, host, on_metric, on, mbind, prog_mbind. cbn [world i0]. by rewrite E1. }
  assert (H1 : isol_ready (Datatypes.S k) i1).
  { split; [split; [done|by repeat split|]|].
    - intros name Hin. cbn. rewrite lookup_empty. by apply Hload.
    - eapply able_mono; [exact Hk1|]. unfold unloaded.
      apply (Nat.add_le_mono (Datatypes.S k) (Datatypes.S k)); [done|]. apply Nat.mul_le_mono_l, length_filter. }
  destruct (wp_inv _ _ _ (mark_mem_ready QH i1 k H1)) as ([] & i2 & E2 & H2 & Hg & [Ha Hmod] & Hs2).
  exists i2. rewrite (bind_Ret _ _ _ _ _ Eb), E2. split; [done|]. split; [done|]. split; [by rewrite Hg|].
  split; [by rewrite Ha, Hmod|].
  intros q. by rewrite Hs2, <- Hs1.
Qed.
End flow.

(** ** Arguments that fit *)

Lemma length_pretty_go d : ∀ x s, (x < 10 ^ N.of_nat d)%N →
  (String.length (pretty_N_go x s) ≤ d + String.length s)%nat.
Proof.
  induction d as [|d IH]; intros x s Hx; (destruct (decide (x = 0)%N) as [->|]; [rewrite pretty_N_go_0; lia|]).
  - change (10 ^ N.of_nat 0)%N with 1%N in Hx. lia.
  - rewrite pretty_N_go_step by lia. etrans; [apply IH|cbn [String.length]; lia].
    apply N.Div0.div_lt_upper_bound. rewrite Nat2N.inj_succ, N.pow_succ_r' in Hx. lia.
Qed.
Lemma length_pretty d x : (0 < d)%nat → 0 ≤ x < 10 ^ Z.of_nat d → (String.length (pretty x) ≤ d)%nat.
Proof.
  intros Hd Hx. destruct x as [|p|p]; [cbn; lia| |lia].
  change (pretty (Z.pos p)) with (pretty_N (N.pos p)). unfold pretty_N. rewrite decide_False by done.
  etrans; [apply (length_pretty_go d)|cbn [String.length]; lia].
  apply N2Z.inj_lt. rewrite N2Z.inj_pow, nat_N_Z. apply Hx.
Qed.
Lemma fits_item_ok k v : (String.length k ≤ 32)%nat → (String.length v ≤ 32)%nat → fits_item (k, v) = true.
Proof. intros Hk Hv. unfold fits_item. by rewrite !bool_decide_eq_true_2. Qed.
(** No more keys than a list has, each with a text that fits. *)
Lemma takes_keys (ks : list string) (args : gmap string string) : (length ks ≤ 16)%nat →
  (∀ k v, args !! k = Some v → k ∈ ks ∧ (String.length k ≤ 32)%nat ∧ (String.length v ≤ 32)%nat) → takes_args args.
Proof.
  intros Hks H. split; [intros k v Hv; by destruct (H k v Hv) as (_ & ? & ?); apply fits_item_ok|].
  rewrite <- length_map_to_list, <- (length_map fst). etrans; [|exact Hks].
  apply submseteq_length, NoDup_submseteq; [apply NoDup_fst_map_to_list|].
  intros k ([k' v] & -> & Hin)%list_elem_of_fmap_1. apply elem_of_map_to_list in Hin. by destruct (H k' v Hin).
Qed.
(** The functions of a group that are all the same. *)
Lemma replicate_takes (names ks : list string) k name gargs : name ∈ names → gargs !! "id" = None → (length ks < 16)%nat →
  Z.of_nat k < 10 ^ 32 →
  (∀ q v, gargs !! q = Some v → q ∈ ks ∧ (String.length q ≤ 32)%nat ∧ (String.length v ≤ 32)%nat) →
  Forall (λ a, a.(Config.app_name) ∈ names ∧ takes_args a.(Config.args))
    (Config.group_to_isolation (Config.mk_group (replicate k (Config.Name name)) gargs)).
Proof.
  intros Hin Hid Hks Hk H. apply Forall_lookup. intros i a Ha.
  apply in_group in Ha as (Hi & -> & Ei & Ea); [|done]. split; [done|].
  apply (takes_keys ("id" :: ks)); [cbn; lia|]. intros q v Hv. destruct (decide (q = "id")) as [->|Hne].
  - rewrite Ei in Hv. injection Hv as <-. split; [apply list_elem_of_here|]. split; [cbn; lia|].
    apply length_pretty; lia.
  - rewrite Ea in Hv by done. destruct (H q v Hv) as (Hq & Hl). split; [by apply list_elem_of_further|done].
Qed.

(** ** A host whose libraries are named after their functions *)

Lemma quiet_ret {W V A} {SL : Slots W V} {SLS : SlotsSpec W V} (a : A) (P : A → Prop) : P a → quiet (mret a) P.
Proof. intros Ha w k Hk. exists a, w. split; [done|]. split; [done|]. split; [by eapply able_mono; [exact Hk|lia]|done]. Qed.

Section host.
Context (functions : list string).
Definition lib_of (name : string) : string := "lib" +:+ name +:+ ".so".
(** The address of a function is its number in the list. *)
Definition lib_host {W} : Host W string := {|
  load_dynlib path _ := mret (Ok path);
  lib_symbol lib s :=
    if String.eqb s "rust_main" then Z.of_nat <$> (fst <$> list_find (λ f, lib = lib_of f) functions)
    else if String.eqb s "set_handler_addr" then Some 100
    else if String.eqb s "get_handler_addr" then Some 101
    else None;
  lib_namespace _ := 0;
  call_set_handler _ _ := mret (Ok ());
  call_get_handler _ := mret 77;
  alloc_heap := mret 65536;
  find_host_call_addr := 77; panic_handler_addr := 78; metric_handler_addr := 79;
  fs_image_handler_addr := 80; spawn_fault_thread_handler_addr := 81;
  now_millis := mret 1;
  now_micros := mret 1000
|}.
Definition lib_entry (addr : Z) : string := default "" (functions !! Z.to_nat addr).

Context {W V : Type} {SL : Slots W V} {SLS : SlotsSpec W V}.
Lemma lib_quiet : quiet_host (HH := lib_host (W := W)).
Proof. by split; apply quiet_ret. Qed.
Lemma lib_of_inj f g : lib_of f = lib_of g → f = g.
Proof. intros H. apply (inj (String.append "lib")) in H. by apply append_inj_r in H. Qed.
Lemma lib_loads code name f : f ∈ functions → code f = code name →
  loads (HH := lib_host (W := W)) code lib_entry name (lib_of f).
Proof.
  intros Hin Hc ns. apply quiet_ret. exists (lib_of f). split; [done|]. split.
  - destruct (list_find_elem_of (λ g, lib_of f = lib_of g) functions f Hin eq_refl) as [[i g] E].
    exists (Z.of_nat i). unfold lib_symbol, lib_host. rewrite E. split; [done|].
    apply list_find_Some in E as (Hi & Hg%lib_of_inj & _). unfold lib_entry. by rewrite Nat2Z.id, Hi, <- Hg.
  - exists 100, 101. split; [done|]. split; [done|]. split; [intros ctx|]; by apply quiet_ret.
Qed.
End host.
