(* ===== verification/VisorSeq.v ===== *)
(** * Functions without groups

    A configuration that lists functions and no groups: [Isolation::run] runs them one
    after the other on the caller's thread, with the arguments of the first of a group.
    [app_in_sequence] is one of them, [run_sequence] the run. *)
From Stdlib Require Import Ascii String.
From S2P Require Import Prelude Bytes Hostcall Metric Threads Visor VisorSpec Slots Contracts VisorFlow.
Local Open Scope Z_scope.

Section sequence.
Context {W Lib V : Type} {HH : Host W Lib} {SL : Slots W V} {SLS : SlotsSpec W V}.
Context (code : string → list (string * string) → thread W (result () string)).
Context (entry : Z → string) (names : list string).
Local Abbreviation Isol := (Isolation W Lib).
Local Abbreviation isol_ready := (isol_ready code entry names).
#[local] Instance sequence_code : ModuleCode W Lib := module_code code entry.

(** One function on the caller's thread. *)
Lemma run_alone_schedule {A} fuel : ∀ (t : thread Isol A) i,
  run_alone fuel t i = let '(ts, i') := run_schedule (replicate fuel 0%nat) [t] i in
    (default NoFuel (thread_outcome <$> ts !! 0%nat), i').
Proof.
  induction fuel as [|fuel IH]; intros t i; [done|]. cbn [run_alone replicate run_schedule list_lookup lookup].
  destruct (advance t i) as [t' i'] eqn:E. apply IH.
Qed.
Lemma turns_replicate n : turns 0 (replicate n 0%nat) = n.
Proof. induction n as [|n IH]; [done|]. cbn [replicate]. by rewrite turns_cons, decide_True, IH. Qed.

(** The next function, whatever it gives: how the run goes on. *)
Lemma app_in_sequence {Name} {SN : SlotNames Name} (QH : quiet_host) (K : contract V Name (result () string)) c fuel name i k :
  name ∈ names → well_formed K → meets c K (code name (btree_items default_args)) →
  (c + 3 ≤ fuel)%nat → isol_ready (fuel + k) i → holds K.(needs) (at_slot i.(world)) →
  ∃ i2, (∀ rest, run_apps fuel (name :: rest) i =
      match K.(gives) with
      | Ret (Ok _) => run_apps fuel rest i2
      | Ret (Err e) => (Ret (Err ("app_" +:+ name +:+ " run failed, reason: function " +:+ name +:+ " run failed: " +:+ e)), i2)
      | o => (o, i2)
      end) ∧
    isol_ready k i2 ∧ holds K.(leaves) (at_slot i2.(world)) ∧
    (∀ nm, nonneg nm → nm ∉ Contracts.names K → at_slot i2.(world) (slot_name nm) = at_slot i.(world) (slot_name nm)) ∧
    ∀ q, q ≠ name → i2.(modules) !! q = i.(modules) !! q.
Proof.
  intros Hin Hwf Hm Hf Hi Hneeds.
  destruct (wp_inv _ _ _ (app_ready code entry names QH _ i _ Hin Hi)) as (r & i1 & Ea & svc & -> & Hsvc & Hgr & Hmods).
  assert (Hord := proj1 (grown_ready _ _ _ _ _ _ Hgr)). assert (Hserves := each_module _ _ _ _ Hord name Hin). rewrite Hsvc in Hserves.
  assert (Hname := proj2 (proj2 Hserves)).
  assert (Hargs : takes_args default_args) by (apply (takes_keys ["id"]); [cbn; lia|];
    unfold default_args; intros q v [<- <-]%lookup_singleton_Some; split; [apply list_elem_of_here|cbn; lia]).
  assert (Hm' := service_meets code entry names QH i1 c K name default_args svc Hserves Hargs Hwf Hm).
  set (K' := service_contract name K) in *.
  destruct (threads_meet (SLS := frame_spec names i1) [K'] [service_thread svc default_args] (c + 3) (replicate fuel 0%nat) i1 k)
    as (i2 & E & Hk & Hl & Ho).
  - by constructor; [|constructor].
  - intros [|j] [|j'] K1 K2 nm Hj Hj' Hne; done.
  - by constructor; [|constructor].
  - intros j Hj. assert (j = 0%nat) as -> by (cbn in Hj; lia). by rewrite turns_replicate.
  - rewrite length_replicate. eapply ready_running, Hgr.
  - intros K1 ->%list_elem_of_singleton nm st Hnm.
    etrans; [apply (kept_slots _ _ _ _ _ _ Hgr)|by apply Hneeds].
  - exists i2. split; [|split; [by eapply running_ready|split; [exact (Hl K' (list_elem_of_here _ _))|split]]].
    + intros rest. cbn [run_apps]. apply (fmap_Ret (map_err (λ e, "load app failed: " +:+ e)) _ _ (Ok svc)) in Ea.
      rewrite (try_bind_Ok _ _ _ _ _ Ea). unfold try_bind, run_service. rewrite Hname.
      unfold fmap, prog_fmap, mbind, prog_mbind. rewrite run_alone_schedule, E. cbn.
      by destruct K.(gives) as [[[]|e]| | |].
    + intros nm Hnm Hno. etrans; [|apply (kept_slots _ _ _ _ _ _ Hgr)]. apply Ho; [done|].
      by intros K1 ->%list_elem_of_singleton.
    + intros q Hq. rewrite (run_modules _ _ _ _ Hk). by apply Hmods.
Qed.

(** A run without groups, from the run of its functions. *)
Lemma run_sequence (QH : quiet_host) fuel scheds i k : i.(groups) = [] → isol_ready (Datatypes.S k) i →
  ∃ i1, mark_isol Mem i = (Ret (), i1) ∧ isol_ready k i1 ∧ i1.(modules) = i.(modules) ∧
    (∀ q, at_slot i1.(world) q = at_slot i.(world) q) ∧
    (∀ i2, run_apps fuel i.(app_names) i1 = (Ret (Ok ()), i2) → isol_ready 2 i2 →
       ∃ i', run fuel scheds i = (Ret (Ok ()), i')) ∧
    ∀ e i2, run_apps fuel i.(app_names) i1 = (Ret (Err e), i2) →
       run fuel scheds i = (Ret (Err ("run_as_sequence failed: " +:+ e)), i2).
Proof.
  intros Hgs Hi.
  destruct (wp_inv _ _ _ (mark_mem_ready code entry names QH i k Hi)) as ([] & i1 & E1 & H1 & Hg1 & [Ha1 Hm1] & Hs1).
  exists i1. split; [done|]. split; [done|]. split; [done|]. split; [done|].
  assert (Ef : ∀ r i2, run_apps fuel i.(app_names) i1 = (Ret r, i2) →
    run_functions fuel scheds i1 = (Ret (map_err (λ e, "run_as_sequence failed: " +:+ e) r), i2)).
  { intros r i2 E2. assert (Es : run_as_sequence fuel i1 = (Ret r, i2))
      by (unfold run_as_sequence, mbind, prog_mbind, gets; by rewrite Ha1).
    unfold run_functions, mbind, prog_mbind, gets. rewrite Hg1, Hgs. by apply (fmap_Ret (map_err _) _ _ r). }
  split.
  - intros i2 E2 H2.
    destruct (wp_inv _ _ _ (mark_mem_ready code entry names QH i2 1 H2)) as ([] & i3 & E3 & H3 & _ & _ & Hs3).
    destruct (wp_inv _ _ _ (mark_end_ends code entry names QH i3 0 H3)) as ([] & i4 & E4 & Hs4).
    assert (Ef2 : run_functions fuel scheds i1 = (Ret (Ok ()), i2)) by exact (Ef _ _ E2).
    exists i4. unfold run, try_bind. by rewrite (bind_Ret _ _ _ _ _ E1), (bind_Ret _ _ _ _ _ Ef2),
      (bind_Ret _ _ _ _ _ E3), (bind_Ret _ _ _ _ _ E4).
  - intros e i2 E2. unfold run, try_bind. by rewrite (bind_Ret _ _ _ _ _ E1), (bind_Ret _ _ _ _ _ (Ef _ _ E2)).
Qed.
End sequence.
