(* ===== verification/PassArgs.v ===== *)
(** * Handing over a large buffer (user/func_a, user/func_b)

    isol_config/pass_complex_args.json lists the two functions without groups: the
    visor runs them one after the other, and the second finds the vector the first
    left in the slot [Conference]. *)
From Stdlib Require Import Ascii String.
From S2P Require Import Prelude Bytes Hostcall Metric Threads Visor VisorSpec Slots Contracts Entry VisorFlow VisorSeq.
Local Open Scope Z_scope.

(** A [Vec<u64>]; [VecArg] and [MyComplexData] have no other field. *)
Definition VecData : Type := list Z.

Section functions.
Context {S : Type} {SL : Slots S VecData} (DATA_SIZE : nat).

(** [main] of func_a. *)
Definition numbers : VecData := map (λ idx, idx mod (2 ^ 64 - 1 - 1)) (seqZ 0 (Z.of_nat DATA_SIZE)).
Definition func_a : thread S (result () string) :=
  _ ← publish "Conference" numbers; mret (Ok ()).
(** A [Vec] has at most 2^61 words, so the remainder is the index itself. *)
Lemma numbers_seq : Z.of_nat DATA_SIZE ≤ 2 ^ 61 → numbers = seqZ 0 (Z.of_nat DATA_SIZE).
Proof.
  intros Hs. unfold numbers. rewrite <- (list_fmap_id (seqZ _ _)) at 2. apply list_fmap_ext. intros i x Hx.
  apply lookup_seqZ in Hx as [-> Hi]. unfold Datatypes.id. apply Z.mod_small. lia.
Qed.
(** [main] of func_b; the elements are read and forgotten. *)
Definition func_b : thread S (result () string) :=
  data ← take_from "Conference";
  mret (match data with Some _ => Ok () | None => Err "buffer is none" end).
Definition pass_code (name : string) (args : list (string * string)) : thread S (result () string) :=
  if String.eqb name "func_a" then rust_main false func_a
  else if String.eqb name "func_b" then rust_main false func_b else Done Panic.
End functions.

#[export] Instance conference : SlotNames () :=
  {| slot_name _ := "Conference"; nonneg _ := True; slot_name_inj n n' _ _ _ := match n, n' with tt, tt => eq_refl end |}.

Section meets.
Context {S : Type} {SL : Slots S VecData} {SLS : SlotsSpec S VecData} (DATA_SIZE : nat).
Definition a_contract : contract VecData () (result () string) :=
  mk_contract [((), Empty)] (Ret (Ok ())) [((), Full (numbers DATA_SIZE))].
Definition b_contract : contract VecData () (result () string) :=
  mk_contract [((), Full (numbers DATA_SIZE))] (Ret (Ok ())) [].

Lemma conference_facts (st : SlotState VecData) : facts_of (owned [()]) [((), st)].
Proof. split; [apply NoDup_singleton|]. intros [] _. split; [done|]. apply owned_in, list_elem_of_here. Qed.
Lemma a_meets args : good (numbers DATA_SIZE) → meets 1 a_contract (pass_code DATA_SIZE "func_a" args).
Proof.
  intros Hg. apply (entry_meets 1 false a_contract). intros v Hv. apply (twp_publish_fact 0 _ () _ [] _ _ _ Hg (conference_facts Empty) Hv). intros v1 Hv1. by apply twp_ret.
Qed.
Lemma b_meets args : meets 1 b_contract (pass_code DATA_SIZE "func_b" args).
Proof.
  apply (entry_meets 1 false b_contract). intros v Hv. apply (twp_take_fact 0 _ () (numbers DATA_SIZE) [] _ _ _ (conference_facts _) Hv). intros v1 Hv1.
  apply twp_ret. split; [done|]. by intros nm st ?%not_elem_of_nil.
Qed.
(** func_b with nothing in the slot. *)
Definition none_contract : contract VecData () (result () string) :=
  mk_contract [((), Empty)] (returned false (Ret (Err "buffer is none"))) [].
Lemma none_meets args : meets 1 none_contract (pass_code DATA_SIZE "func_b" args).
Proof.
  apply (entry_meets 1 false (mk_contract [((), Empty)] (Ret (Err "buffer is none")) [])). intros v Hv.
  destruct (facts_head _ _ _ _ _ (conference_facts _) Hv) as [Hown He].
  apply (twp_take_empty 0 _ "Conference"); [done|done|]. intros v1 Hv1.
  apply twp_ret. split; [done|]. by intros nm st ?%not_elem_of_nil.
Qed.
Lemma one_name (K : contract VecData () (result () string)) :
  names K = [()] → K.(leaves).*1 = [] ∨ K.(leaves).*1 = [()] → well_formed K.
Proof.
  intros E Hl. unfold well_formed. rewrite E. split_and!; [apply NoDup_singleton|by repeat constructor|].
  destruct Hl as [-> | ->]; [by intros nm ?%not_elem_of_nil|done].
Qed.
End meets.

Section visor.
Context {W Lib : Type} {HH : Host W Lib} {SL : Slots W VecData} {SLS : SlotsSpec W VecData} (DATA_SIZE : nat).
Local Abbreviation code := (pass_code (SL := SL) DATA_SIZE).
Definition run_pass (entry : Z → string) (fuel : nat) (scheds : nat → list nat) :
    prog (Isolation W Lib) (result () string) := run (H0 := module_code code entry) fuel scheds.
Definition pass_names : list string := ["func_a"; "func_b"].

Section run.
Context (entry : Z → string) (QH : quiet_host) (config : Config.IsolationConfig) (fuel : nat).
Context (alone : config.(Config.groups) = []).
Context (loaded : ∀ name, name ∈ pass_names →
  ∃ path, register config ∅ !! name = Some path ∧ loads code entry name path).
Context (enough : (4 ≤ fuel)%nat).

Lemma pass_new new_id w : able (17 + (fuel + fuel)) w →
  ∃ i, isolation_new new_id config w = (Ret (), i) ∧ isol_ready code entry pass_names (3 + (fuel + fuel)) i ∧
    i.(groups) = [] ∧ (i.(app_names) = map Config.unit_name config.(Config.apps) ∧ i.(modules) = ∅) ∧
    ∀ q, at_slot i.(world) q = at_slot w q.
Proof using QH alone loaded.
  clear enough. intros Hk. destruct (new_ready code entry pass_names QH new_id config w (3 + (fuel + fuel))) as (i & E & Hi & Hgs & Has & Hs);
    [eapply able_mono; [exact Hk|cbn [length pass_names]; lia]|done|]. rewrite alone in Hgs. by exists i.
Qed.

(** func_a leaves its vector, and loads nothing else. *)
Lemma a_runs i1 k : good (numbers DATA_SIZE) → isol_ready code entry pass_names (fuel + k) i1 → at_slot i1.(world) "Conference" = Empty →
  ∃ i2, (∀ rest, run_apps (H0 := module_code code entry) fuel ("func_a" :: rest) i1 = run_apps (H0 := module_code code entry) fuel rest i2) ∧
    isol_ready code entry pass_names k i2 ∧ at_slot i2.(world) "Conference" = Full (numbers DATA_SIZE) ∧
    ∀ q, q ≠ "func_a" → i2.(modules) !! q = i1.(modules) !! q.
Proof using QH enough.
  intros Hgood Hi He.
  destruct (app_in_sequence code entry pass_names QH (a_contract DATA_SIZE) 1 fuel "func_a" i1 k) as (i2 & Er & H2 & Hl & _ & Hm).
  - apply list_elem_of_here.
  - apply one_name; [done|by right].
  - by apply a_meets.
  - lia.
  - done.
  - by intros nm st [= -> ->]%list_elem_of_singleton.
  - exists i2. split; [exact Er|]. split; [done|]. split; [|done]. apply (Hl () _ (list_elem_of_here _ _)).
Qed.
Lemma b_runs i1 k : isol_ready code entry pass_names (fuel + k) i1 → at_slot i1.(world) "Conference" = Full (numbers DATA_SIZE) →
  ∃ i2, run_apps (H0 := module_code code entry) fuel ["func_b"] i1 = (Ret (Ok ()), i2) ∧ isol_ready code entry pass_names k i2.
Proof using QH enough.
  intros Hi He.
  destruct (app_in_sequence code entry pass_names QH (b_contract DATA_SIZE) 1 fuel "func_b" i1 k) as (i2 & Er & H2 & _).
  - apply list_elem_of_further, list_elem_of_here.
  - apply one_name; [done|by left].
  - apply b_meets.
  - lia.
  - done.
  - by intros nm st [= -> ->]%list_elem_of_singleton.
  - exists i2. split; [exact (Er [])|done].
Qed.
Lemma b_fails i1 k rest : isol_ready code entry pass_names (fuel + k) i1 → at_slot i1.(world) "Conference" = Empty →
  ∃ i2, run_apps (H0 := module_code code entry) fuel ("func_b" :: rest) i1 =
      (Ret (Err ("app_func_b run failed, reason: function func_b run failed: " +:+
                 "function exec error: user function error: buffer is none")), i2) ∧
    ∀ q, q ≠ "func_b" → i2.(modules) !! q = i1.(modules) !! q.
Proof using QH enough.
  intros Hi He.
  destruct (app_in_sequence code entry pass_names QH none_contract 1 fuel "func_b" i1 k) as (i2 & Er & _ & _ & _ & Hm).
  - apply list_elem_of_further, list_elem_of_here.
  - apply one_name; [done|by left].
  - apply none_meets.
  - lia.
  - done.
  - by intros nm st [= -> ->]%list_elem_of_singleton.
  - exists i2. split; [exact (Er rest)|done].
Qed.

(** C17: two functions without a group, as the visor runs them.  In the order func_a,
    func_b the run goes through a state in which func_a has ended and func_b is not
    loaded yet, and whoever asks for the slot there, func_b being the next, gets
    func_a's numbers, the indices in order; func_b and the run succeed.  In the other order func_b finds
    nothing, the run ends with its error under the visor's words, and func_a is never
    loaded. *)
Theorem complex_args scheds new_id (w : W) : Z.of_nat DATA_SIZE ≤ 2 ^ 61 → good (numbers DATA_SIZE) → at_slot w "Conference" = Empty → able (17 + (fuel + fuel)) w →
  ∃ i, isolation_new new_id config w = (Ret (), i) ∧
    (map Config.unit_name config.(Config.apps) = pass_names → ∃ i1 i2 i' w',
      mark_isol Mem i = (Ret (), i1) ∧
      run_apps (H0 := module_code code entry) fuel ["func_a"] i1 = (Ret (Ok ()), i2) ∧ i2.(modules) !! "func_b" = None ∧
      take_slot "Conference" i2.(world) = (Ret (Some (seqZ 0 (Z.of_nat DATA_SIZE))), w') ∧
      run_apps (H0 := module_code code entry) fuel pass_names i1 = run_apps (H0 := module_code code entry) fuel ["func_b"] i2 ∧
      run_pass entry fuel scheds i = (Ret (Ok ()), i')) ∧
    (map Config.unit_name config.(Config.apps) = reverse pass_names → ∃ i',
      run_pass entry fuel scheds i = (Ret (Err ("run_as_sequence failed: app_func_b run failed, reason: " +:+
        "function func_b run failed: function exec error: user function error: buffer is none")), i') ∧
      i'.(modules) !! "func_a" = None).
Proof using QH alone loaded enough.
  intros Hsz Hgood Hfree Hable. destruct (pass_new new_id w Hable) as (i & E & Hi & Hgs & [Has Hem] & Hs).
  exists i. split; [done|].
  destruct (run_sequence code entry pass_names QH fuel scheds i (2 + (fuel + fuel)) Hgs Hi) as (i1 & E1 & H1 & Hm1 & Hs1 & Hok & Herr).
  rewrite <- Hs, <- Hs1 in Hfree. split; intros Ha; rewrite Ha in Has; rewrite Has in Hok, Herr.
  - destruct (a_runs i1 (2 + fuel) Hgood) as (i2 & Er & H2 & Hfull & Hmod);
      [by replace (fuel + (2 + fuel))%nat with (2 + (fuel + fuel))%nat by lia|done|].
    destruct (take_full "Conference" (numbers DATA_SIZE) i2.(world) (1 + fuel)) as (w' & Ew & _);
      [eapply able_mono; [exact (proj2 H2)|lia]|exact Hfull|].
    destruct (b_runs i2 2) as (i3 & Eb & H3); [by replace (fuel + 2)%nat with (2 + fuel)%nat by lia|done|].
    destruct (Hok i3) as [i' E']; [etrans; [exact (Er ["func_b"])|exact Eb]|done|].
    exists i1, i2, i', w'. split; [done|]. split; [exact (Er [])|]. split; [by rewrite Hmod, Hm1, Hem|].
    split; [by rewrite <- numbers_seq|]. split; [exact (Er ["func_b"])|exact E'].
  - destruct (b_fails i1 (2 + fuel) ["func_a"]) as (i2 & Er & Hmod);
      [by replace (fuel + (2 + fuel))%nat with (2 + (fuel + fuel))%nat by lia|done|].
    exists i2. split; [exact (Herr _ _ Er)|]. by rewrite Hmod, Hm1, Hem.
Qed.
End run.
End visor.

(** ** Four numbers *)
Module PassExample.
#[local] Instance pass_host {W} : Host W string := lib_host pass_names.
#[local] Instance pass_laws : SlotsSpec (Memory VecData) VecData := mem_slots_spec ∅.
Definition pass_config (order : list string) : Config.IsolationConfig :=
  Config.mk_config [] (map (λ f, Config.mk_unit f (lib_of f)) order) None None [].
Definition nothing : Memory VecData := mk_memory ∅ ∅.

Lemma pass_quiet : quiet_host (HH := pass_host (W := Memory VecData)).
Proof. apply lib_quiet. Qed.
Lemma pass_loaded order name : order = pass_names ∨ order = reverse pass_names →
  name ∈ pass_names → ∃ path, register (pass_config order) ∅ !! name = Some path ∧
  loads (HH := pass_host (W := Memory VecData)) (pass_code 4) (lib_entry pass_names) name path.
Proof.
  intros Ho Hin. exists (lib_of name). split; [|by apply lib_loads].
  destruct Ho as [-> | ->]; (repeat (apply elem_of_cons in Hin as [->|Hin]; [done|]); by apply not_elem_of_nil in Hin).
Qed.
Lemma complex_args_witness :
  (∃ i i', isolation_new 1 (pass_config pass_names) nothing = (Ret (), i) ∧
    run_pass 4 (lib_entry pass_names) 4 (λ _, []) i = (Ret (Ok ()), i')) ∧
  (∃ i i', isolation_new 1 (pass_config (reverse pass_names)) nothing = (Ret (), i) ∧
    run_pass 4 (lib_entry pass_names) 4 (λ _, []) i =
      (Ret (Err "run_as_sequence failed: app_func_b run failed, reason: function func_b run failed: function exec error: user function error: buffer is none"), i')).
Proof.
  split.
  - destruct (complex_args 4 (lib_entry pass_names) pass_quiet (pass_config pass_names) 4 eq_refl
      (λ name, pass_loaded _ name (or_introl eq_refl)) ltac:(lia) (λ _, []) 1 nothing ltac:(lia) I eq_refl eq_refl) as (i & E & H & _).
    destruct (H eq_refl) as (_ & _ & i' & _ & _ & _ & _ & _ & _ & E'). by exists i, i'.
  - destruct (complex_args 4 (lib_entry pass_names) pass_quiet (pass_config (reverse pass_names)) 4 eq_refl
      (λ name, pass_loaded _ name (or_intror eq_refl)) ltac:(lia) (λ _, []) 1 nothing ltac:(lia) I eq_refl eq_refl) as (i & E & _ & H).
    destruct (H eq_refl) as (i' & E' & _). by exists i, i'.
Defined.
End PassExample.
