(* ===== verification/SortVisor.v ===== *)
(** * The parallel sort under the visor

    The configuration of isol_config/parallel_sort_c3.json, for any numbers of
    sorters and mergers, from [Isolation::new] to the end of [Isolation::run]: the
    functions are loaded, marked, given their arguments and joined by the visor, on
    a host that loads them. *)
From Stdlib Require Import Ascii String.
From stdpp Require Import sorting.
From S2P Require Import Prelude Bytes Hostcall Metric Ipv4 Text Threads Visor VisorSpec Slots Contracts.
From S2P Require Import SortFuncs SortSpec SortFlow ParallelSort VisorFlow.
Local Open Scope Z_scope.

Definition sort_functions : list string := ["file_reader"; "sorter"; "splitter"; "merger"].

Lemma reader_takes n : fits 32 (Z.of_nat n) →
  Forall (λ a, a.(Config.app_name) ∈ sort_functions ∧ takes_args a.(Config.args))
    (Config.group_to_isolation (reader_group n)).
Proof.
  intros Hn. apply Forall_lookup. intros i a Ha.
  unfold Config.group_to_isolation, reader_group in Ha. cbn [Config.list_ Config.group_args] in Ha.
  rewrite list_lookup_imap, list_lookup_fmap in Ha.
  destruct (seq 0 n !! i) as [j|] eqn:Ei; [|done]. apply lookup_seq in Ei as [-> Hi]. injection Ha as <-.
  split; [apply list_elem_of_here|]. destruct Hn as [_ Hn].
  assert (Hp : (String.length (pretty (Z.of_nat i)) ≤ 10)%nat) by (apply length_pretty; lia).
  apply (takes_keys ["id"; "slot_name"; "input_file"]); [cbn; lia|]. intros q v.
  cbn [Config.app_to_isolation Config.args Config.app_name]. unfold Config.extend. rewrite (right_id_L ∅ (∪)).
  rewrite pretty_nat_Z. intros [[<- <-]|[_ [[<- <-]|[_ [<- <-]%lookup_singleton_Some]]%lookup_insert_Some]]%lookup_insert_Some;
    (split; [set_solver|]); (split; [cbn; lia|]).
  - lia.
  - unfold numbered. rewrite length_append. cbn [String.length]. lia.
  - unfold data_file. rewrite !length_append. cbn [String.length]. lia.
Qed.

Lemma sort_takes n m : fits 32 (Z.of_nat n) → fits 64 (Z.of_nat m) → ∀ g, g ∈ sort_groups n m →
  Forall (λ a, a.(Config.app_name) ∈ sort_functions ∧ takes_args a.(Config.args)) (Config.group_to_isolation g).
Proof.
  intros Hn Hm g Hg. assert (Hpn : (String.length (pretty (Z.of_nat n)) ≤ 32)%nat)
    by (destruct Hn; apply length_pretty; lia).
  assert (Hpm : (String.length (pretty (Z.of_nat m)) ≤ 32)%nat) by (destruct Hm; apply length_pretty; lia).
  destruct Hn, Hm. repeat (apply elem_of_cons in Hg as [->|Hg]); [..|by apply not_elem_of_nil in Hg].
  - by apply reader_takes.
  - apply (replicate_takes _ ["sorter_num"; "merger_num"]); [set_solver|done|cbn; lia|lia|].
    intros q v [[<- <-]|[_ [<- <-]%lookup_singleton_Some]]%lookup_insert_Some;
      (split; [set_solver|]); (split; [cbn; lia|done]).
  - apply (replicate_takes _ []); [set_solver|done|cbn; lia|lia|]. by intros q v.
  - apply (replicate_takes _ ["sorter_num"]); [set_solver|done|cbn; lia|lia|].
    intros q v [<- <-]%lookup_singleton_Some. split; [set_solver|]. split; [cbn; lia|done].
Qed.

Section visor.
Context {W Lib : Type} {HH : Host W Lib} {SL : Slots W Value} {SLS : SlotsSpec W Value}.
Context {FL : Files W} {T : gmap string string} {FSp : FilesSpec W Value T}.

(** [Isolation::run] with the functions of the sort at their addresses. *)
Definition run_sort (entry : Z → string) (fuel : nat) (scheds : nat → list nat) :
    prog (Isolation W Lib) (result () string) :=
  run (H0 := module_code sort_code entry) fuel scheds.

Context (entry : Z → string) (QH : quiet_host) (config : Config.IsolationConfig) (bound n m : nat).
Context (contents : nat → string) (numbers : nat → list Z).
Context (loaded : ∀ name, name ∈ sort_functions →
  ∃ path, register config ∅ !! name = Some path ∧ loads sort_code entry name path).
Context (Hgood : ∀ x, small bound x → good x) (Hplan : plan (T := T) bound n m contents numbers).
Context (scheds : nat → list nat).
Context (Hturns : enough_turns n m 3 (scheds 0%nat) (scheds 1%nat) (scheds 2%nat) (scheds 3%nat)).
Definition sort_turns (k : nat) : nat :=
  (length (scheds 0%nat) + (length (scheds 1%nat) + (length (scheds 2%nat) + (length (scheds 3%nat) + k))))%nat.

(** The isolation before its run, and what the groups find when they start. *)
Lemma sort_new new_id (w : W) : config.(Config.groups) = sort_groups n m → fresh w → able (27 + sort_turns 2) w →
  ∃ i, isolation_new new_id config w = (Ret (), i) ∧
    isol_ready sort_code entry sort_functions (Datatypes.S (sort_turns 2)) i ∧
    i.(groups) = map Config.group_to_isolation (sort_groups n m) ∧ fresh i.(world).
Proof using QH loaded.
  intros Hg Hf Hk. destruct (new_ready sort_code entry sort_functions QH new_id config w (Datatypes.S (sort_turns 2)))
    as (i & Ei & Hi & Hgs & _ & Hs); [eapply able_mono; [exact Hk|cbn [length sort_functions]; lia]|done|].
  exists i. rewrite Hg in Hgs. split_and!; try done. intros nm Hnm. rewrite Hs. by apply Hf.
Qed.

(** The parallel sort under the visor: a new isolation with the workflow's
    configuration runs to its end under every schedule with enough turns, loading
    each function when a group first needs it, and leaves the merged arrays, which
    one after the other are, in order, the numbers of the input files below
    [u32::MAX]. *)
Theorem sort_under_visor fuel new_id (w : W) : config.(Config.groups) = sort_groups n m → fresh w →
  able (27 + sort_turns 2) w → (∀ i, (i < n)%nat → reaches m numbers i) →
  ∃ i i' outs, isolation_new new_id config w = (Ret (), i) ∧ run_sort entry fuel scheds i = (Ret (Ok ()), i') ∧
    length outs = m ∧
    (∀ j out, outs !! j = Some out →
       at_slot i'.(world) (slot_name (NMerged (Z.of_nat j))) = Full (Array out)) ∧
    sorted (concat outs) ∧ concat outs ≡ₚ kept (concat (map numbers (seq 0 n))).
Proof using FSp QH loaded Hgood Hplan Hturns.
  intros Hgs Hfresh Hk Hreach. destruct (sort_new new_id w Hgs Hfresh Hk) as (i & Ei & Hi & Hg & Hfi).
  assert (Hargs := sort_takes n m (sorters_fit _ _ _ _ _ Hplan) (mergers_fit _ _ _ _ _ Hplan)).
  destruct (run_ends sort_code entry sort_functions QH fuel scheds (sort_groups n m) i (sort_turns 2)
    (λ i2, ∃ outs, length outs = m ∧ (∀ j out, outs !! j = Some out →
       at_slot i2.(world) (slot_name (NMerged (Z.of_nat j))) = Full (Array out)) ∧
     sorted (concat outs) ∧ concat outs ≡ₚ kept (concat (map numbers (seq 0 n))))) as (i2 & i' & E & (outs & Hl & Ho & H) & Hs').
  - done.
  - done.
  - done.
  - intros i1 H1 Hs1.
    destruct (sort_workflow (RG := visor_runs sort_code entry sort_functions QH) bound Hgood n m contents numbers
      Hargs i1 (scheds 0%nat) (scheds 1%nat) (scheds 2%nat) (scheds 3%nat) 2 Hplan) as (i2 & outs & E & Hk2 & Ho).
    + intros nm Hnm. change (at_slot i1.(world) (slot_name nm) = Empty). rewrite Hs1. by apply Hfi.
    + exact Hturns.
    + exact H1.
    + exact Hreach.
    + change (wp (run_workflow (visor_group sort_code entry) [scheds 0%nat; scheds 1%nat; scheds 2%nat; scheds 3%nat]
        (sort_groups n m)) (λ r i2, r = Ok () ∧ isol_ready sort_code entry sort_functions 2 i2 ∧
          ∃ outs, length outs = m ∧ (∀ j out, outs !! j = Some out →
            at_slot i2.(world) (slot_name (NMerged (Z.of_nat j))) = Full (Array out)) ∧
          sorted (concat outs) ∧ concat outs ≡ₚ kept (concat (map numbers (seq 0 n)))) i1).
      unfold wp. rewrite E. split; [done|]. split; [exact Hk2|]. by exists outs.
  - exists i, i', outs. split; [done|]. split; [exact E|]. split; [done|]. split; [|done].
    intros j out Hj. rewrite Hs'. by apply Ho.
Qed.

(** C15: a sorter whose numbers are all below a pivot that is not the last makes the
    run fail: its splitter leaves out the last part, the last merger panics, its entry
    catches the panic, and the error comes back through the visor, which neither
    panics nor goes on. *)
Theorem short_sort_fails fuel new_id (w : W) i p x : config.(Config.groups) = sort_groups n m → fresh w →
  able (27 + sort_turns 2) w → (i < n)%nat →
  pivots m numbers !! p = Some x → (p + 2 < m)%nat → (∀ y, y ∈ numbers i → y < x) →
  ∃ isol isol' e, isolation_new new_id config w = (Ret (), isol) ∧
    run_sort entry fuel scheds isol = (Ret (Err e), isol').
Proof using FSp QH loaded Hgood Hplan Hturns.
  intros Hgs Hfresh Hk Hi Hp Hpm Hy. destruct (sort_new new_id w Hgs Hfresh Hk) as (isol & Ei & Hii & Hg & Hfi).
  assert (Hargs := sort_takes n m (sorters_fit _ _ _ _ _ Hplan) (mergers_fit _ _ _ _ _ Hplan)).
  destruct (run_stops sort_code entry sort_functions QH fuel scheds (sort_groups n m) isol (sort_turns 2)
    (λ o, ∃ e, o = Ret (Err e))) as (o & o' & isol' & E & Ho & e & ->); try done.
  - by intros [e ?].
  - intros i1 H1 Hs1.
    destruct (short_workflow (RG := visor_runs sort_code entry sort_functions QH) bound Hgood n m contents numbers
      Hargs i1 (scheds 0%nat) (scheds 1%nat) (scheds 2%nat) (scheds 3%nat) 2 i p x Hplan) as (i2 & e & E); try done.
    + intros nm Hnm. change (at_slot i1.(world) (slot_name nm) = Empty). rewrite Hs1. by apply Hfi.
    + exists (Ret (Err e)), i2. split; [exact E|]. by exists e.
  - apply same_result_err in Ho as [e' ->]. by exists isol, isol', e'.
Qed.
End visor.

(** ** An isolation with the functions of the sort *)
#[export] Instance sort_host {W} : Host W string := lib_host sort_functions.

Definition sort_config : Config.IsolationConfig :=
  Config.mk_config [] (map (λ f, Config.mk_unit f (lib_of f)) sort_functions) None None (sort_groups 2 3).
Lemma sort_registered {W V} {SL : Slots W V} {SLS : SlotsSpec W V} code name : name ∈ sort_functions → ∃ path,
  register sort_config ∅ !! name = Some path ∧ loads (HH := sort_host (W := W)) code (lib_entry sort_functions) name path.
Proof.
  intros Hin. exists (lib_of name). split; [|by apply lib_loads].
  repeat (apply elem_of_cons in Hin as [->|Hin]; [done|]). by apply not_elem_of_nil in Hin.
Qed.
Definition visor_scheds (k : nat) : list nat := nth k [round_robin 2 5; round_robin 2 7; round_robin 2 8; round_robin 3 6] [].
Lemma visor_turns : enough_turns 2 3 3 (visor_scheds 0) (visor_scheds 1) (visor_scheds 2) (visor_scheds 3).
Proof. split; intros i Hi; destruct i as [|[|[|i]]]; try lia; vm_compute; lia. Qed.

Lemma short_sort_fails_witness : ∃ isol isol' e,
  isolation_new 1 sort_config (memory (data_files short_texts)) = (Ret (), isol) ∧
  run_sort (HH := sort_host) (lib_entry sort_functions) 0 visor_scheds isol = (Ret (Err e), isol').
Proof.
  exact (short_sort_fails (HH := sort_host) (SLS := mem_slots_spec (data_files short_texts))
    (FSp := mem_files_spec (data_files short_texts)) (lib_entry sort_functions) (lib_quiet _) sort_config 20 2 3
    (texts short_texts) (arrays short_arrays) (sort_registered (SLS := mem_slots_spec (data_files short_texts)) _)
    (λ _ _, I) short_plan visor_scheds visor_turns 0 1
    (memory (data_files short_texts)) 1 0 2 eq_refl (memory_fresh _) eq_refl ltac:(lia) eq_refl ltac:(lia) short_below).
Defined.
