(* ===== verification/LongChain.v ===== *)
(** * The function chain (user/array_sum, isol_config/long_chain_n5.json)

    Each function of the chain takes the buffer of the one before it, and hands on
    a text of its own and the number of functions so far.  The groups have one
    function each.  The theorems are about the chain run by the visor, on any
    implementation of the slots. *)
From Stdlib Require Import Ascii String.
From S2P Require Import Prelude Bytes Hostcall Metric Ipv4 Text Threads Visor VisorSpec Slots Contracts Entry VisorFlow.
Local Open Scope Z_scope.

(** ** array_sum *)

Record Arraysum : Type := mk_arraysum { raw_data : string; count : Z }.

(** [str::parse::<i32>]: an optional sign and at least one digit, within 32 bits. *)
Definition parse_i32 (s : string) : option Z :=
  let '(neg, s) := match s with
                   | String "-" s => (true, s)
                   | String "+" s => (false, s)
                   | _ => (false, s)
                   end in
  match s with
  | EmptyString => None
  | _ =>
      n ← digits 0 s;
      let n := if neg : bool then - n else n in
      if (- 2 ^ 31 <=? n) && (n <? 2 ^ 31) then Some n else None
  end.
(** [str::repeat]. *)
Fixpoint repeat_text (n : nat) (s : string) : string :=
  match n with O => "" | S n => s +:+ repeat_text n s end.
(** Arithmetic on [i32], which panics out of range. *)
Definition checked_i32 {S} (n : Z) : thread S Z :=
  if (- 2 ^ 31 <=? n) && (n <? 2 ^ 31) then mret n else Done Panic.

Section array_sum.
Context {S : Type} {SL : Slots S Arraysum} (DATA_SIZE : nat).

(** [main].  The buffer is in the slot when the count overflows. *)
Definition array_sum (args : list (string * string)) : thread S (result () string) :=
  n ← get_or_panic (arg args "n");
  i ← get_or_panic (parse_i32 n);
  previous_cnt ← (if i =? 0 then mret 0
                  else
                    j ← checked_i32 (i - 1);
                    b ← take_from (numbered "slot_" j);
                    b ← get_or_panic b;
                    mret b.(count));
  let raw_data := repeat_text DATA_SIZE n in
  if previous_cnt + 1 <? 2 ^ 31
  then _ ← publish ("slot_" +:+ n) (mk_arraysum raw_data (previous_cnt + 1)); mret (Ok ())
  else _ ← publish ("slot_" +:+ n) (mk_arraysum raw_data 0); Done Panic.
End array_sum.

Example parse_i32_ex : map parse_i32 ["0"; "-12"; "+7"; "2147483648"; "-2147483648"; "-"; ""; "1x"] =
  [Some 0; Some (-12); Some 7; None; Some (-2147483648); None; None; None].
Proof. reflexivity. Qed.

(** The configurations: a group for each function, with its number as an argument;
    [called] is what the functions are called, which all have one library. *)
Definition chain_group (called : nat → string) (key : string) (i : nat) : Config.IsolationGroup :=
  Config.mk_group [Config.Name (called i)] {[key := pretty (Z.of_nat i)]}.
Definition chain_groups (called : nat → string) (key : string) (k : nat) : list Config.IsolationGroup :=
  map (chain_group called key) (seq 0 k).
(** long_chain_n10.json and long_chain_n5.json. *)
Definition same_name (i : nat) : string := "array_sum".
Definition numbered_name (i : nat) : string := numbered "array_sum" (Z.of_nat i).

(** ** What a function does *)

#[export] Instance chain_slots : SlotNames nat.
Proof.
  refine {| slot_name i := numbered "slot_" (Z.of_nat i); nonneg _ := True |}.
  intros i j _ _ H. unfold numbered in H. apply Nat2Z.inj, (inj pretty). by apply (inj (String.append "slot_")) in H.
Defined.

Lemma parse_i32_pretty (i : nat) : Z.of_nat i < 2 ^ 31 → parse_i32 (pretty (Z.of_nat i)) = Some (Z.of_nat i).
Proof.
  intros Hi. assert (Hd := digits_pretty (Z.of_nat i) ltac:(lia)).
  assert (Ha := all_digits_pretty (Z.of_nat i) ltac:(lia)). unfold parse_i32.
  destruct (pretty (Z.of_nat i)) as [|c s] eqn:E.
  { injection Hd as Hd. by rewrite <- Hd in E. }
  assert (Hc : c ≠ "-"%char ∧ c ≠ "+"%char).
  { split; intros ->; cbn [all_digits] in Ha; by apply andb_True in Ha as [?%bool_decide_unpack%is_Some_None _]. }
  assert (∀ A (x y z : A), match c with "-"%char => x | "+"%char => y | _ => z end = z) as Hsign.
  { intros A x y z. destruct c as [[] [] [] [] [] [] [] []]; by destruct Hc. }
  rewrite Hsign, Hd. cbn [mbind option_bind].
  replace ((- 2 ^ 31 <=? Z.of_nat i) && (Z.of_nat i <? 2 ^ 31)) with true by lia. done.
Qed.

Section meets.
Context {S : Type} {SL : Slots S Arraysum} {SLS : SlotsSpec S Arraysum} (DATA_SIZE : nat).

(** What the [i]-th function hands on. *)
Definition link (i : nat) : Arraysum := mk_arraysum (repeat_text DATA_SIZE (pretty (Z.of_nat i))) (Z.of_nat i + 1).
Definition link_contract (i : nat) : contract Arraysum nat (result () string) :=
  mk_contract ((i, Empty) :: match i with O => [] | Datatypes.S j => [(j, Full (link j))] end)
    (Ret (Ok ())) [(i, Full (link i))].

Lemma link_wf i : well_formed (link_contract i).
Proof.
  split_and!; [| |intros nm ->%list_elem_of_singleton; apply list_elem_of_here].
  - destruct i; [apply NoDup_singleton|]. apply NoDup_cons. split; [|apply NoDup_singleton].
    intros H%list_elem_of_singleton. cbn in H. lia.
  - by destruct i; repeat constructor.
Qed.

Lemma link_meets i args : Z.of_nat i + 1 < 2 ^ 31 → args !! "n" = Some (pretty (Z.of_nat i)) → good (link i) →
  meets 2 (link_contract i) (array_sum DATA_SIZE (btree_items args)).
Proof.
  intros Hi Hn Hg v Hv. assert (Hf : facts_of (owned (names (link_contract i))) (needs (link_contract i)))
    by apply contract_names, link_wf.
  set (own := owned _) in *. unfold array_sum. rewrite arg_lookup, Hn. cbn [get_or_panic].
  rewrite ret_bind, parse_i32_pretty by lia. cbn [get_or_panic]. rewrite ret_bind.
  cbn [needs gives leaves link_contract] in *. destruct i as [|j].
  - change (Z.of_nat 0 =? 0) with true. cbn [ret_bind]. rewrite ret_bind. change (0 + 1 <? 2 ^ 31) with true.
    apply (twp_publish_fact 1 own 0%nat (link 0) [] _ _ _ Hg Hf Hv). intros v1 Hv1. by apply twp_ret.
  - assert (Hj : Z.of_nat (Datatypes.S j) = Z.of_nat j + 1) by apply Nat2Z.inj_succ.
    assert (Hne : Z.of_nat (Datatypes.S j) ≠ 0) by lia. rewrite (proj2 (Z.eqb_neq _ _) Hne).
    replace (Z.of_nat (Datatypes.S j) - 1) with (Z.of_nat j) by lia. unfold checked_i32.
    replace ((- 2 ^ 31 <=? Z.of_nat j) && (Z.of_nat j <? 2 ^ 31)) with true by lia. rewrite ret_bind.
    assert (Hsw : [(Datatypes.S j, Empty); (j, Full (link j))] ≡ₚ [(j, Full (link j)); (Datatypes.S j, Empty)]) by apply Permutation_swap.
    assert (Hf' := facts_of_perm own _ _ Hsw Hf).
    apply (twp_bind own _ _ _ 1 1). change (numbered "slot_" (Z.of_nat j)) with (slot_name j).
    apply (twp_take_fact 0 own j (link j) [(Datatypes.S j, Empty)]); [done| |].
    { eapply holds_sub; [|exact Hv]. by rewrite Hsw. }
    intros v1 Hv1. cbn [get_or_panic]. rewrite ret_bind. apply twp_ret. cbn [count link].
    replace (Z.of_nat j + 1 + 1 <? 2 ^ 31) with true by lia. apply facts_tail in Hf'.
    change (mk_arraysum _ _) with (mk_arraysum (repeat_text DATA_SIZE (pretty (Z.of_nat (Datatypes.S j)))) (Z.of_nat j + 1 + 1)).
    replace (Z.of_nat j + 1) with (Z.of_nat (Datatypes.S j)) by lia.
    apply (twp_publish_fact 0 own (Datatypes.S j) (link (Datatypes.S j)) [] _ _ _ Hg Hf' Hv1). intros v2 Hv2.
    by apply twp_ret.
Qed.
End meets.

(** ** The chain *)
Section chain.
Context {S : Type} {SL : Slots S Arraysum} {SLS : SlotsSpec S Arraysum} (DATA_SIZE : nat).
Definition chain_code (name : string) (args : list (string * string)) : thread S (result () string) :=
  rust_main false (array_sum DATA_SIZE args).

Context (called : nat → string) {St : Type} {run_group : list nat → Config.IsolationGroup → prog St (result () string)}.
Context {RG : RunsGroups chain_code run_group}.
Context (k : nat) (small : Z.of_nat k < 2 ^ 31) (good_links : ∀ i, (i < k)%nat → good (link DATA_SIZE i)).

Lemma chain_app key i : key ≠ "id" → ∃ a, Config.group_to_isolation (chain_group called key i) = [a] ∧
  a.(Config.app_name) = called i ∧ a.(Config.args) = {["id" := "0"; key := pretty (Z.of_nat i)]}.
Proof.
  intros Hne. eexists. split; [reflexivity|]. split; [done|]. cbn. unfold Config.extend.
  by rewrite (insert_union_singleton_l {[key := _]}).
Qed.

(** The buffer of the function before, and none from this one on. *)
Definition linked (i : nat) (s : S) : Prop :=
  (∀ j, i = Datatypes.S j → at_slot s (slot_name j) = Full (link DATA_SIZE j)) ∧
  ∀ j, (i ≤ j)%nat → at_slot s (slot_name j) = Empty.

Lemma link_runs i sched s m : (i < k)%nat → Forall (takes (run_group := run_group)) (Config.group_to_isolation (chain_group called "n" i)) →
  (2 + extra ≤ turns 0 sched)%nat → ready (length sched + m) s → linked i (view s) →
  ∃ s', run_group sched (chain_group called "n" i) s = (Ret (Ok ()), s') ∧ ready m s' ∧ linked (Datatypes.S i) (view s').
Proof.
  intros Hi Htakes Hturns Hs [Hprev Hfree]. destruct (chain_app "n" i ltac:(done)) as (a & Ea & Hn & Hargs).
  destruct (group_succeeds (run_group := run_group) (chain_group called "n" i) [link_contract DATA_SIZE i] 2 sched s m)
    as (s' & E & Hm & Hl & Ho).
  - constructor; [apply link_wf|constructor].
  - intros j j' K K' nm Hj Hj' Hne. destruct j as [|j], j' as [|j']; done.
  - rewrite Ea. constructor; [|constructor]. unfold function_thread. rewrite Hargs.
    apply (entry_meets 2 false (link_contract DATA_SIZE i)), link_meets; [lia|by rewrite lookup_insert_ne, lookup_singleton_eq|by apply good_links].
  - done.
  - by intros K ->%list_elem_of_singleton.
  - intros j Hj. assert (j = 0%nat) as -> by (cbn in Hj; lia). done.
  - done.
  - intros K ->%list_elem_of_singleton nm st Hin. apply elem_of_cons in Hin as [[= -> ->]|Hin]; [by apply Hfree|].
    destruct i as [|j]; [by apply not_elem_of_nil in Hin|]. apply list_elem_of_singleton in Hin as [= -> ->]. by apply Hprev.
  - exists s'. split; [done|]. split; [done|]. split.
    + intros j [= ->]. apply (Hl (link_contract DATA_SIZE j)); apply list_elem_of_here.
    + intros j Hj. rewrite Ho; [apply Hfree; lia|done|]. intros K ->%list_elem_of_singleton Hin.
      apply elem_of_cons in Hin as [Hin|Hin]; [cbn in Hin; lia|].
      destruct i as [|i']; [by apply not_elem_of_nil in Hin|]. apply list_elem_of_singleton in Hin. cbn in Hin. lia.
Qed.

(** The turns of the groups from [i] on. *)
Definition chain_turns (scheds : nat → list nat) (i n : nat) : nat := sum_list_with (λ j, length (scheds j)) (seq i n).
Lemma chain_runs scheds m : ∀ n i s, (i + n ≤ k)%nat →
  (∀ j, (j < k)%nat → Forall (takes (run_group := run_group)) (Config.group_to_isolation (chain_group called "n" j))) →
  (∀ j, (j < k)%nat → (2 + extra ≤ turns 0 (scheds j))%nat) → ready (chain_turns scheds i n + m) s → linked i (view s) →
  ∃ s', run_workflow run_group (map scheds (seq i n)) (map (chain_group called "n") (seq i n)) s = (Ret (Ok ()), s') ∧
    ready m s' ∧ linked (i + n) (view s').
Proof.
  intros n. induction n as [|n IH]; intros i s Hn Htakes Hturns Hs Hl.
  - exists s. rewrite Nat.add_0_r. by split.
  - cbn [seq map run_workflow]. unfold chain_turns in Hs. cbn [seq sum_list_with] in Hs. rewrite <- Nat.add_assoc in Hs.
    destruct (link_runs i (scheds i) s _ ltac:(lia) (Htakes i ltac:(lia)) (Hturns i ltac:(lia)) Hs Hl) as (s1 & E1 & H1 & L1).
    destruct (IH (Datatypes.S i) s1 ltac:(lia) Htakes Hturns H1 L1) as (s2 & E2 & H2 & L2).
    exists s2. unfold try_bind. rewrite (bind_Ret _ _ _ _ _ E1), E2.
    split; [done|]. split; [done|]. by rewrite Nat.add_succ_r.
Qed.

(** A function that is not given its number. *)
Lemma link_panics sched s m i key : key ≠ "n" → key ≠ "id" →
  Forall (takes (run_group := run_group)) (Config.group_to_isolation (chain_group called key i)) →
  (extra ≤ turns 0 sched)%nat → ready (length sched + m) s →
  ∃ s', run_group sched (chain_group called key i) s = (Panic, s').
Proof using RG.
  clear dependent k. intros Hk Hid Htakes Hturns Hs. destruct (chain_app key i Hid) as (a & Ea & Hn & Hargs).
  set (K := mk_contract [] Panic [] : contract Arraysum nat (result () string)).
  destruct (group_ends (run_group := run_group) (chain_group called key i) [K] 0 sched s m) as (o & s' & E & Ho & _).
  - constructor; [|constructor]. split_and!; [constructor|constructor|done].
  - intros j j' K1 K2 nm Hj Hj' Hne. destruct j as [|j], j' as [|j']; done.
  - rewrite Ea. constructor; [|constructor]. intros v _. unfold function_thread. rewrite Hargs.
    unfold chain_code, rust_main, array_sum. rewrite arg_lookup, lookup_insert_ne, lookup_singleton_ne by done.
    split; [done|]. by intros nm st ?%not_elem_of_nil.
  - done.
  - intros j Hj. assert (j = 0%nat) as -> by (cbn in Hj; lia). done.
  - done.
  - intros K' ->%list_elem_of_singleton nm st Hin. by apply not_elem_of_nil in Hin.
  - apply same_result_panic in Ho as ->. by exists s'.
Qed.
End chain.

(** ** Under the visor *)
Section visor.
Context {W Lib : Type} {HH : Host W Lib} {SL : Slots W Arraysum} {SLS : SlotsSpec W Arraysum} (DATA_SIZE : nat) (called : nat → string).
Local Abbreviation code := (chain_code (SL := SL) DATA_SIZE).

Definition run_chain (entry : Z → string) (fuel : nat) (scheds : nat → list nat) :
    prog (Isolation W Lib) (result () string) := run (H0 := module_code code entry) fuel scheds.
Definition chain_names (k : nat) : list string := map called (seq 0 k).

Lemma chain_takes key k i : key ≠ "id" → (String.length key ≤ 32)%nat → (i < k)%nat → Z.of_nat k < 2 ^ 31 →
  Forall (λ a, a.(Config.app_name) ∈ chain_names k ∧ takes_args a.(Config.args))
    (Config.group_to_isolation (chain_group called key i)).
Proof.
  intros Hid Hkey Hi Hk. destruct (chain_app called key i Hid) as (a & -> & Hn & Ha).
  constructor; [|constructor]. rewrite Hn, Ha. split; [apply (list_elem_of_fmap_2 called), elem_of_seq; lia|].
  assert (Hp : (String.length (pretty (Z.of_nat i)) ≤ 10)%nat) by (apply length_pretty; lia).
  apply (takes_keys ["id"; key]); [cbn; lia|]. intros q v [[<- <-]|[_ [<- <-]%lookup_singleton_Some]]%lookup_insert_Some.
  - split; [apply list_elem_of_here|]. cbn; lia.
  - split; [apply list_elem_of_further, list_elem_of_here|]. lia.
Qed.

Context (entry : Z → string) (QH : quiet_host) (config : Config.IsolationConfig) (k : nat).
Context (some : (0 < k)%nat) (few : Z.of_nat k < 2 ^ 31).
Context (loaded : ∀ i, (i < k)%nat →
  ∃ path, register config ∅ !! called i = Some path ∧ loads code entry (called i) path).

Lemma chain_new key new_id w m : config.(Config.groups) = chain_groups called key k → able (2 + (m + 6 * k)) w →
  ∃ i, isolation_new new_id config w = (Ret (), i) ∧ isol_ready code entry (chain_names k) m i ∧
    i.(groups) = map Config.group_to_isolation (chain_groups called key k) ∧ ∀ q, at_slot i.(world) q = at_slot w q.
Proof using QH loaded.
  intros Hg Hk. destruct (new_ready code entry (chain_names k) QH new_id config w m) as (i & E & Hi & Hgs & _ & Hs).
  - unfold chain_names. by rewrite length_map, length_seq.
  - intros name (i & -> & Hi%elem_of_seq)%list_elem_of_fmap_1. apply loaded, Hi.
  - exists i. by rewrite <- Hg.
Qed.

(** C16: the function chain under the visor: each function gets the buffer of the one
    before it, whatever turns the schedules take, and the last buffer counts all of
    them. *)
Theorem function_chain fuel scheds new_id w : config.(Config.groups) = chain_groups called "n" k →
  (∀ i, (i < k)%nat → good (link DATA_SIZE i)) → (∀ i : nat, at_slot w (slot_name i) = Empty) →
  (∀ i, (i < k)%nat → (5 ≤ turns 0 (scheds i))%nat) → able (5 + (chain_turns scheds 0 k + 6 * k)) w →
  ∃ i i', isolation_new new_id config w = (Ret (), i) ∧ run_chain entry fuel scheds i = (Ret (Ok ()), i') ∧
    at_slot i'.(world) (numbered "slot_" (Z.of_nat k - 1)) =
      Full (mk_arraysum (repeat_text DATA_SIZE (pretty (Z.of_nat k - 1))) (Z.of_nat k)).
Proof.
  intros Hg Hgood Hfree Hturns Hable. set (m := (chain_turns scheds 0 k + 2)%nat).
  destruct (chain_new "n" new_id w (Datatypes.S m) Hg) as (i & E & Hi & Hgs & Hs);
    [eapply able_mono; [exact Hable|unfold m; lia]|].
  destruct (run_ends code entry (chain_names k) QH fuel scheds (chain_groups called "n" k) i m
    (λ i2, linked DATA_SIZE k i2.(world))) as (i2 & i' & Er & [Hl _] & Hs').
  - unfold chain_groups. destruct k; [lia|done].
  - done.
  - done.
  - intros i1 H1 Hs1. unfold chain_groups. rewrite length_map, length_seq.
    destruct (chain_runs DATA_SIZE called (RG := visor_runs code entry (chain_names k) QH) k few Hgood scheds 2 k 0 i1)
      as (i2 & E2 & H2 & L2); [lia| |exact Hturns|exact H1| |by unfold wp; rewrite E2].
    + intros j Hj. apply chain_takes; [done|cbn; lia|done|done].
    + split; [done|]. intros j _. change (at_slot i1.(world) (slot_name j) = Empty). by rewrite Hs1, Hs.
  - exists i, i'. split; [done|]. split; [done|]. rewrite Hs'.
    specialize (Hl (pred k) ltac:(lia)). unfold slot_name, chain_slots, link in Hl.
    by replace (Z.of_nat (pred k) + 1) with (Z.of_nat k) in Hl by lia; replace (Z.of_nat (pred k)) with (Z.of_nat k - 1) in Hl by lia.
Qed.

(** C40: the configurations of the chain name the argument [array_num], while the
    function asks for [n]: the first function panics, and so does the run. *)
Theorem shipped_chain_panics fuel scheds new_id w : config.(Config.groups) = chain_groups called "array_num" k →
  (3 ≤ turns 0 (scheds 0%nat))%nat → able (5 + (length (scheds 0%nat) + 6 * k)) w →
  ∃ i i', isolation_new new_id config w = (Ret (), i) ∧ run_chain entry fuel scheds i = (Panic, i').
Proof.
  intros Hg Hturns Hable. set (m := (length (scheds 0%nat) + 2)%nat).
  destruct (chain_new "array_num" new_id w (Datatypes.S m) Hg) as (i & E & Hi & Hgs & Hs);
    [eapply able_mono; [exact Hable|unfold m; lia]|]. exists i.
  destruct (run_stops code entry (chain_names k) QH fuel scheds (chain_groups called "array_num" k) i m (eq Panic))
    as (o & o' & i' & Er & Ho & <-);
    [unfold chain_groups; by destruct k; [lia|]|done|done|done| |apply same_result_panic in Ho as ->; by exists i'].
  intros i1 H1 _. unfold chain_groups. rewrite length_map, length_seq.
  destruct (link_panics DATA_SIZE called (RG := visor_runs code entry (chain_names k) QH) (scheds 0%nat) i1 2 0 "array_num")
    as [i2 E2]; try done; [apply chain_takes; [done|cbn; lia|done|done]|].
  exists Panic, i2. split; [|done]. destruct k as [|k']; [lia|]. cbn [seq map run_workflow]. unfold try_bind. by rewrite (bind_Panic _ _ _ _ E2).
Qed.
End visor.

(** ** Three functions of one library *)
Module Example.
#[local] Instance chain_host {W} : Host W string := lib_host ["array_sum"].
Definition chain_config (called : nat → string) (key : string) : Config.IsolationConfig :=
  Config.mk_config [] (map (λ i, Config.mk_unit (called i) "libarray_sum.so") (seq 0 3)) None None (chain_groups called key 3).
Definition nothing : Memory Arraysum := mk_memory ∅ ∅.
#[local] Instance chain_laws : SlotsSpec (Memory Arraysum) Arraysum := mem_slots_spec ∅.
Definition chain_scheds (k : nat) : list nat := replicate 5 0%nat.

Lemma chain_quiet : quiet_host (HH := chain_host (W := Memory Arraysum)).
Proof. apply lib_quiet. Qed.
Definition loadable (called : nat → string) (config : Config.IsolationConfig) : Prop := ∀ i, (i < 3)%nat →
  ∃ path, register config ∅ !! called i = Some path ∧
    loads (HH := chain_host (W := Memory Arraysum)) (chain_code 2) (lib_entry ["array_sum"]) (called i) path.
Lemma chain_loads called config :
  (∀ i, (i < 3)%nat → register config ∅ !! called i = Some "libarray_sum.so") → loadable called config.
Proof.
  intros H i Hi. exists "libarray_sum.so". split; [by apply H|].
  exact (lib_loads ["array_sum"] (chain_code 2) (called i) "array_sum" (list_elem_of_here _ _) eq_refl).
Qed.
Lemma chain_same : loadable same_name (chain_config same_name "n").
Proof. by apply chain_loads. Qed.
Lemma chain_numbered : loadable numbered_name (chain_config numbered_name "array_num").
Proof. apply chain_loads. intros [|[|[|i]]] Hi; [done..|lia]. Qed.
Lemma chain_enough i : (i < 3)%nat → (5 ≤ turns 0 (chain_scheds i))%nat.
Proof. done. Qed.

Lemma function_chain_witness : ∃ i i',
  isolation_new 1 (chain_config same_name "n") nothing = (Ret (), i) ∧
  run_chain 2 (lib_entry ["array_sum"]) 0 chain_scheds i = (Ret (Ok ()), i') ∧
  at_slot i'.(world) "slot_2" = Full (mk_arraysum "22" 3).
Proof.
  exact (function_chain 2 same_name (lib_entry ["array_sum"]) chain_quiet (chain_config same_name "n") 3 ltac:(lia) ltac:(lia)
    chain_same 0 chain_scheds 1 nothing eq_refl (λ _ _, I) (λ _, eq_refl) chain_enough eq_refl).
Defined.
Lemma shipped_chain_panics_witness : ∃ i i',
  isolation_new 1 (chain_config numbered_name "array_num") nothing = (Ret (), i) ∧
  run_chain 2 (lib_entry ["array_sum"]) 0 chain_scheds i = (Panic, i').
Proof.
  exact (shipped_chain_panics 2 numbered_name (lib_entry ["array_sum"]) chain_quiet (chain_config numbered_name "array_num") 3 ltac:(lia) ltac:(lia)
    chain_numbered 0 chain_scheds 1 nothing eq_refl ltac:(vm_compute; lia) eq_refl).
Defined.
End Example.
