(* ===== verification/MemSlots.v ===== *)
(** * Slots in memory

    The default build as an instance of [Slots]: the data buffers of the mm service
    (Buffers) that the functions of the parallel sort use.  A buffer holds the three
    words of a [String] or a [Vec<u32>]; the text or the numbers are in the heap of
    the module that made them, where the receiver reads them in place.  So what
    holds of a workflow over [Slots] holds of it over the mm service.

    A buffer is made and given its value in one step, as its readers are in a later
    group; the heap blocks a [Vec] outgrows while it is filled are left out. *)
From Stdlib Require Import Ascii String.
From S2P Require Import Prelude Bytes Hostcall Ipv4 Text Threads Visor Buffers BuffersSpec Slots SortFuncs.
Local Open Scope Z_scope.

(** The three words of a [Vec], in an order that is the compiler's. *)
Record Header : Type := mk_header { h_ptr : Z; h_cap : Z; h_len : Z }.
Class VecLayout : Type := {
  header_repr : Header → list byte;
  header_unrepr : list byte → Header;
  header_size : ∀ h, zlen (header_repr h) = 24;
  header_round_trip : ∀ h, fits 64 h.(h_ptr) → fits 64 h.(h_cap) → fits 64 h.(h_len) →
    header_unrepr (header_repr h) = h
}.

(** The struct with a [String] and the one with a [Vec<u32>]; the names differ
    between the functions, their types do not. *)
Inductive ContentArg : Type := content_arg (content : Header).
Inductive VecArg : Type := vec_arg (array : Header).
Definition content_of (v : ContentArg) : Header := let '(content_arg h) := v in h.
Definition array_of (v : VecArg) : Header := let '(vec_arg h) := v in h.

(** The elements as they lie in the heap. *)
Definition u32s (l : list Z) : list byte := concat (map (le_encode 4) l).
Fixpoint read_u32s (m : Buffers.Memory) (p : Z) (n : nat) : list Z :=
  match n with O => [] | S n => le_decode (read_mem m p 4) :: read_u32s m (p + 4) n end.

Section mem.
Context {A : Type} {HC : HeapCrate A} {VL : VecLayout} (hasher : string → Z).
Local Abbreviation State := (MmState A).
Local Abbreviation M := (prog State).

#[export] Instance content_data : FaasData ContentArg := {|
  layout := mk_layout 24 8; __fingerprint := derive_fingerprint hasher (Named ["String"]);
  repr v := header_repr (content_of v); unrepr bs := content_arg (header_unrepr bs)
|}.
#[export] Instance vec_data : FaasData VecArg := {|
  layout := mk_layout 24 8; __fingerprint := derive_fingerprint hasher (Named ["Vec < u32 >"]);
  repr v := header_repr (array_of v); unrepr bs := vec_arg (header_unrepr bs)
|}.
Definition content_fp : Z := __fingerprint (T := ContentArg).
Definition vec_fp : Z := __fingerprint (T := VecArg).

(** The heap block of a [Vec] or a [String]; an empty one has none. *)
Definition alloc_data (bs : list byte) (align : Z) : M Z :=
  if zlen bs =? 0 then mret align
  else
    p ← on own_heap set_own_heap (allocate_first_fit (mk_layout (zlen bs) align));
    p ← unwrap p;
    modify (λ s, set_memory (write_mem s.(memory) p bs) s);;
    mret p.

(** A buffer is made for the slot and given its value. *)
Definition publish_mem (slot : string) (v : Value) : M () :=
  match v with
  | Content content =>
      b ← with_slot (T := ContentArg) slot;
      let bs := to_bytes content in
      p ← alloc_data bs 1;
      assign b (content_arg (mk_header p (zlen bs) (zlen bs)))
  | Array array =>
      b ← with_slot (T := VecArg) slot;
      p ← alloc_data (u32s array) 4;
      assign b (vec_arg (mk_header p (zlen array) (zlen array)))
  end.

(** What the receiver reads through its buffer.  A function asks at the type it
    expects and panics if the buffer is of the other, which it also does here
    ([take_content], [take_array]). *)
Definition take_mem (slot : string) : M (option Value) :=
  r ← gets (λ s, s.(buffer_register) !! slot);
  if bool_decide (snd <$> r = Some content_fp)
  then
    b ← from_buffer_slot (T := ContentArg) slot;
    b ← unwrap b;
    v ← deref b;
    let h := content_of v in
    bs ← gets (λ s, read_mem s.(memory) h.(h_ptr) h.(h_len));
    mret (Some (Content (of_bytes bs)))
  else
    b ← from_buffer_slot (T := VecArg) slot;
    match b with
    | None => mret None
    | Some b =>
        v ← deref b;
        let h := array_of v in
        l ← gets (λ s, read_u32s s.(memory) h.(h_ptr) (Z.to_nat h.(h_len)));
        mret (Some (Array l))
    end.
Definition mm_slots : Slots State Value := {| publish_slot := publish_mem; take_slot := take_mem |}.
End mem.

(** ** What is read back *)

Lemma read_mem_app m p a b : 0 ≤ a → 0 ≤ b → read_mem m p (a + b) = read_mem m p a ++ read_mem m (p + a) b.
Proof.
  intros Ha Hb. unfold read_mem. rewrite seqZ_app, map_app by done. f_equal.
  replace (0 + a) with (a + 0) by lia. rewrite <- (fmap_add_seqZ a 0), map_map. apply map_ext.
  intros k. f_equal. lia.
Qed.
Lemma zlen_u32s l : zlen (u32s l) = 4 * zlen l.
Proof.
  unfold u32s, zlen. induction l as [|x l IH]; [done|]. cbn [map concat length].
  rewrite length_app, length_le_encode. lia.
Qed.
Lemma read_u32s_of m : ∀ l p, Forall (fits 32) l → read_mem m p (4 * zlen l) = u32s l → read_u32s m p (length l) = l.
Proof.
  induction l as [|x l IH]; intros p Hl H; [done|]. apply Forall_cons in Hl as [Hx Hl].
  unfold u32s, zlen in H. cbn [length map concat] in H.
  replace (4 * Z.of_nat (S (length l))) with (4 + 4 * Z.of_nat (length l)) in H by lia.
  rewrite read_mem_app in H by lia. apply app_inj_1 in H as [H1 H2];
    [|by rewrite length_read_mem, length_le_encode].
  cbn [length read_u32s]. rewrite H1, le_decode_encode_fits by exact Hx. f_equal. by apply IH.
Qed.
Lemma read_u32s_ext m m' : ∀ n p, (∀ a, p ≤ a < p + 4 * Z.of_nat n → m' a = m a) → read_u32s m' p n = read_u32s m p n.
Proof.
  induction n as [|n IH]; intros p H; [done|]. cbn [read_u32s]. f_equal.
  - f_equal. apply read_mem_ext. intros a Ha. apply H. lia.
  - apply IH. intros a Ha. apply H. lia.
Qed.

(** What the allocator crate promises of a heap that only grows: its blocks lie in its
    region, and while [fits_more b k] holds, [k] blocks of up to [b] bytes fit. *)
Class HeapGrows (A : Type) {HC : HeapCrate A} {HS : HeapCrateSpec A} : Type := {
  region : A → Z * Z;
  fits_more : Z → nat → A → Prop;
  region_fits : ∀ a, 0 ≤ (region a).1 ∧ (region a).2 ≤ 2 ^ 64;
  region_blocks : ∀ b k a p n, fits_more b k a → blocks a !! p = Some n → (region a).1 ≤ p ∧ p + n ≤ (region a).2;
  fits_mono : ∀ b k j a, fits_more b k a → (j ≤ k)%nat → fits_more b j a;
  allocate_grows : ∀ b k a l, fits_more b (S k) a → 0 < l.(l_size) ≤ b → 0 < l.(l_align) ≤ 8 →
    ∃ p a', allocate_first_fit l a = (Ret (Some p), a') ∧ fits_more b k a' ∧ region a' = region a
}.

Section spec.
Context {A : Type} {HC : HeapCrate A} {HS : HeapCrateSpec A} {HG : HeapGrows A} {VL : VecLayout}.
Context (hasher : string → Z).
Context (fps_differ : content_fp hasher ≠ vec_fp hasher).
(** The longest text or array, in bytes. *)
Context (bound : Z) (bound_fits : bound < 2 ^ 64).
Local Abbreviation State := (MmState A).
Implicit Types (s : State).

Definition header_at (m : Buffers.Memory) (p : Z) : Header := header_unrepr (read_mem m p 24).
Definition data_size (fp : Z) (h : Header) : Z := if decide (fp = content_fp hasher) then h.(h_len) else 4 * h.(h_len).
Definition value_at (m : Buffers.Memory) (fp : Z) (h : Header) : SlotState Value :=
  if decide (fp = content_fp hasher) then Full (Content (of_bytes (read_mem m h.(h_ptr) h.(h_len))))
  else if decide (fp = vec_fp hasher) then Full (Array (read_u32s m h.(h_ptr) (Z.to_nat h.(h_len))))
  else Unknown.
Definition slot_value s (q : string) : SlotState Value :=
  match s.(buffer_register) !! q with
  | None => Empty
  | Some (p, fp) => value_at s.(memory) fp (header_at s.(memory) p)
  end.

(** The buffers and their data are live blocks of the two heaps, which are apart. *)
Record mem_ok s : Prop := mk_mem_ok {
  heaps_apart : (region s.(buffer_allocator)).2 ≤ (region s.(own_heap)).1 ∨
    (region s.(own_heap)).2 ≤ (region s.(buffer_allocator)).1;
  buffers_live : ∀ q p fp, s.(buffer_register) !! q = Some (p, fp) →
    blocks s.(buffer_allocator) !! p = Some 24 ∧
    let h := header_at s.(memory) p in
    0 ≤ h.(h_len) ∧ (data_size fp h = 0 ∨ blocks s.(own_heap) !! h.(h_ptr) = Some (data_size fp h))
}.
Definition mem_room (k : nat) s : Prop :=
  mem_ok s ∧ fits_more 24 k s.(buffer_allocator) ∧ fits_more bound k s.(own_heap).
Definition small_value (v : Value) : Prop :=
  match v with
  | Content content => zlen (to_bytes content) ≤ bound
  | Array array => 4 * zlen array ≤ bound ∧ Forall (fits 32) array
  end.

(** ** Memory that changes elsewhere *)

Lemma value_ext m m' fp h : 0 ≤ h.(h_len) →
  (∀ a, h.(h_ptr) ≤ a < h.(h_ptr) + data_size fp h → m' a = m a) → value_at m' fp h = value_at m fp h.
Proof.
  intros Hl H. unfold value_at, data_size in *. case_decide.
  - do 3 f_equal. apply read_mem_ext. intros a Ha. apply H. lia.
  - case_decide; [|done]. do 2 f_equal. apply read_u32s_ext. intros a Ha. apply H. lia.
Qed.

(** [m'] differs from the memory of [s] only outside the live blocks of [s]. *)
Definition keeps_blocks s (m' : Buffers.Memory) : Prop :=
  (∀ p n a, blocks s.(buffer_allocator) !! p = Some n → p ≤ a < p + n → m' a = s.(memory) a) ∧
  (∀ p n a, blocks s.(own_heap) !! p = Some n → p ≤ a < p + n → m' a = s.(memory) a).
Lemma keeps_header s m' q p fp : mem_ok s → keeps_blocks s m' → s.(buffer_register) !! q = Some (p, fp) →
  header_at m' p = header_at s.(memory) p ∧ value_at m' fp (header_at m' p) = slot_value s q.
Proof.
  intros Hs [Hb Ho] Hq. destruct (buffers_live s Hs q p fp Hq) as (Hp & Hl & Hd).
  assert (E : header_at m' p = header_at s.(memory) p).
  { unfold header_at. f_equal. apply read_mem_ext. intros a Ha. by apply (Hb p 24). }
  split; [done|]. rewrite E. unfold slot_value. rewrite Hq. apply value_ext; [done|].
  intros a Ha. destruct Hd as [Hd|Hd]; [lia|]. by apply (Ho _ _ _ Hd).
Qed.

(** ** Allocating *)

(** A block of a heap with room: fresh, in the region, beside every live block. *)
Lemma allocate_ok b k a l : fits_more b (S k) a → 0 < l.(l_size) ≤ b → 0 < l.(l_align) ≤ 8 →
  ∃ p a', allocate_first_fit l a = (Ret (Some p), a') ∧ fits_more b k a' ∧ region a' = region a ∧
    0 < p ∧ (region a).1 ≤ p ∧ p + l.(l_size) ≤ (region a).2 ∧ blocks a' = <[p := l.(l_size)]> (blocks a) ∧
    blocks a !! p = None ∧ ∀ q n, blocks a !! q = Some n → p + l.(l_size) ≤ q ∨ q + n ≤ p.
Proof.
  intros Hf Hs Ha. destruct (allocate_grows b k a l Hf Hs Ha) as (p & a' & E & Hf' & Hr).
  destruct (allocate_spec a l) as (r & a2 & E2 & H). rewrite E in E2. injection E2 as <- <-.
  destruct H as (Hp & Hb & Hn & Hd). exists p, a'.
  destruct (region_blocks b k a' p l.(l_size) Hf') as [H1 H2]; [by rewrite Hb, lookup_insert_eq|].
  rewrite Hr in H1, H2. done.
Qed.

Lemma alloc_data_ok bs al k s : fits_more bound (S k) s.(own_heap) → zlen bs ≤ bound → 0 < al ≤ 8 →
  ∃ p o m, alloc_data bs al s = (Ret p, mk_mm s.(buffer_register) s.(buffer_allocator) o m) ∧ fits 64 p ∧
    region o = region s.(own_heap) ∧ fits_more bound k o ∧ blocks s.(own_heap) ⊆ blocks o ∧
    (bs = [] ∨ blocks o !! p = Some (zlen bs)) ∧ read_mem m p (zlen bs) = bs ∧
    (∀ q n a, blocks s.(own_heap) !! q = Some n → q ≤ a < q + n → m a = s.(memory) a) ∧
    ∀ a, (region s.(own_heap)).2 ≤ a ∨ a < (region s.(own_heap)).1 → m a = s.(memory) a.
Proof.
  intros Hf Hb Hal. unfold alloc_data. destruct (Z.eqb_spec (zlen bs) 0) as [E|E].
  - exists al, s.(own_heap), s.(memory). split; [by destruct s|]. split; [unfold fits; lia|].
    assert (bs = []) as -> by (destruct bs; [done|unfold zlen in E; cbn in E; lia]).
    split; [done|]. split; [by eapply fits_mono; [exact Hf|lia]|]. by split_and!; try left.
  - assert (Hbs := zlen_nonneg bs).
    destruct (allocate_ok bound k s.(own_heap) (mk_layout (zlen bs) al) Hf) as
      (p & o & Ea & Hf' & Hr & Hp & Hlo & Hhi & Hbl & Hnone & Hd); [cbn; lia|done|]. cbn [l_size] in *.
    destruct (region_fits s.(own_heap)). exists p, o, (write_mem s.(memory) p bs). split.
    { unfold mbind, prog_mbind, on. by rewrite Ea. }
    split; [unfold fits; lia|]. split; [done|]. split; [done|]. split; [rewrite Hbl; by apply insert_subseteq|].
    split; [right; by rewrite Hbl, lookup_insert_eq|]. split; [apply read_write_same|]. split.
    + intros q n a Hq Ha. apply write_mem_outside. destruct (Hd q n Hq); lia.
    + intros a Ha. apply write_mem_outside. lia.
Qed.

(** ** Publishing *)

(** A buffer of any of the two types: [wrap] makes its value of the three words. *)
Lemma publish_block {T} {FD : FaasData T} (wrap : Header → T) slot bs al len k s :
  layout (T := T) = mk_layout 24 8 → (∀ h, repr (wrap h) = header_repr h) → 0 < al ≤ 8 →
  mem_room (S k) s → zlen bs ≤ bound → 0 ≤ len ≤ zlen bs → s.(buffer_register) !! slot = None →
  (∀ p, data_size (__fingerprint (T := T)) (mk_header p len len) = zlen bs) →
  ∃ p s', (b ← with_slot (T := T) slot; p ← alloc_data bs al; assign b (wrap (mk_header p len len))) s = (Ret (), s') ∧
    mem_room k s' ∧ read_mem s'.(memory) p (zlen bs) = bs ∧
    slot_value s' slot = value_at s'.(memory) (__fingerprint (T := T)) (mk_header p len len) ∧
    ∀ q, q ≠ slot → slot_value s' q = slot_value s q.
Proof.
  intros Hly Hrepr Hal (Hok & Hfb & Hfo) Hbs Hlen Hnew Hsize. set (fp := __fingerprint (T := T)) in *.
  destruct (allocate_ok 24 k s.(buffer_allocator) (mk_layout 24 8) Hfb) as
    (p0 & ba & Ea & Hfb' & Hrb & Hp0 & Hlo & Hhi & Hbl & Hnone & Hd); [cbn; lia|cbn; lia|]. cbn [l_size] in *.
  set (s1 := mk_mm (<[slot := (p0, fp)]> s.(buffer_register)) ba s.(own_heap) s.(memory)).
  assert (E1 : with_slot (T := T) slot s = (Ret (mk_buffer p0 false), s1)).
  { unfold with_slot. rewrite Hly. cbn [l_size Z.eqb]. unfold buffer_alloc, mbind, prog_mbind, on. by rewrite Ea. }
  destruct (alloc_data_ok bs al k s1 Hfo Hbs Hal) as (p & o & m & E2 & Hp & Hro & Hfo' & Hsub & Hblk & Hread & Hown & Hout).
  set (h := mk_header p len len). set (s3 := mk_mm (<[slot := (p0, fp)]> s.(buffer_register)) ba o (write_mem m p0 (header_repr h))).
  cbn [own_heap memory s1] in *. destruct (region_fits s.(own_heap)) as [Hr1 Hr2]. assert (H24 := header_size h).
  assert (Hh : header_at s3.(memory) p0 = h).
  { unfold header_at, s3. cbn [memory]. rewrite <- H24, read_write_same. apply header_round_trip; unfold fits in *; cbn; lia. }
  assert (Hap := heaps_apart s Hok).
  assert (Hkeep : keeps_blocks s s3.(memory)).
  { split; intros q n a Hq Ha; cbn [memory s3].
    - assert (Hqr := region_blocks _ _ _ _ _ Hfb Hq). rewrite write_mem_outside by (rewrite H24; destruct (Hd q n Hq); lia).
      apply Hout. lia.
    - assert (Hqr := region_blocks _ _ _ _ _ Hfo Hq). rewrite write_mem_outside by (rewrite H24; lia). by apply (Hown q n). }
  exists p, s3. split_and!.
  - rewrite (bind_Ret _ _ _ _ _ E1), (bind_Ret _ _ _ _ _ E2). unfold assign, modify, set_memory. cbn. by rewrite Hrepr.
  - split; [|done]. split; cbn [buffer_allocator own_heap buffer_register memory s3]; [by rewrite Hrb, Hro|].
    intros q pq fq Hq. destruct (decide (q = slot)) as [->|Hne].
    + rewrite lookup_insert_eq in Hq. injection Hq as <- <-. rewrite Hbl, lookup_insert_eq. split; [done|].
      change (write_mem m p0 (header_repr h)) with s3.(memory). rewrite Hh. unfold h. rewrite Hsize. cbn [h_len h_ptr].
      split; [lia|]. destruct Hblk as [->|Hblk]; [by left|by right].
    + rewrite lookup_insert_ne in Hq by done. destruct (buffers_live s Hok q pq fq Hq) as (Hlq & Hll & Hld).
      destruct (keeps_header s s3.(memory) q pq fq Hok Hkeep Hq) as [Eq _]. cbn [memory s3] in Eq. rewrite Eq.
      split; [rewrite Hbl, lookup_insert_ne; [done|intros ->; congruence]|]. split; [done|].
      destruct Hld as [Hld|Hld]; [by left|right]. by eapply lookup_weaken.
  - cbn [memory s3]. destruct Hblk as [->|Hblk]; [done|]. assert (Hqr := region_blocks _ _ _ _ _ Hfo' Hblk). rewrite Hro in Hqr.
    rewrite <- Hread at 2. apply read_mem_ext. intros a Ha. rewrite write_mem_outside; [done|]. rewrite H24. lia.
  - unfold slot_value. cbn [buffer_register s3]. by rewrite lookup_insert_eq, Hh.
  - intros q Hne. unfold slot_value at 1. cbn [buffer_register s3]. rewrite lookup_insert_ne by done.
    destruct (s.(buffer_register) !! q) as [[pq fq]|] eqn:Eq; [|unfold slot_value; by rewrite Eq].
    by apply (keeps_header s s3.(memory) q pq fq Hok Hkeep Eq).
Qed.

Lemma empty_slot s slot : slot_value s slot = Empty → s.(buffer_register) !! slot = None.
Proof. unfold slot_value, value_at. destruct (_ !! slot) as [[p fp]|]; [|done]. by repeat case_decide. Qed.

Lemma publish_mem_spec slot v s k : mem_room (S k) s → small_value v → slot_value s slot = Empty →
  ∃ s', publish_mem hasher slot v s = (Ret (), s') ∧ mem_room k s' ∧ slot_value s' slot = Full v ∧
    ∀ q, q ≠ slot → slot_value s' q = slot_value s q.
Proof.
  intros Hr Hv He%empty_slot. destruct v as [content|array].
  - assert (Hl := zlen_nonneg (to_bytes content)).
    destruct (publish_block (FD := content_data hasher) content_arg slot (to_bytes content) 1 (zlen (to_bytes content)) k s)
      as (p & s' & E & Hr' & Hread & Hval & Hq); try done.
    { intros p. unfold data_size. by rewrite decide_True. }
    exists s'. split; [exact E|]. split; [done|]. split; [|done]. rewrite Hval. unfold value_at.
    rewrite decide_True by done. cbn [h_ptr h_len]. by rewrite Hread, of_to_bytes.
  - destruct Hv as [Hb Hf]. assert (Hl := zlen_nonneg array).
    destruct (publish_block (FD := vec_data hasher) vec_arg slot (u32s array) 4 (zlen array) k s)
      as (p & s' & E & Hr' & Hread & Hval & Hq); try done; try (rewrite zlen_u32s; lia).
    { intros p. unfold data_size. rewrite decide_False by (intros Heq; by apply fps_differ).
      by rewrite zlen_u32s. }
    exists s'. split; [exact E|]. split; [done|]. split; [|done]. rewrite Hval. unfold value_at.
    rewrite decide_False by (intros Heq; by apply fps_differ). rewrite decide_True by done. cbn [h_ptr h_len].
    rewrite zlen_u32s in Hread. unfold zlen at 1. rewrite Nat2Z.id. by rewrite read_u32s_of.
Qed.

Lemma taken_room k s slot : mem_room (S k) s → mem_room k (set_register (delete slot s.(buffer_register)) s).
Proof.
  intros ([Hap Hlive] & Hfb & Hfo). split; [split; [exact Hap|]|].
  - intros q p fp Hq. cbn [buffer_register set_register] in Hq. apply lookup_delete_Some in Hq as [_ Hq].
    by apply (Hlive q).
  - split; (eapply fits_mono; [done|lia]).
Qed.
Lemma taken_others s slot q : q ≠ slot →
  slot_value (set_register (delete slot s.(buffer_register)) s) q = slot_value s q.
Proof. intros Hne. unfold slot_value. cbn [buffer_register set_register memory]. by rewrite lookup_delete_ne. Qed.

Lemma take_mem_full slot v s k : mem_room (S k) s → slot_value s slot = Full v →
  ∃ s', take_mem hasher slot s = (Ret (Some v), s') ∧ mem_room k s' ∧
    ∀ q, q ≠ slot → slot_value s' q = slot_value s q.
Proof.
  intros Hr Hv. unfold slot_value in Hv. destruct (s.(buffer_register) !! slot) as [[p fp]|] eqn:Eq; [|done].
  exists (set_register (delete slot s.(buffer_register)) s).
  split; [|split; [by apply taken_room|by intros; apply taken_others]].
  unfold value_at in Hv. unfold take_mem. unfold mbind at 1, prog_mbind at 1, gets at 1. rewrite Eq. cbn [fmap option_fmap option_map snd].
  case_decide as Hc; [|case_decide as Hw; [|done]]; injection Hv as <-; subst fp.
  - rewrite bool_decide_true by done.
    unfold from_buffer_slot, access_buffer, mbind, prog_mbind, gets, modify. rewrite Eq. cbn [mret prog_mret].
    change (__fingerprint (T := ContentArg)) with (content_fp hasher). by rewrite Z.eqb_refl.
  - rewrite bool_decide_false by congruence.
    unfold from_buffer_slot, access_buffer, mbind, prog_mbind, gets, modify. rewrite Eq. cbn [mret prog_mret].
    change (__fingerprint (T := VecArg)) with (vec_fp hasher). by rewrite Z.eqb_refl.
Qed.
Lemma take_mem_empty slot s k : mem_room (S k) s → slot_value s slot = Empty →
  ∃ s', take_mem hasher slot s = (Ret None, s') ∧ mem_room k s' ∧ ∀ q, slot_value s' q = slot_value s q.
Proof.
  intros Hr He%empty_slot. exists (set_register (delete slot s.(buffer_register)) s).
  split; [|split; [by apply taken_room|]].
  - unfold take_mem, from_buffer_slot, access_buffer, mbind, prog_mbind, gets, modify. rewrite He. cbn [fmap option_fmap option_map].
    rewrite bool_decide_false by done. by rewrite He.
  - intros q. unfold slot_value. cbn [buffer_register set_register memory]. by rewrite delete_id.
Qed.

Lemma mem_room_mono k j s : mem_room k s → (j ≤ k)%nat → mem_room j s.
Proof. intros (H & Hb & Ho) Hj. split; [done|]. split; by eapply fits_mono. Qed.

(** The mm service keeps the laws of slots. *)
Definition mm_slots_spec : @SlotsSpec State Value (mm_slots hasher).
Proof.
  refine {| at_slot := slot_value; good := small_value; able := mem_room |}.
  - intros k j s. apply mem_room_mono.
  - intros slot v s k. apply publish_mem_spec.
  - intros slot v s k. apply take_mem_full.
  - intros slot s k. apply take_mem_empty.
Defined.
End spec.

(** ** An allocator and a layout *)
Module Arena.

(** A heap of the addresses from [base] to [limit] that allocates past its last block. *)
Record Arena : Type := mk_arena { base : Z; limit : Z; live : gmap Z Z }.
Definition brk (a : Arena) : Z := Z.max a.(base) (Demo.top a.(live)) + 1.
#[export] Instance arena : HeapCrate Arena := {|
  allocate_first_fit l a :=
    if brk a + l.(l_size) <=? a.(limit)
    then (Ret (Some (brk a)), mk_arena a.(base) a.(limit) (<[brk a := l.(l_size)]> a.(live)))
    else (Ret None, a);
  deallocate p _ := modify (λ a, mk_arena a.(base) a.(limit) (delete p a.(live)))
|}.
#[export] Instance arena_spec : HeapCrateSpec Arena.
Proof.
  refine {| blocks := live |}. intros a l. cbn [allocate_first_fit arena].
  destruct (_ <=? _); [|by eexists _, _]. eexists _, _. split; [done|]. unfold brk.
  assert (H0 := Demo.top_nonneg a.(live)). split_and!; [lia|done| |].
  - destruct (_ !! _) as [n|] eqn:E; [|done]. apply Demo.top_bound in E. lia.
  - intros q n [Hq _]%Demo.top_bound. right. lia.
Defined.

Lemma top_least (live : gmap Z Z) t : 0 ≤ t → (∀ q n, live !! q = Some n → q + Z.max n 0 ≤ t) → Demo.top live ≤ t.
Proof.
  intros Ht H. assert (H' : Forall (λ '(q, n), q + Z.max n 0 ≤ t) (map_to_list live))
    by (apply Forall_forall; intros [q n] Hq%elem_of_map_to_list; by apply H).
  unfold Demo.top. induction H' as [|[q n] l Hq Hl IH]; cbn [foldr]; lia.
Qed.

Definition arena_fits (b : Z) (k : nat) (a : Arena) : Prop :=
  0 ≤ b ∧ 0 ≤ a.(base) ∧ a.(limit) ≤ 2 ^ 64 ∧ map_Forall (λ p n, a.(base) ≤ p ∧ 0 ≤ n) a.(live) ∧
  Z.max a.(base) (Demo.top a.(live)) + Z.of_nat k * (b + 1) ≤ a.(limit).
#[export] Instance arena_grows : HeapGrows Arena.
Proof.
  refine {| region a := (Z.max 0 a.(base), Z.min a.(limit) (2 ^ 64)); fits_more := arena_fits |}.
  - intros a. split; [apply Z.le_max_l|apply Z.le_min_r].
  - intros b k a p n (Hb & H0 & Hl & Hf & Hk) Hp. change (a.(live) !! p = Some n) in Hp. destruct (Hf p n Hp) as [H1 H2].
    destruct (Demo.top_bound _ _ _ Hp) as [H3 _]. assert (0 ≤ Z.of_nat k * (b + 1)) by nia.
    split; [apply Z.max_lub; lia|apply Z.min_glb; lia].
  - intros b k j a (Hb & H0 & Hl & Hf & Hk) Hj. split_and!; [done..|]. nia.
  - intros b k a l (Hb & H0 & Hl & Hf & Hk) Hs Ha. assert (Ht := Demo.top_nonneg a.(live)).
    exists (brk a), (mk_arena a.(base) a.(limit) (<[brk a := l.(l_size)]> a.(live))). split; [|split; [|done]].
    + cbn [allocate_first_fit arena]. assert (E : (brk a + l.(l_size) <=? a.(limit)) = true) by (unfold brk; nia). by rewrite E.
    + split_and!; cbn [base limit live]; [done..| |].
      * apply map_Forall_insert_2; [unfold brk; lia|done].
      * assert (Demo.top (<[brk a := l.(l_size)]> a.(live)) ≤ brk a + l.(l_size)); [|unfold brk in *; nia].
        apply top_least; [unfold brk; lia|].
        intros q n [[<- <-]|[_ [Hq _]%Demo.top_bound]]%lookup_insert_Some; unfold brk; lia.
Defined.

(** The words in the order pointer, capacity, length. *)
Definition word (bs : list byte) (i : nat) : Z := le_decode (take 8 (drop (8 * i) bs)).
#[export] Instance words : VecLayout.
Proof.
  refine {| header_repr h := le_encode 8 h.(h_ptr) ++ le_encode 8 h.(h_cap) ++ le_encode 8 h.(h_len);
            header_unrepr bs := mk_header (word bs 0) (word bs 1) (word bs 2) |}.
  - intros h. unfold zlen. by rewrite !length_app, !length_le_encode.
  - intros [p c l] Hp Hc Hl. cbn [h_ptr h_cap h_len] in *. unfold word.
    assert (L := length_le_encode). f_equal.
    + cbn [Nat.mul]. rewrite drop_0, take_app_length' by (by rewrite L). by apply le_decode_encode_fits.
    + change (8 * 1)%nat with 8%nat. rewrite drop_app_length' by (by rewrite L).
      rewrite take_app_length' by (by rewrite L). by apply le_decode_encode_fits.
    + change (8 * 2)%nat with (8 + 8)%nat. rewrite <- drop_drop, !drop_app_length' by (by rewrite L).
      rewrite take_ge by (rewrite L; lia). by apply le_decode_encode_fits.
Defined.

(** Two empty heaps apart from each other, and an empty register. *)
Definition two_heaps : MmState Arena := mk_mm ∅ (mk_arena 0 100000 ∅) (mk_arena 1000000 2000000 ∅) (λ _, 0).
Definition hash (s : string) : Z := Z.of_nat (String.length s).
Lemma two_heaps_room b k : (k ≤ 1000)%nat → 0 ≤ b ≤ 900 → mem_room hash b k two_heaps.
Proof.
  intros Hk Hb. split; [split|split].
  - by left.
  - intros q p fp Hq. cbn in Hq. by rewrite lookup_empty in Hq.
  - split_and!; try done. cbn. change (Demo.top ∅) with 0. lia.
  - split_and!; try done; [lia|]. cbn. change (Demo.top ∅) with 0. nia.
Qed.
End Arena.
