(* ===== verification/SortMemory.v ===== *)
(** * The parallel sort in memory

    The default build, with everything the workflow uses below it: a new isolation
    runs the functions under the visor, their buffers are the mm service's, and the
    input files are read through the File API, the descriptor table and the FAT
    service.  What is left to parameters is the loading of libraries, the two heaps'
    allocator and the FAT crate. *)
From Stdlib Require Import Ascii String.
From stdpp Require Import sorting functions.
From S2P Require Import Prelude Bytes Hostcall Metric Ipv4 Text Fdtab Fatfs FileStack DataFiles DataFilesSpec.
From S2P Require Import Threads Visor VisorSpec Buffers BuffersSpec Slots FileInputs Contracts.
From S2P Require Import SortFuncs SortSpec SortFlow ParallelSort MemSlots VisorFlow SortVisor.
Local Open Scope Z_scope.

(** ** The world of an isolation *)

(** The mm service with memory, the file services, and what else the host has. *)
Record World (A FS F N H : Type) : Type := mk_world {
  mm : MmState A; files : FdState (LowerState FS F N); kernel : H
}.
Arguments mk_world {A FS F N H}.
Arguments mm {A FS F N H}.
Arguments files {A FS F N H}.
Arguments kernel {A FS F N H}.

Section world.
Context {A FS F N H : Type} {HC : HeapCrate A} {HS : HeapCrateSpec A} {HG : HeapGrows A} {VL : VecLayout}.
Context {FC : FatCrate FS F} {FSp : FatCrateSpec FS F} {FN : FatNames FS F} {HI : HostImage FS} {SS : SockService N}.
Context (hasher : string → Z) (fuel : nat).
Local Abbreviation W := (World A FS F N H).

Definition world_slots : Slots W Value := {|
  publish_slot slot v := on mm (λ m w, mk_world m w.(files) w.(kernel)) (publish_mem hasher slot v);
  take_slot slot := on mm (λ m w, mk_world m w.(files) w.(kernel)) (take_mem hasher slot)
|}.
Definition world_inputs : Files W := {|
  read_file p := on files (λ f w, mk_world w.(mm) f w.(kernel)) (read_input fuel p)
|}.

Context (fps_differ : content_fp hasher ≠ vec_fp hasher) (bound : Z) (bound_fits : bound < 2 ^ 64).
Context (T : gmap string string) (fuel_fits : Z.of_nat fuel ≤ 2 ^ 64).

(** The inputs are on the disk, and [k] files can be opened. *)
Definition inputs_there (k : nat) (st : FdState (LowerState FS F N)) : Prop :=
  ∃ d m n, DataFilesSpec.ready d m n (Z.of_nat k) st ∧ holds_inputs T d ∧ ∀ p c, d p = Some c → (length c < fuel)%nat.
Definition world_room (k : nat) (w : W) : Prop :=
  mem_room hasher bound k w.(mm) ∧ inputs_there k w.(files).

Lemma inputs_mono k j st : inputs_there k st → (j ≤ k)%nat → inputs_there j st.
Proof.
  intros (d & m & n & Hr & Hd) Hj. exists d, m, n. split; [|done]. apply (ready_mono _ _ _ _ _ _ Hr). lia.
Qed.
(** A call on the mm service, in the world. *)
Lemma in_mm {B} (m : prog (MmState A) B) b s (w : W) (P : MmState A → Prop) k :
  inputs_there (Datatypes.S k) w.(files) → m w.(mm) = (Ret b, s) → mem_room hasher bound k s →
  on mm (λ m w, mk_world m w.(files) w.(kernel)) m w = (Ret b, mk_world s w.(files) w.(kernel)) ∧
  world_room k (mk_world s w.(files) w.(kernel)).
Proof.
  intros Hi E Hs. split; [unfold on; by rewrite E|]. split; [done|]. eapply inputs_mono; [exact Hi|lia].
Qed.

Definition world_slots_spec : @SlotsSpec W Value world_slots.
Proof.
  refine {| at_slot w := slot_value hasher w.(mm); good := small_value bound; able := world_room |}.
  - intros k j w [Hm Hi] Hj. split; [by eapply mem_room_mono|by eapply inputs_mono].
  - intros slot v w k [Hm Hi] Hv He.
    destruct (publish_mem_spec hasher fps_differ bound bound_fits slot v w.(mm) k Hm Hv He) as (s & E & Hk & Hs).
    destruct (in_mm _ _ _ w (λ _, True) k Hi E Hk) as [E' Hk']. eexists. split; [exact E'|]. by split.
  - intros slot v w k [Hm Hi] Hv.
    destruct (take_mem_full hasher fps_differ bound slot v w.(mm) k Hm Hv) as (s & E & Hk & Hs).
    destruct (in_mm _ _ _ w (λ _, True) k Hi E Hk) as [E' Hk']. eexists. split; [exact E'|]. by split.
  - intros slot w k [Hm Hi] He.
    destruct (take_mem_empty hasher bound slot w.(mm) k Hm He) as (s & E & Hk & Hs).
    destruct (in_mm _ _ _ w (λ _, True) k Hi E Hk) as [E' Hk']. eexists. split; [exact E'|]. by split.
Defined.
Definition world_inputs_spec : @FilesSpec W Value world_slots world_slots_spec world_inputs T.
Proof.
  refine {| read_spec := _ |}. intros p c w k Hp [Hm (d & m & n & Hr & Hi & Hf)].
  destruct (Hi p c Hp) as (Hfn & b & Hd & <-).
  destruct (read_input_ready fuel fuel_fits p b d m n (Z.of_nat k) w.(files)) as (st & E & Hr');
    [apply (ready_mono _ _ _ _ _ _ Hr); lia|lia|done|done|by eapply Hf|].
  exists (mk_world w.(mm) st w.(kernel)). split; [cbn; unfold on; by rewrite E|]. split; [|done].
  split; [eapply mem_room_mono; [exact Hm|lia]|]. by exists d, m, n.
Defined.
End world.

(** ** The sort *)

Section sort.
Context {A FS F N H : Type} {HC : HeapCrate A} {HS : HeapCrateSpec A} {HG : HeapGrows A} {VL : VecLayout}.
Context {FC : FatCrate FS F} {FSp : FatCrateSpec FS F} {FN : FatNames FS F} {HI : HostImage FS} {SS : SockService N}.
Context (hasher : string → Z) (fuel bound : nat) (T : gmap string string).
Context (fps_differ : content_fp hasher ≠ vec_fp hasher) (bound_fits : 4 * Z.of_nat bound < 2 ^ 64).
Context (fuel_fits : Z.of_nat fuel ≤ 2 ^ 64).
Local Abbreviation W := (World A FS F N H).
#[local] Instance the_slots : Slots W Value := world_slots hasher.
#[local] Instance the_laws : SlotsSpec W Value :=
  world_slots_spec hasher fuel fps_differ (4 * Z.of_nat bound) bound_fits T.
#[local] Instance the_inputs : Files W := world_inputs fuel.
#[local] Instance the_input_laws : FilesSpec W Value T :=
  world_inputs_spec hasher fuel fps_differ (4 * Z.of_nat bound) bound_fits T fuel_fits.
Context {Lib : Type} {HH : Host W Lib}.

(** The bytes of a value with at most [bound] elements. *)
Lemma small_fits x : small bound x → small_value (4 * Z.of_nat bound) x.
Proof.
  destruct x as [s|l]; cbn [small small_value].
  - intros Hl. unfold zlen, to_bytes. rewrite length_map.
    assert (length (list_ascii_of_string s) = String.length s) as -> by
      (clear; induction s as [|c s IH]; [done|cbn; by rewrite IH]). lia.
  - intros [Hl Hf]. split; [unfold zlen; lia|done].
Qed.

(** C13: the parallel sort of the default build: a new isolation with the workflow's
    configuration, the mm service with room for its buffers, empty slots and the
    inputs on the FAT disk (each read by its function in one turn) runs to its end
    under every schedule with enough turns for each function, provided that every
    sorter's numbers reach past all pivots but the last ([reaches]; otherwise the
    run fails, as SortVisor.v shows).  The buffers and what they hold are memory
    that the two heaps' allocator gave out; read back from it, the arrays in the
    buffers of the slots [merge_result_j] are sorted one after the other and are
    the numbers of the input files below [u32::MAX]. *)
Theorem sort_in_memory entry steps scheds new_id config n m contents numbers (w : W) :
  quiet_host → config.(Config.groups) = sort_groups n m →
  (∀ name, name ∈ sort_functions → ∃ path, register config ∅ !! name = Some path ∧ loads sort_code entry name path) →
  plan (T := T) bound n m contents numbers → (∀ nm : Name, nonneg nm → w.(mm).(buffer_register) !! slot_name nm = None) →
  enough_turns n m 3 (scheds 0%nat) (scheds 1%nat) (scheds 2%nat) (scheds 3%nat) →
  world_room hasher fuel (4 * Z.of_nat bound) T
    (29 + (length (scheds 0%nat) + (length (scheds 1%nat) + (length (scheds 2%nat) + length (scheds 3%nat))))) w →
  (∀ i, (i < n)%nat → reaches m numbers i) →
  ∃ i i' outs, isolation_new new_id config w = (Ret (), i) ∧ run_sort entry steps scheds i = (Ret (Ok ()), i') ∧
    length outs = m ∧
    (∀ j out, outs !! j = Some out →
       slot_value hasher i'.(world).(mm) ("merge_result_" +:+ pretty (Z.of_nat j)) = Full (Array out)) ∧
    sorted (concat outs) ∧ concat outs ≡ₚ kept (concat (map numbers (seq 0 n))).
Proof.
  intros QH Hgs Hload Hplan Hfresh Hturns Hroom Hreach.
  apply (sort_under_visor (SLS := the_laws) (FSp := the_input_laws) entry QH config bound n m
    contents numbers Hload small_fits Hplan scheds Hturns steps new_id w Hgs);
    [|eapply (able_mono (SlotsSpec := the_laws)); [exact Hroom|unfold sort_turns; lia]|exact Hreach].
  intros nm Hnm. change (slot_value hasher w.(mm) (slot_name nm) = Empty). unfold slot_value. by rewrite Hfresh.
Qed.
End sort.

(** ** Two heaps, a disk with two files *)
Module Example.
Import FileDemo Arena.
Definition ex_world : World Arena Disk Cursor () () := mk_world two_heaps (start (to_bytes <$> data_files ex_texts)) ().

Lemma ex_inputs : inputs_there 100 (data_files ex_texts) 87 ex_world.(files).
Proof.
  exists (λ p, (to_bytes <$> data_files ex_texts : Disk) !! p), 100%nat, 100%nat. split; [|split].
  - by apply start_ready.
  - intros p t Hp. assert (Hn : fat_name p = true ∧ fold_case p = p ∧ of_bytes (from_utf8_lossy (to_bytes t)) = t).
    { apply elem_of_list_to_map_2 in Hp. cbn in Hp.
      repeat (apply elem_of_cons in Hp as [[= -> ->]|Hp]; [done|]). by apply not_elem_of_nil in Hp. }
    destruct Hn as (Hn & Hc & Ht). split; [done|]. exists (to_bytes t). by rewrite Hc, lookup_fmap, Hp.
  - intros p t Hp. rewrite lookup_fmap in Hp. destruct (data_files ex_texts !! p) as [x|] eqn:E; [|done].
    injection Hp as <-. apply elem_of_list_to_map_2 in E. cbn in E.
    repeat (apply elem_of_cons in E as [[= -> ->]|E]; [cbn; lia|]). by apply not_elem_of_nil in E.
Qed.
Lemma fps_differ : content_fp hash ≠ vec_fp hash.
Proof. by vm_compute. Qed.
Lemma ex_fuel : Z.of_nat 100 ≤ 2 ^ 64.
Proof. lia. Qed.
Lemma ex_bound : 4 * Z.of_nat 20 < 2 ^ 64.
Proof. lia. Qed.
Lemma ex_world_room : world_room hash 100 (4 * Z.of_nat 20) (data_files ex_texts) 87 ex_world.
Proof. split; [apply two_heaps_room; lia|exact ex_inputs]. Qed.

Lemma sort_in_memory_witness : ∃ i i' outs,
  isolation_new 1 sort_config ex_world = (Ret (), i) ∧
  run_sort (SL := the_slots hash) (FL := the_inputs 100) (lib_entry sort_functions) 0 visor_scheds i = (Ret (Ok ()), i') ∧
  length outs = 3%nat ∧
  (∀ j out, outs !! j = Some out →
     slot_value hash i'.(world).(mm) ("merge_result_" +:+ pretty (Z.of_nat j)) = Full (Array out)) ∧
  sorted (concat outs) ∧ concat outs ≡ₚ kept [3; 1; 2; 9; 7; 5; 4; 8].
Proof.
  exact (sort_in_memory hash 100 20 (data_files ex_texts) fps_differ ex_bound ex_fuel (lib_entry sort_functions) 0 visor_scheds 1
    sort_config 2 3 (texts ex_texts) (arrays ex_arrays) ex_world (lib_quiet _) eq_refl (sort_registered _) ex_plan
    (λ _ _, eq_refl) visor_turns ex_world_room ex_reaches).
Defined.
End Example.
