(* ===== verification/WordCount.v ===== *)
(** * The word count (user/mapper, user/reducer)

    A mapper counts the words of its file and deals the counts out to the reducers,
    a reducer adds up what the mappers dealt it.  A map is iterated in an order only
    hashbrown knows ([HashOrder]), and beyond ASCII the letters are a table of the
    standard library ([Unicode]). *)
From Stdlib Require Import Ascii String.
From S2P Require Import Prelude Bytes Hostcall Ipv4 Text Threads Visor Slots Contracts Entry.
Local Open Scope Z_scope.

Abbreviation Counts := (gmap string Z).

Class HashOrder : Type := {
  entries : Counts → list (string * Z);
  entries_perm : ∀ c, entries c ≡ₚ map_to_list c
}.
Class Unicode : Type := { alphanumeric_beyond : Z → bool }.

(** [char::is_alphanumeric] *)
Definition is_alphanumeric {U : Unicode} (c : Z) : bool :=
  if c <? 128
  then ((48 <=? c) && (c <=? 57)) || ((65 <=? c) && (c <=? 90)) || ((97 <=? c) && (c <=? 122))
  else alphanumeric_beyond c.

Section functions.
Context {S : Type} {SL : Slots S Counts} {FL : Files S} {U : Unicode} {HO : HashOrder}.
Local Abbreviation M := (thread S).

(** ** mapper *)

(** [line.trim().split(' ').filter(..)] *)
Definition words_of_line (line : string) : list string :=
  List.filter (λ word, forallb is_alphanumeric (chars (to_bytes word))) (split " " (trim line)).

(** One more of [word]; a count is a [u32]. *)
Definition count_word (word : string) (counter : Counts) : outcome Counts :=
  let old_count := default 0 (counter !! word) in
  if fitsb 32 (old_count + 1) then Ret (<[word := old_count + 1]> counter) else Panic.
Fixpoint count_words (words : list string) (counter : Counts) : outcome Counts :=
  match words with
  | [] => Ret counter
  | word :: words =>
      match count_word word counter with Ret counter => count_words words counter | o => o end
  end.
(** The loop over the lines. *)
Fixpoint count_lines (ls : list string) (counter : Counts) : outcome Counts :=
  match ls with
  | [] => Ret counter
  | line :: ls =>
      match count_words (words_of_line line) counter with Ret counter => count_lines ls counter | o => o end
  end.

(** [counter.values().sum()] at type [u32]. *)
Fixpoint sum_values (values : list Z) (total : Z) : outcome Z :=
  match values with
  | [] => Ret total
  | v :: values => if fitsb 32 (total + v) then sum_values values (total + v) else Panic
  end.

Fixpoint getidx_loop (cs : list Z) (reducer_num hash_val : Z) : outcome Z :=
  match cs with
  | [] => Ret hash_val
  | c :: cs =>
      if fitsb 64 (hash_val * 31) && fitsb 64 (hash_val * 31 + c) && negb (reducer_num =? 0)
      then getidx_loop cs reducer_num ((hash_val * 31 + c) mod reducer_num) else Panic
  end.
Definition getidx (word : string) (reducer_num : Z) : outcome Z :=
  getidx_loop (chars (to_bytes word)) reducer_num 0.

(** The loop that deals the counts out to the buffers. *)
Fixpoint shuffle (items : list (string * Z)) (reducer_num : Z) (data_buffers : list Counts) :
    outcome (list Counts) :=
  match items with
  | [] => Ret data_buffers
  | (word, count) :: items =>
      match getidx word reducer_num with
      | Ret shuffle_idx =>
          match data_buffers !! Z.to_nat shuffle_idx with
          | Some buffer => shuffle items reducer_num (<[Z.to_nat shuffle_idx := <[word := count]> buffer]> data_buffers)
          | None => Panic
          end
      | Panic => Panic
      | Deadlock => Deadlock
      | NoFuel => NoFuel
      end
  end.

(** The buffers are dropped, in their order, when the function is done. *)
Definition mapper_func (my_id : string) (reducer_num : Z) : M (result () string) :=
  r ← atomic (read_file ("fake_data_" +:+ my_id +:+ ".txt"));
  match r with
  | Err e => mret (Err (show_fdtab e))
  | Ok content =>
      counter ← Done (count_lines (lines content) ∅);
      total ← Done (sum_values (map snd (entries counter)) 0);
      data_buffers ← Done (shuffle (entries counter) reducer_num (replicate (Z.to_nat reducer_num) ∅));
      _ ← for_each (imap (λ reducer buffer, (Z.of_nat reducer, buffer)) data_buffers)
            (λ '(reducer, buffer), publish (numbered (my_id +:+ "-") reducer) buffer);
      mret (Ok ())
  end.
Definition mapper (args : list (string * string)) : M (result () string) :=
  my_id ← get_or_panic (arg args "id");
  reducer_num ← get_or_panic (arg_num 64 args "reducer_num");
  mapper_func my_id reducer_num.

(** ** reducer *)

(** The loop over the entries of one mapper's counts. *)
Fixpoint add_counts (items : list (string * Z)) (counter : Counts) : outcome Counts :=
  match items with
  | [] => Ret counter
  | (word, count) :: items =>
      let old_count := default 0 (counter !! word) in
      if fitsb 32 (old_count + count) then add_counts items (<[word := old_count + count]> counter) else Panic
  end.
Fixpoint reduce_loop (reducer_id : Z) (mappers : list Z) (counter : Counts) : M Counts :=
  match mappers with
  | [] => mret counter
  | i :: mappers =>
      v ← take_from (pretty i +:+ "-" +:+ pretty reducer_id);
      mapper_result ← get_or_panic v;
      counter ← Done (add_counts (entries mapper_result) counter);
      reduce_loop reducer_id mappers counter
  end.
(** [main] up to the counter, whose length it prints. *)
Definition reducer_counts (args : list (string * string)) : M Counts :=
  my_id ← get_or_panic (arg args "id");
  reducer_id ← get_or_panic (parse_u64 my_id);
  mapper_num ← get_or_panic (arg_num 64 args "mapper_num");
  reduce_loop reducer_id (seqZ 0 mapper_num) ∅.
Definition reducer (args : list (string * string)) : M (result () string) :=
  counter ← reducer_counts args;
  mret (Ok ()).
End functions.

(** The functions of the workflow, by name; both catch their panics. *)
Definition count_code {S} {SL : Slots S Counts} {FL : Files S} {U : Unicode} {HO : HashOrder} (name : string)
    (args : list (string * string)) : thread S (result () string) :=
  if String.eqb name "mapper" then rust_main true (mapper args)
  else if String.eqb name "reducer" then rust_main true (reducer args)
  else Done Panic.

(** The groups of the configuration. *)
Definition mapper_group (n m : nat) : Config.IsolationGroup :=
  Config.mk_group (replicate n (Config.Name "mapper")) {["reducer_num" := pretty (Z.of_nat m)]}.
Definition reducer_group (n m : nat) : Config.IsolationGroup :=
  Config.mk_group (replicate m (Config.Name "reducer")) {["mapper_num" := pretty (Z.of_nat n)]}.
Definition count_groups (n m : nat) : list Config.IsolationGroup := [mapper_group n m; reducer_group n m].

(** ASCII only, and the canonical order. *)
#[local] Instance ascii_only : Unicode := {| alphanumeric_beyond _ := false |}.
#[local] Instance map_order : HashOrder := {| entries := map_to_list; entries_perm _ := reflexivity _ |}.
Example words_ex : words_of_line " a b,c  d9 " = ["a"; ""; "d9"].
Proof. reflexivity. Qed.
Example getidx_ex : getidx "ab" 7 = Ret (((97 * 31) + 98) mod 7).
Proof. reflexivity. Qed.
