(* ===== verification/WordCountSpec.v ===== *)
(** * What is counted

    The counters of a mapper and of a reducer, by the words they stand for:
    [counts_are c l] is that [c] counts the words of [l]. *)
From Stdlib Require Import Ascii String.
From S2P Require Import Prelude Bytes Hostcall Ipv4 Text Threads Visor Slots Contracts WordCount.
Local Open Scope Z_scope.

(** How often [w] is in [l]. *)
Definition occ (w : string) (l : list string) : Z := Z.of_nat (length (filter (λ x, x = w) l)).
Definition counts_are (c : Counts) (l : list string) : Prop :=
  ∀ w, c !! w = if decide (w ∈ l) then Some (occ w l) else None.

Lemma occ_app w l k : occ w (l ++ k) = occ w l + occ w k.
Proof. unfold occ. rewrite filter_app, length_app. lia. Qed.
Lemma occ_le w l : 0 ≤ occ w l ≤ zlen l.
Proof. unfold occ, zlen. assert (H := length_filter (λ x, x = w) l). lia. Qed.
Lemma occ_not_in w l : w ∉ l → occ w l = 0.
Proof.
  intros H. unfold occ. destruct (filter (λ x, x = w) l) as [|x k] eqn:E; [done|exfalso].
  assert (Hx : x ∈ filter (λ x, x = w) l) by (rewrite E; apply list_elem_of_here).
  by apply list_elem_of_filter in Hx as [-> ?].
Qed.
Lemma occ_pos w l : w ∈ l → 0 < occ w l.
Proof.
  intros H. unfold occ. assert (Hw : w ∈ filter (λ x, x = w) l) by by apply list_elem_of_filter.
  destruct (filter _ l); [by apply not_elem_of_nil in Hw|]. cbn. lia.
Qed.
Lemma default_occ c l w : counts_are c l → default 0 (c !! w) = occ w l.
Proof. intros H. rewrite H. case_decide; [done|]. cbn. symmetry. by apply occ_not_in. Qed.

Lemma counts_nil : counts_are ∅ [].
Proof. intros w. rewrite lookup_empty, decide_False; [done|apply not_elem_of_nil]. Qed.

Lemma zlen_cons {A} (x : A) l : zlen (x :: l) = 1 + zlen l.
Proof. unfold zlen. cbn [length]. lia. Qed.

(** ** Counting *)

Lemma count_word_spec w c l : counts_are c l → zlen l + 1 < 2 ^ 32 →
  ∃ c', count_word w c = Ret c' ∧ counts_are c' (l ++ [w]).
Proof.
  intros Hc Hl. unfold count_word. rewrite (default_occ c l w Hc). assert (Ho := occ_le w l).
  unfold fitsb. rewrite (proj2 (Z.leb_le _ _)), (proj2 (Z.ltb_lt _ _)) by lia. cbn [andb].
  eexists. split; [done|]. intros x. rewrite occ_app. destruct (decide (x = w)) as [->|Hne].
  - rewrite lookup_insert_eq, decide_True by set_solver. f_equal. f_equal.
    unfold occ. by rewrite filter_cons_True by done.
  - rewrite lookup_insert_ne, Hc by done. assert (occ x [w] = 0) as -> by (apply occ_not_in; set_solver).
    rewrite Z.add_0_r. destruct (decide (x ∈ l)).
    + by rewrite decide_True by set_solver.
    + by rewrite decide_False by set_solver.
Qed.

Lemma count_words_spec ws : ∀ c l, counts_are c l → zlen (l ++ ws) < 2 ^ 32 →
  ∃ c', count_words ws c = Ret c' ∧ counts_are c' (l ++ ws).
Proof.
  induction ws as [|w ws IH]; intros c l Hc Hl; cbn [count_words].
  - exists c. by rewrite app_nil_r.
  - rewrite zlen_app, zlen_cons in Hl. assert (H0 := zlen_nonneg ws).
    destruct (count_word_spec w c l Hc) as (c1 & -> & Hc1); [lia|].
    destruct (IH c1 (l ++ [w]) Hc1) as (c' & E & Hc'); [rewrite !zlen_app, zlen_cons; change (zlen []) with 0; lia|].
    exists c'. by rewrite <- app_assoc in Hc'.
Qed.

Section words.
Context {U : Unicode}.

Definition words_of (content : string) : list string := concat (map words_of_line (lines content)).

Lemma count_lines_spec ls : ∀ c l, counts_are c l → zlen (l ++ concat (map words_of_line ls)) < 2 ^ 32 →
  ∃ c', count_lines ls c = Ret c' ∧ counts_are c' (l ++ concat (map words_of_line ls)).
Proof.
  induction ls as [|line ls IH]; intros c l Hc Hl; cbn [count_lines map concat] in *.
  - exists c. by rewrite app_nil_r.
  - rewrite !zlen_app in Hl. assert (H0 := zlen_nonneg (concat (map words_of_line ls))).
    destruct (count_words_spec (words_of_line line) c l Hc) as (c1 & -> & Hc1); [rewrite zlen_app; lia|].
    destruct (IH c1 _ Hc1) as (c' & E & Hc'); [rewrite !zlen_app; lia|].
    exists c'. by rewrite <- app_assoc in Hc'.
Qed.

(** ** The sum of the counts *)

Definition total (c : Counts) : Z := foldr (λ p t, p.2 + t) 0 (map_to_list c).
Lemma total_perm (l k : list (string * Z)) : l ≡ₚ k →
  foldr (λ p t, p.2 + t) 0 l = foldr (λ p t, p.2 + t) 0 k.
Proof. induction 1; cbn; lia. Qed.
Lemma total_insert c w v : c !! w = None → total (<[w := v]> c) = v + total c.
Proof. intros H. unfold total. by rewrite (total_perm _ _ (map_to_list_insert _ _ _ H)). Qed.

(** Filtering out a word takes its occurrences away. *)
Lemma counts_delete c l w : counts_are c l → counts_are (delete w c) (filter (λ x, x ≠ w) l).
Proof.
  intros Hc x. destruct (decide (x = w)) as [->|Hne].
  - rewrite lookup_delete_eq, decide_False; [done|]. by intros [? _]%list_elem_of_filter.
  - rewrite lookup_delete_ne, Hc by done. unfold occ.
    assert (filter (λ y, y = x) (filter (λ y, y ≠ w) l) = filter (λ y, y = x) l) as ->.
    { rewrite list_filter_filter. apply list_filter_iff. intros y. naive_solver. }
    destruct (decide (x ∈ l)) as [Hx|Hx].
    + by rewrite decide_True by by apply list_elem_of_filter.
    + by rewrite decide_False by by intros [_ ?]%list_elem_of_filter.
Qed.
Lemma length_without w l : zlen l = occ w l + zlen (filter (λ x, x ≠ w) l).
Proof.
  unfold occ, zlen. induction l as [|x l IH]; [done|]. destruct (decide (x = w)) as [->|Hne].
  - rewrite filter_cons_True, filter_cons_False by naive_solver. cbn [length]. lia.
  - rewrite filter_cons_False, filter_cons_True by naive_solver. cbn [length]. lia.
Qed.

Lemma total_counts : ∀ n l c, (length l < n)%nat → counts_are c l → total c = zlen l.
Proof.
  induction n as [|n IH]; intros l c Hl Hc; [lia|]. destruct l as [|w l].
  - assert (c = ∅) as ->; [|done]. apply map_eq. intros x. rewrite Hc, lookup_empty.
    by rewrite decide_False by apply not_elem_of_nil.
  - assert (Hin : c !! w = Some (occ w (w :: l))) by (rewrite Hc, decide_True; [done|apply list_elem_of_here]).
    rewrite <- (insert_delete_id c w _ Hin), total_insert by apply lookup_delete_eq.
    rewrite (IH (filter (λ x, x ≠ w) (w :: l))).
    + symmetry. apply length_without.
    + assert (H := length_without w (w :: l)). unfold zlen in H.
      assert (H1 := occ_pos w (w :: l) (list_elem_of_here _ _)). cbn [length] in *. lia.
    + by apply counts_delete.
Qed.

Lemma sum_values_spec vs : ∀ t, Forall (λ v, 0 ≤ v) vs → 0 ≤ t → foldr Z.add t vs < 2 ^ 32 →
  sum_values vs t = Ret (foldr Z.add t vs).
Proof.
  induction vs as [|v vs IH]; intros t Hv Ht Hs; [done|]. cbn [sum_values foldr] in *.
  apply Forall_cons in Hv as [Hv Hvs].
  assert (Hge : ∀ u, foldr Z.add u vs = u + foldr Z.add 0 vs) by (intros u; clear; induction vs; cbn; lia).
  assert (H0 : 0 ≤ foldr Z.add 0 vs) by (clear -Hvs; induction Hvs; cbn; lia).
  rewrite Hge in Hs. unfold fitsb. rewrite (proj2 (Z.leb_le _ _)), (proj2 (Z.ltb_lt _ _)) by lia. cbn [andb].
  rewrite IH; [|done|lia|rewrite Hge; lia]. f_equal. rewrite (Hge (t + v)), (Hge t). lia.
Qed.
End words.

Section order.
Context {U : Unicode} {HO : HashOrder}.

Lemma entries_in c w v : (w, v) ∈ entries c ↔ c !! w = Some v.
Proof. by rewrite entries_perm, elem_of_map_to_list. Qed.
Lemma entries_nodup c : NoDup (entries c).*1.
Proof. rewrite (fmap_Permutation fst _ _ (entries_perm c)). apply NoDup_fst_map_to_list. Qed.
Lemma entries_map c : (list_to_map (entries c) : Counts) = c.
Proof.
  etrans; [|apply list_to_map_to_list]. apply list_to_map_proper; [apply entries_nodup|apply entries_perm].
Qed.

Lemma sum_counts c l : counts_are c l → zlen l < 2 ^ 32 →
  sum_values (map snd (entries c)) 0 = Ret (zlen l).
Proof.
  intros Hc Hl. assert (Ht := total_counts (Datatypes.S (length l)) l c ltac:(lia) Hc).
  assert (Hf : foldr Z.add 0 (map snd (entries c)) = zlen l).
  { rewrite <- Ht. unfold total. rewrite <- (total_perm _ _ (entries_perm c)).
    induction (entries c) as [|p ps IH]; [done|]. cbn. by rewrite IH. }
  rewrite sum_values_spec, Hf; [done| |lia|by rewrite Hf].
  apply Forall_forall. intros v ([w v'] & -> & Hin)%list_elem_of_fmap_1. apply entries_in in Hin.
  rewrite Hc in Hin. case_decide; [|done]. injection Hin as <-. cbn. apply occ_le.
Qed.

(** ** Dealing the counts out *)

Lemma chars_lt : ∀ n l, (length l < n)%nat → Forall (λ b, 0 ≤ b < 256) l →
  Forall (λ c, c < 2 ^ 23) (chars l).
Proof.
  induction n as [|n IH]; intros l Hn Hl; [lia|]. destruct l as [|a l]; [done|].
  apply Forall_cons in Hl as [Ha Hl]. cbn [chars length] in *.
  destruct (a <? 128); [constructor; [lia|apply IH; [lia|done]]|].
  destruct l as [|b l]; [done|]. apply Forall_cons in Hl as [Hb Hl]. cbn [length] in Hn.
  destruct (a <? 224); [constructor; [lia|apply IH; [lia|done]]|].
  destruct l as [|c l]; [done|]. apply Forall_cons in Hl as [Hc Hl]. cbn [length] in Hn.
  destruct (a <? 240); [constructor; [lia|apply IH; [lia|done]]|].
  destruct l as [|d l]; [done|]. apply Forall_cons in Hl as [Hd Hl]. cbn [length] in Hn.
  constructor; [lia|apply IH; [lia|done]].
Qed.
Lemma to_bytes_range s : Forall (λ b, 0 ≤ b < 256) (to_bytes s).
Proof.
  unfold to_bytes. apply Forall_forall. intros b (c & -> & _)%list_elem_of_fmap_1.
  unfold code. assert (H := N_ascii_bounded c). lia.
Qed.

(** A word all of whose characters are letters or digits. *)
Definition is_word (w : string) : Prop := forallb is_alphanumeric (chars (to_bytes w)) = true.

Lemma words_are_words content w : w ∈ words_of content → is_word w.
Proof.
  intros (l & (line & -> & _)%list_elem_of_fmap_1 & Hw)%elem_of_concat. unfold words_of_line in Hw.
  apply list_elem_of_In, filter_In in Hw as [_ Hw]. exact Hw.
Qed.

Lemma getidx_ok w m : is_word w → 0 < m < 2 ^ 58 → ∃ i, getidx w m = Ret i ∧ 0 ≤ i < m.
Proof.
  intros Hw Hm. unfold getidx. assert (Hc : Forall (λ c, 0 ≤ c < 2 ^ 23) (chars (to_bytes w))).
  { assert (Hlt := chars_lt _ (to_bytes w) (Nat.lt_succ_diag_r _) (to_bytes_range w)).
    rewrite Forall_forall in *. intros c Hin. split; [|by apply Hlt]. unfold is_word in Hw.
    rewrite forallb_forall in Hw. specialize (Hw c (proj1 (list_elem_of_In _ _) Hin)).
    unfold is_alphanumeric in Hw. destruct (Z.ltb_spec c 128); [|lia].
    rewrite !orb_true_iff, !andb_true_iff, !Z.leb_le in Hw. lia. }
  clear Hw. assert (H : ∀ h, 0 ≤ h < m → ∃ i, getidx_loop (chars (to_bytes w)) m h = Ret i ∧ 0 ≤ i < m).
  { induction (chars (to_bytes w)) as [|c cs IH]; intros h Hh; [by exists h|].
    apply Forall_cons in Hc as [Hc Hcs]. cbn [getidx_loop]. unfold fitsb.
    rewrite !(proj2 (Z.leb_le _ _)), !(proj2 (Z.ltb_lt _ _)), (proj2 (Z.eqb_neq _ _)) by lia. cbn [andb negb].
    apply IH; [done|]. apply Z.mod_pos_bound. lia. }
  apply H. lia.
Qed.

(** The reducer a word goes to. *)
Definition idx_of (m : Z) (w : string) : Z := match getidx w m with Ret i => i | _ => -1 end.
Lemma getidx_idx w m : is_word w → 0 < m < 2 ^ 58 → getidx w m = Ret (idx_of m w) ∧ 0 ≤ idx_of m w < m.
Proof. intros Hw Hm. unfold idx_of. by destruct (getidx_ok w m Hw Hm) as (i & -> & Hi). Qed.

Lemma shuffle_spec m : 0 < m < 2 ^ 58 → ∀ items bs, NoDup items.*1 → Forall is_word items.*1 →
  length bs = Z.to_nat m →
  ∃ bs', shuffle items m bs = Ret bs' ∧ length bs' = length bs ∧
    ∀ j b b' w, bs !! j = Some b → bs' !! j = Some b' →
      b' !! w = if decide (idx_of m w = Z.of_nat j ∧ w ∈ items.*1) then (list_to_map items : Counts) !! w else b !! w.
Proof.
  intros Hm. induction items as [|[w0 c0] items IH]; intros bs Hnd Hw Hl; cbn [shuffle].
  - exists bs. split; [done|]. split; [done|]. intros j b b' w -> [= ->].
    by rewrite decide_False by by intros [_ ?%not_elem_of_nil].
  - cbn [fmap list_fmap fst] in *. apply NoDup_cons in Hnd as [Hn Hnd]. apply Forall_cons in Hw as [Hw0 Hw].
    destruct (getidx_idx w0 m Hw0 Hm) as [-> Hi]. set (i := Z.to_nat (idx_of m w0)).
    destruct (lookup_lt_is_Some_2 bs i) as [b0 Hb0]; [lia|]. rewrite Hb0.
    destruct (IH (<[i := <[w0 := c0]> b0]> bs) Hnd Hw) as (bs' & E & Hl' & Hbs'); [by rewrite length_insert|].
    exists bs'. split; [done|]. rewrite length_insert in Hl'. split; [done|]. intros j b b' w Hb Hb'.
    assert (Hj : ∃ b1, <[i := <[w0 := c0]> b0]> bs !! j = Some b1 ∧
      ∀ x, b1 !! x = if decide (i = j ∧ x = w0) then Some c0 else b !! x).
    { destruct (decide (i = j)) as [<-|Hne].
      - eexists. split; [by apply list_lookup_insert_eq, (lookup_lt_Some _ _ _ Hb)|].
        intros x. rewrite Hb in Hb0. injection Hb0 as ->. destruct (decide (x = w0)) as [->|Hx].
        + by rewrite lookup_insert_eq, decide_True.
        + by rewrite lookup_insert_ne, decide_False by naive_solver.
      - exists b. rewrite list_lookup_insert_ne by done. split; [done|]. intros x.
        by rewrite decide_False by naive_solver. }
    destruct Hj as (b1 & Hb1 & Hx). rewrite (Hbs' j b1 b' w Hb1 Hb'). rewrite list_to_map_cons.
    destruct (decide (w = w0)) as [->|Hne].
    + rewrite decide_False by naive_solver. rewrite Hx, lookup_insert_eq.
      destruct (decide (idx_of m w0 = Z.of_nat j)) as [Hij|Hij].
      * rewrite !decide_True; [done|split; [done|apply list_elem_of_here]|split; [unfold i; lia|done]].
      * rewrite !decide_False; [done|by intros [? _]|intros [Hij' _]; apply Hij; unfold i in Hij'; lia].
    + rewrite lookup_insert_ne by done. rewrite Hx, (decide_False (P := i = j ∧ w = w0)) by naive_solver.
      destruct (decide (idx_of m w = Z.of_nat j ∧ w ∈ items.*1)) as [[H1 H2]|H].
      * rewrite decide_True; [done|]. split; [done|]. by apply list_elem_of_further.
      * rewrite decide_False; [done|]. intros [H1 [H2|H2]%elem_of_cons]; [done|]. by apply H.
Qed.

(** The words of [l] that go to reducer [j]. *)
Definition dealt (m : Z) (j : nat) (l : list string) : list string := filter (λ w, idx_of m w = Z.of_nat j) l.

Lemma occ_dealt m j w l : idx_of m w = Z.of_nat j → occ w (dealt m j l) = occ w l.
Proof.
  intros H. unfold occ, dealt. rewrite list_filter_filter. f_equal. f_equal. apply list_filter_iff. naive_solver.
Qed.

(** A mapper's buffers count the words dealt to their reducers. *)
Lemma shuffle_counts c l m : counts_are c l → Forall is_word l → 0 < m < 2 ^ 58 →
  ∃ bs, shuffle (entries c) m (replicate (Z.to_nat m) ∅) = Ret bs ∧ length bs = Z.to_nat m ∧
    ∀ j b, bs !! j = Some b → counts_are b (dealt m j l).
Proof.
  intros Hc Hw Hm. assert (Hkeys : ∀ w, w ∈ (entries c).*1 ↔ w ∈ l).
  { intros w. split.
    - intros ([w' v] & -> & Hin%entries_in)%list_elem_of_fmap_1. rewrite Hc in Hin. by case_decide.
    - intros Hin. apply (list_elem_of_fmap_2 fst _ (w, occ w l)), entries_in. by rewrite Hc, decide_True. }
  destruct (shuffle_spec m Hm (entries c) (replicate (Z.to_nat m) ∅) (entries_nodup c)) as (bs & E & Hl & Hbs).
  - apply Forall_forall. intros w Hin%Hkeys. rewrite Forall_forall in Hw. by apply Hw.
  - apply length_replicate.
  - exists bs. rewrite length_replicate in Hl. split; [done|]. split; [done|]. intros j b Hb w.
    assert (Hj := lookup_lt_Some _ _ _ Hb).
    assert (Hr : replicate (Z.to_nat m) (∅ : Counts) !! j = Some ∅) by (apply lookup_replicate_2; lia).
    rewrite (Hbs j ∅ b w Hr Hb), entries_map, lookup_empty.
    unfold dealt at 1. destruct (decide (idx_of m w = Z.of_nat j ∧ w ∈ (entries c).*1)) as [[H1 H2%Hkeys]|H].
    + rewrite Hc, !decide_True; [by rewrite occ_dealt|by apply list_elem_of_filter|done].
    + rewrite decide_False; [done|]. intros [H1 H2]%list_elem_of_filter. apply H. by rewrite Hkeys.
Qed.

(** ** Adding up *)

Lemma add_counts_spec items : ∀ counter, NoDup items.*1 →
  (∀ w c, (w, c) ∈ items → fits 32 (default 0 (counter !! w) + c)) →
  ∃ counter', add_counts items counter = Ret counter' ∧
    ∀ w, counter' !! w = match (list_to_map items : Counts) !! w with
                         | Some c => Some (default 0 (counter !! w) + c)
                         | None => counter !! w
                         end.
Proof.
  induction items as [|[w0 c0] items IH]; intros counter Hnd Hf; cbn [add_counts].
  - exists counter. split; [done|]. intros w. by rewrite list_to_map_nil, lookup_empty.
  - cbn [fmap list_fmap fst] in *. apply NoDup_cons in Hnd as [Hn Hnd].
    destruct (Hf w0 c0 (list_elem_of_here _ _)) as [H1 H2]. unfold fitsb.
    rewrite (proj2 (Z.leb_le _ _)), (proj2 (Z.ltb_lt _ _)) by lia. cbn [andb].
    destruct (IH (<[w0 := default 0 (counter !! w0) + c0]> counter) Hnd) as (c' & E & Hc').
    { intros w c Hin. rewrite lookup_insert_ne; [by apply Hf, list_elem_of_further|].
      intros <-. apply Hn. by apply (list_elem_of_fmap_2 fst _ (w0, c)). }
    exists c'. split; [done|]. intros w. rewrite Hc'. rewrite list_to_map_cons.
    destruct (decide (w = w0)) as [->|Hne].
    + rewrite lookup_insert_eq. rewrite (not_elem_of_list_to_map_1 items w0 Hn). by rewrite lookup_insert_eq.
    + by rewrite !lookup_insert_ne by done.
Qed.

Lemma add_counts_are c l c2 l2 : counts_are c l → counts_are c2 l2 → zlen l + zlen l2 < 2 ^ 32 →
  ∃ c', add_counts (entries c2) c = Ret c' ∧ counts_are c' (l ++ l2).
Proof.
  intros Hc Hc2 Hl. destruct (add_counts_spec (entries c2) c (entries_nodup c2)) as (c' & E & Hc').
  { intros w v Hin%entries_in. rewrite (default_occ c l w Hc). rewrite Hc2 in Hin.
    case_decide; [|done]. injection Hin as <-. assert (H1 := occ_le w l). assert (H2 := occ_le w l2).
    split; lia. }
  exists c'. split; [done|]. intros w. rewrite Hc', entries_map, Hc2, occ_app, (default_occ c l w Hc).
  destruct (decide (w ∈ l2)) as [H2|H2].
  - by rewrite decide_True by set_solver.
  - rewrite Hc, (occ_not_in w l2 H2), Z.add_0_r. destruct (decide (w ∈ l)).
    + by rewrite decide_True by set_solver.
    + by rewrite decide_False by set_solver.
Qed.
End order.
