(* ===== verification/WordCountFlow.v ===== *)
(** * The words are counted

    Mappers and reducers as the visor runs them: under every schedule the reducers'
    counters are, together, how often each word is in the files, each word at the
    reducer its hash names. *)
From Stdlib Require Import Ascii String.
From S2P Require Import Prelude Bytes Hostcall Ipv4 Text Threads Visor AsStdSpec Slots Contracts Entry.
From S2P Require Import WordCount WordCountSpec.
Local Open Scope Z_scope.

(** ** The names of the slots *)

Inductive Pair : Type := NShuffle (i j : Z).
Definition pair_slot (p : Pair) : string := let '(NShuffle i j) := p in pretty i +:+ "-" +:+ pretty j.
Definition pair_nonneg (p : Pair) : Prop := let '(NShuffle i j) := p in 0 ≤ i ∧ 0 ≤ j.

Lemma pair_slot_inj p q : pair_nonneg p → pair_nonneg q → pair_slot p = pair_slot q → p = q.
Proof.
  assert (Hs : ∀ i j, 0 ≤ i → 0 ≤ j → split "-" (pair_slot (NShuffle i j)) = [pretty i; pretty j]).
  { intros i j Hi Hj. change (pair_slot (NShuffle i j)) with (pretty i +:+ String "-" (pretty j)).
    rewrite split_app by by apply pretty_free. by rewrite split_free by by apply pretty_free. }
  destruct p as [i j], q as [i' j']. intros [Hi Hj] [Hi' Hj'] H. apply (f_equal (split "-")) in H.
  rewrite !Hs in H by done. by simplify_eq.
Qed.
#[export] Instance pair_names : SlotNames Pair :=
  {| slot_name := pair_slot; nonneg := pair_nonneg; slot_name_inj := pair_slot_inj |}.

(** ** The contracts *)

Definition input_file (i : nat) : string := "fake_data_" +:+ pretty (Z.of_nat i) +:+ ".txt".

Definition mapper_contract (m i : nat) (bs : list Counts) : contract Counts Pair (result () string) :=
  let id := Z.of_nat i in
  mk_contract (map (λ j, (NShuffle id j, Empty)) (seqZ 0 (Z.of_nat m))) (Ret (Ok ()))
    (map (λ '(j, b), (NShuffle id j, Full b)) (imap (λ j b, (Z.of_nat j, b)) bs)).
Definition reducer_contract {R} (n j : nat) (bufs : Z → Counts) (out : R) : contract Counts Pair R :=
  mk_contract (map (λ i, (NShuffle i (Z.of_nat j), Full (bufs i))) (seqZ 0 (Z.of_nat n))) (Ret out) [].

Lemma pairs_wf {A R} (f : A → Pair) (g : A → SlotState Counts) l (o : outcome R) leaves :
  NoDup l → (∀ a b, f a = f b → a = b) → (∀ a, a ∈ l → nonneg (f a)) →
  leaves.*1 ⊆ map f l → well_formed (mk_contract (map (λ a, (f a, g a)) l) o leaves).
Proof.
  intros Hnd Hinj Hnn Hl. unfold well_formed, names. cbn [Contracts.needs Contracts.leaves]. rewrite names_map.
  split_and!; [by apply NoDup_map|by apply Forall_map_nonneg|done].
Qed.
Lemma mapper_wf m i bs : length bs = m → well_formed (mapper_contract m i bs).
Proof.
  intros Hm. apply pairs_wf; [apply NoDup_seqZ|congruence|by intros j Hj%elem_of_seqZ; cbn; lia|].
  intros nm ([nm' st] & -> & Hin)%list_elem_of_fmap_1.
  apply list_elem_of_fmap_1 in Hin as ([j p] & [= -> ->] & Hin).
  apply list_elem_of_lookup_1 in Hin as [k Hk]. rewrite list_lookup_imap in Hk.
  destruct (bs !! k) as [p'|] eqn:Ek; [|done]. injection Hk as <- <-. apply lookup_lt_Some in Ek.
  apply (list_elem_of_fmap_2 (NShuffle (Z.of_nat i))), elem_of_seqZ. lia.
Qed.
Lemma reducer_wf {R} n j bufs (out : R) : well_formed (reducer_contract n j bufs out).
Proof.
  apply (pairs_wf (λ i, NShuffle i (Z.of_nat j)));
    [apply NoDup_seqZ|congruence|by intros i Hi%elem_of_seqZ; cbn; lia|by intros nm ?%not_elem_of_nil].
Qed.

(** Maps that count words of [l]. *)
Definition small_counts (l : list string) (c : Counts) : Prop :=
  ∀ w v, c !! w = Some v → w ∈ l ∧ fits 32 v.

Section meets.
Context {S : Type} {SL : Slots S Counts} {SLS : SlotsSpec S Counts}.
Context {FL : Files S} {T : gmap string string} {FSp : FilesSpec S Counts T}.
Context {U : Unicode} {HO : HashOrder}.

Lemma done_bind {A B} (a : A) (f : A → thread S B) : Done (Ret a) ≫= f = f a.
Proof. done. Qed.

(** What a mapper computes from its file. *)
Lemma mapper_computes m content : 0 < m < 2 ^ 58 → zlen (words_of content) < 2 ^ 32 →
  ∃ c bs, count_lines (lines content) ∅ = Ret c ∧
    sum_values (map snd (entries c)) 0 = Ret (zlen (words_of content)) ∧
    shuffle (entries c) m (replicate (Z.to_nat m) ∅) = Ret bs ∧ length bs = Z.to_nat m ∧
    ∀ j b, bs !! j = Some b → counts_are b (dealt m j (words_of content)).
Proof.
  intros Hm Hw. destruct (count_lines_spec (lines content) ∅ [] counts_nil Hw) as (c & Ec & Hc).
  destruct (shuffle_counts c (words_of content) m Hc) as (bs & Eb & Hl & Hb); [|done|].
  { apply Forall_forall. intros w. apply words_are_words. }
  exists c, bs. split; [done|]. split; [by apply sum_counts|done].
Qed.

Lemma dealt_small m j l b : zlen l < 2 ^ 32 → counts_are b (dealt m j l) → small_counts l b.
Proof.
  intros Hl Hb w v Hv. rewrite Hb in Hv. case_decide as Hin; [|done]. injection Hv as <-.
  apply list_elem_of_filter in Hin as [Hi Hin]. split; [done|]. rewrite occ_dealt by done.
  assert (H := occ_le w l). split; lia.
Qed.

Lemma mapper_meets m i content c bs args :
  fits 64 (Z.of_nat m) → T !! input_file i = Some content → zlen (words_of content) < 2 ^ 32 →
  count_lines (lines content) ∅ = Ret c →
  sum_values (map snd (entries c)) 0 = Ret (zlen (words_of content)) →
  shuffle (entries c) (Z.of_nat m) (replicate (Z.to_nat (Z.of_nat m)) ∅) = Ret bs → length bs = m →
  (∀ j b, bs !! j = Some b → counts_are b (dealt (Z.of_nat m) j (words_of content))) →
  args !! "id" = Some (pretty (Z.of_nat i)) → args !! "reducer_num" = Some (pretty (Z.of_nat m)) →
  (∀ c, small_counts (words_of content) c → good c) →
  meets (m + 1) (mapper_contract m i bs) (mapper (btree_items args)).
Proof.
  intros Hm HT Hw Ec Es Eb Hl Hb Hid Hrn Hg v Hv.
  assert (Hf := contract_names _ (mapper_wf m i bs Hl)).
  set (own := owned _) in *. cbn [needs gives leaves mapper_contract] in *.
  unfold mapper. rewrite arg_lookup, Hid, (arg_num_lookup 64 _ _ _ Hm Hrn).
  cbn [get_or_panic]. rewrite !ret_bind. unfold mapper_func. rewrite Nat.add_1_r.
  apply (twp_read (T := T) m own (input_file i) content); [done|]. intros v1 Hv1.
  rewrite Ec, done_bind, Es, done_bind, Eb, done_bind.
  set (items := imap (λ j b, (Z.of_nat j, b)) bs).
  assert (Hsplit : map (λ j, (NShuffle (Z.of_nat i) j, Empty : SlotState Counts)) (seqZ 0 (Z.of_nat m)) =
    map (λ a, (NShuffle (Z.of_nat i) a.1, Empty)) items ++ []).
  { rewrite (numbered_parts bs m) by lia. unfold zlen. rewrite Hl, Z.sub_diag. rewrite app_nil_r.
    change (seqZ _ 0) with (@nil Z). by rewrite app_nil_r, map_map. }
  assert (Hv2 : holds (map (λ a, (NShuffle (Z.of_nat i) a.1, Empty : SlotState Counts)) items ++ []) v1).
  { rewrite <- Hsplit. intros nm st Hnm. rewrite Hv1; [by apply Hv|]. apply Hf.
    by apply (list_elem_of_fmap_2 fst _ (nm, st)). }
  assert (Hf2 : facts_of own (map (λ a, (NShuffle (Z.of_nat i) a.1, Empty : SlotState Counts)) items ++ [])).
  { rewrite <- Hsplit. exact Hf. }
  erewrite for_each_ext.
  2: { intros [j p]. instantiate (1 := λ a, publish (slot_name (NShuffle (Z.of_nat i) a.1)) a.2).
       cbn. f_equal. unfold numbered. by rewrite <- !string_assoc. }
  assert (Hlen : length items = m) by (unfold items; rewrite length_imap; done).
  rewrite <- Hlen, <- (Nat.add_0_r (length items)).
  apply (twp_publish_each 0 own (λ a, NShuffle (Z.of_nat i) a.1) (λ a, a.2) _ _ _ [] _); [|exact Hf2|exact Hv2|].
  - intros [j p] (k & Hk)%list_elem_of_lookup. unfold items in Hk. rewrite list_lookup_imap in Hk.
    destruct (bs !! k) as [p'|] eqn:Ek; [|done]. injection Hk as <- <-.
    apply Hg. apply (dealt_small (Z.of_nat m) k); [done|by apply Hb].
  - intros v3 Hv3. apply twp_ret. split; [done|]. eapply holds_sub; [|exact Hv3]. rewrite app_nil_r.
    intros [nm st] H. apply list_elem_of_fmap_1 in H as ([j p] & E & H). rewrite E.
    by apply (list_elem_of_fmap_2 (λ a : Z * Counts, (NShuffle (Z.of_nat i) a.1, Full a.2)) _ (j, p)).
Qed.

(** ** The reducers *)

Lemma twp_reduce own j (b : Z → Counts) (ls : Z → list string) : ∀ xs counter l v,
  let ns := map (λ i, (NShuffle i j, Full (b i))) xs in
  facts_of own ns → holds ns v → counts_are counter l → (∀ i, i ∈ xs → counts_are (b i) (ls i)) →
  zlen (l ++ concat (map ls xs)) < 2 ^ 32 →
  twp (length xs) own (reduce_loop j xs counter)
    (λ o v', ∃ c, o = Ret c ∧ counts_are c (l ++ concat (map ls xs))) v.
Proof.
  induction xs as [|i xs IH]; intros counter l v ns Hf Hv Hc Hb Hz; cbn [reduce_loop length].
  - apply twp_ret. exists counter. by rewrite app_nil_r.
  - apply (twp_take_fact _ own (NShuffle i j) (b i) _ _ _ _ Hf Hv). intros v1 Hv1. cbn [get_or_panic].
    rewrite ret_bind. cbn [map concat] in Hz. rewrite !zlen_app in Hz.
    assert (H0 := zlen_nonneg (concat (map ls xs))).
    destruct (add_counts_are counter l (b i) (ls i) Hc) as (c1 & -> & Hc1);
      [by apply Hb, list_elem_of_here|lia|].
    rewrite done_bind. cbn [map concat]. rewrite app_assoc. apply IH; try done.
    + exact (facts_tail _ _ _ _ Hf).
    + intros i' Hi'. by apply Hb, list_elem_of_further.
    + rewrite !zlen_app. lia.
Qed.

Lemma counts_unique c c' l : counts_are c l → counts_are c' l → c = c'.
Proof. intros H H'. apply map_eq. intros w. by rewrite H, H'. Qed.

Lemma reducer_counts_meets n j b ls out args :
  fits 64 (Z.of_nat n) → fits 64 (Z.of_nat j) → args !! "id" = Some (pretty (Z.of_nat j)) →
  args !! "mapper_num" = Some (pretty (Z.of_nat n)) →
  (∀ i, i ∈ seqZ 0 (Z.of_nat n) → counts_are (b i) (ls i)) →
  zlen (concat (map ls (seqZ 0 (Z.of_nat n)))) < 2 ^ 32 →
  counts_are out (concat (map ls (seqZ 0 (Z.of_nat n)))) →
  meets n (reducer_contract n j b out) (reducer_counts (btree_items args)).
Proof.
  intros Hn Hj Hid Hmn Hb Hz Hout v Hv. assert (Hf := contract_names _ (reducer_wf n j b out)).
  set (own := owned _) in *. cbn [needs gives leaves reducer_contract] in *.
  unfold reducer_counts. rewrite arg_lookup, Hid, (arg_num_lookup 64 _ _ _ Hn Hmn). cbn [get_or_panic].
  rewrite ret_bind. unfold parse_u64. rewrite parse_uint_pretty by done. cbn [get_or_panic]. rewrite !ret_bind.
  assert (Hln : length (seqZ 0 (Z.of_nat n)) = n) by (rewrite length_seqZ; lia).
  rewrite <- Hln at 1. eapply twp_mono; [done| |].
  2: { apply (twp_reduce own (Z.of_nat j) b ls _ ∅ [] v Hf Hv counts_nil Hb Hz). }
  cbn beta. intros o v' (c & -> & Hc). split; [|by intros nm st ?%not_elem_of_nil].
  f_equal. by eapply counts_unique.
Qed.
Lemma reducer_meets n j b out args : meets n (reducer_contract n j b out) (reducer_counts (btree_items args)) →
  meets n (reducer_contract n j b (Ok ())) (reducer (btree_items args)).
Proof.
  intros H v Hv. unfold reducer.
  eapply (twp_mono _ _ _ _ (n + 0) n); [lia|intros o v' Hq; exact Hq|]. apply twp_bind.
  apply (twp_mono _ _ (λ o v', o = Ret out ∧ holds (Name := Pair) [] v') _ n n); [lia| |exact (H v Hv)].
  intros o v' [-> _]. apply twp_ret. split; [done|].
  by intros nm st ?%not_elem_of_nil.
Qed.
End meets.

(** ** The whole workflow *)
Section count.
Context {S : Type} {SL : Slots S Counts} {SLS : SlotsSpec S Counts}.
Context {FL : Files S} {T : gmap string string} {FSp : FilesSpec S Counts T}.
Context {U : Unicode} {HO : HashOrder}.
Context (n m : nat) (contents : nat → string).
Context {St : Type} {run_group : list nat → Config.IsolationGroup → prog St (result () string)}.
Context {RG : RunsGroups count_code run_group}.
Context (args_fit : ∀ g, g ∈ count_groups n m → Forall takes (Config.group_to_isolation g)).

Definition all_words : list string := concat (map (λ i, words_of (contents i)) (seq 0 n)).

(** The input files are there, and the numbers keep clear of overflow. *)
Record count_plan : Prop := mk_count_plan {
  mappers_fit : fits 64 (Z.of_nat n);
  reducers_fit : 0 < Z.of_nat m < 2 ^ 58;
  words_fit : zlen all_words < 2 ^ 32;
  texts_there : ∀ i, (i < n)%nat → T !! input_file i = Some (contents i);
  counts_good : ∀ c, small_counts all_words c → good c
}.

(** The reducers of the group, up to their counters. *)
Definition counters_of : list (thread S Counts) :=
  map (λ a, reducer_counts (btree_items a.(Config.args))) (Config.group_to_isolation (reducer_group n m)).

Lemma own_words i : (i < n)%nat → words_of (contents i) ⊆ all_words ∧
  (length (words_of (contents i)) ≤ length all_words)%nat.
Proof.
  intros Hi. assert (Hin : words_of (contents i) ∈ map (λ i, words_of (contents i)) (seq 0 n))
    by (apply elem_of_map_seq; by exists i).
  split; [|by apply length_concat_in]. intros w Hw. apply elem_of_concat. by exists (words_of (contents i)).
Qed.

Lemma mapper_choice i : count_plan → (i < n)%nat →
  ∃ bs, length bs = m ∧
    (∀ j b, bs !! j = Some b → counts_are b (dealt (Z.of_nat m) j (words_of (contents i)))) ∧
    ∀ args : gmap string string, args !! "id" = Some (pretty (Z.of_nat i)) →
      args !! "reducer_num" = Some (pretty (Z.of_nat m)) →
      meets (S := S) (m + 1) (mapper_contract m i bs) (mapper (btree_items args)).
Proof.
  intros H Hi. destruct (own_words i Hi) as [Hsub Hle].
  assert (Hlw : zlen (words_of (contents i)) < 2 ^ 32) by (assert (Hw := words_fit H); unfold zlen in *; lia).
  destruct (mapper_computes (Z.of_nat m) (contents i) (reducers_fit H) Hlw) as (c & bs & Hc).
  exists bs. destruct Hc as (Ec & Es & Eb & Hl & Hb). rewrite Nat2Z.id in Hl. split; [done|]. split; [done|].
  intros args Hid Hrn. eapply (mapper_meets (T := T)); try done; [assert (Hm := reducers_fit H); unfold fits; lia|by apply H|].
  intros c' Hc'. apply (counts_good H). intros w v Hwv. destruct (Hc' w v Hwv). split; [by apply Hsub|done].
Qed.

Lemma mappers_done s sched k : count_plan → (∀ i, (i < n)%nat → (m + 1 + extra ≤ turns i sched)%nat) →
  ready (length sched + k) s → (∀ p, nonneg p → at_slot (view s) (slot_name p) = Empty) →
  ∃ s' (bss : list (list Counts)), run_group sched (mapper_group n m) s = (Ret (Ok ()), s') ∧
    ready k s' ∧ length bss = n ∧ ∀ i bs, bss !! i = Some bs → length bs = m ∧ ∀ j b, bs !! j = Some b →
      counts_are b (dealt (Z.of_nat m) j (words_of (contents i))) ∧
      at_slot (view s') (slot_name (NShuffle (Z.of_nat i) (Z.of_nat j))) = Full b.
Proof.
  intros H Hturns Hk Hfresh.
  destruct (choose_each (λ i bs, length bs = m ∧
      (∀ j b, bs !! j = Some b → counts_are b (dealt (Z.of_nat m) j (words_of (contents i)))) ∧
      ∀ args : gmap string string, args !! "id" = Some (pretty (Z.of_nat i)) →
        args !! "reducer_num" = Some (pretty (Z.of_nat m)) →
        meets (m + 1) (mapper_contract m i bs) (mapper (btree_items args))) n) as (bss & Hl & Hbss).
  { intros i Hi. apply mapper_choice; done. }
  set (K i := mapper_contract m i (default [] (bss !! i))).
  destruct (group_succeeds (run_group := run_group) (mapper_group n m) (map K (seq 0 n)) (m + 1) sched s k) as (s' & E & Hk' & Hlv & Hf).
  - apply Forall_forall. intros c (i & Hi & ->)%elem_of_map_seq. unfold K.
    destruct (lookup_lt_is_Some_2 bss i) as [bs Eb]; [lia|]. rewrite Eb. by apply mapper_wf, (Hbss i bs).
  - intros i j c c' nm Hi Hj Hne. apply lookup_map_seq in Hi as [Hi ->]. apply lookup_map_seq in Hj as [Hj ->].
    intros [st Hin]%in_names [st' Hin']%in_names. apply elem_of_map_pair in Hin as (x & _ & -> & _).
    apply elem_of_map_pair in Hin' as (y & _ & Exy & _). by simplify_eq.
  - apply Forall2_seq; [apply group_length|]. intros i a Ha.
    apply in_group in Ha as (Hi & Hnm & Hid & Hargs); [|done].
    unfold function_thread. rewrite Hnm. destruct (lookup_lt_is_Some_2 bss i) as [bs Eb]; [lia|].
    unfold K. rewrite Eb. cbn [default].
    refine (entry_meets (m + 1) true (mapper_contract m i bs) _ _). by apply (Hbss i bs Eb); [|rewrite Hargs].
  - apply args_fit. unfold count_groups. set_solver.
  - by intros c (i & _ & ->)%elem_of_map_seq.
  - by rewrite length_map, length_seq.
  - done.
  - intros c (i & Hi & ->)%elem_of_map_seq nm st Hin. apply elem_of_map_pair in Hin as (j & Hj & -> & ->).
    apply elem_of_seqZ in Hj. apply Hfresh. cbn; lia.
  - exists s', bss. split; [exact E|]. split; [done|]. split; [done|]. intros i bs Eb.
    destruct (Hbss i bs Eb) as (Hlb & Hb & _). split; [done|]. intros j b Hj. split; [by apply Hb|].
    apply (Hlv (K i)); [apply elem_of_map_seq; exists i; split; [|done]; apply lookup_lt_Some in Eb; lia|].
    unfold K. rewrite Eb. change (default [] (Some bs)) with bs. cbn [leaves mapper_contract].
    apply (list_elem_of_fmap_2 (λ '(j, b), (NShuffle (Z.of_nat i) j, Full b)) _ (Z.of_nat j, b)).
    apply (list_elem_of_lookup_2 _ j). by rewrite list_lookup_imap, Hj.
Qed.

Lemma dealt_all j : concat (map (λ i, dealt (Z.of_nat m) j (words_of (contents (Z.to_nat i)))) (seqZ 0 (Z.of_nat n))) =
  dealt (Z.of_nat m) j all_words.
Proof.
  unfold all_words, seqZ. rewrite Nat2Z.id, map_map. induction (seq 0 n) as [|i l IH]; [done|].
  cbn [map concat]. rewrite IH. unfold dealt. rewrite filter_app. do 3 f_equal. f_equal. lia.
Qed.

(** The counter reducer [j] ends with. *)
Lemma counter_exists j : count_plan → ∃ c, counts_are c (dealt (Z.of_nat m) j all_words).
Proof.
  intros H. destruct (count_words_spec (dealt (Z.of_nat m) j all_words) ∅ [] counts_nil) as (c & _ & Hc);
    [|by exists c]. assert (Hl := length_filter (λ w, idx_of (Z.of_nat m) w = Z.of_nat j) all_words).
  assert (Hw := words_fit H). unfold zlen in *. cbn [app]. unfold dealt. lia.
Qed.

Lemma counted_word c j w : counts_are c (dealt (Z.of_nat m) j all_words) →
  c !! w = if decide (w ∈ all_words ∧ idx_of (Z.of_nat m) w = Z.of_nat j) then Some (occ w all_words) else None.
Proof.
  intros Hc. rewrite Hc. destruct (decide (w ∈ dealt _ j all_words)) as [Hin|Hin].
  - apply list_elem_of_filter in Hin as [Hi Hin]. by rewrite decide_True, occ_dealt.
  - rewrite decide_False; [done|]. intros [Hw Hi]. by apply Hin, list_elem_of_filter.
Qed.

(** What the reducers find: each buffer counts the words dealt to it. *)
Definition buffers_there (s : S) (bss : list (list Counts)) : Prop :=
  length bss = n ∧ ∀ i bs, bss !! i = Some bs → length bs = m ∧ ∀ j b, bs !! j = Some b →
    counts_are b (dealt (Z.of_nat m) j (words_of (contents i))) ∧
    at_slot s (slot_name (NShuffle (Z.of_nat i) (Z.of_nat j))) = Full b.
Definition buffer (bss : list (list Counts)) (j : nat) (i : Z) : Counts :=
  default ∅ (default [] (bss !! Z.to_nat i) !! j).

Lemma buffer_there s bss i j : buffers_there s bss → 0 ≤ i < Z.of_nat n → (j < m)%nat →
  counts_are (buffer bss j i) (dealt (Z.of_nat m) j (words_of (contents (Z.to_nat i)))) ∧
  at_slot s (slot_name (NShuffle i (Z.of_nat j))) = Full (buffer bss j i).
Proof.
  intros [Hl Hb] Hi Hj. unfold buffer. destruct (lookup_lt_is_Some_2 bss (Z.to_nat i)) as [bs Ebs]; [lia|].
  rewrite Ebs. destruct (Hb _ _ Ebs) as [Hlb Hc]. change (default [] (Some bs)) with bs.
  destruct (lookup_lt_is_Some_2 bs j) as [b Eb]; [lia|]. rewrite Eb. cbn [from_option id].
  destruct (Hc j b Eb) as [H1 H2]. rewrite Z2Nat.id in H2 by lia. done.
Qed.

Lemma reducers_apart {R} (f : nat → Z → Counts) (g : nat → R) :
  apart (map (λ j, reducer_contract n j (f j) (g j)) (seq 0 m)).
Proof.
  intros i j c c' nm Hi Hj Hne. apply lookup_map_seq in Hi as [Hi ->]. apply lookup_map_seq in Hj as [Hj ->].
  intros [st Hin]%in_names [st' Hin']%in_names. apply elem_of_map_pair in Hin as (x & _ & -> & _).
  apply elem_of_map_pair in Hin' as (y & _ & Exy & _). by simplify_eq.
Qed.

Lemma reducers_meet s bss counters : count_plan → buffers_there s bss → length counters = m →
  (∀ j c, counters !! j = Some c → counts_are c (dealt (Z.of_nat m) j all_words)) →
  ∀ j a, Config.group_to_isolation (reducer_group n m) !! j = Some a →
  meets (S := S) n (reducer_contract n j (buffer bss j) (default ∅ (counters !! j)))
    (reducer_counts (btree_items a.(Config.args))) ∧ a.(Config.app_name) = "reducer" ∧ (j < m)%nat.
Proof.
  intros H Hb Hl Hc j a Ha. apply in_group in Ha as (Hj & Hnm & Hid & Hargs); [|done].
  split; [|done]. assert (Hm := reducers_fit H).
  apply (reducer_counts_meets n j (buffer bss j)
    (λ i, dealt (Z.of_nat m) j (words_of (contents (Z.to_nat i))))); try done.
  - apply H.
  - unfold fits; lia.
  - by rewrite Hargs.
  - intros i Hi%elem_of_seqZ. apply (buffer_there s bss i j Hb); lia.
  - rewrite dealt_all. assert (Hlf := length_filter (λ w, idx_of (Z.of_nat m) w = Z.of_nat j) all_words).
    assert (Hw := words_fit H). unfold zlen in *. unfold dealt. lia.
  - rewrite dealt_all. destruct (lookup_lt_is_Some_2 counters j) as [c Ec]; [lia|]. rewrite Ec. by apply Hc.
Qed.

Lemma reducers_need {R} s bss (g : nat → R) : buffers_there s bss →
  ∀ K, K ∈ map (λ j, reducer_contract n j (buffer bss j) (g j)) (seq 0 m) → holds K.(needs) (at_slot s).
Proof.
  intros Hb K (j & Hj & ->)%elem_of_map_seq nm st Hin. apply elem_of_map_pair in Hin as (i & Hi & -> & ->).
  apply elem_of_seqZ in Hi. apply (buffer_there s bss i j Hb); lia.
Qed.

(** The counters the reducers end with, and that they succeed. *)
Lemma counters_done s bss counters b k : count_plan → buffers_there s bss → length counters = m →
  (∀ j c, counters !! j = Some c → counts_are c (dealt (Z.of_nat m) j all_words)) →
  (∀ j, (j < m)%nat → (n ≤ turns j b)%nat) → able (length b + k) s →
  ∃ s', run_schedule b counters_of s = (map (λ c, Done (Ret c)) counters, s').
Proof.
  intros H Hb Hl Hc Ht Hk. assert (Hmeet := reducers_meet s bss counters H Hb Hl Hc).
  destruct (threads_meet (map (λ j, reducer_contract n j (buffer bss j) (default ∅ (counters !! j))) (seq 0 m))
    counters_of n b s k) as (s' & E & _); try done.
  - apply Forall_forall. intros K (j & _ & ->)%elem_of_map_seq. apply reducer_wf.
  - apply reducers_apart.
  - apply Forall2_seq; [unfold counters_of; rewrite length_map; apply group_length|].
    intros j t Ht'. apply list_lookup_fmap_Some in Ht' as (ap & -> & Hap). by apply Hmeet.
  - by rewrite length_map, length_seq.
  - by apply reducers_need.
  - exists s'. rewrite E. f_equal. rewrite map_map. cbn [gives reducer_contract]. apply list_eq. intros j.
    rewrite !list_lookup_fmap. destruct (decide (j < m)%nat).
    + rewrite lookup_seq_lt by done. destruct (lookup_lt_is_Some_2 counters j) as [c Ec]; [lia|].
      cbn. by rewrite Ec.
    + rewrite lookup_seq_ge, lookup_ge_None_2 by lia. done.
Qed.
Lemma reducers_done s bss counters b k : count_plan → buffers_there (view s) bss → length counters = m →
  (∀ j c, counters !! j = Some c → counts_are c (dealt (Z.of_nat m) j all_words)) →
  (∀ j, (j < m)%nat → (n + extra ≤ turns j b)%nat) → ready (length b + k) s →
  ∃ s', run_group b (reducer_group n m) s = (Ret (Ok ()), s') ∧ ready k s'.
Proof.
  intros H Hb Hl Hc Ht Hk. assert (Hmeet := reducers_meet (view s) bss counters H Hb Hl Hc).
  destruct (group_succeeds (run_group := run_group) (reducer_group n m)
    (map (λ j, reducer_contract n j (buffer bss j) (Ok () : result () string)) (seq 0 m)) n b s k)
    as (s' & E & Hk' & _); try done.
  - apply Forall_forall. intros K (j & _ & ->)%elem_of_map_seq. apply reducer_wf.
  - apply reducers_apart.
  - apply Forall2_seq; [apply group_length|]. intros j ap Hap. destruct (Hmeet j ap Hap) as (Hm & Hn & _).
    unfold function_thread. rewrite Hn. refine (entry_meets n true (reducer_contract n j (buffer bss j) (Ok ())) _ _). by eapply reducer_meets.
  - apply args_fit. unfold count_groups. set_solver.
  - by intros K (j & _ & ->)%elem_of_map_seq.
  - by rewrite length_map, length_seq.
  - by apply reducers_need.
  - by exists s'.
Qed.

Lemma count_workflow s a b k : count_plan → (∀ i, (i < n)%nat → (m + 1 + extra ≤ turns i a)%nat) →
  (∀ j, (j < m)%nat → (n + extra ≤ turns j b)%nat) → ready (length a + (length b + k)) s →
  (∀ p : Pair, nonneg p → at_slot (view s) (slot_name p) = Empty) →
  ∃ s1 s2 s3 counters, run_group a (mapper_group n m) s = (Ret (Ok ()), s1) ∧
    run_schedule b counters_of (view s1) = (map (λ c, Done (Ret c)) counters, s2) ∧
    run_workflow run_group [a; b] (count_groups n m) s = (Ret (Ok ()), s3) ∧ ready k s3 ∧ length counters = m ∧
    ∀ j c w, counters !! j = Some c →
      c !! w = if decide (w ∈ all_words ∧ idx_of (Z.of_nat m) w = Z.of_nat j)
               then Some (occ w all_words) else None.
Proof.
  intros H Ha Hb Hk Hfresh. destruct (mappers_done s a _ H Ha Hk Hfresh) as (s1 & bss & E1 & Hk1 & Hbss).
  destruct (choose_each (λ j c, counts_are c (dealt (Z.of_nat m) j all_words)) m)
    as (counters & Hl & Hc); [by intros j _; apply counter_exists|].
  destruct (counters_done (view s1) bss counters b k) as (s2 & E2); try done.
  { intros j Hj. specialize (Hb j Hj). lia. }
  { by apply ready_able. }
  destruct (reducers_done s1 bss counters b k) as (s3 & E3 & Hk3); try done.
  exists s1, s2, s3, counters. split; [done|]. split; [done|]. split; [|split; [done|split; [done|]]].
  - cbn [run_workflow count_groups]. unfold try_bind.
    by rewrite (bind_Ret _ _ _ _ _ E1), (bind_Ret _ _ _ _ _ E3).
  - intros j c w Hj. apply counted_word. by apply Hc.
Qed.
End count.

(** The words are counted: under every schedule with enough turns the word count
    succeeds, and the counter a reducer ends with has, for exactly the words of the
    input files whose hash names that reducer, how often each is in all the files
    together. *)
Theorem word_count {S} {SL : Slots S Counts} {SLS : SlotsSpec S Counts} {FL : Files S} {T}
    {FSp : FilesSpec S Counts T} {U : Unicode} {HO : HashOrder} n m contents (s : S) a b k :
  count_plan (T := T) n m contents → (∀ i, (i < n)%nat → (m + 1 ≤ turns i a)%nat) →
  (∀ j, (j < m)%nat → (n ≤ turns j b)%nat) → able (length a + (length b + k)) s →
  (∀ p : Pair, nonneg p → at_slot s (slot_name p) = Empty) →
  ∃ s1 s2 s3 counters, run_members count_code a (mapper_group n m) s = (Ret (Ok ()), s1) ∧
    run_schedule b (counters_of n m) s1 = (map (λ c, Done (Ret c)) counters, s2) ∧
    run_workflow (run_members count_code) [a; b] (count_groups n m) s = (Ret (Ok ()), s3) ∧ length counters = m ∧
    ∀ j c w, counters !! j = Some c →
      c !! w = if decide (w ∈ all_words n contents ∧ idx_of (Z.of_nat m) w = Z.of_nat j)
               then Some (occ w (all_words n contents)) else None.
Proof.
  intros H Ha Hb Hk Hfresh.
  destruct (count_workflow (T := T) (RG := members_run count_code) n m contents (λ _ _, Forall_true _ _ (λ _, I)) s a b k)
    as (s1 & s2 & s3 & counters & E1 & E2 & E3 & _ & Hc); try done.
  { intros i Hi. rewrite Nat.add_0_r. by apply Ha. }
  { intros j Hj. rewrite Nat.add_0_r. by apply Hb. }
  by exists s1, s2, s3, counters.
Qed.

(** ** A witness, on slots in memory *)
#[local] Existing Instance ascii_only.
#[local] Existing Instance map_order.

Definition word_texts (i : nat) : string := default "" (["a b"; "b  c"] !! i).
Definition word_files : gmap string string :=
  {[input_file 0 := word_texts 0; input_file 1 := word_texts 1]}.
Definition word_memory : Memory Counts := mk_memory word_files ∅.
Definition count_sched : list nat := [0; 1; 1; 0; 0; 1]%nat.

Lemma words_plan : @count_plan _ _ (mem_slots_spec word_files) word_files ascii_only 2 2 word_texts.
Proof.
  split; [split; [done|reflexivity]|split; [done|reflexivity]|reflexivity| |done].
  intros i Hi. destruct i as [|[|i]]; [reflexivity|reflexivity|lia].
Qed.
Lemma words_turns i k : (i < 2)%nat → (k ≤ 3)%nat → (k ≤ turns i count_sched)%nat.
Proof. intros Hi Hk. destruct i as [|[|i]]; [vm_compute|vm_compute|]; lia. Qed.

(** [b] is in both files, and [""] between the two spaces of the second. *)
Lemma word_count_witness : ∃ s1 s2 s3 counters,
  run_members count_code count_sched (mapper_group 2 2) word_memory = (Ret (Ok ()), s1) ∧
  run_schedule count_sched (counters_of 2 2) s1 = (map (λ c, Done (Ret c)) counters, s2) ∧
  run_workflow (run_members count_code) [count_sched; count_sched] (count_groups 2 2) word_memory = (Ret (Ok ()), s3) ∧
  length counters = 2%nat ∧
  ∀ j c w, counters !! j = Some c →
    c !! w = if decide (w ∈ ["a"; "b"; "b"; ""; "c"] ∧ idx_of 2 w = Z.of_nat j)
             then Some (occ w ["a"; "b"; "b"; ""; "c"]) else None.
Proof.
  exact (word_count (SLS := mem_slots_spec word_files) (FSp := mem_files_spec word_files) 2 2 word_texts
    word_memory count_sched count_sched 0 words_plan (λ i Hi, words_turns i 3 Hi (le_n 3))
    (λ i Hi, words_turns i 2 Hi (le_S _ _ (le_n 2))) eq_refl (λ p _, eq_refl)).
Defined.
