(* ===== verification/CountVisor.v ===== *)
(** * The word count under the visor

    The configuration of isol_config/map_reduce_large_c3.json, for any numbers of
    mappers and reducers, from a new isolation to the end of its run. *)
From Stdlib Require Import Ascii String.
From S2P Require Import Prelude Bytes Hostcall Metric Ipv4 Text Threads Visor VisorSpec Slots Contracts.
From S2P Require Import WordCount WordCountSpec WordCountFlow VisorFlow.
Local Open Scope Z_scope.

Definition count_functions : list string := ["mapper"; "reducer"].

Lemma count_takes n m : fits 64 (Z.of_nat n) → fits 64 (Z.of_nat m) → ∀ g, g ∈ count_groups n m →
  Forall (λ a, a.(Config.app_name) ∈ count_functions ∧ takes_args a.(Config.args)) (Config.group_to_isolation g).
Proof.
  intros Hn Hm g Hg. assert (Hpn : (String.length (pretty (Z.of_nat n)) ≤ 32)%nat)
    by (destruct Hn; apply length_pretty; lia).
  assert (Hpm : (String.length (pretty (Z.of_nat m)) ≤ 32)%nat) by (destruct Hm; apply length_pretty; lia).
  destruct Hn, Hm. repeat (apply elem_of_cons in Hg as [->|Hg]); [..|by apply not_elem_of_nil in Hg].
  - apply (replicate_takes _ ["reducer_num"]); [set_solver|done|cbn; lia|lia|].
    intros q v [<- <-]%lookup_singleton_Some. split; [set_solver|]. split; [cbn; lia|done].
  - apply (replicate_takes _ ["mapper_num"]); [set_solver|done|cbn; lia|lia|].
    intros q v [<- <-]%lookup_singleton_Some. split; [set_solver|]. split; [cbn; lia|done].
Qed.

Section visor.
Context {W Lib : Type} {HH : Host W Lib} {SL : Slots W Counts} {SLS : SlotsSpec W Counts}.
Context {FL : Files W} {T : gmap string string} {FSp : FilesSpec W Counts T} {U : Unicode} {HO : HashOrder}.

Definition run_count (entry : Z → string) (fuel : nat) (scheds : nat → list nat) :
    prog (Isolation W Lib) (result () string) := run (H0 := module_code count_code entry) fuel scheds.
Definition map_words (entry : Z → string) (n m : nat) (sched : list nat) : prog (Isolation W Lib) (result () string) :=
  visor_group count_code entry sched (mapper_group n m).

(** C14: the word count under the visor: a new isolation with the workflow's
    configuration runs to its end under every schedule with enough turns; the group
    of the mappers, with which the run begins, leaves buffers from which each reducer
    counts, for exactly the words of the input files whose hash names that reducer,
    how often each is in all the files together. *)
Theorem count_under_visor entry fuel scheds new_id config n m contents (w : W) :
  quiet_host → config.(Config.groups) = count_groups n m →
  (∀ name, name ∈ count_functions → ∃ path, register config ∅ !! name = Some path ∧ loads count_code entry name path) →
  count_plan (T := T) n m contents → (∀ i, (i < n)%nat → (m + 4 ≤ turns i (scheds 0%nat))%nat) →
  (∀ j, (j < m)%nat → (n + 3 ≤ turns j (scheds 1%nat))%nat) →
  able (17 + (length (scheds 0%nat) + length (scheds 1%nat))) w →
  (∀ p : Pair, nonneg p → at_slot w (slot_name p) = Empty) →
  ∃ i i0 i1 i' w2 counters, isolation_new new_id config w = (Ret (), i) ∧
    mark_isol Mem i = (Ret (), i0) ∧ map_words entry n m (scheds 0%nat) i0 = (Ret (Ok ()), i1) ∧
    run_schedule (scheds 1%nat) (counters_of n m) i1.(world) = (map (λ c, Done (Ret c)) counters, w2) ∧
    run_count entry fuel scheds i = (Ret (Ok ()), i') ∧ length counters = m ∧
    ∀ j c word, counters !! j = Some c →
      c !! word = if decide (word ∈ all_words n contents ∧ idx_of (Z.of_nat m) word = Z.of_nat j)
                  then Some (occ word (all_words n contents)) else None.
Proof.
  intros QH Hgs Hload Hplan Ha Hb Hk Hfree.
  set (k := (length (scheds 0%nat) + (length (scheds 1%nat) + 2))%nat).
  destruct (new_ready count_code entry count_functions QH new_id config w (Datatypes.S k)) as (i & Ei & Hi & Hg & _ & Hs);
    [eapply able_mono; [exact Hk|unfold k; cbn [length count_functions]; lia]|done|]. rewrite Hgs in Hg.
  assert (Hargs : ∀ g, g ∈ count_groups n m → Forall (λ a, a.(Config.app_name) ∈ count_functions ∧ takes_args a.(Config.args))
    (Config.group_to_isolation g)) by (destruct Hplan; apply count_takes; [done|unfold fits in *; lia]).
  pose proof (λ i1 (H1 : isol_ready count_code entry count_functions k i1)
    (Hs1 : ∀ q, at_slot i1.(world) q = at_slot i.(world) q),
    count_workflow (T := T) (RG := visor_runs count_code entry count_functions QH) n m contents Hargs i1
      (scheds 0%nat) (scheds 1%nat) 2 Hplan (λ j Hj, eq_ind _ (λ x, (x ≤ _)%nat) (Ha j Hj) _ (Nat.add_assoc m 1 3)) Hb H1
      (λ p Hp, eq_trans (Hs1 (slot_name p)) (eq_trans (Hs (slot_name p)) (Hfree p Hp)))) as Hall.
  destruct (wp_inv _ _ _ (mark_mem_ready count_code entry count_functions QH i k Hi)) as ([] & i0 & E0 & H0 & _ & _ & Hs0).
  destruct (Hall i0 H0 Hs0) as (i1 & w2 & _ & counters & E1 & E2 & _ & _ & Hl & Hc).
  destruct (run_ends count_code entry count_functions QH fuel scheds (count_groups n m) i k (λ _, True)) as (i2 & i' & Er & _).
  - done.
  - done.
  - done.
  - intros i3 H3 Hs3. destruct (Hall i3 H3 Hs3) as (_ & _ & i4 & _ & _ & _ & E4 & H4 & _).
    assert (E' : run_workflow (visor_group count_code entry) (map scheds (seq 0 (length (count_groups n m))))
      (count_groups n m) i3 = (Ret (Ok ()), i4)) by exact E4. unfold wp. by rewrite E'.
  - exists i, i0, i1, i', w2, counters. by split_and!.
Qed.
End visor.

(** ** Two files *)
Module CountExample.
#[local] Existing Instance ascii_only.
#[local] Existing Instance map_order.
#[local] Instance count_host {W} : Host W string := lib_host count_functions.
#[local] Instance words_laws : SlotsSpec (Memory Counts) Counts := mem_slots_spec word_files.
#[local] Instance words_inputs : FilesSpec (Memory Counts) Counts word_files := mem_files_spec word_files.
Definition count_config : Config.IsolationConfig :=
  Config.mk_config [] (map (λ f, Config.mk_unit f (lib_of f)) count_functions) None None (count_groups 2 2).
Definition count_scheds (k : nat) : list nat := count_sched ++ count_sched.

Lemma count_quiet : quiet_host (HH := count_host (W := Memory Counts)).
Proof. apply lib_quiet. Qed.
Lemma count_loaded name : name ∈ count_functions → ∃ path, register count_config ∅ !! name = Some path ∧
  loads (HH := count_host (W := Memory Counts)) count_code (lib_entry count_functions) name path.
Proof.
  intros Hin. exists (lib_of name). split; [|by apply lib_loads].
  repeat (apply elem_of_cons in Hin as [->|Hin]; [done|]). by apply not_elem_of_nil in Hin.
Qed.
Lemma count_enough i k : (i < 2)%nat → (k ≤ 6)%nat → (k ≤ turns i (count_scheds 0))%nat.
Proof. intros Hi Hk. destruct i as [|[|i]]; [vm_compute|vm_compute|]; lia. Qed.

Lemma count_under_visor_witness : ∃ i i0 i1 i' w2 counters,
  isolation_new 1 count_config word_memory = (Ret (), i) ∧ mark_isol Mem i = (Ret (), i0) ∧
  map_words (lib_entry count_functions) 2 2 (count_scheds 0) i0 = (Ret (Ok ()), i1) ∧
  run_schedule (count_scheds 1) (counters_of 2 2) i1.(world) = (map (λ c, Done (Ret c)) counters, w2) ∧
  run_count (lib_entry count_functions) 0 count_scheds i = (Ret (Ok ()), i') ∧ length counters = 2%nat ∧
  ∀ j c word, counters !! j = Some c →
    c !! word = if decide (word ∈ ["a"; "b"; "b"; ""; "c"] ∧ idx_of 2 word = Z.of_nat j)
                then Some (occ word ["a"; "b"; "b"; ""; "c"]) else None.
Proof.
  exact (count_under_visor (lib_entry count_functions) 0 count_scheds 1 count_config 2 2 word_texts word_memory
    count_quiet eq_refl count_loaded words_plan (λ i Hi, count_enough i 6 Hi (le_n 6))
    (λ i Hi, count_enough i 5 Hi (le_S _ _ (le_n 5))) eq_refl (λ p _, eq_refl)).
Defined.
End CountExample.
