(* ===== verification/Rux.v ===== *)
(** * The ruxos descriptor service (common_service/ruxfdtab)

    Descriptors over the ruxfs file system, with standard streams as entries 0, 1
    and 2 of the table.  The crates ruxfs and ruxfdtable are [RuxFs] and
    [RuxTable].  A file is shared by reference: the table holds its index in
    [inner], where its [fops::File] lives.  Every call runs under GLOBAL_LOCK,
    which no call takes twice, so a call is one step. *)
From Stdlib Require Import Ascii String.
From S2P Require Import Prelude Bytes Hostcall.
Local Open Scope Z_scope.

(** [Arc<dyn FileLike>]: a file of this service, or a standard stream. *)
Inductive FileLike : Type := RuxFile (id : nat) | Stdin | Stdout.

Record OpenOptions : Type := mk_options { o_read : bool; o_write : bool; o_create : bool }.

(** [fops::FileAttr], by what [stat] asks of it. *)
Record FileAttr : Type := mk_attr { a_type : Z; a_perm : Z; a_size : Z; a_blocks : Z }.

(** The ruxfs crate: files [F] of a file system [S]. *)
Class RuxFs (S F : Type) : Type := {
  init_ruxfs : string → prog S ();
  fops_open : string → OpenOptions → prog S (result F string);
  fops_read : list byte → prog (S * F) (result Z string * list byte);
  fops_write : list byte → prog (S * F) (result Z string);
  fops_flush : prog (S * F) (result () string);
  fops_seek : Z → prog (S * F) (result () string);
  fops_get_attr : prog (S * F) (result FileAttr string);
  api_read_dir : string → prog S (result (list (result DirEntry string)) string);
  eperm : string;
  hc_fs_image : option string;
  rux_stdout : list byte → prog S Z
}.

(** The ruxfdtable crate: FD_TABLE. *)
Class RuxTable (T : Type) : Type := {
  t_add_at : Z → FileLike → T → option Z * T;
  t_add : FileLike → T → option Z * T;
  t_get : Z → T → option FileLike;
  t_remove : Z → T → option FileLike * T
}.

Record RuxState (S F T : Type) : Type := mk_rux {
  fs : S;
  inner : list F;
  fd_table : T;
  must_exec : LazyCell;
  must_exic : LazyCell
}.
Arguments mk_rux {S F T}.
Arguments fs {S F T}.
Arguments inner {S F T}.
Arguments fd_table {S F T}.
Arguments must_exec {S F T}.
Arguments must_exic {S F T}.

Section rux.
Context {S F T : Type} {RF : RuxFs S F} {RT : RuxTable T}.
(** The crate's directory two levels up, which images are relative to. *)
Context (root : string).
Local Abbreviation M := (prog (RuxState S F T)).

Definition in_fs {A} (m : prog S A) : M A :=
  on fs (λ w s, mk_rux w s.(inner) s.(fd_table) s.(must_exec) s.(must_exic)) m.
Definition in_table {A} (f : T → A * T) : M A := λ s,
  let '(a, t) := f s.(fd_table) in
  (Ret a, mk_rux s.(fs) s.(inner) t s.(must_exec) s.(must_exic)).
(** [self.inner.lock().op(..)] on the file with index [id]. *)
Definition on_inner {A} (id : nat) (m : prog (S * F) A) : M A := λ s,
  match s.(inner) !! id with
  | None => (Panic, s)
  | Some f =>
      let '(o, (w, f)) := m (s.(fs), f) in
      (o, mk_rux w (<[id := f]> s.(inner)) s.(fd_table) s.(must_exec) s.(must_exic))
  end.

(** ** The table (fd_ops.rs) *)

Definition add_stdio : M () :=
  i ← in_table (t_add_at 0 Stdin); _ ← unwrap i;
  i ← in_table (t_add_at 1 Stdout); _ ← unwrap i;
  i ← in_table (t_add_at 2 Stdout); _ ← unwrap i;
  mret ().
Definition run_must_exec : M () :=
  force must_exec (λ c s, mk_rux s.(fs) s.(inner) s.(fd_table) c s.(must_exic)) add_stdio.

Definition get_file_like (fd : Fd) : M (result FileLike FdtabError) :=
  run_must_exec;;
  t ← gets fd_table;
  mret (match t_get fd t with Some f => Ok f | None => Err (NoExistFd fd) end).
Definition add_file_like (f : FileLike) : M (result Fd FdtabError) :=
  run_must_exec;;
  i ← in_table (t_add f);
  mret (match i with Some i => Ok (wrap 32 i) | None => Err (RuxfsErr "add_file_like failed") end).
Definition close_file_like (fd : Fd) : M (result () FdtabError) :=
  run_must_exec;;
  f ← in_table (t_remove fd);
  mret (match f with Some _ => Ok () | None => Err (RuxfsErr "close_file_like failed") end).

(** ** Files and standard streams (fs.rs, stdio.rs) *)

(** [File::new(file).add_to_fd_table()] *)
Definition add_to_fd_table (file : F) : M (result Fd FdtabError) :=
  l ← gets inner;
  modify (λ s, mk_rux s.(fs) (l ++ [file]) s.(fd_table) s.(must_exec) s.(must_exic));;
  add_file_like (RuxFile (length l)).
(** [File::from_fd]: a standard stream is not a [File]. *)
Definition from_fd (fd : Fd) : M (result nat FdtabError) :=
  f ←? get_file_like fd;
  mret (match f with RuxFile id => Ok id | _ => Err (NoExistFd fd) end).

(** [impl FileLike for File] *)
Definition rux_file_read (id : nat) (buf : list byte) : M (result Z string * list byte) :=
  on_inner id (fops_read buf).
Definition rux_file_write (id : nat) (buf : list byte) : M (result Z string) :=
  on_inner id (fops_write buf).
Definition rux_file_flush (id : nat) : M (result () string) := on_inner id fops_flush.

(** The fields of [ctypes::stat] that are set, over its zero default. *)
Definition no_time : TimeSpec := mk_timespec 0 0.
Definition stat_with (ino nlink mode uid gid size blksize blocks : Z) : Stat :=
  mk_stat 0 ino nlink mode uid gid 0 0 size blksize blocks no_time no_time no_time [0; 0; 0].
Definition mode_of (a : FileAttr) : Z := Z.lor (Z.shiftl a.(a_type) 12) a.(a_perm).
Definition rux_file_stat (id : nat) : M (result Stat string) :=
  metadata ←? on_inner id fops_get_attr;
  let st_mode := mode_of metadata in
  st_ino ← checked 64 (metadata.(a_size) + st_mode);
  mret (Ok (stat_with st_ino 1 st_mode 1000 1000 (as_signed 64 metadata.(a_size)) 512
    (as_signed 64 metadata.(a_blocks)))).

(** [impl FileLike for Stdin]; its [read] is [todo!()].
    8192 is 0o20000 (a character device), 288 and 144 are 0o440 and 0o220. *)
Definition stdin_read (buf : list byte) : M (result Z string * list byte) := panic.
Definition stdin_write (buf : list byte) : M (result Z string) := mret (Err eperm).
Definition stdin_stat : M (result Stat string) :=
  mret (Ok (stat_with 1 1 (Z.lor 8192 288) 0 0 0 0 0)).

(** [impl FileLike for Stdout] *)
Definition stdout_read (buf : list byte) : M (result Z string * list byte) := mret (Err eperm, buf).
Definition stdout_write (buf : list byte) : M (result Z string) :=
  n ← in_fs (rux_stdout buf); mret (Ok n).
Definition stdout_stat : M (result Stat string) :=
  mret (Ok (stat_with 1 1 (Z.lor 8192 144) 0 0 0 0 0)).

(** The calls through [dyn FileLike]. *)
Definition like_read (f : FileLike) (buf : list byte) : M (result Z string * list byte) :=
  match f with
  | RuxFile id => rux_file_read id buf | Stdin => stdin_read buf | Stdout => stdout_read buf
  end.
Definition like_write (f : FileLike) (buf : list byte) : M (result Z string) :=
  match f with
  | RuxFile id => rux_file_write id buf | Stdin => stdin_write buf | Stdout => stdout_write buf
  end.
Definition like_flush (f : FileLike) : M (result () string) :=
  match f with RuxFile id => rux_file_flush id | Stdin => mret (Ok ()) | Stdout => mret (Ok ()) end.
Definition like_stat (f : FileLike) : M (result Stat string) :=
  match f with RuxFile id => rux_file_stat id | Stdin => stdin_stat | Stdout => stdout_stat end.

(** ** The calls (as_apis.rs) *)

Definition convert (s : Stat) : Stat :=
  mk_stat s.(st_dev) s.(st_ino) s.(st_nlink) s.(st_mode) s.(st_uid) s.(st_gid) s.(pad0) s.(st_rdev)
    (wrap 64 s.(st_size)) s.(st_blksize) s.(st_blocks) s.(st_atime) s.(st_mtime) s.(st_ctime)
    s.(unused).

(** [PathBuf::join] *)
Definition path_join (dir p : string) : string :=
  match p with String "/" _ => p | _ => dir +:+ "/" +:+ p end.
Definition image_path : string :=
  path_join root (match hc_fs_image with Some s => s | None => "fs_images/fatfs.img" end).
Definition init : M () := in_fs (init_ruxfs image_path).
Definition run_must_exic : M () :=
  force must_exic (λ c s, mk_rux s.(fs) s.(inner) s.(fd_table) s.(must_exec) c) init.

Definition open (path : string) (flags mode : Z) : M (result Fd FdtabError) :=
  run_must_exic;;
  let options := mk_options (contains mode OpenMode_RD) (contains mode OpenMode_WR)
                   (contains flags O_CREAT) in
  file ← in_fs (fops_open path options);
  match file with
  | Err e => mret (Err (RuxfsErr ("open " +:+ path +:+ " failed: " +:+ e)))
  | Ok file => add_to_fd_table file
  end.

Definition write (fd : Fd) (buf : list byte) : M (result Z FdtabError) :=
  run_must_exic;;
  f ←? get_file_like fd;
  result ← like_write f buf;
  r ← like_flush f;
  _ ← unwrap_ok r;
  mret (map_err RuxfsErr result).

Definition read (fd : Fd) (buf : list byte) : M (result Z FdtabError * list byte) :=
  run_must_exic;;
  f ← get_file_like fd;
  match f with
  | Err e => mret (Err e, buf)
  | Ok f => '(r, buf) ← like_read f buf; mret (map_err RuxfsErr r, buf)
  end.

Definition close (fd : Fd) : M (result () FdtabError) := run_must_exic;; close_file_like fd.

Definition lseek (fd : Fd) (pos : Z) : M (result () FdtabError) :=
  run_must_exic;;
  id ←? from_fd fd;
  r ← on_inner id (fops_seek pos);
  mret (map_err RuxfsErr r).

Definition stat (fd : Fd) : M (result Stat FdtabError) :=
  run_must_exic;;
  id ←? from_fd fd;
  r ← like_stat (RuxFile id);
  mret (match r with Ok s => Ok (convert s) | Err e => Err (RuxfsErr e) end).

(** [.flatten()]: the items that could be read. *)
Definition readable_items (l : list (result DirEntry string)) : list DirEntry :=
  omap (λ r, match r with Ok e => Some e | Err _ => None end) l.
Definition readdir (path : string) : M (result (list DirEntry) FdtabError) :=
  run_must_exic;;
  r ← in_fs (api_read_dir path);
  items ← unwrap_ok r;
  mret (Ok (readable_items items)).
End rux.
