(* ===== verification/RuxSpec.v ===== *)
(** * Properties of the ruxos descriptor service

    Files give back what was written to them, through the loops of as_std's
    [Read] and [Write]; the standard streams are ordinary entries of the table,
    which a function can close and open files over. *)
From Stdlib Require Import Ascii String.
From S2P Require Import Prelude Bytes Hostcall Fdtab AsStd AsStdSpec Rux.
Local Open Scope Z_scope.

(** The laws of the crates. [room s f n]: the file can grow to [n] bytes. *)
Class RuxFsSpec (S F : Type) {RF : RuxFs S F} : Type := {
  content : S → F → list byte;
  fpos : F → nat;
  r_readable : F → Prop;
  room : S → F → nat → Prop;
  fops_read_spec : ∀ s f buf, r_readable f → (fpos f ≤ length (content s f))%nat →
    ∃ n s' f', fops_read buf (s, f) =
        (Ret (Ok (Z.of_nat n), sub (content s f) (fpos f) n ++ drop n buf), (s', f')) ∧
      (n ≤ length buf)%nat ∧ (fpos f + n ≤ length (content s f))%nat ∧
      (n = O → buf = [] ∨ fpos f = length (content s f)) ∧
      content s' f' = content s f ∧ fpos f' = (fpos f + n)%nat ∧ r_readable f' ∧
      ∀ l, room s f l → room s' f' l;
  fops_write_spec : ∀ s f b l, room s f l → b ≠ [] → (fpos f + length b ≤ l)%nat →
    (fpos f ≤ length (content s f))%nat →
    ∃ n s' f', fops_write b (s, f) = (Ret (Ok (Z.of_nat n)), (s', f')) ∧ (0 < n ≤ length b)%nat ∧
      content s' f' = overwrite (content s f) (fpos f) (take n b) ∧ fpos f' = (fpos f + n)%nat ∧
      room s' f' l ∧ (r_readable f → r_readable f');
  fops_flush_spec : ∀ s f l, room s f l → ∃ s' f', fops_flush (s, f) = (Ret (Ok ()), (s', f')) ∧
    content s' f' = content s f ∧ fpos f' = fpos f ∧ room s' f' l ∧ (r_readable f → r_readable f');
  fops_seek_spec : ∀ s f p, 0 ≤ p ≤ zlen (content s f) →
    ∃ s' f', fops_seek p (s, f) = (Ret (Ok ()), (s', f')) ∧
      content s' f' = content s f ∧ fpos f' = Z.to_nat p ∧ (r_readable f → r_readable f') ∧
      ∀ l, room s f l → room s' f' l
}.

(** [t'] is [t] with [f] added at the free index [r], or [t] itself. *)
Definition added {T} {RT : RuxTable T} (f : FileLike) (t : T) (r : option Z) (t' : T) : Prop :=
  match r with
  | Some i => t_get i t = None ∧ t_get i t' = Some f ∧ ∀ j, j ≠ i → t_get j t' = t_get j t
  | None => ∀ j, t_get j t' = t_get j t
  end.

(** The table: [add] takes the lowest free index below its capacity. *)
Class RuxTableSpec (T : Type) {RT : RuxTable T} : Type := {
  capacity : Z;
  capacity_small : capacity < 2 ^ 32;
  add_at_added : ∀ i f t, added f t (t_add_at i f t).1 (t_add_at i f t).2;
  add_added : ∀ f t, added f t (t_add f t).1 (t_add f t).2;
  add_lowest : ∀ f t i, 0 ≤ i < capacity → t_get i t = None →
    (∀ j, 0 ≤ j < i → is_Some (t_get j t)) → (t_add f t).1 = Some i;
  remove_get : ∀ i t, ∃ t', t_remove i t = (t_get i t, t') ∧ t_get i t' = None ∧
    ∀ j, j ≠ i → t_get j t' = t_get j t
}.

Section spec.
Context {S F T : Type} {RF : RuxFs S F} {RFS : RuxFsSpec S F} {RT : RuxTable T} {RTS : RuxTableSpec T}.
Context (root : string).
Local Abbreviation State := (RuxState S F T).
Implicit Types s : State.

(** The service after its first call. *)
Definition started s : Prop := s.(must_exec) = Ready ∧ s.(must_exic) = Ready.

Lemma run_must_exec_eq s : started s → run_must_exec s = (Ret (), s).
Proof. intros [H _]. unfold run_must_exec, force. by rewrite H. Qed.
Lemma run_must_exic_eq s : started s → run_must_exic root s = (Ret (), s).
Proof. intros [_ H]. unfold run_must_exic, force. by rewrite H. Qed.

Lemma get_file_like_eq fd s : started s →
  get_file_like fd s =
    (Ret (match t_get fd s.(fd_table) with Some f => Ok f | None => Err (NoExistFd fd) end), s).
Proof.
  intros H. unfold get_file_like. by rewrite (bind_Ret _ _ _ _ _ (run_must_exec_eq s H)).
Qed.

(** A descriptor open on a file: its bytes, its position, and how far it can grow. *)
Record file_at (limit : nat) (fd : Fd) (c : list byte) (pos : nat) s : Prop := {
  fa_started : started s;
  fa_pos : (pos ≤ length c)%nat;
  fa_file : ∃ id f, t_get fd s.(fd_table) = Some (RuxFile id) ∧ s.(inner) !! id = Some f ∧
    content s.(fs) f = c ∧ fpos f = pos ∧ r_readable f ∧ room s.(fs) f limit
}.

(** The state after an operation on file [id]. *)
Definition file_set s (id : nat) (w : S) (f : F) : State :=
  mk_rux w (<[id := f]> s.(inner)) s.(fd_table) s.(must_exec) s.(must_exic).

Lemma on_inner_eq {A} s id f (m : prog (S * F) A) a w f' : s.(inner) !! id = Some f →
  m (s.(fs), f) = (Ret a, (w, f')) → on_inner id m s = (Ret a, file_set s id w f').
Proof. intros Hf E. unfold on_inner. by rewrite Hf, E. Qed.

Lemma file_at_with limit fd id c pos s w f' : started s → t_get fd s.(fd_table) = Some (RuxFile id) →
  is_Some (s.(inner) !! id) → content w f' = c → fpos f' = pos → (pos ≤ length c)%nat →
  r_readable f' → room w f' limit → file_at limit fd c pos (file_set s id w f').
Proof.
  intros Hs Hg Hi Hc Hp Hle Hr Hroom. split; [done|done|]. exists id, f'. split_and!; try done.
  cbn. apply list_lookup_insert_eq. destruct Hi as [f Hf]. by eapply lookup_lt_Some.
Qed.

Lemma rux_reads limit fd : reads (file_at limit fd) (read root fd).
Proof.
  intros c pos buf s Hat _. destruct Hat as [Hs Hle (id & f & Hg & Hf & <- & <- & Hr & Hroom)].
  split; [done|].
  destruct (fops_read_spec s.(fs) f buf Hr Hle) as (n & w & f' & E & Hn & Hpn & Hz & Hc & Hp & Hr' & Hl).
  exists n, (file_set s id w f'). split_and!; try done.
  - unfold read. rewrite (bind_Ret _ _ _ _ _ (run_must_exic_eq s Hs)).
    rewrite (bind_Ret _ _ _ _ _ (get_file_like_eq fd s Hs)), Hg. cbn [like_read].
    by rewrite (bind_Ret _ _ _ _ _ (on_inner_eq _ _ _ _ _ _ _ Hf E)).
  - eapply file_at_with; try done; by apply Hl.
Qed.

Lemma rux_writes limit fd : writes (file_at limit fd) limit (write root fd).
Proof.
  intros c pos b s Hat Hne Hlim. destruct Hat as [Hs Hle (id & f & Hg & Hf & <- & <- & Hr & Hroom)].
  split; [done|].
  destruct (fops_write_spec s.(fs) f b limit Hroom Hne Hlim Hle)
    as (n & w & f1 & E & Hn & Hc & Hp & Hroom1 & Hr1).
  destruct (fops_flush_spec w f1 limit Hroom1) as (w2 & f2 & E2 & Hc2 & Hp2 & Hroom2 & Hr2).
  assert (is_Some (s.(inner) !! id)) as Hi by (by rewrite Hf).
  assert ((file_set s id w f1).(inner) !! id = Some f1) as Hf1.
  { cbn. apply list_lookup_insert_eq. by eapply lookup_lt_Some. }
  exists n, (file_set (file_set s id w f1) id w2 f2). split_and!; try lia.
  - unfold write. rewrite (bind_Ret _ _ _ _ _ (run_must_exic_eq s Hs)).
    rewrite (try_bind_Ok _ _ _ (RuxFile id) s) by (rewrite get_file_like_eq, Hg; done).
    cbn [like_write like_flush].
    rewrite (bind_Ret _ _ _ _ _ (on_inner_eq _ _ _ _ _ _ _ Hf E)).
    by rewrite (bind_Ret _ _ _ _ _ (on_inner_eq (file_set s id w f1) _ _ _ _ _ _ Hf1 E2)).
  - apply file_at_with; try done; [by rewrite Hc2|by rewrite Hp2| |by apply Hr2, Hr1].
    unfold overwrite. rewrite !length_app, !length_take. lia.
Qed.

Lemma rux_seek limit fd c pos p s : file_at limit fd c pos s → 0 ≤ p ≤ zlen c →
  ∃ s', lseek root fd p s = (Ret (Ok ()), s') ∧ file_at limit fd c (Z.to_nat p) s'.
Proof.
  intros [Hs Hle (id & f & Hg & Hf & <- & <- & Hr & Hroom)] Hp.
  destruct (fops_seek_spec s.(fs) f p Hp) as (w & f' & E & Hc & Hp' & Hr' & Hl).
  exists (file_set s id w f'). split.
  - unfold lseek. rewrite (bind_Ret _ _ _ _ _ (run_must_exic_eq s Hs)).
    assert (from_fd fd s = (Ret (Ok id), s)) as Efd.
    { unfold from_fd. rewrite (try_bind_Ok _ _ _ (RuxFile id) s) by (rewrite get_file_like_eq, Hg; done).
      done. }
    rewrite (try_bind_Ok _ _ _ _ _ Efd).
    by rewrite (bind_Ret _ _ _ _ _ (on_inner_eq _ _ _ _ _ _ _ Hf E)).
  - unfold zlen in Hp. eapply file_at_with; try done; [lia|by apply Hr'|by apply Hl].
Qed.

(** ** Closing a standard stream *)

Lemma close_eq fd f s : started s → t_get fd s.(fd_table) = Some f →
  ∃ t, close root fd s =
    (Ret (Ok ()), mk_rux s.(fs) s.(inner) t s.(must_exec) s.(must_exic)) ∧
    t_get fd t = None ∧ ∀ j, j ≠ fd → t_get j t = t_get j s.(fd_table).
Proof.
  intros Hs Hg. destruct (remove_get fd s.(fd_table)) as (t & E & Hn & Ho). exists t. split; [|done].
  unfold close. rewrite (bind_Ret _ _ _ _ _ (run_must_exic_eq s Hs)).
  unfold close_file_like. rewrite (bind_Ret _ _ _ _ _ (run_must_exec_eq s Hs)).
  unfold mbind, prog_mbind, in_table. by rewrite E, Hg.
Qed.

(** A file just opened on the lowest free descriptor. *)
Lemma open_lowest fd path flags mode limit w f s : started s → 0 ≤ fd < capacity →
  t_get fd s.(fd_table) = None → (∀ j, 0 ≤ j < fd → is_Some (t_get j s.(fd_table))) →
  fops_open path (mk_options (contains mode OpenMode_RD) (contains mode OpenMode_WR)
    (contains flags O_CREAT)) s.(fs) = (Ret (Ok f), w) →
  fpos f = O → r_readable f → room w f limit →
  ∃ s', open root path flags mode s = (Ret (Ok fd), s') ∧ file_at limit fd (content w f) 0 s'.
Proof.
  intros Hs Hfd Hfree Hlow E Hp Hr Hroom.
  set (g := RuxFile (length s.(inner))).
  assert (Ha := add_lowest g _ _ Hfd Hfree Hlow). assert (Had := add_added g s.(fd_table)).
  destruct (t_add g s.(fd_table)) as [r t] eqn:Et. cbn in Ha. subst r. destruct Had as (_ & Hg & _).
  exists (mk_rux w (s.(inner) ++ [f]) t s.(must_exec) s.(must_exic)). split.
  - unfold open. rewrite (bind_Ret _ _ _ _ _ (run_must_exic_eq s Hs)).
    unfold mbind at 1, prog_mbind at 1, in_fs at 1, on at 1. rewrite E.
    unfold add_to_fd_table, gets, modify, mbind, prog_mbind, add_file_like, mbind, prog_mbind.
    rewrite run_must_exec_eq by done. unfold in_table. cbn [fd_table inner fs]. fold g. rewrite Et.
    unfold mret, prog_mret, wrap. rewrite Z.mod_small; [done|]. pose proof capacity_small. lia.
  - split; [done|lia|]. exists (length s.(inner)), f. split_and!; try done.
    cbn. by rewrite lookup_app_r, Nat.sub_diag by done.
Qed.

Lemma taken_over fd f path flags mode limit w g s : started s → 0 ≤ fd < capacity →
  t_get fd s.(fd_table) = Some f → (∀ j, 0 ≤ j < fd → is_Some (t_get j s.(fd_table))) →
  fops_open path (mk_options (contains mode OpenMode_RD) (contains mode OpenMode_WR)
    (contains flags O_CREAT)) s.(fs) = (Ret (Ok g), w) →
  fpos g = O → r_readable g → room w g limit →
  ∃ s', (close root fd ;;? open root path flags mode) s = (Ret (Ok fd), s') ∧
    file_at limit fd (content w g) 0 s'.
Proof.
  intros Hs Hfd Hg Hlow E Hp Hr Hroom. destruct (close_eq fd f s Hs Hg) as (t & Ec & Hn & Ho).
  destruct (open_lowest fd path flags mode limit w g
    (mk_rux s.(fs) s.(inner) t s.(must_exec) s.(must_exic))) as (s' & Eo & Hat); try done.
  { intros j Hj. cbn. rewrite Ho by lia. by apply Hlow. }
  exists s'. split; [|done]. by rewrite (try_bind_Ok _ _ _ _ _ Ec).
Qed.

(** the standard streams of the ruxos service are ordinary entries of its table,
    unlike those of fdtab, which refuses to close them: a function that closes
    one of its descriptors with no free one below, standard output (1) included,
    and then opens a file gets that very descriptor, and from then on what it
    writes to the descriptor goes into the file and not to the host's output. *)
Theorem std_stream_taken_over : ∀ fd f path flags mode limit w g data s, started s → 0 ≤ fd < capacity →
  t_get fd s.(fd_table) = Some f → (∀ j, 0 ≤ j < fd → is_Some (t_get j s.(fd_table))) →
  fops_open path (mk_options (contains mode OpenMode_RD) (contains mode OpenMode_WR)
    (contains flags O_CREAT)) s.(fs) = (Ret (Ok g), w) →
  fpos g = O → r_readable g → room w g limit → (length data ≤ limit)%nat →
  ∃ s', (close root fd ;;? open root path flags mode) s = (Ret (Ok fd), s') ∧
  ∃ s'', write_all (length data) (write root fd) data s' = (Ret (Ok ()), s'') ∧
    file_at limit fd (overwrite (content w g) 0 data) (length data) s''.
Proof.
  intros fd f path flags mode limit w g data s Hs Hfd Hg Hlow E Hp Hr Hroom Hd.
  destruct (taken_over fd f path flags mode limit w g s Hs Hfd Hg Hlow E Hp Hr Hroom) as (s1 & E1 & Hat).
  exists s1. split; [done|].
  exact (write_all_of (file_at limit fd) limit (write root fd) (rux_writes limit fd)
    (length data) _ 0 data s1 Hat (le_n _) Hd).
Qed.

(** ** The calls on a standard stream *)

Lemma from_fd_std fd f s : started s → t_get fd s.(fd_table) = Some f → (∀ id, f ≠ RuxFile id) →
  from_fd fd s = (Ret (Err (NoExistFd fd)), s).
Proof.
  intros Hs Hg Hf. unfold from_fd. rewrite (try_bind_Ok _ _ _ f s) by by rewrite get_file_like_eq, Hg.
  destruct f as [id| |]; [by destruct (Hf id)|done|done].
Qed.

(** what the calls of the ruxos service do with a standard stream: reading
    standard input panics and writing to it is refused; standard output refuses
    to be read and passes what is written to the host, whose count it returns;
    and [lseek] and [stat] report that the descriptor does not exist, although
    both streams define a [stat] of their own. *)
Theorem std_stream_calls : ∀ fd s buf pos, started s →
  (t_get fd s.(fd_table) = Some Stdin →
     read root fd buf s = (Panic, s) ∧ write root fd buf s = (Ret (Err (RuxfsErr eperm)), s)) ∧
  (t_get fd s.(fd_table) = Some Stdout →
     read root fd buf s = (Ret (Err (RuxfsErr eperm), buf), s) ∧
     ∀ n w, rux_stdout buf s.(fs) = (Ret n, w) →
       write root fd buf s = (Ret (Ok n), mk_rux w s.(inner) s.(fd_table) s.(must_exec) s.(must_exic))) ∧
  (∀ f, t_get fd s.(fd_table) = Some f → (∀ id, f ≠ RuxFile id) →
     lseek root fd pos s = (Ret (Err (NoExistFd fd)), s) ∧ stat root fd s = (Ret (Err (NoExistFd fd)), s)).
Proof.
  intros fd s buf pos Hs. assert (Ex := run_must_exic_eq s Hs). assert (Eg := get_file_like_eq fd s Hs).
  split_and!.
  - intros Hg. rewrite Hg in Eg. unfold read, write. rewrite !(bind_Ret _ _ _ _ _ Ex).
    rewrite (try_bind_Ok _ _ _ _ _ Eg), (bind_Ret _ _ _ _ _ Eg). done.
  - intros Hg. rewrite Hg in Eg. unfold read, write. rewrite !(bind_Ret _ _ _ _ _ Ex).
    rewrite (try_bind_Ok _ _ _ _ _ Eg), (bind_Ret _ _ _ _ _ Eg). split; [done|]. intros n w E.
    unfold like_write, stdout_write, mbind, prog_mbind, in_fs, on. by rewrite E.
  - intros f Hg Hf. unfold lseek, stat. rewrite !(bind_Ret _ _ _ _ _ Ex). unfold try_bind at 1.
    by rewrite (bind_Ret _ _ _ _ _ (from_fd_std fd f s Hs Hg Hf)); unfold try_bind at 1;
      rewrite (bind_Ret _ _ _ _ _ (from_fd_std fd f s Hs Hg Hf)).
Qed.

(** ** Whatever the functions call *)

(** The calls of the service. *)
Inductive RuxCall : Type :=
  | COpen (path : string) (flags mode : Z)
  | CWrite (fd : Fd) (buf : list byte)
  | CRead (fd : Fd) (buf : list byte)
  | CClose (fd : Fd)
  | CLseek (fd : Fd) (pos : Z)
  | CStat (fd : Fd)
  | CReaddir (path : string).

Definition run_call (c : RuxCall) : prog State () :=
  match c with
  | COpen path flags mode => _ ← open root path flags mode; mret ()
  | CWrite fd buf => _ ← write root fd buf; mret ()
  | CRead fd buf => _ ← read root fd buf; mret ()
  | CClose fd => _ ← close root fd; mret ()
  | CLseek fd pos => _ ← lseek root fd pos; mret ()
  | CStat fd => _ ← stat root fd; mret ()
  | CReaddir path => _ ← readdir root path; mret ()
  end.

(** Each call on the state the last one left, also when that one panicked. *)
Fixpoint after_calls (l : list RuxCall) s : State :=
  match l with [] => s | c :: l => after_calls l (run_call c s).2 end.

(** Descriptors name files that exist, and no two the same one. *)
Definition own_files s : Prop := ∀ fd id, t_get fd s.(fd_table) = Some (RuxFile id) →
  (id < length s.(inner))%nat ∧ ∀ fd', t_get fd' s.(fd_table) = Some (RuxFile id) → fd' = fd.

(** File [n] was opened and no descriptor names it: it was closed. *)
Definition dropped (n : nat) s : Prop :=
  (n < length s.(inner))%nat ∧ ∀ fd, t_get fd s.(fd_table) ≠ Some (RuxFile n).

(** [m] keeps the ownership of files, and brings no closed file back. *)
Definition holds {A} (m : prog State A) : Prop := ∀ s, own_files s →
  own_files (m s).2 ∧ ∀ n, dropped n s → dropped n (m s).2.

Lemma holds_ret {A} (a : A) : holds (mret a).
Proof. by intros s H. Qed.
Lemma holds_panic {A} : holds (A:=A) panic.
Proof. by intros s H. Qed.
Lemma holds_bind {A B} (m : prog State A) (k : A → prog State B) :
  holds m → (∀ a, holds (k a)) → holds (m ≫= k).
Proof.
  intros Hm Hk s H. destruct (Hm s H) as [H1 L1]. unfold mbind, prog_mbind.
  destruct (m s) as [[a| | |] s1] eqn:E; cbn in *; try done.
  destruct (Hk a s1 H1). eauto.
Qed.
Lemma holds_gets {A} (f : State → A) : holds (gets f).
Proof. by intros s H. Qed.
Lemma holds_in_fs {A} (m : prog S A) : holds (in_fs m).
Proof. intros s H. unfold in_fs, on. by destruct (m s.(fs)). Qed.
Lemma holds_on_inner {A} id (m : prog (S * F) A) : holds (on_inner id m).
Proof.
  intros s H. unfold on_inner. destruct (s.(inner) !! id); [|done].
  destruct (m _) as [o [w f']]. split; [|intros n; unfold dropped; cbn; by rewrite length_insert].
  intros fd i Hg. cbn in *. rewrite length_insert. by apply H.
Qed.
Lemma holds_checked w x : holds (checked w x).
Proof. unfold checked. destruct (fitsb w x); [apply holds_ret|apply holds_panic]. Qed.
Lemma holds_unwrap {A} (o : option A) : holds (unwrap o).
Proof. destruct o; [apply holds_ret|apply holds_panic]. Qed.
Lemma holds_unwrap_ok {A E} (r : result A E) : holds (unwrap_ok r).
Proof. destruct r; [apply holds_ret|apply holds_panic]. Qed.
Lemma holds_try {A B E} (m : prog State (result A E)) (k : A → prog State (result B E)) :
  holds m → (∀ a, holds (k a)) → holds (try_bind m k).
Proof. intros Hm Hk. apply holds_bind; [done|]. intros [a|e]; [done|apply holds_ret]. Qed.

(** The state with another table. *)
Definition with_tab s (t : T) : State := mk_rux s.(fs) s.(inner) t s.(must_exec) s.(must_exic).

(** Adding a file no descriptor names yet, or a standard stream. *)
Lemma own_added s f r t : own_files s → (∀ id, f = RuxFile id → dropped id s) →
  added f s.(fd_table) r t → own_files (with_tab s t).
Proof.
  intros H Hn Ha fd id. cbn. destruct r as [i|]; cbn in Ha.
  - destruct Ha as (Hfree & Hi & Ho). destruct (decide (fd = i)) as [->|Hne].
    + rewrite Hi. intros [= ->]. destruct (Hn id eq_refl) as [Hlt Hno]. split; [done|]. intros fd'.
      destruct (decide (fd' = i)) as [->|Hne]; [done|]. rewrite Ho by done. intros E. by destruct (Hno fd').
    + rewrite Ho by done. intros Hg. destruct (H fd id Hg) as [Hlt Hu]. split; [done|]. intros fd'.
      destruct (decide (fd' = i)) as [->|Hne']; [|rewrite Ho by done; apply Hu].
      rewrite Hi. intros [= ->]. by destruct (proj2 (Hn id eq_refl) fd).
  - rewrite Ha. intros Hg. destruct (H fd id Hg) as [Hlt Hu]. split; [done|]. intros fd'.
    rewrite Ha. apply Hu.
Qed.
Lemma dropped_added s f r t n : f ≠ RuxFile n → added f s.(fd_table) r t → dropped n s →
  dropped n (with_tab s t).
Proof.
  intros Hf Ha [Hlt Hno]. split; [done|]. intros fd. cbn. destruct r as [i|]; cbn in Ha; [|by rewrite Ha].
  destruct Ha as (_ & Hi & Ho). destruct (decide (fd = i)) as [->|Hne]; [rewrite Hi; congruence|].
  by rewrite Ho.
Qed.
Lemma holds_add_at i f : (∀ id, f ≠ RuxFile id) → holds (in_table (t_add_at i f)).
Proof.
  intros Hf s H. assert (Ha := add_at_added i f s.(fd_table)). unfold in_table.
  destruct (t_add_at i f s.(fd_table)) as [r t]. split; [|intros n; by apply (dropped_added s f r)].
  apply (own_added s f r); [done| |done]. intros id ->. by destruct (Hf id).
Qed.
Lemma holds_remove fd : holds (in_table (t_remove fd)).
Proof.
  intros s H. destruct (remove_get fd s.(fd_table)) as (t & E & Hn & Ho).
  unfold in_table. rewrite E. split.
  - intros j id. cbn.
    destruct (decide (j = fd)) as [->|Hne]; [by rewrite Hn|]. rewrite Ho by done. intros Hg.
    destruct (H j id Hg) as [Hlt Hu]. split; [done|]. intros fd'.
    destruct (decide (fd' = fd)) as [->|Hne']; [by rewrite Hn|]. rewrite Ho by done. apply Hu.
  - intros n [Hlt Hno]. split; [done|]. intros j. cbn.
    destruct (decide (j = fd)) as [->|Hne]; [by rewrite Hn|by rewrite Ho].
Qed.
Lemma holds_force get put init : holds init →
  (∀ c s, (put c s).(inner) = s.(inner) ∧ (put c s).(fd_table) = s.(fd_table)) → holds (force get put init).
Proof.
  intros Hi Hp s H.
  assert (Hput : ∀ c s', own_files s' → own_files (put c s')).
  { intros c s' H' fd id. destruct (Hp c s') as [-> ->]. apply H'. }
  assert (Hdr : ∀ c s' n, dropped n s' → dropped n (put c s')).
  { intros c s' n. unfold dropped. by destruct (Hp c s') as [-> ->]. }
  unfold force. destruct (get s); try done. destruct (Hi s H) as [H1 L1].
  destruct (init s) as [[] s1]; cbn in *; try done; eauto.
Qed.

Lemma holds_must_exec : holds run_must_exec.
Proof.
  apply holds_force; [|done]. unfold add_stdio.
  repeat (apply holds_bind; [apply holds_add_at || apply holds_unwrap|intros ?]); try done.
Qed.
Lemma holds_must_exic : holds (run_must_exic root).
Proof. apply holds_force; [apply holds_in_fs|done]. Qed.
Lemma holds_get_file_like fd : holds (get_file_like fd).
Proof.
  apply holds_bind; [apply holds_must_exec|intros _]. apply holds_bind; [apply holds_gets|intros ?].
  apply holds_ret.
Qed.
Lemma holds_from_fd fd : holds (from_fd fd).
Proof. apply holds_try; [apply holds_get_file_like|]. intros f. apply holds_ret. Qed.
Lemma holds_read f buf : holds (like_read f buf).
Proof. destruct f; [apply holds_on_inner|apply holds_panic|apply holds_ret]. Qed.
Lemma holds_write f buf : holds (like_write f buf).
Proof.
  destruct f; [apply holds_on_inner|apply holds_ret|]. apply holds_bind; [apply holds_in_fs|].
  intros ?. apply holds_ret.
Qed.
Lemma holds_flush f : holds (like_flush f).
Proof. destruct f; [apply holds_on_inner|apply holds_ret..]. Qed.
Lemma holds_stat f : holds (like_stat f).
Proof.
  destruct f; [|apply holds_ret..]. apply holds_try; [apply holds_on_inner|]. intros a.
  apply holds_bind; [apply holds_checked|]. intros ?. apply holds_ret.
Qed.

(** Adding a file that no descriptor names. *)
Lemma add_file_like_holds id s : own_files s → dropped id s →
  own_files (add_file_like (RuxFile id) s).2 ∧
  ∀ n, n ≠ id → dropped n s → dropped n (add_file_like (RuxFile id) s).2.
Proof.
  intros H Hd. destruct (holds_must_exec s H) as [H1 L1]. unfold add_file_like, mbind, prog_mbind.
  destruct (run_must_exec s) as [[u| | |] s1]; cbn in H1, L1 |- *; try by eauto.
  assert (Ha := add_added (RuxFile id) s1.(fd_table)). unfold in_table.
  destruct (t_add _ _) as [r t]. cbn in Ha |- *. split.
  - apply (own_added s1 (RuxFile id) r); [done| |done]. intros ? [= <-]. by apply L1.
  - intros n Hne Hn. apply (dropped_added s1 (RuxFile id) r); [congruence|done|by apply L1].
Qed.
Lemma holds_add_to_fd_table file : holds (add_to_fd_table file).
Proof.
  intros s H. unfold add_to_fd_table, gets, modify, mbind, prog_mbind.
  set (s1 := mk_rux s.(fs) (s.(inner) ++ [file]) s.(fd_table) s.(must_exec) s.(must_exic)).
  assert (Hl : length s1.(inner) = Datatypes.S (length s.(inner))) by (cbn; rewrite length_app; cbn; lia).
  destruct (add_file_like_holds (length s.(inner)) s1) as [Ho Hd].
  - intros fd id Hg. destruct (H fd id Hg) as [Hlt Hu]. split; [lia|done].
  - split; [lia|]. intros fd Hg. destruct (H fd _ Hg). lia.
  - split; [done|]. intros n [Hlt Hno]. apply Hd; [lia|]. split; [lia|done].
Qed.

Create HintDb holds.
#[local] Hint Resolve holds_ret holds_panic holds_gets holds_in_fs holds_on_inner holds_checked
  holds_unwrap holds_unwrap_ok holds_remove holds_must_exec holds_must_exic holds_get_file_like
  holds_from_fd holds_read holds_write holds_flush holds_stat holds_add_to_fd_table : holds.
(** One statement of a call after the other. *)
Ltac holds_step :=
  first [ solve [eauto with holds]
        | apply holds_bind; [solve [eauto with holds]|intros ?]
        | apply holds_try; [solve [eauto with holds]|intros ?]
        | match goal with |- holds (match ?x with _ => _ end) => destruct x end ].

Lemma holds_call c : holds (run_call c).
Proof.
  destruct c; cbn [run_call]; (apply holds_bind; [|intros ?; apply holds_ret]);
    unfold open, write, read, close, close_file_like, lseek, stat, readdir; repeat holds_step.
Qed.

(** A call that leaves the names of open descriptors alone. *)
Definition keeps {A} (m : prog State A) : Prop := ∀ s fd f,
  t_get fd s.(fd_table) = Some f → t_get fd (m s).2.(fd_table) = Some f.
Lemma owner_keeps_bind {A B} (m : prog State A) (k : A → prog State B) :
  keeps m → (∀ a, keeps (k a)) → keeps (m ≫= k).
Proof.
  intros Hm Hk s fd f Hg. specialize (Hm s fd f Hg). unfold mbind, prog_mbind.
  destruct (m s) as [[a| | |] s1]; cbn in *; [by apply Hk|done..].
Qed.
Lemma keeps_unwrap {A} (o : option A) : keeps (unwrap o).
Proof. by destruct o; intros s fd f Hg. Qed.
Lemma keeps_add_at i g : keeps (in_table (t_add_at i g)).
Proof.
  intros s fd f Hg. assert (Ha := add_at_added i g s.(fd_table)). unfold in_table.
  destruct (t_add_at i g s.(fd_table)) as [[j|] t]; cbn in *; [|by rewrite Ha].
  destruct Ha as (Hfree & _ & Ho). rewrite Ho; [done|]. intros ->. congruence.
Qed.
Lemma keeps_force get put init : keeps init → (∀ c s, (put c s).(fd_table) = s.(fd_table)) →
  keeps (force get put init).
Proof.
  intros Hi Hp s fd f Hg. unfold force. destruct (get s); [|done..]. specialize (Hi s fd f Hg).
  destruct (init s) as [[] s1]; cbn in *; by rewrite ?Hp.
Qed.
Lemma keeps_must_exec : keeps run_must_exec.
Proof.
  apply keeps_force; [|done]. unfold add_stdio.
  repeat (apply owner_keeps_bind; [apply keeps_add_at || apply keeps_unwrap|intros ?]). by intros s.
Qed.
Lemma keeps_must_exic : keeps (run_must_exic root).
Proof. apply keeps_force; [|done]. intros s fd f Hg. unfold init, in_fs, on. by destruct (init_ruxfs _ _). Qed.

(** Closing a descriptor of a file, when the call returns. *)
Lemma close_drops fd id s r s' : own_files s → t_get fd s.(fd_table) = Some (RuxFile id) →
  close root fd s = (Ret r, s') → r = Ok () ∧ own_files s' ∧ dropped id s'.
Proof.
  intros H Hg (u1 & s1 & E1 & E)%bind_Ret_inv. apply bind_Ret_inv in E as (u2 & s2 & E2 & E).
  destruct (holds_must_exic s H) as [H1 _]. assert (G1 := keeps_must_exic s _ _ Hg).
  rewrite E1 in H1, G1. cbn in H1, G1.
  destruct (holds_must_exec s1 H1) as [H2 _]. assert (G2 := keeps_must_exec s1 _ _ G1).
  rewrite E2 in H2, G2. cbn in H2, G2. destruct (H2 _ _ G2) as [Hlt Hu].
  destruct (holds_remove fd s2 H2) as [H3 _]. apply bind_Ret_inv in E as (g & s3 & E3 & [= <- <-]).
  rewrite E3 in H3. cbn in H3. revert E3. unfold in_table.
  destruct (remove_get fd s2.(fd_table)) as (t & Er & Hn & Ho). rewrite Er, G2. intros [= <- <-].
  split; [done|]. split; [done|]. split; [done|]. intros j. cbn.
  destruct (decide (j = fd)) as [->|Hne]; [by rewrite Hn|]. rewrite Ho by done. intros E. by apply Hne, Hu.
Qed.

Lemma calls_hold l : ∀ s, own_files s →
  own_files (after_calls l s) ∧ ∀ n, dropped n s → dropped n (after_calls l s).
Proof.
  induction l as [|c l IH]; intros s H; [done|]. destruct (holds_call c s H) as [H1 D1].
  destruct (IH _ H1) as [H2 D2]. eauto.
Qed.

(** C9: the files of the ruxos service have one owner: from any state in which every
    descriptor names an open file and no two the same one, any sequence of
    calls, on whatever descriptors and paths, whatever the file system answers
    and even where calls panic, leads to such a state again; and closing a
    descriptor of a file there, unless the call panics, succeeds, and from then on,
    whatever calls follow, no descriptor names the file again. *)
Theorem rux_one_owner : ∀ l s, own_files s → let s1 := after_calls l s in
  own_files s1 ∧
  ∀ fd id r s2 l', t_get fd s1.(fd_table) = Some (RuxFile id) → close root fd s1 = (Ret r, s2) →
    r = Ok () ∧ ∀ fd', t_get fd' (after_calls (CClose fd :: l') s1).(fd_table) ≠ Some (RuxFile id).
Proof.
  intros l s H s1. destruct (calls_hold l s H) as [H1 _]. split; [done|].
  intros fd id r s2 l' Hg E. destruct (close_drops fd id s1 r s2 H1 Hg E) as (Hr & H2 & D).
  split; [done|]. cbn [after_calls run_call]. rewrite (bind_Ret _ _ _ _ _ E). cbn.
  exact (proj2 (proj2 (calls_hold l' s2 H2) id D)).
Qed.

(** C8: files of the ruxos service give back what was written to them: although
    the file system may take and give only part of a buffer at each call,
    [write_all] puts all of it at the file's position, and after a seek
    [read_to_end] returns the file's bytes from there on and their number; both
    loops end. *)
Theorem rux_file_round_trip : ∀ limit fd c pos data p fuel s,
  file_at limit fd c pos s → (pos + length data ≤ limit)%nat →
  let c' := overwrite c pos data in
  zlen c' < 2 ^ 64 → 0 ≤ p ≤ zlen c' → (length c' < fuel)%nat →
  ∃ s', (write_all (length data) (write root fd) data ;;? lseek root fd p) s = (Ret (Ok ()), s') ∧
  ∃ s'', read_to_end fuel (read root fd) [] s' = (Ret (Ok (zlen c' - p), drop (Z.to_nat p) c'), s'') ∧
    file_at limit fd c' (length c') s''.
Proof.
  intros limit fd c pos data p fuel s Hat Hl c' Hc' Hp Hf.
  destruct (write_all_of (file_at limit fd) limit (write root fd) (rux_writes limit fd)
    (length data) c pos data s Hat (le_n _) Hl) as (s1 & Hw & Hat1).
  destruct (rux_seek limit fd c' _ p s1 Hat1 Hp) as (s2 & Hs & Hat2).
  exists s2. split; [by rewrite (try_bind_Ok _ _ _ _ _ Hw)|]. unfold zlen in Hp.
  destruct (read_to_end_of (file_at limit fd) (read root fd) c' (rux_reads limit fd) Hc' fuel
    (Z.to_nat p) (replicate 1024 0) [] 0 s2 Hat2) as (s3 & Hr & Hat3);
    [by rewrite length_replicate|lia|lia|unfold zlen in *; lia|].
  exists s3. split; [|done]. unfold read_to_end. rewrite Hr. cbn [app]. by rewrite Z2Nat.id by lia.
Qed.
End spec.

(** ** A disk of one file, which moves at most two bytes at a call *)
Module RuxDemo.

(** The bytes on the disk and what was printed; a file is a position. *)
Record Disk : Type := mk_disk { bytes : list byte; printed : list byte }.
Definition table : Type := gmap Z FileLike.
Definition max_fds : Z := 16.
Definition free_in (t : table) : option Z := List.find (λ i, bool_decide (t !! i = None)) (seqZ 0 max_fds).

#[export] Instance demo_fs : RuxFs Disk nat := {
  init_ruxfs := λ _ d, (Ret (), d);
  fops_open := λ _ _ d, (Ret (Ok O), d);
  fops_read := λ buf '(d, p), let n := Nat.min 2 (Nat.min (length buf) (length d.(bytes) - p)) in
    (Ret (Ok (Z.of_nat n), sub d.(bytes) p n ++ drop n buf), (d, (p + n)%nat));
  fops_write := λ b '(d, p), let n := Nat.min 2 (length b) in
    (Ret (Ok (Z.of_nat n)), (mk_disk (overwrite d.(bytes) p (take n b)) d.(printed), (p + n)%nat));
  fops_flush := λ s, (Ret (Ok ()), s);
  fops_seek := λ pos '(d, p), (Ret (Ok ()), (d, Z.to_nat pos));
  fops_get_attr := λ '(d, p), (Ret (Ok (mk_attr 8 420 (zlen d.(bytes)) 1)), (d, p));
  api_read_dir := λ _ d, (Ret (Err "not found"%string), d);
  eperm := "EPERM"%string;
  hc_fs_image := None;
  rux_stdout := λ b d, (Ret (zlen b), mk_disk d.(bytes) (d.(printed) ++ b))
}.

#[export] Instance demo_table : RuxTable table := {
  t_add_at := λ i f t, match t !! i with Some _ => (None, t) | None => (Some i, <[i := f]> t) end;
  t_add := λ f t, match free_in t with Some i => (Some i, <[i := f]> t) | None => (None, t) end;
  t_get := λ i t, t !! i;
  t_remove := λ i t, (t !! i, delete i t)
}.

#[export] Instance demo_fs_spec : RuxFsSpec Disk nat.
Proof.
  refine {| content := λ d _, d.(bytes); fpos := λ p, p; r_readable := λ _, True;
    room := λ _ _ _, True |}.
  - intros d p buf _ Hp. do 3 eexists. split; [reflexivity|].
    split; [lia|]. split; [lia|]. split; [|done]. intros Hz. destruct buf; [by left|right]. cbn [length] in Hz. lia.
  - intros d p b l _ Hne _ Hp. do 3 eexists. split; [reflexivity|]. split; [|done].
    destruct b; [done|]. cbn [length]. lia.
  - intros d p l _. cbn. do 2 eexists. done.
  - intros d p pos Hpos. cbn. do 2 eexists. done.
Defined.

Lemma find_first (P : Z → bool) n : ∀ k i, k ≤ i < k + n → P i = true →
  (∀ j, k ≤ j < i → P j = false) → List.find P (seqZ k n) = Some i.
Proof.
  destruct (Z.le_gt_cases 0 n) as [H0|]; [|intros; lia].
  pattern n. revert n H0. apply natlike_ind; [intros; lia|]. intros n H0 IH k i Hi HP Hlow.
  rewrite seqZ_cons, Z.pred_succ by lia. cbn [List.find]. destruct (decide (k = i)) as [->|Hne].
  - by rewrite HP.
  - rewrite Hlow by lia. apply IH; [lia|done|]. intros j Hj. apply Hlow. lia.
Qed.

#[export] Instance demo_table_spec : RuxTableSpec table.
Proof.
  refine {| capacity := max_fds |}.
  - done.
  - intros i f t. cbn. destruct (t !! i) eqn:E; cbn; [done|]. split; [done|].
    split; [apply lookup_insert_eq|]. intros j Hj. by apply lookup_insert_ne.
  - intros f t. cbn. destruct (free_in t) as [i|] eqn:E; cbn; [|done].
    apply List.find_some in E as [_ E]. apply bool_decide_eq_true in E. split; [done|].
    split; [apply lookup_insert_eq|]. intros j Hj. by apply lookup_insert_ne.
  - intros f t i Hi Hn Hlow. cbn in Hn, Hlow |- *.
    unfold free_in. rewrite (find_first _ _ _ i); [done|done|by apply bool_decide_true|].
    intros j Hj. apply bool_decide_false. intros E. apply (is_Some_None (A:=FileLike)).
    rewrite <- E. by apply Hlow.
  - intros i t. cbn. exists (delete i t). split; [done|]. split; [apply lookup_delete_eq|].
    intros j Hj. by apply lookup_delete_ne.
Defined.

(** The service before its first call, and after it with the standard streams and
    a file of five bytes open. *)
Definition fresh : RuxState Disk nat table := mk_rux (mk_disk [1; 2; 3; 4; 5] []) [] ∅ Uninit Uninit.
Definition streams : RuxState Disk nat table :=
  mk_rux (mk_disk [1; 2; 3; 4; 5] []) [O]
    (<[3 := RuxFile 0]> (<[2 := Stdout]> (<[1 := Stdout]> (<[0 := Stdin]> ∅)))) Ready Ready.

Lemma streams_started : started streams.
Proof. done. Qed.
Lemma fresh_owned : own_files fresh.
Proof. intros fd id H. exfalso. revert H. cbn -[lookup]. unfold table. by rewrite (lookup_empty (M:=gmap Z)). Qed.
Lemma streams_file : file_at 100 3 [1; 2; 3; 4; 5] 0 streams.
Proof.
  split; [done|cbn; lia|]. by exists O, O.
Qed.

(** The first open gets descriptor 3; the file is read, closed and opened again. *)
Lemma rux_one_owner_witness :
  let s := after_calls "" [COpen "a" 0 1; CRead 3 [0; 0]] fresh in
  own_files s ∧ t_get 3 s.(fd_table) = Some (RuxFile 0) ∧
  let s' := after_calls "" [CClose 3; COpen "a" 0 1] s in
  t_get 3 s'.(fd_table) = Some (RuxFile 1) ∧ ∀ fd, t_get fd s'.(fd_table) ≠ Some (RuxFile 0).
Proof.
  destruct (rux_one_owner "" [COpen "a" 0 1; CRead 3 [0; 0]] fresh fresh_owned) as [Ho Hc].
  split; [exact Ho|]. split; [vm_compute; reflexivity|]. split; [vm_compute; reflexivity|].
  eapply (Hc 3 0%nat _ _ [COpen "a" 0 1]); [vm_compute; reflexivity|vm_compute; reflexivity].
Defined.

(** A function closes standard output and opens a file: it gets descriptor 1. *)
Lemma std_stream_taken_over_witness : ∃ s' s'',
  (close "" 1 ;;? open "" "log" O_CREAT OpenMode_RDWR) streams = (Ret (Ok 1), s') ∧
  write_all 3 (write "" 1) [72; 105; 10] s' = (Ret (Ok ()), s'') ∧
  file_at 100 1 [72; 105; 10; 4; 5] 3 s''.
Proof.
  destruct (std_stream_taken_over "" 1 Stdout "log" O_CREAT OpenMode_RDWR 100
    (mk_disk [1; 2; 3; 4; 5] []) O [72; 105; 10] streams streams_started
    ltac:(vm_compute; by split) eq_refl) as (s' & H1 & s'' & H2 & H3);
    [intros j Hj; replace j with 0 by lia; vm_compute; by eexists|reflexivity|done|done|done|cbn; lia|].
  exact (ex_intro _ s' (ex_intro _ s'' (conj H1 (conj H2 H3)))).
Defined.

Lemma std_stream_calls_witness : read "" 0 [0; 0] streams = (Panic, streams) ∧
  stat "" 1 streams = (Ret (Err (NoExistFd 1)), streams).
Proof.
  destruct (std_stream_calls "" 0 streams [0; 0] 0 streams_started) as [H0 _].
  destruct (std_stream_calls "" 1 streams [0; 0] 0 streams_started) as (_ & _ & H1).
  exact (conj (proj1 (H0 eq_refl)) (proj2 (H1 Stdout eq_refl ltac:(intros ? [=])))).
Defined.

(** Three bytes written at the start, in two steps, and all read back from 1 on. *)
Lemma rux_file_round_trip_witness : ∃ s' s'',
  (write_all 3 (write "" 3) [9; 8; 7] ;;? lseek "" 3 1) streams = (Ret (Ok ()), s') ∧
  read_to_end 10 (read "" 3) [] s' = (Ret (Ok 4, [8; 7; 4; 5]), s'').
Proof.
  destruct (rux_file_round_trip "" 100 3 [1; 2; 3; 4; 5] 0 [9; 8; 7] 1 10 streams streams_file)
    as (s' & H1 & s'' & H2 & _);
    [cbn; lia|vm_compute; reflexivity|vm_compute; by split|cbn; lia|].
  exact (ex_intro _ s' (ex_intro _ s'' (conj H1 H2))).
Defined.
End RuxDemo.
