(* ===== verification/Ext4.v ===== *)
(** * The ext4 descriptor service (common_service/ext4fdtab/src/ext4_apis.rs)

    A hash map from descriptors to [FileWrapper]s over the ext4_rs crate, which is
    the class [Ext4Crate].  A wrapper holds the inode reference read when the file
    was opened.  Each call holds the table's lock from its first use of the table
    to its end and takes it once, so the locks cannot block; they are not modelled. *)
From S2P Require Import Prelude Bytes Hostcall.

(** The crate: a mounted file system [X], the inode copies [I] it hands out. *)
Class Ext4Crate (X I : Type) : Type := {
  ext4_file_open : string → string → prog X (result Z string);
  get_inode_ref : Z → prog X I;
  inode_num : I → Z;
  ext4_read_at : Z → Z → list byte → prog X (result Z string * list byte);
  ext4_write_at : Z → Z → list byte → prog X (result Z string);
  from_inode_ref : I → Stat;
  ext4_dir_open : string → prog X (result Z string);
  ext4_dir_get_entries : Z → prog X (list (string * Z));
  EACCES : string
}.

Record Ext4Wrapper (I : Type) : Type := mk_ext4_wrapper {
  inode_ref : I; e_offset : Z; e_readable : bool; e_writable : bool
}.
Arguments mk_ext4_wrapper {I}.
Arguments inode_ref {I}.
Arguments e_offset {I}.
Arguments e_readable {I}.
Arguments e_writable {I}.

Record Ext4State (X I : Type) : Type := mk_ext4 {
  ext4_table : gmap Fd (Ext4Wrapper I); ext4_next_fd : Fd;
  global_fs : option X; ext4_init_done : option bool
}.
Arguments mk_ext4 {X I}.
Arguments ext4_table {X I}.
Arguments ext4_next_fd {X I}.
Arguments global_fs {X I}.
Arguments ext4_init_done {X I}.

(** [get_name] and [get_de_type] of an entry, under the path that was listed. *)
Definition ext4_dir_entry (path : string) (e : string * Z) : DirEntry := mk_dirent path e.1 e.2.

Module Ext4.
Section ext4.
Context {X I : Type} `{EC : !Ext4Crate X I}.
(** Mounting the RAM disk with the image, [None] when there is no block device. *)
Context (mount : option X).
Local Abbreviation M := (prog (Ext4State X I)).

Definition start : Ext4State X I := mk_ext4 ∅ 3 None None.

Definition set_ext4_table (t : gmap Fd (Ext4Wrapper I)) (s : Ext4State X I) : Ext4State X I :=
  mk_ext4 t s.(ext4_next_fd) s.(global_fs) s.(ext4_init_done).
Definition set_fs (x : X) (s : Ext4State X I) : Ext4State X I :=
  mk_ext4 s.(ext4_table) s.(ext4_next_fd) (Some x) s.(ext4_init_done).

Definition init : M bool :=
  match mount with
  | Some x => modify (set_fs x);; mret true
  | None => mret false
  end.

(** [let _ = *INIT_DONE;] *)
Definition force_init : M () :=
  d ← gets ext4_init_done;
  match d with
  | Some _ => mret ()
  | None =>
      b ← init;
      modify (λ s, mk_ext4 s.(ext4_table) s.(ext4_next_fd) s.(global_fs) (Some b))
  end.

(** Run the crate; the mounted file system must be there. *)
Definition on_ext4 {A} (m : prog X A) : M A := λ s,
  match s.(global_fs) with
  | None => (Panic, s)
  | Some x => let '(o, x') := m x in (o, set_fs x' s)
  end.

Definition put (fd : Fd) (w : Ext4Wrapper I) : M () :=
  modify (λ s, set_ext4_table (<[fd := w]> s.(ext4_table)) s).

(** [FileWrapper::read], [write], [seek] of the descriptor that holds [w]. *)
Definition wrapper_read (fd : Fd) (w : Ext4Wrapper I) (buf : list byte) :
    M (result Z string * list byte) :=
  if negb w.(e_readable) then mret (Err EACCES, buf)
  else
    '(r, buf) ← on_ext4 (ext4_read_at (inode_num w.(inode_ref)) w.(e_offset) buf);
    match r with
    | Err e => mret (Err e, buf)
    | Ok len =>
        offset ← checked 64 (w.(e_offset) + len);
        put fd (mk_ext4_wrapper w.(inode_ref) offset w.(e_readable) w.(e_writable));;
        mret (Ok len, buf)
    end.
Definition wrapper_write (fd : Fd) (w : Ext4Wrapper I) (buf : list byte) : M (result Z string) :=
  if negb w.(e_writable) then mret (Err EACCES)
  else
    len ←? on_ext4 (ext4_write_at (inode_num w.(inode_ref)) w.(e_offset) buf);
    offset ← checked 64 (w.(e_offset) + len);
    put fd (mk_ext4_wrapper w.(inode_ref) offset w.(e_readable) w.(e_writable));;
    mret (Ok len).
Definition wrapper_seek (w : Ext4Wrapper I) (pos : Z) : Ext4Wrapper I :=
  mk_ext4_wrapper w.(inode_ref) pos w.(e_readable) w.(e_writable).

Definition alloc_fd (i : I) (readable writable : bool) : M Fd :=
  fd ← gets ext4_next_fd;
  next ← checked 32 (fd + 1);
  modify (λ s, mk_ext4 s.(ext4_table) next s.(global_fs) s.(ext4_init_done));;
  put fd (mk_ext4_wrapper i 0 readable writable);;
  mret fd.

Definition ext4_err (what e : string) : FdtabError := Ext4Err (what +:+ " failed: " +:+ e).
Definition not_initialized : FdtabError := FsErr "global fs not initialized".
Definition invalid_fd : FdtabError := FsErr "invalid fd".

(** The flags are ignored: every file is opened as ["r"]. *)
Definition open (path : string) (flags mode : Z) : M (result Fd FdtabError) :=
  force_init;;
  g ← gets global_fs;
  match g with
  | None => mret (Err not_initialized)
  | Some _ =>
      let readable := contains mode OpenMode_RD || contains mode OpenMode_RDWR in
      let writable := contains mode OpenMode_WR || contains mode OpenMode_RDWR in
      inode_num ←? fmap (map_err (ext4_err "open")) (on_ext4 (ext4_file_open path "r"));
      i ← on_ext4 (get_inode_ref inode_num);
      fd ← alloc_fd i readable writable;
      mret (Ok fd)
  end.

Definition read (fd : Fd) (buf : list byte) : M (result Z FdtabError * list byte) :=
  force_init;;
  w ← gets (λ s, s.(ext4_table) !! fd);
  match w with
  | Some w => '(r, buf) ← wrapper_read fd w buf; mret (map_err (ext4_err "read") r, buf)
  | None => mret (Err invalid_fd, buf)
  end.

Definition stat (fd : Fd) : M (result Stat FdtabError) :=
  w ← gets (λ s, s.(ext4_table) !! fd);
  mret (match w with
        | Some w => Ok (from_inode_ref w.(inode_ref))
        | None => Err invalid_fd
        end).

(** [libos!(stdout(buf))] answers the length of the buffer. *)
Definition write (fd : Fd) (buf : list byte) : M (result Z FdtabError) :=
  force_init;;
  if (fd =? 1) || (fd =? 2) then mret (Ok (zlen buf))
  else
    w ← gets (λ s, s.(ext4_table) !! fd);
    match w with
    | Some w => fmap (map_err (ext4_err "write")) (wrapper_write fd w buf)
    | None => mret (Err invalid_fd)
    end.

Definition close (fd : Fd) : M (result () FdtabError) :=
  force_init;;
  modify (λ s, set_ext4_table (delete fd s.(ext4_table)) s);;
  mret (Ok ()).

Definition lseek (fd : Fd) (pos : Z) : M (result () FdtabError) :=
  force_init;;
  w ← gets (λ s, s.(ext4_table) !! fd);
  match w with
  | Some w => put fd (wrapper_seek w pos);; mret (Ok ())
  | None => mret (Err invalid_fd)
  end.

Definition readdir (path : string) : M (result (list DirEntry) FdtabError) :=
  force_init;;
  g ← gets global_fs;
  match g with
  | None => mret (Err not_initialized)
  | Some _ =>
      dir ←? fmap (map_err (ext4_err "readdir")) (on_ext4 (ext4_dir_open path));
      entries ← on_ext4 (ext4_dir_get_entries dir);
      mret (Ok (map (ext4_dir_entry path) entries))
  end.

(** A call of the service. *)
Inductive ext4_op : Type :=
  | EOpen (path : string) (flags mode : Z)
  | ERead (fd : Fd) (buf : list byte)
  | EWrite (fd : Fd) (buf : list byte)
  | ESeek (fd : Fd) (pos : Z)
  | EStat (fd : Fd)
  | EClose (fd : Fd)
  | EReaddir (path : string).

(** Run it for its effect, whatever it answers. *)
Definition exec_op (s : Ext4State X I) (op : ext4_op) : Ext4State X I :=
  match op with
  | EOpen path flags mode => (open path flags mode s).2
  | ERead fd buf => (read fd buf s).2
  | EWrite fd buf => (write fd buf s).2
  | ESeek fd pos => (lseek fd pos s).2
  | EStat fd => (stat fd s).2
  | EClose fd => (close fd s).2
  | EReaddir path => (readdir path s).2
  end.
End ext4.
End Ext4.
