(* ===== verification/Ext4Spec.v ===== *)
(** * What the ext4 descriptor service does and does not promise *)
From S2P Require Import Prelude Bytes Hostcall Ext4.

Section spec.
Context {X I : Type} `{EC : !Ext4Crate X I}.
Context (mount : option X).
Local Abbreviation State := (Ext4State X I).
Local Abbreviation exec := (Ext4.exec_op mount).

(** The descriptors below the counter that [s] has keep their inode copy in
    [s']; the counter does not go back, and no descriptor lies above it. *)
Record keeps (fd : Fd) (s s' : State) : Prop := {
  k_next : s.(ext4_next_fd) ≤ s'.(ext4_next_fd);
  k_fd : fd < s.(ext4_next_fd) →
    inode_ref <$> s'.(ext4_table) !! fd = inode_ref <$> s.(ext4_table) !! fd
}.

#[local] Instance keeps_preorder fd : PreOrder (keeps fd).
Proof.
  split; [by split|]. intros s1 s2 s3 [H1 H2] [H3 H4]. split; [lia|].
  intros Hf. rewrite H4 by lia. auto.
Qed.

(** Every run of [m] keeps [fd]'s inode copy. *)
Class Keeps (fd : Fd) {A} (m : prog State A) : Prop := keeps_ : ∀ s, keeps fd s (m s).2.

#[local] Instance keeps_ret fd {A} (a : A) : Keeps fd (mret a : prog State A).
Proof. by intros s. Qed.
#[local] Instance keeps_gets fd {A} (f : State → A) : Keeps fd (gets f).
Proof. by intros s. Qed.
#[local] Instance keeps_checked fd w x : Keeps fd (checked w x : prog State Z).
Proof. intros s. unfold checked. by destruct (fitsb w x). Qed.
#[local] Instance keeps_bind fd {A B} (m : prog State A) (k : A → prog State B) :
  Keeps fd m → (∀ a, Keeps fd (k a)) → Keeps fd (m ≫= k).
Proof.
  intros Hm Hk s. unfold mbind, prog_mbind. specialize (Hm s).
  destruct (m s) as [[a| | |] s']; try done. cbn in Hm. transitivity s'; [done|apply Hk].
Qed.
#[local] Instance keeps_try fd {A B E} (m : prog State (result A E)) (k : A → prog State (result B E)) :
  Keeps fd m → (∀ a, Keeps fd (k a)) → Keeps fd (try_bind m k).
Proof. intros Hm Hk. apply keeps_bind; [done|]. intros []; [apply Hk|apply _]. Qed.
#[local] Instance keeps_fmap fd {A B} (f : A → B) (m : prog State A) : Keeps fd m → Keeps fd (f <$> m).
Proof. intros Hm. apply keeps_bind; [done|apply _]. Qed.
#[local] Instance keeps_crate fd {A} (m : prog X A) : Keeps fd (Ext4.on_ext4 m : prog State A).
Proof. intros s. unfold Ext4.on_ext4. destruct (global_fs s) as [x|]; [|done]. by destruct (m x). Qed.
#[local] Instance keeps_force_init fd : Keeps fd (Ext4.force_init mount : prog State ()).
Proof.
  apply keeps_bind; [apply _|]. intros [b|]; [apply _|]. apply keeps_bind; [|by intros b s].
  unfold Ext4.init. destruct mount; [|apply _]. apply keeps_bind; [by intros s|apply _].
Qed.

(** Replacing a wrapper by one with the same inode copy. *)
Lemma keeps_put fd fd' (w w' : Ext4Wrapper I) s :
  s.(ext4_table) !! fd' = Some w → inode_ref w' = inode_ref w → keeps fd s (Ext4.put fd' w' s).2.
Proof.
  intros Hw Hi. split; [done|]. intros _. cbn. destruct (decide (fd' = fd)) as [->|Hne].
  - by rewrite lookup_insert_eq, Hw; cbn; rewrite Hi.
  - by rewrite lookup_insert_ne.
Qed.

Lemma keeps_alloc fd i r w : Keeps fd (Ext4.alloc_fd i r w : prog State Fd).
Proof.
  intros s. unfold Ext4.alloc_fd, mbind, prog_mbind, gets, checked.
  destruct (fitsb 32 (ext4_next_fd s + 1)); [|done]. cbn. split; cbn; [lia|].
  intros Hf. rewrite lookup_insert_ne by lia. done.
Qed.

Lemma wrapper_read_keeps fd fd' w buf s :
  s.(ext4_table) !! fd' = Some w → keeps fd s (Ext4.wrapper_read fd' w buf s).2.
Proof.
  intros Hw. unfold Ext4.wrapper_read. destruct (e_readable w); [|done].
  unfold negb, mbind, prog_mbind, Ext4.on_ext4. destruct (global_fs s) as [x|]; [|done].
  destruct (ext4_read_at _ _ _ x) as [[[[len|e] b]| | |] x']; try done.
  unfold checked. destruct (fitsb 64 _); [|done].
  transitivity (Ext4.set_fs x' s); [done|by apply (keeps_put fd fd' w)].
Qed.

Lemma wrapper_write_keeps fd fd' w buf s :
  s.(ext4_table) !! fd' = Some w → keeps fd s (Ext4.wrapper_write fd' w buf s).2.
Proof.
  intros Hw. unfold Ext4.wrapper_write. destruct (e_writable w); [|done].
  unfold negb, try_bind, mbind, prog_mbind, Ext4.on_ext4. destruct (global_fs s) as [x|]; [|done].
  destruct (ext4_write_at _ _ _ x) as [[[len|e]| | |] x']; try done.
  unfold checked. destruct (fitsb 64 _); [|done].
  transitivity (Ext4.set_fs x' s); [done|by apply (keeps_put fd fd' w)].
Qed.

(** A call that looks its descriptor up and goes on with the wrapper. *)
Lemma keeps_fd_lookup fd fd' {A} (k : Ext4Wrapper I → prog State A) (none : A) :
  (∀ w s, s.(ext4_table) !! fd' = Some w → keeps fd s (k w s).2) →
  Keeps fd (w ← gets (λ s, s.(ext4_table) !! fd');
            match w with Some w => k w | None => mret none end).
Proof.
  intros Hk s. unfold mbind, prog_mbind, gets.
  destruct (ext4_table s !! fd') as [w|] eqn:Hw; [by apply Hk|done].
Qed.

Lemma keeps_then {A B} fd (f : A → B) (m : prog State A) s :
  keeps fd s (m s).2 → keeps fd s ((a ← m; mret (f a)) s).2.
Proof. unfold mbind, prog_mbind. by destruct (m s) as [[] s']. Qed.

Lemma keeps_fd_open fd path flags mode : Keeps fd (Ext4.open mount path flags mode : prog State _).
Proof.
  apply keeps_bind; [apply _|]. intros _. apply keeps_bind; [apply _|]. intros [x|]; [|apply _].
  apply keeps_try; [apply _|]. intros n. apply keeps_bind; [apply _|]. intros i.
  apply keeps_bind; [apply keeps_alloc|apply _].
Qed.

(** Every call but closing [fd] keeps it. *)
Lemma keeps_op fd op s : op ≠ Ext4.EClose fd → keeps fd s (exec s op).
Proof.
  intros Hne. destruct op as [path flags mode|fd' buf|fd' buf|fd' pos|fd'|fd'|path]; cbn [Ext4.exec_op].
  - apply keeps_fd_open.
  - revert s. apply keeps_bind; [apply _|]. intros _. apply keeps_fd_lookup. intros w s Hw.
    pose proof (wrapper_read_keeps fd fd' w buf s Hw) as Hk. unfold mbind, prog_mbind.
    by destruct (Ext4.wrapper_read fd' w buf s) as [[[r b]| | |] s'].
  - revert s. apply keeps_bind; [apply _|]. intros _.
    destruct ((fd' =? 1) || (fd' =? 2)); [apply _|]. apply keeps_fd_lookup. intros w s Hw.
    by apply keeps_then, wrapper_write_keeps.
  - revert s. apply keeps_bind; [apply _|]. intros _. apply keeps_fd_lookup. intros w s Hw.
    by apply (keeps_put fd fd' w).
  - done.
  - revert s. apply keeps_bind; [apply _|]. intros _. apply keeps_bind; [|apply _].
    intros s. split; [done|]. intros _. cbn. rewrite lookup_delete_ne; [done|]. by intros ->.
  - revert s. apply keeps_bind; [apply _|]. intros _. apply keeps_bind; [apply _|].
    intros [x|]; [|apply _]. apply keeps_try; [apply _|]. intros d. apply keeps_bind; apply _.
Qed.

(** a descriptor's [stat] never changes while it is open: after a file was
    opened, any number of reads, writes, seeks, opens and other calls, on it and on
    others, leave what [stat] answers for it, its size included, what it was at the
    open. *)
Theorem stat_is_frozen : ∀ path flags mode fd (s s1 : State) ops,
  Ext4.open mount path flags mode s = (Ret (Ok fd), s1) →
  Ext4.EClose fd ∉ ops →
  ∃ st, (Ext4.stat fd s1).1 = Ret (Ok st) ∧ (Ext4.stat fd (foldl exec s1 ops)).1 = Ret (Ok st).
Proof.
  intros path flags mode fd s s1 ops Ho Hops.
  assert (Hs1 : fd < s1.(ext4_next_fd) ∧ ∃ w, s1.(ext4_table) !! fd = Some w).
  { apply bind_Ret_inv in Ho as ([] & s2 & _ & Ho). apply bind_Ret_inv in Ho as (g & s3 & _ & Ho).
    destruct g as [x|]; [|done]. apply bind_Ret_inv in Ho as ([n|e] & s4 & _ & Ho); [|done].
    apply bind_Ret_inv in Ho as (i & s5 & _ & Ho).
    apply bind_Ret_inv in Ho as (fd' & s6 & Ha & [= -> ->]). revert Ha.
    unfold Ext4.alloc_fd, mbind, prog_mbind, gets, checked.
    destruct (fitsb 32 (ext4_next_fd s5 + 1)); [|done]. cbn. intros [= <- <-]. cbn.
    split; [lia|]. rewrite lookup_insert_eq. by eexists. }
  destruct Hs1 as [Hlt [w Hw]]. exists (from_inode_ref w.(inode_ref)).
  assert (Hk : keeps fd s1 (foldl exec s1 ops)).
  { clear -Hops. revert s1. induction ops as [|op ops IH]; intros s1; [done|].
    apply not_elem_of_cons in Hops as [Hne Hops]. cbn [foldl].
    transitivity (exec s1 op); [by apply keeps_op|by apply IH]. }
  unfold Ext4.stat, mbind, prog_mbind, gets. cbn. rewrite Hw. split; [done|].
  pose proof (k_fd _ _ _ Hk Hlt) as He. rewrite Hw in He. cbn in He.
  destruct (ext4_table (foldl exec s1 ops) !! fd) as [w'|]; [|done].
  cbn in He. injection He as He. by rewrite He.
Qed.
End spec.

(** ** A one-file ext4, and its size *)
Module Demo.
#[global] Instance one_file : Ext4Crate (list byte) Z := {|
  ext4_file_open _ _ := mret (Ok 12);
  get_inode_ref _ := gets zlen;
  inode_num _ := 12;
  ext4_read_at _ off buf := mret (Ok 0, buf);
  ext4_write_at _ off buf := modify (λ c, c ++ buf);; mret (Ok (zlen buf));
  from_inode_ref size := mk_stat 0 12 1 0 0 0 0 0 size 4096 0
    (mk_timespec 0 0) (mk_timespec 0 0) (mk_timespec 0 0) [0; 0; 0];
  ext4_dir_open _ := mret (Ok 2);
  ext4_dir_get_entries _ := mret [];
  EACCES := "EACCES"
|}.
Definition opened : Ext4State (list byte) Z := (Ext4.open (Some []) "f" 0 OpenMode_RDWR Ext4.start).2.
End Demo.

Lemma Demo_open :
  Ext4.open (Some []) "f" 0 OpenMode_RDWR Ext4.start = (Ret (Ok 3), Demo.opened).
Proof. vm_compute. reflexivity. Qed.
Lemma Demo_stat : (Ext4.stat 3 Demo.opened).1 = Ret (Ok (from_inode_ref (0 : Z))).
Proof. vm_compute. reflexivity. Qed.
Lemma Demo_no_close : Ext4.EClose 3 ∉ [Ext4.EWrite 3 [1; 2; 3]].
Proof. intros H. apply elem_of_cons in H as [H|H]; [done|by apply elem_of_nil in H]. Qed.

Lemma stat_is_frozen_witness :
  (Ext4.stat 3 (foldl (Ext4.exec_op (Some [])) Demo.opened [Ext4.EWrite 3 [1; 2; 3]])).1 =
    Ret (Ok (from_inode_ref (0 : Z))) ∧ st_size (from_inode_ref (0 : Z)) = 0.
Proof.
  split; [|reflexivity].
  destruct (stat_is_frozen (Some []) "f" 0 OpenMode_RDWR 3 Ext4.start Demo.opened
    [Ext4.EWrite 3 [1; 2; 3]] Demo_open Demo_no_close) as (st & H1 & H2).
  rewrite Demo_stat in H1. injection H1 as <-. exact H2.
Defined.
