(* ===== verification/Wasi.v ===== *)
(** * The WASI interface for WebAssembly functions (wasmtime_wasi_api)

    The calls of wasi.rs over a guest's linear memory and the descriptor host
    calls.  wasmtime's memory is the class [WasmMemory]; the host calls are the
    class [WasiHost], over a state [W] below; the bytes the compiler leaves in a
    struct's padding are the class [Padding].  Addresses and lengths arrive as
    [i32]; [usize_of] is the sign-extending cast the code makes of them.  No call
    takes a lock it already holds, so the locks are not modelled; nor are the
    lines of the [log] feature. *)
From S2P Require Import Prelude Bytes Hostcall AsStd.
Local Open Scope Z_scope.

(** ** types.rs *)
Module Errno.
Inductive Errno : Type :=
  | Success | Toobig | Access | Addrinuse | Addrnotavail | Afnosupport | Again | Already
  | Badf | Badmsg | Busy | Canceled | Child | Connaborted | Connrefused | Connreset
  | Deadlk | Destaddrreq | Dom | Dquot | Exist | Fault | Fbig | Hostunreach | Idrm | Ilseq
  | Inprogress | Intr | Inval | Io | Isconn | Isdir | Loop | Mfile | Mlink | Msgsize
  | Multihop | Nametoolong | Netdown | Netreset | Netunreach | Nfile | Nobufs | Nodev
  | Noent | Noexec | Nolck | Nolink | Nomem | Nomsg | Noprotoopt | Nospc | Nosys | Notconn
  | Notdir | Notempty | Notrecoverable | Notsock | Notsup | Notty | Nxio | Overflow
  | Ownerdead | Perm | Pipe | Proto | Protonosupport | Prototype | Range | Rofs | Spipe
  | Srch | Stale | Timedout | Txtbsy | Xdev | Notcapable | Shutdown | Memviolation
  | Unknown.

(** [e as i32]: the variant's position in the declaration. *)
Definition as_i32 (e : Errno) : Z :=
  match e with
  | Success => 0 | Toobig => 1 | Access => 2 | Addrinuse => 3 | Addrnotavail => 4
  | Afnosupport => 5 | Again => 6 | Already => 7 | Badf => 8 | Badmsg => 9 | Busy => 10
  | Canceled => 11 | Child => 12 | Connaborted => 13 | Connrefused => 14 | Connreset => 15
  | Deadlk => 16 | Destaddrreq => 17 | Dom => 18 | Dquot => 19 | Exist => 20 | Fault => 21
  | Fbig => 22 | Hostunreach => 23 | Idrm => 24 | Ilseq => 25 | Inprogress => 26
  | Intr => 27 | Inval => 28 | Io => 29 | Isconn => 30 | Isdir => 31 | Loop => 32
  | Mfile => 33 | Mlink => 34 | Msgsize => 35 | Multihop => 36 | Nametoolong => 37
  | Netdown => 38 | Netreset => 39 | Netunreach => 40 | Nfile => 41 | Nobufs => 42
  | Nodev => 43 | Noent => 44 | Noexec => 45 | Nolck => 46 | Nolink => 47 | Nomem => 48
  | Nomsg => 49 | Noprotoopt => 50 | Nospc => 51 | Nosys => 52 | Notconn => 53
  | Notdir => 54 | Notempty => 55 | Notrecoverable => 56 | Notsock => 57 | Notsup => 58
  | Notty => 59 | Nxio => 60 | Overflow => 61 | Ownerdead => 62 | Perm => 63 | Pipe => 64
  | Proto => 65 | Protonosupport => 66 | Prototype => 67 | Range => 68 | Rofs => 69
  | Spipe => 70 | Srch => 71 | Stale => 72 | Timedout => 73 | Txtbsy => 74 | Xdev => 75
  | Notcapable => 76 | Shutdown => 77 | Memviolation => 78 | Unknown => 79
  end.
End Errno.

Definition errno (e : Errno.Errno) : Z := Errno.as_i32 e.

(** [x as usize] and [x as u64] of an [i32] or [i64]. *)
Definition usize_of (x : Z) : Z := wrap 64 x.
Definition u32_of (x : Z) : Z := wrap 32 x.

Class Padding : Type := {
  padding : nat → list byte;
  length_padding : ∀ n, length (padding n) = n
}.

(** The structs of types.rs, and their bytes in [repr(C)] layout. *)
Record WasiCiovec : Type := mk_iovec { buf : Z; buf_len : Z }.
Definition iovec_size : Z := 8.
Definition iovec_of_bytes (l : list byte) : WasiCiovec :=
  mk_iovec (le_decode (take 4 l)) (le_decode (drop 4 l)).

Section layouts.
Context `{PD : !Padding}.

Record WasiDirent : Type := mk_wdirent { d_next : Z; d_ino : Z; d_namelen : Z; d_type : Z }.
Definition dirent_size : Z := 24.
Definition dirent_bytes (d : WasiDirent) : list byte :=
  le_encode 8 d.(d_next) ++ le_encode 8 d.(d_ino) ++ le_encode 4 d.(d_namelen) ++
  le_encode 1 d.(d_type) ++ padding 3.

Record WasiFdstat : Type := mk_fdstat {
  fs_filetype : Z; fs_flags : Z; fs_rights_base : Z; fs_rights_inheriting : Z
}.
Definition fdstat_bytes (s : WasiFdstat) : list byte :=
  le_encode 1 s.(fs_filetype) ++ padding 1 ++ le_encode 2 s.(fs_flags) ++ padding 4 ++
  le_encode 8 s.(fs_rights_base) ++ le_encode 8 s.(fs_rights_inheriting).

Record WasiFilestat : Type := mk_filestat {
  fst_dev : Z; fst_ino : Z; fst_filetype : Z; fst_nlink : Z; fst_size : Z;
  fst_atim : Z; fst_mtim : Z; fst_ctim : Z
}.
Definition filestat_bytes (s : WasiFilestat) : list byte :=
  le_encode 8 s.(fst_dev) ++ le_encode 8 s.(fst_ino) ++ le_encode 1 s.(fst_filetype) ++
  padding 7 ++ le_encode 8 s.(fst_nlink) ++ le_encode 8 s.(fst_size) ++
  le_encode 8 s.(fst_atim) ++ le_encode 8 s.(fst_mtim) ++ le_encode 8 s.(fst_ctim).

Record WasiPrestatT : Type := mk_prestat { tag : Z; dirname_len : Z }.
Definition prestat_bytes (p : WasiPrestatT) : list byte :=
  le_encode 1 p.(tag) ++ padding 3 ++ le_encode 4 p.(dirname_len).
End layouts.

(** ** Strings as bytes *)
Definition bytes_of (s : string) : list byte :=
  map (λ c, Z.of_nat (Ascii.nat_of_ascii c)) (String.list_ascii_of_string s).
Definition string_of (l : list byte) : string :=
  String.string_of_list_ascii (map (λ b, Ascii.ascii_of_nat (Z.to_nat b)) l).

(** The validity check of [String::from_utf8]. *)
Definition in_range (lo hi b : Z) : bool := (lo <=? b) && (b <=? hi).
Definition continuation : Z → bool := in_range 128 191.
Fixpoint utf8_valid (l : list byte) : bool :=
  match l with
  | [] => true
  | b0 :: l1 =>
      if in_range 0 127 b0 then utf8_valid l1
      else match l1 with
      | [] => false
      | b1 :: l2 =>
          if in_range 194 223 b0 then continuation b1 && utf8_valid l2
          else match l2 with
          | [] => false
          | b2 :: l3 =>
              if in_range 224 239 b0 then
                in_range (if b0 =? 224 then 160 else 128) (if b0 =? 237 then 159 else 191) b1 &&
                continuation b2 && utf8_valid l3
              else match l3 with
              | [] => false
              | b3 :: l4 =>
                  in_range 240 244 b0 &&
                  in_range (if b0 =? 240 then 144 else 128) (if b0 =? 244 then 143 else 191) b1 &&
                  continuation b2 && continuation b3 && utf8_valid l4
              end
          end
      end
  end.
Definition from_utf8 (l : list byte) : option string :=
  if utf8_valid l then Some (string_of l) else None.

(** ** What the calls use *)

(** A guest's linear memory: its bytes, and reading and writing a range. *)
Class WasmMemory (Mem : Type) : Type := {
  data : Mem → list byte;
  set_data : Mem → list byte → Mem;
  mem_read : Mem → Z → Z → option (list byte);
  mem_write : Mem → Z → list byte → option Mem
}.

Class WasmMemorySpec (Mem : Type) `{!WasmMemory Mem} : Prop := {
  data_set : ∀ m d, length d = length (data m) → data (set_data m d) = d;
  set_set : ∀ m d d', set_data (set_data m d) d' = set_data m d';
  set_same : ∀ m, set_data m (data m) = m;
  mem_read_eq : ∀ m off n, mem_read m off n = slice (data m) off n;
  mem_write_eq : ∀ m off bs, mem_write m off bs = set_data m <$> splice (data m) off bs
}.

(** The host calls. *)
Class WasiHost (W : Type) : Type := {
  h_open : string → Z → Z → prog W (result Fd FdtabError);
  h_close : Fd → prog W (result () FdtabError);
  h_read : Fd → list byte → prog W (result Z FdtabError * list byte);
  h_write : Fd → list byte → prog W (result Z FdtabError);
  h_stat : Fd → prog W (result Stat FdtabError);
  h_readdir : string → prog W (result (list DirEntry) FdtabError);
  h_get_time : prog W (result Z string)
}.

Record WasiState (W Mem : Type) : Type := mk_wasi {
  WASI_STATE : gmap string (list string);
  FD2PATH : gmap Z string;
  JMP_BUF_MAP : gset string;
  caller_id : string;                  (* [caller.data().id] *)
  exported : option Mem;               (* the guest's export [memory] *)
  host : W
}.
Arguments mk_wasi {W Mem}.
Arguments WASI_STATE {W Mem}.
Arguments FD2PATH {W Mem}.
Arguments JMP_BUF_MAP {W Mem}.
Arguments caller_id {W Mem}.
Arguments exported {W Mem}.
Arguments host {W Mem}.

(** ** wasi.rs *)
Section wasi.
Context {W Mem : Type} `{WM : !WasmMemory Mem} `{WH : !WasiHost W} `{PD : !Padding}.
Local Abbreviation M := (prog (WasiState W Mem)).

Definition set_exported (m : option Mem) (s : WasiState W Mem) : WasiState W Mem :=
  mk_wasi s.(WASI_STATE) s.(FD2PATH) s.(JMP_BUF_MAP) s.(caller_id) m s.(host).
Definition set_host (w : W) (s : WasiState W Mem) : WasiState W Mem :=
  mk_wasi s.(WASI_STATE) s.(FD2PATH) s.(JMP_BUF_MAP) s.(caller_id) s.(exported) w.

Definition libos {A} (m : prog W A) : M A := on host set_host m.

(** [caller.get_export("memory").unwrap().into_memory().unwrap()] *)
Definition get_memory : M Mem := m ← gets exported; unwrap m.
Definition put_memory (m : Mem) : M () := modify (set_exported (Some m)).
(** [memory.write(..).unwrap()] *)
Definition write_guest (off : Z) (bs : list byte) : M () :=
  m ← get_memory; m ← unwrap (mem_write m off bs); put_memory m.

(** A fresh vector of [len as usize] bytes filled from the guest; a length no
    vector can have panics. *)
Definition read_guest (off len : Z) : M (list byte) :=
  assert (usize_of len <? 2 ^ 63);;
  m ← get_memory; unwrap (mem_read m (usize_of off) (usize_of len)).

Definition set_wasi_state (id : string) (args : list string) : M () :=
  modify (λ s, mk_wasi (<[id := args]> s.(WASI_STATE)) s.(FD2PATH) s.(JMP_BUF_MAP)
                       s.(caller_id) s.(exported) s.(host)).
Definition get_wasi_state : M (list string) :=
  o ← gets (λ s, s.(WASI_STATE) !! s.(caller_id));
  args ← unwrap o;
  assert (negb (zlen args =? 0));;
  mret args.

Definition set_fd2path (fd : Z) (path : string) : M () :=
  modify (λ s, mk_wasi s.(WASI_STATE) (<[fd := path]> s.(FD2PATH)) s.(JMP_BUF_MAP)
                       s.(caller_id) s.(exported) s.(host)).
Definition get_fd2path (fd : Z) : M string :=
  o ← gets (λ s, s.(FD2PATH) !! fd);
  path ← unwrap o;
  assert (negb (String.eqb path ""));;
  mret path.

(** What [args_get] does for one argument: its address, its bytes, the terminator. *)
Definition write_arg (slot arg_addr : Z) (arg : list byte) : M () :=
  write_guest slot (le_encode 4 (u32_of arg_addr));;
  write_guest arg_addr arg;;
  end_ ← checked 64 (arg_addr + zlen arg);
  write_guest end_ [0].

(** The loop of [args_get] over the arguments from the [i]-th on. *)
Fixpoint args_loop (argv argv_buf i offset : Z) (args : list (list byte)) : M () :=
  match args with
  | [] => mret ()
  | arg :: args =>
      arg_addr ← checked 64 (usize_of argv_buf + offset);
      slot ← checked 64 (usize_of argv + i * 4);
      write_arg slot arg_addr arg;;
      offset ← checked 64 (offset + (zlen arg + 1));
      args_loop argv argv_buf (i + 1) offset args
  end.
Definition args_get (argv argv_buf : Z) : M Z :=
  args ← get_wasi_state;
  _ ← get_memory;
  args_loop argv argv_buf 0 0 (map bytes_of args);;
  mret (errno Errno.Success).

Fixpoint sum_checked (l : list Z) (acc : Z) : M Z :=
  match l with
  | [] => mret acc
  | x :: l => acc ← checked 64 (acc + x); sum_checked l acc
  end.
Definition args_sizes_get (argc argv_buf_size : Z) : M Z :=
  args ← get_wasi_state;
  size ← sum_checked (map (λ v, zlen (bytes_of v) + 1) args) 0;
  _ ← get_memory;
  write_guest (usize_of argc) (le_encode 4 (u32_of (zlen args)));;
  write_guest (usize_of argv_buf_size) (le_encode 4 (u32_of size));;
  mret (errno Errno.Success).

(** [SystemTime::now()] *)
Definition now : M Z := r ← libos h_get_time; unwrap_ok r.

Definition clock_time_get (clock_id precision time : Z) : M Z :=
  _ ← get_memory;
  t ← now;
  d ← duration_since t 0;
  write_guest (usize_of time) (le_encode 16 (d.(secs) * 1000000000 + d.(nanos)));;
  mret (errno Errno.Success).

Definition environ_sizes_get (environ_count environ_buf_size : Z) : M Z :=
  _ ← get_memory;
  write_guest (usize_of environ_count) (le_encode 4 0);;
  write_guest (usize_of environ_buf_size) (le_encode 4 0);;
  mret (errno Errno.Success).

Definition fd_close (fd : Z) : M Z :=
  r ← libos (h_close (u32_of fd)); _ ← unwrap_ok r; mret (errno Errno.Success).

Definition ALL_RIGHTS : Z := 0xFFFFFFFFFFFFFFFF.
Definition fdstat_of (fd : Z) : WasiFdstat :=
  if fd =? 0 then mk_fdstat 2 0 ALL_RIGHTS 0
  else if fd =? 1 then mk_fdstat 2 1 ALL_RIGHTS 0
  else if fd =? 2 then mk_fdstat 2 1 ALL_RIGHTS 0
  else if fd =? 3 then mk_fdstat 3 0 ALL_RIGHTS ALL_RIGHTS
  else mk_fdstat 4 0 ALL_RIGHTS ALL_RIGHTS.
Definition fd_fdstat_get (fd retptr : Z) : M Z :=
  _ ← get_memory;
  write_guest (usize_of retptr) (fdstat_bytes (fdstat_of (u32_of fd)));;
  mret (errno Errno.Success).

Definition fd_prestat_get (fd retptr : Z) : M Z :=
  _ ← get_memory;
  if fd =? 3 then
    write_guest (usize_of retptr) (prestat_bytes (mk_prestat 0 (zlen (bytes_of "/"))));;
    mret (errno Errno.Success)
  else mret (errno Errno.Badf).

Definition fd_prestat_dir_name (fd path_addr path_len : Z) : M Z :=
  _ ← get_memory;
  if fd =? 3 then
    write_guest (usize_of path_addr) (bytes_of "/");;
    mret (errno Errno.Success)
  else mret (errno Errno.Overflow).

(** The [i]-th entry of the vector at [iovs_ptr]; a misaligned reference to it
    is caught by the debug profile. *)
Definition iovec_at (iovs_ptr i : Z) : M WasiCiovec :=
  scaled ← checked 64 (usize_of i * iovec_size);
  offset ← checked 64 (usize_of iovs_ptr + scaled);
  m ← get_memory;
  l ← unwrap (slice (data m) offset iovec_size);
  assert (offset mod 4 =? 0);;
  mret (iovec_of_bytes l).

Definition read_iovec (fd iovs_ptr : Z) (i read_size : Z) : M Z :=
  iov ← iovec_at iovs_ptr i;
  m ← get_memory;
  b ← unwrap (slice (data m) iov.(buf) iov.(buf_len));
  '(r, b) ← libos (h_read (u32_of fd) b);
  d ← unwrap (splice (data m) iov.(buf) b);
  put_memory (set_data m d);;
  n ← unwrap_ok r;
  checked 64 (read_size + n).

Definition write_iovec (fd iovs_ptr : Z) (i write_size : Z) : M Z :=
  iov ← iovec_at iovs_ptr i;
  m ← get_memory;
  b ← unwrap (slice (data m) iov.(buf) iov.(buf_len));
  r ← libos (h_write (u32_of fd) b);
  n ← unwrap_ok r;
  checked 64 (write_size + n).

(** [for i in 0..iovs_len], adding up the bytes transferred. *)
Fixpoint iov_loop (one : Z → Z → M Z) (ks : list Z) (size : Z) : M Z :=
  match ks with
  | [] => mret size
  | k :: ks => size ← one k size; iov_loop one ks size
  end.

Definition fd_read (fd iovs_ptr iovs_len retptr : Z) : M Z :=
  _ ← get_memory;
  read_size ← iov_loop (read_iovec fd iovs_ptr) (seqZ 0 iovs_len) 0;
  write_guest (usize_of retptr) (le_encode 4 (u32_of read_size));;
  mret (errno Errno.Success).

Definition fd_write (fd iovs_ptr iovs_len retptr : Z) : M Z :=
  _ ← get_memory;
  write_size ← iov_loop (write_iovec fd iovs_ptr) (seqZ 0 iovs_len) 0;
  write_guest (usize_of retptr) (le_encode 4 (u32_of write_size));;
  mret (errno Errno.Success).

(** [entries.sort_by(|a, b| a.entry_name.cmp(&b.entry_name))]: the stable sort. *)
Definition name_leb (a b : DirEntry) : bool := String.leb a.(entry_name) b.(entry_name).
Fixpoint insert_entry (e : DirEntry) (l : list DirEntry) : list DirEntry :=
  match l with
  | [] => [e]
  | e' :: l => if name_leb e e' then e :: e' :: l else e' :: insert_entry e l
  end.
Definition sort_entries (l : list DirEntry) : list DirEntry := foldr insert_entry [] l.

Definition with_dots (l : list DirEntry) : list DirEntry :=
  sort_entries (l ++ [mk_dirent "." "." 4; mk_dirent ".." ".." 4]).

Definition dirent_of (e : DirEntry) (cookie : Z) : WasiDirent :=
  mk_wdirent cookie 0 (u32_of (zlen (bytes_of e.(entry_name))))
    (if e.(entry_type) =? 2 then 2 else if e.(entry_type) =? 4 then 3
     else if e.(entry_type) =? 8 then 4 else 0).

Fixpoint readdir_loop (buf_len bufused : Z) (entries : list DirEntry)
    (cur_cookie cur_buf bufused_len : Z) : M Z :=
  match entries with
  | [] =>
      write_guest (usize_of bufused) (le_encode 4 bufused_len);;
      mret (errno Errno.Success)
  | item :: entries =>
      cur_cookie ← checked 64 (cur_cookie + 1);
      let name := bytes_of item.(entry_name) in
      let dirent := dirent_bytes (dirent_of item cur_cookie) in
      t ← checked 32 (bufused_len + dirent_size);
      t ← checked 32 (t + u32_of (zlen name));
      if u32_of buf_len <? t then
        cap ← checked 32 (u32_of buf_len - bufused_len);
        part_buf ← unwrap (slice (dirent ++ name) 0 cap);
        write_guest cur_buf part_buf;;
        write_guest (usize_of bufused) (le_encode 4 buf_len);;
        mret (errno Errno.Success)
      else
        write_guest cur_buf dirent;;
        cur_buf ← checked 32 (cur_buf + dirent_size);
        bufused_len ← checked 32 (bufused_len + dirent_size);
        write_guest cur_buf name;;
        cur_buf ← checked 32 (cur_buf + u32_of (zlen name));
        bufused_len ← checked 32 (bufused_len + u32_of (zlen name));
        readdir_loop buf_len bufused entries cur_cookie cur_buf bufused_len
  end.

Definition fd_readdir (fd buf buf_len cookie bufused : Z) : M Z :=
  _ ← get_memory;
  path ← get_fd2path (u32_of fd);
  r ← libos (h_readdir path);
  entries ← unwrap_ok r;
  readdir_loop buf_len bufused (drop (Z.to_nat (usize_of cookie)) (with_dots entries))
    (usize_of cookie) (u32_of buf) 0.

Definition filetype_of_mode (mode : Z) : Z :=
  let t := Z.shiftr mode 12 in
  if t =? 2 then 2 else if t =? 4 then 3 else if t =? 8 then 4 else 0.
Definition filestat_of (s : Stat) : WasiFilestat :=
  mk_filestat s.(st_dev) s.(st_ino) (filetype_of_mode s.(st_mode)) s.(st_nlink)
    (wrap 64 s.(st_size)) (wrap 64 s.(st_atime).(tv_nsec)) (wrap 64 s.(st_mtime).(tv_nsec))
    (wrap 64 s.(st_ctime).(tv_nsec)).

Definition path_filestat_get (fd flags path_ptr path_len buf : Z) : M Z :=
  _ ← get_memory;
  path ← read_guest path_ptr path_len;
  path ← unwrap (from_utf8 path);
  r ← libos (h_open path 0 OpenMode_RD);
  match r with
  | Err _ => mret (errno Errno.Noent)
  | Ok path_fd =>
      r ← libos (h_stat path_fd);
      ruxstat ← unwrap_ok r;
      r ← libos (h_close path_fd);
      _ ← unwrap_ok r;
      write_guest (usize_of buf) (filestat_bytes (filestat_of ruxstat));;
      mret (errno Errno.Success)
  end.

(** The flags and the mode [path_open] derives from the guest's arguments. *)
Definition open_flags_of (oflags fdflags : Z) : Z :=
  Z.lor (if Z.land (wrap 16 fdflags) 1 =? 1 then O_APPEND else 0)
        (if Z.land (wrap 16 oflags) 1 =? 1 then O_CREAT else 0).
Definition open_mode_of (fs_rights_base : Z) : Z :=
  Z.lor (if Z.land (Z.shiftr (wrap 64 fs_rights_base) 1) 1 =? 1 then OpenMode_RD else 0)
        (if Z.land (Z.shiftr (wrap 64 fs_rights_base) 6) 1 =? 1 then OpenMode_WR else 0).

Definition path_open (fd dirflags path_addr path_len oflags fs_rights_base
    fs_rights_inheriting fdflags retptr : Z) : M Z :=
  _ ← get_memory;
  path ← read_guest path_addr path_len;
  path ← unwrap (from_utf8 path);
  r ← libos (h_open path (open_flags_of oflags fdflags) (open_mode_of fs_rights_base));
  match r with
  | Err _ => mret (errno Errno.Noent)
  | Ok path_fd =>
      write_guest (usize_of retptr) (le_encode 4 path_fd);;
      set_fd2path path_fd path;;
      mret (errno Errno.Success)
  end.

(** [proc_exit] does not return: it jumps to the buffer of the caller, which it
    names here. *)
Definition proc_exit (code : Z) : M string :=
  if code =? 0 then
    id ← gets caller_id;
    bufs ← gets JMP_BUF_MAP;
    assert (bool_decide (id ∈ bufs));;
    mret id
  else panic.

(** The linear congruential generator of [random_get]. *)
Definition next_seed (seed : Z) : Z := wrap 64 (1664525 * seed + 1013904223) mod 2 ^ 32.
Fixpoint lcg_bytes (n : nat) (seed : Z) : list byte :=
  match n with
  | O => []
  | S n => let seed := next_seed seed in seed mod 256 :: lcg_bytes n seed
  end.
Definition random_get (buf buf_len : Z) : M Z :=
  _ ← get_memory;
  assert (usize_of buf_len <? 2 ^ 63);;
  write_guest (usize_of buf) (lcg_bytes (Z.to_nat (usize_of buf_len)) (usize_of buf));;
  mret (errno Errno.Success).

(** The calls that only report success. *)
Definition success : M Z := mret (errno Errno.Success).
Definition clock_res_get (clock_id resolution : Z) : M Z := success.
Definition environ_get (environ environ_buf : Z) : M Z := success.
Definition fd_advise (fd offset len advice : Z) : M Z := success.
Definition fd_datasync (fd : Z) : M Z := success.
Definition fd_fdstat_set_flags (fd offset : Z) : M Z := success.
Definition fd_filestat_get (fd buf : Z) : M Z := success.
Definition fd_filestat_set_size (fd st_size : Z) : M Z := success.
Definition fd_filestat_set_times (fd st_atim st_mtim fst_flags : Z) : M Z := success.
Definition fd_pread (fd iovs iovs_len offset nread : Z) : M Z := success.
Definition fd_pwrite (fd iovs iovs_len offset nwritten : Z) : M Z := success.
Definition fd_seek (fd offset whence pos : Z) : M Z := success.
Definition fd_sync (fd : Z) : M Z := success.
Definition fd_tell (fd offset : Z) : M Z := success.
Definition path_create_directory (fd path path_len : Z) : M Z := success.
Definition path_filestat_set_times (fd flags path path_len st_atim st_mtim fst_flags : Z) : M Z :=
  success.
Definition path_link (old_fd old_flags old_path old_path_len new_fd new_path new_path_len : Z) :
  M Z := success.
Definition path_readlink (dir_fd path path_len buf buf_len buf_used : Z) : M Z := success.
Definition path_remove_directory (fd path path_len : Z) : M Z := success.
Definition path_rename (old_fd old_path old_path_len new_fd new_path new_path_len : Z) : M Z :=
  success.
Definition path_symlink (old_path old_path_len fd new_path new_path_len : Z) : M Z := success.
Definition path_unlink_file (fd path path_len : Z) : M Z := success.
Definition poll_oneoff (in_ out_ nsubscriptions nevents : Z) : M Z := success.
Definition sched_yield : M Z := success.
Definition sock_accept (sock fd_flags ro_fd : Z) : M Z := success.
Definition sock_recv (sock ri_data ri_data_len ri_flags ro_data_len ro_flags : Z) : M Z := success.
Definition sock_send (sock si_data si_data_len si_flags ret_data_len : Z) : M Z := success.
Definition sock_shutdown (sock how : Z) : M Z := success.
End wasi.
