(* ===== verification/WasiLink.v ===== *)
(** * The functions a WebAssembly module can import (wasmtime_wasi_api/src/lib.rs)

    [import_all] gives wasmtime's linker one function per name.  [func_wrap] takes
    the Wasm type of a function from its Rust type; here the list of its parameters
    is written next to it and checked by [curried].  A linker is the list of what
    was defined in it, under module and name. *)
From S2P Require Import Prelude Bytes Hostcall AsStd Wasi.
Local Open Scope Z_scope.

Inductive ValType : Type := I32 | I64.

(** The type of a function without its caller: parameters and results. *)
Record FuncType : Type := mk_functype { params : list ValType; results : list ValType }.

#[global] Instance ValType_eq_dec : EqDecision ValType.
Proof. solve_decision. Defined.
#[global] Instance FuncType_eq_dec : EqDecision FuncType.
Proof. solve_decision. Defined.

(** [Linker<LibosCtx>], as far as it is asked: names and types. *)
Abbreviation Linker := (list (string * string * FuncType)).

Definition defined (l : Linker) (module name : string) : bool :=
  existsb (λ d, String.eqb d.1.1 module && String.eqb d.1.2 name) l.
(** [Linker::func_wrap]: an error if the name is taken. *)
Definition func_wrap (module name : string) (ty : FuncType) : prog Linker (result () string) :=
  l ← gets id;
  if defined l module name then mret (Err "defined twice"%string)
  else modify (λ l, l ++ [(module, name, ty)]);; mret (Ok ()).

(** The slots of data buffers, as the functions of data_buffer.rs use them:
    [h_with_slot] fills the buffer of a slot with the address and the length of a
    range of the caller's memory, [h_take_slot] takes the buffer of a slot, or
    makes the empty one, and gives the length in it and the bytes at its address.
    WasmBuffer.v has both over the isolation's addresses. *)
Class WasiBuffers (W : Type) : Type := {
  h_with_slot : string → Z → Z → prog W ();
  h_take_slot : string → Z → prog W (Z * list byte)
}.

Section imports.
Context {W Mem : Type} `{WM : !WasmMemory Mem} `{WH : !WasiHost W} `{WB : !WasiBuffers W}
  `{PD : !Padding}.
Local Abbreviation M := (prog (WasiState W Mem)).

(** Functions of as many arguments as [l] is long. *)
Fixpoint curried (l : list ValType) : Type :=
  match l with [] => M Z | _ :: l => Z → curried l end.

Record Import : Type := mk_import {
  i_name : string; i_params : list ValType; i_results : list ValType; i_func : curried i_params
}.
(** A function with one [i32] result, and one with none. *)
Definition func (name : string) (params : list ValType) (f : curried params) : Import :=
  mk_import name params [I32] f.
Definition proc (name : string) (params : list ValType) (f : curried params) : Import :=
  mk_import name params [] f.

(** A call with [args]; the types were checked when the module was linked. *)
Fixpoint apply_args (l : list ValType) : curried l → list Z → M Z :=
  match l with
  | [] => λ f args, match args with [] => f | _ => panic end
  | _ :: l => λ f args, match args with a :: args => apply_args l (f a) args | [] => panic end
  end.

(** The arguments, the clocks and the environment. *)
Definition process_imports : list Import :=
  [
    func "args_get" [I32; I32] Wasi.args_get;
    func "args_sizes_get" [I32; I32] args_sizes_get;
    func "clock_res_get" [I32; I32] clock_res_get;
    func "clock_time_get" [I32; I64; I32] clock_time_get;
    func "environ_get" [I32; I32] environ_get;
    func "environ_sizes_get" [I32; I32] environ_sizes_get
  ].

(** Descriptors. *)
Definition fd_imports : list Import :=
  [
    func "fd_advise" [I32; I64; I64; I32] fd_advise;
    func "fd_close" [I32] fd_close;
    func "fd_datasync" [I32] fd_datasync;
    func "fd_fdstat_get" [I32; I32] fd_fdstat_get;
    func "fd_fdstat_set_flags" [I32; I32] fd_fdstat_set_flags;
    func "fd_filestat_get" [I32; I32] fd_filestat_get;
    func "fd_filestat_set_size" [I32; I64] fd_filestat_set_size;
    func "fd_filestat_set_times" [I32; I64; I64; I32] fd_filestat_set_times;
    func "fd_pread" [I32; I32; I32; I64; I32] fd_pread;
    func "fd_pwrite" [I32; I32; I32; I64; I32] fd_pwrite;
    func "fd_prestat_get" [I32; I32] fd_prestat_get;
    func "fd_prestat_dir_name" [I32; I32; I32] fd_prestat_dir_name;
    func "fd_read" [I32; I32; I32; I32] fd_read;
    func "fd_readdir" [I32; I32; I32; I64; I32] fd_readdir;
    func "fd_seek" [I32; I64; I32; I32] fd_seek;
    func "fd_sync" [I32] fd_sync;
    func "fd_tell" [I32; I32] fd_tell;
    func "fd_write" [I32; I32; I32; I32] fd_write
  ].

(** Paths. *)
Definition path_imports : list Import :=
  [
    func "path_create_directory" [I32; I32; I32] path_create_directory;
    func "path_filestat_get" [I32; I32; I32; I32; I32] path_filestat_get;
    func "path_filestat_set_times" [I32; I32; I32; I32; I64; I64; I32] path_filestat_set_times;
    func "path_link" [I32; I32; I32; I32; I32; I32; I32] path_link;
    func "path_open" [I32; I32; I32; I32; I32; I64; I64; I32; I32] path_open;
    func "path_readlink" [I32; I32; I32; I32; I32; I32] path_readlink;
    func "path_remove_directory" [I32; I32; I32] path_remove_directory;
    func "path_rename" [I32; I32; I32; I32; I32; I32] path_rename;
    func "path_symlink" [I32; I32; I32; I32; I32] path_symlink;
    func "path_unlink_file" [I32; I32; I32] path_unlink_file
  ].

(** Everything else; [proc_exit] has no result. *)
Definition other_imports : list Import :=
  [
    func "poll_oneoff" [I32; I32; I32; I32] poll_oneoff;
    proc "proc_exit" [I32] (λ code, _ ← proc_exit code; mret 0);
    func "random_get" [I32; I32] random_get;
    func "sched_yield" [] sched_yield;
    func "sock_accept" [I32; I32; I32] sock_accept;
    func "sock_recv" [I32; I32; I32; I32; I32; I32] sock_recv;
    func "sock_send" [I32; I32; I32; I32; I32] sock_send;
    func "sock_shutdown" [I32; I32] sock_shutdown
  ].

Definition wasi_imports : list Import :=
  process_imports ++ fd_imports ++ path_imports ++ other_imports.

(** The two functions of data_buffer.rs. *)
Definition env_slot_name (slot_name_base slot_name_size : Z) : M string :=
  slot_name ← read_guest slot_name_base slot_name_size; unwrap (from_utf8 slot_name).

Definition env_buffer_register (slot_name_base slot_name_size buffer_offset buffer_size : Z) : M () :=
  slot_name ← env_slot_name slot_name_base slot_name_size;
  m ← get_memory;
  _ ← unwrap (slice (data m) (usize_of buffer_offset) (usize_of buffer_size));
  libos (h_with_slot slot_name (usize_of buffer_offset) (usize_of buffer_size)).

Definition env_access_buffer (slot_name_base slot_name_size buffer_offset buffer_size : Z) : M () :=
  slot_name ← env_slot_name slot_name_base slot_name_size;
  '(len, buffer) ← libos (h_take_slot slot_name (usize_of buffer_size));
  assert (usize_of buffer_size =? len);;
  write_guest (usize_of buffer_offset) buffer.

Definition env_imports : list Import :=
  [
    proc "buffer_register" [I32; I32; I32; I32] (λ a b c d, env_buffer_register a b c d;; mret 0);
    proc "access_buffer" [I32; I32; I32; I32] (λ a b c d, env_access_buffer a b c d;; mret 0)
  ].

Definition type_of (i : Import) : FuncType :=
  mk_functype i.(i_params) i.(i_results).

Definition import_all : prog Linker () :=
  forM env_imports (λ i, r ← func_wrap "env" i.(i_name) (type_of i); unwrap_ok r);;
  forM wasi_imports (λ i, r ← func_wrap "wasi_snapshot_preview1" i.(i_name) (type_of i); unwrap_ok r).

(** What a guest's call of an imported function runs; no name is in both modules. *)
Definition call_import (name : string) (args : list Z) : M Z :=
  match List.find (λ i, String.eqb i.(i_name) name) (env_imports ++ wasi_imports) with
  | Some i => apply_args i.(i_params) i.(i_func) args
  | None => panic
  end.

(** ** Linking *)

(** The linker [build_wasm] makes. *)
Definition linked : Linker := (import_all []).2.

(** [import_all] succeeds: no name is defined twice.  Of the 46 functions of
    preview 1, these four are missing. *)
Theorem import_all_complete :
  (import_all []).1 = Ret () ∧ length linked = 44%nat ∧
  map (λ n, defined linked "wasi_snapshot_preview1" n)
    ["fd_allocate"; "fd_fdstat_set_rights"; "fd_renumber"; "proc_raise"]%string =
    [false; false; false; false].
Proof. vm_compute. by split_and!. Qed.
End imports.
