(* ===== verification/WasiSpec.v ===== *)
(** * What the WASI calls guarantee

    Reading and writing through a guest's vectors of buffers, its arguments,
    directory listings page by page; then where the calls do not do what their
    interface asks: the seek that is ignored, the clock that writes too much, the
    random bytes that are not, addresses in the upper half of the memory, and the
    first file, which gets the root directory's descriptor. *)
From S2P Require Import Prelude Bytes Hostcall Fdtab Fatfs FdSpec FileStack AsStd AsStdSpec Wasi.
Local Open Scope Z_scope.

(** ** Bytes of memory *)
Section memory.
Context {W Mem : Type} {WM : WasmMemory Mem} {WMS : WasmMemorySpec Mem}.
Implicit Types (s : WasiState W Mem) (m : Mem) (d : list byte).

(** [s] with guest memory [d]. *)
Definition with_data s m d : WasiState W Mem := set_exported (Some (set_data m d)) s.

Lemma get_memory_eq s m : s.(exported) = Some m → get_memory s = (Ret m, s).
Proof. intros Hm. unfold get_memory, mbind, prog_mbind, gets. by rewrite Hm. Qed.

Lemma write_guest_eq s m off bs : s.(exported) = Some m →
  write_guest off bs s =
    match splice (data m) off bs with
    | Some d => (Ret (), with_data s m d)
    | None => (Panic, s)
    end.
Proof.
  intros Hm. unfold write_guest. rewrite (bind_Ret _ _ _ _ _ (get_memory_eq s m Hm)).
  rewrite mem_write_eq. by destruct (splice (data m) off bs).
Qed.

Lemma write_guest_ok s m off bs : s.(exported) = Some m → 0 ≤ off → off + zlen bs ≤ zlen (data m) →
  write_guest off bs s = (Ret (), with_data s m (list_inserts (Z.to_nat off) bs (data m))).
Proof. intros Hm H0 Hle. rewrite (write_guest_eq s m) by done. by rewrite splice_ok. Qed.

Lemma write_guest_panic s off bs : ¬ (0 ≤ off ∧ ∀ m, s.(exported) = Some m → off + zlen bs ≤ zlen (data m)) →
  write_guest off bs s = (Panic, s).
Proof.
  intros Hn. destruct (exported s) as [m|] eqn:Hm.
  - rewrite (write_guest_eq s m) by done. destruct (splice _ _ _) as [d|] eqn:Hs; [|done].
    apply splice_Some in Hs as (H0 & Hle & _). destruct Hn. split; [done|]. by intros ? [= <-].
  - unfold write_guest, get_memory, mbind, prog_mbind, gets. by rewrite Hm.
Qed.

(** Reading the guest's memory changes nothing. *)
Lemma read_guest_inv s off len l s' : read_guest off len s = (Ret l, s') →
  s' = s ∧ ∃ m, s.(exported) = Some m ∧ slice (data m) (usize_of off) (usize_of len) = Some l.
Proof.
  unfold read_guest. intros ([] & s1 & Ha & (m & s2 & Hm & Hr)%bind_Ret_inv)%bind_Ret_inv.
  unfold assert in Ha. destruct (_ <? _); [|done]. injection Ha as <-.
  apply bind_Ret_inv in Hm as (o & s3 & [= <- <-] & Hm).
  destruct (exported s) as [m'|]; [|done]. injection Hm as <- <-.
  rewrite mem_read_eq in Hr. destruct (slice _ _ _) as [l'|] eqn:Hs; [|done].
  injection Hr as <- <-. eauto.
Qed.

Lemma with_data_exported s m d : exported (with_data s m d) = Some (set_data m d).
Proof. done. Qed.

Lemma with_data_twice s m d d' :
  with_data (with_data s m d) (set_data m d) d' = with_data s m d'.
Proof. unfold with_data, set_exported. cbn. by rewrite set_set. Qed.

Lemma with_data_same s m : s.(exported) = Some m → with_data s m (data m) = s.
Proof. intros Hm. unfold with_data. rewrite set_same. destruct s. cbn in *. by subst. Qed.

Lemma usize_of_nonneg x : 0 ≤ x < 2 ^ 63 → usize_of x = x.
Proof. intros Hx. unfold usize_of, wrap. apply Z.mod_small. lia. Qed.
Lemma usize_of_neg x : - 2 ^ 31 ≤ x < 0 → usize_of x = x + 2 ^ 64.
Proof.
  intros Hx. unfold usize_of, wrap. symmetry. apply Z.mod_unique with (q := -1); lia.
Qed.
Lemma u32_of_small x : fits 32 x → u32_of x = x.
Proof. intros Hx. by apply Z.mod_small. Qed.
End memory.

(** ** Vectors of buffers *)

Section vectors.
Context {W Mem : Type} {WM : WasmMemory Mem} {WMS : WasmMemorySpec Mem} {WH : WasiHost W}.
Implicit Types (s : WasiState W Mem) (m : Mem) (d : list byte) (bufs : list (Z * Z)).

(** The guest's vector at [p]: entry [k] names the buffer [bufs !! k]. *)
Definition iovecs_at d (p : Z) bufs : Prop :=
  0 ≤ p < 2 ^ 31 ∧ p mod 4 = 0 ∧ zlen bufs < 2 ^ 31 ∧
  ∀ k b n, bufs !! k = Some (b, n) →
    fits 32 b ∧ fits 32 n ∧ b + n ≤ zlen d ∧
    slice d (p + 8 * Z.of_nat k) 8 = Some (le_encode 4 b ++ le_encode 4 n).

(** What the buffers hold, in order. *)
Definition gather bufs d : list byte :=
  concat (map (λ bn, sub d (Z.to_nat bn.1) (Z.to_nat bn.2)) bufs).
Definition total bufs : Z := foldr (λ bn acc, bn.2 + acc) 0 bufs.

Lemma iovec_at_eq s m p bufs k b n :
  s.(exported) = Some m → iovecs_at (data m) p bufs → bufs !! k = Some (b, n) →
  iovec_at p (Z.of_nat k) s = (Ret (mk_iovec b n), s).
Proof.
  intros Hm (Hp & Hal & Hlen & Hv) Hk. destruct (Hv k b n Hk) as (Hb & Hn & _ & Hs).
  assert (Hkl := lookup_lt_Some _ _ _ Hk). unfold zlen in Hlen.
  unfold iovec_at, iovec_size. rewrite !usize_of_nonneg by lia.
  rewrite (bind_Ret _ _ _ _ _ (checked_fits 64 (Z.of_nat k * 8) s ltac:(unfold fits; lia))).
  rewrite (bind_Ret _ _ _ _ _ (checked_fits 64 (p + Z.of_nat k * 8) s ltac:(unfold fits; lia))).
  rewrite (bind_Ret _ _ _ _ _ (get_memory_eq s m Hm)).
  replace (p + Z.of_nat k * 8) with (p + 8 * Z.of_nat k) by lia. rewrite Hs.
  unfold unwrap. rewrite (bind_Ret _ _ _ (le_encode 4 b ++ le_encode 4 n) s) by done.
  replace ((p + 8 * Z.of_nat k) mod 4) with (p mod 4)
    by (rewrite (Z.add_mod p), (Z.mul_mod 8) by lia; change (8 mod 4) with 0;
        rewrite Z.mul_0_l, Z.mod_0_l, Z.add_0_r, Z.mod_mod by lia; done).
  rewrite Hal. unfold assert. cbn [Z.eqb]. rewrite (bind_Ret _ _ _ () s) by done.
  unfold iovec_of_bytes. rewrite take_app_length', drop_app_length' by (by rewrite length_le_encode).
  by rewrite !le_decode_encode_fits.
Qed.

(** ** The interface of files

    A host whose files are byte sequences with a position: what the descriptor
    calls promise on a descriptor open for reading and writing. *)
Class HostFiles : Type := {
  at_file : W → Fd → list byte → nat → Prop;
  accepts_data : W → Fd → list byte → Prop;
  at_file_le : ∀ w fd c pos, at_file w fd c pos → (pos ≤ length c)%nat;
  h_read_at : ∀ w fd c pos b, at_file w fd c pos → zlen b < 2 ^ 64 →
    let n := Nat.min (length b) (length c - pos) in
    ∃ w', h_read fd b w = (Ret (Ok (Z.of_nat n), sub c pos n ++ drop n b), w') ∧
          at_file w' fd c (pos + n);
  h_write_at : ∀ w fd c pos b, at_file w fd c pos → accepts_data w fd b →
    ∃ w', h_write fd b w = (Ret (Ok (zlen b)), w') ∧
          at_file w' fd (take pos c ++ b ++ drop (pos + length b) c) (pos + length b)
}.
End vectors.
Arguments HostFiles W {WH}.

Section transfers.
Context {W Mem : Type} {WM : WasmMemory Mem} {WMS : WasmMemorySpec Mem} {WH : WasiHost W}
  {HF : HostFiles W}.
Implicit Types (s : WasiState W Mem) (m : Mem) (d : list byte) (bufs : list (Z * Z)).

(** The buffers of the rest of a vector. *)
Lemma iovecs_at_rest d p before rest : iovecs_at d p (before ++ rest) →
  ∀ k b n, rest !! k = Some (b, n) → fits 32 b ∧ fits 32 n ∧ b + n ≤ zlen d.
Proof.
  intros (_ & _ & _ & Hv) k b n Hk.
  destruct (Hv (length before + k)%nat b n) as (? & ? & ? & _); [|done].
  by rewrite lookup_app_r, Nat.add_comm, Nat.add_sub by lia.
Qed.

(** Overwriting [b] at [pos] and then [g] behind it. *)
Lemma overwrite_twice (c b g : list byte) (pos : nat) : (pos ≤ length c)%nat →
  let c' := take pos c ++ b ++ drop (pos + length b) c in
  take (pos + length b) c' ++ g ++ drop (pos + length b + length g) c' =
  take pos c ++ (b ++ g) ++ drop (pos + length b + length g) c.
Proof.
  intros Hle c'. assert (Htp : length (take pos c) = pos) by (rewrite length_take; lia).
  assert (Hc' : c' = (take pos c ++ b) ++ drop (pos + length b) c) by apply app_assoc.
  assert (Hl : length (take pos c ++ b) = (pos + length b)%nat) by (rewrite length_app; lia).
  rewrite Hc', take_app_length', drop_app_ge, Hl, drop_drop by lia.
  rewrite <- !app_assoc. do 4 f_equal. lia.
Qed.

(** The file takes the pieces one after the other. *)
Fixpoint accepts_all (w : W) (fd : Fd) (pieces : list (list byte)) : Prop :=
  match pieces with
  | [] => True
  | b :: pieces => accepts_data w fd b ∧ accepts_all (h_write fd b w).2 fd pieces
  end.
Definition pieces bufs d : list (list byte) :=
  map (λ bn, sub d (Z.to_nat bn.1) (Z.to_nat bn.2)) bufs.

Lemma total_gather d bufs :
  (∀ k b n, bufs !! k = Some (b, n) → fits 32 b ∧ fits 32 n ∧ b + n ≤ zlen d) →
  0 ≤ total bufs ∧ zlen (gather bufs d) = total bufs.
Proof.
  induction bufs as [|[b n] bufs IH]; intros Hb; [done|].
  destruct (Hb 0%nat b n eq_refl) as (Hfb & Hfn & Hle).
  destruct IH as [IH0 IHe]; [by intros k; apply (Hb (S k))|].
  unfold fits, gather, total, zlen in *. cbn [map concat foldr fst snd].
  rewrite length_app, length_sub by lia. lia.
Qed.

Lemma write_loop_spec fd p bufs m : iovecs_at (data m) p bufs →
  ∀ rest before, bufs = before ++ rest → ∀ s c pos size,
  s.(exported) = Some m → at_file s.(host) (u32_of fd) c pos →
  accepts_all s.(host) (u32_of fd) (pieces rest (data m)) →
  0 ≤ size → size + total rest < 2 ^ 64 →
  ∃ w', iov_loop (write_iovec fd p) (seqZ (zlen before) (zlen rest)) size s =
    (Ret (size + total rest), set_host w' s) ∧
    at_file w' (u32_of fd)
      (take pos c ++ gather rest (data m) ++ drop (pos + length (gather rest (data m))) c)
      (pos + length (gather rest (data m))).
Proof.
  intros Hv. induction rest as [|[b n] rest IH]; intros before Hbufs s c pos size Hm Hat Hacc H0 Hsz.
  - exists s.(host). cbn. rewrite Z.add_0_r, Nat.add_0_r, take_drop. split; [by destruct s|done].
  - assert (Hk : bufs !! length before = Some (b, n)) by (subst; by apply list_lookup_middle).
    destruct (proj2 (proj2 (proj2 Hv)) _ _ _ Hk) as (Hfb & Hfn & Hle & _).
    assert (Hrest := iovecs_at_rest (data m) p (before ++ [(b, n)]) rest
      ltac:(by rewrite <- app_assoc; subst)).
    destruct (total_gather _ _ Hrest) as [Ht0 Htg].
    cbn [pieces map accepts_all fst snd] in Hacc. destruct Hacc as [Ha Hacc].
    destruct (h_write_at _ _ _ _ _ Hat Ha) as (w1 & Hw & Hat1). rewrite Hw in Hacc. cbn in Hacc.
    assert (Htot : total ((b, n) :: rest) = n + total rest) by done. rewrite Htot in *.
    set (b1 := sub (data m) (Z.to_nat b) (Z.to_nat n)) in *.
    assert (Hl1 : zlen b1 = n) by (unfold b1, zlen, fits in *; rewrite length_sub; unfold zlen in *; lia).
    assert (Hone : write_iovec fd p (zlen before) size s = (Ret (size + n), set_host w1 s)).
    { unfold write_iovec. unfold zlen at 1.
      rewrite (bind_Ret _ _ _ _ _ (iovec_at_eq s m p bufs _ b n Hm Hv Hk)).
      rewrite (bind_Ret _ _ _ _ _ (get_memory_eq s m Hm)). cbn [buf buf_len].
      unfold fits in *. rewrite slice_ok by lia. fold b1.
      unfold unwrap. rewrite (bind_Ret _ _ _ b1 s) by done.
      rewrite (bind_Ret _ _ _ (Ok (zlen b1)) (set_host w1 s))
        by (unfold libos, on; by rewrite Hw).
      unfold unwrap_ok. rewrite (bind_Ret _ _ _ (zlen b1) (set_host w1 s)) by done.
      rewrite Hl1. apply checked_fits. unfold fits. lia. }
    assert (Hseq : seqZ (zlen before) (zlen ((b, n) :: rest)) =
      zlen before :: seqZ (zlen (before ++ [(b, n)])) (zlen rest)).
    { unfold zlen. rewrite length_app. cbn [length].
      rewrite seqZ_cons by lia. do 2 f_equal; lia. }
    rewrite Hseq. cbn [iov_loop]. rewrite (bind_Ret _ _ _ _ _ Hone).
    destruct (IH (before ++ [(b, n)]) ltac:(by rewrite <- app_assoc) (set_host w1 s) _ _ (size + n)
      Hm Hat1 Hacc) as (w2 & Hl & Hat2); [unfold fits in *; lia|lia|].
    exists w2. rewrite Hl. split; [by rewrite Z.add_assoc|].
    assert (Hle1 := at_file_le _ _ _ _ Hat).
    assert (Hg : gather ((b, n) :: rest) (data m) = b1 ++ gather rest (data m)) by done.
    rewrite Hg. set (g := gather rest (data m)) in *. rewrite length_app, Nat.add_assoc.
    by rewrite <- overwrite_twice.
Qed.

(** Regions of memory that do not overlap. *)
Definition apart (a n b k : Z) : Prop := a + n ≤ b ∨ b + k ≤ a.
Definition outside (bufs : list (Z * Z)) (a : nat) : Prop :=
  ∀ b n, (b, n) ∈ bufs → Z.of_nat a < b ∨ b + n ≤ Z.of_nat a.
Fixpoint bufs_apart (bufs : list (Z * Z)) : Prop :=
  match bufs with
  | [] => True
  | (b, n) :: bufs => (∀ b' n', (b', n') ∈ bufs → apart b n b' n') ∧ bufs_apart bufs
  end.

Lemma sub_ext {A} (l l' : list A) i n :
  (∀ a, (i ≤ a < i + n)%nat → l !! a = l' !! a) → sub l i n = sub l' i n.
Proof. intros Heq. apply list_eq. intros j. rewrite !lookup_sub. case_decide; [|done]. apply Heq. lia. Qed.

Lemma gather_ext d d' bufs : length d' = length d →
  (∀ b n a, (b, n) ∈ bufs → 0 ≤ b → b ≤ Z.of_nat a < b + n → d' !! a = d !! a) →
  (∀ b n, (b, n) ∈ bufs → 0 ≤ b) → gather bufs d' = gather bufs d.
Proof.
  intros Hl Heq H0. unfold gather. f_equal. apply map_ext_in. intros [b n] Hin%list_elem_of_In.
  specialize (H0 b n Hin). cbn. apply sub_ext. intros a Ha. eapply Heq; [done|done|lia].
Qed.

Lemma iovecs_at_ext d d' p bufs : length d' = length d →
  (∀ a, p ≤ Z.of_nat a < p + 8 * zlen bufs → d' !! a = d !! a) →
  iovecs_at d p bufs → iovecs_at d' p bufs.
Proof.
  intros Hl Heq (Hp & Hal & Hlen & Hv). split_and!; [lia|lia|done|done|].
  intros k b n Hk. destruct (Hv k b n Hk) as (Hb & Hn & Hle & Hs).
  assert (Hkl := lookup_lt_Some _ _ _ Hk).
  unfold zlen in *. split_and!; [done|done|lia|].
  apply slice_Some in Hs as (H1 & H2 & H3 & Hs). unfold zlen in *.
  rewrite slice_ok, Hs by (unfold zlen; lia). f_equal. apply sub_ext.
  intros a Ha. apply Heq. lia.
Qed.

(** One buffer filled. *)
Lemma read_iovec_spec fd p bufs k b n s m c pos size :
  iovecs_at (data m) p bufs → bufs !! k = Some (b, n) → s.(exported) = Some m →
  at_file s.(host) (u32_of fd) c pos → 0 ≤ size → size + n < 2 ^ 64 →
  let old := sub (data m) (Z.to_nat b) (Z.to_nat n) in
  let got := Nat.min (Z.to_nat n) (length c - pos) in
  ∃ w', read_iovec fd p (Z.of_nat k) size s =
    (Ret (size + Z.of_nat got), with_data (set_host w' s) m
       (list_inserts (Z.to_nat b) (sub c pos got ++ drop got old) (data m))) ∧
    at_file w' (u32_of fd) c (pos + got).
Proof.
  intros Hv Hk Hm Hat H0 Hsz old got.
  destruct (proj2 (proj2 (proj2 Hv)) _ _ _ Hk) as (Hfb & Hfn & Hle & _).
  assert (Hlo : length old = Z.to_nat n)
    by (unfold old, fits, zlen in *; rewrite length_sub; lia).
  assert (Hle1 := at_file_le _ _ _ _ Hat).
  destruct (h_read_at _ _ _ _ old Hat) as (w1 & Hr & Hat1); [unfold zlen, fits in *; lia|].
  rewrite Hlo in Hr, Hat1. fold got in Hr, Hat1. exists w1. split; [|done].
  unfold read_iovec. rewrite (bind_Ret _ _ _ _ _ (iovec_at_eq s m p bufs _ b n Hm Hv Hk)).
  rewrite (bind_Ret _ _ _ _ _ (get_memory_eq s m Hm)). cbn [buf buf_len].
  unfold fits in *. rewrite slice_ok by lia. fold old.
  unfold unwrap at 1. rewrite (bind_Ret _ _ _ old s) by done.
  rewrite (bind_Ret _ _ _ (Ok (Z.of_nat got), sub c pos got ++ drop got old) (set_host w1 s))
    by (unfold libos, on; by rewrite Hr).
  assert (Hlen : length (sub c pos got ++ drop got old) = Z.to_nat n).
  { rewrite length_app, length_drop, length_sub by (unfold got; lia). unfold got. lia. }
  rewrite splice_ok by (unfold zlen in *; lia). unfold unwrap.
  match goal with |- context [mret (list_inserts ?i ?l ?k)] => set (d1 := list_inserts i l k) end.
  rewrite (bind_Ret _ _ _ d1 (set_host w1 s)) by done.
  rewrite (bind_Ret _ _ _ () (with_data (set_host w1 s) m d1)) by done.
  unfold unwrap_ok. rewrite (bind_Ret _ _ _ (Z.of_nat got) (with_data (set_host w1 s) m d1)) by done.
  apply checked_fits. unfold fits, got. lia.
Qed.

(** Filling one buffer leaves the rest of memory and the other buffers alone. *)
Lemma fill_one d b n (bs : list byte) bufs : length bs = Z.to_nat n → 0 ≤ b → 0 ≤ n → b + n ≤ zlen d →
  (∀ b' n', (b', n') ∈ bufs → apart b n b' n') → (∀ b' n', (b', n') ∈ bufs → 0 ≤ b') →
  let d' := list_inserts (Z.to_nat b) bs d in
  length d' = length d ∧ sub d' (Z.to_nat b) (Z.to_nat n) = bs ∧
  gather bufs d' = gather bufs d ∧
  ∀ a, Z.of_nat a < b ∨ b + n ≤ Z.of_nat a → d' !! a = d !! a.
Proof.
  intros Hl Hb Hn Hle Hap H0 d'. unfold zlen in Hle.
  assert (Hout : ∀ a, Z.of_nat a < b ∨ b + n ≤ Z.of_nat a → d' !! a = d !! a).
  { intros a Ha. unfold d'. rewrite lookup_inserts by lia. case_decide; [lia|done]. }
  assert (Hl' : length d' = length d) by apply length_inserts.
  split_and!; [done| | |done].
  - rewrite <- Hl. apply sub_inserts_same. lia.
  - apply gather_ext; [done| |done]. intros b' n' a Hin _ Ha. apply Hout.
    destruct (Hap b' n' Hin); lia.
Qed.

(** Two buffers filled one after the other are filled as one. *)
Lemma fill_two (c old rest : list byte) pos : (pos ≤ length c)%nat →
  let g1 := Nat.min (length old) (length c - pos) in
  let g2 := Nat.min (length rest) (length c - (pos + g1)) in
  let got := Nat.min (length (old ++ rest)) (length c - pos) in
  got = (g1 + g2)%nat ∧
  (sub c pos g1 ++ drop g1 old) ++ sub c (pos + g1) g2 ++ drop g2 rest =
    sub c pos got ++ drop got (old ++ rest).
Proof.
  intros Hle g1 g2 got. assert (Hgot : got = (g1 + g2)%nat)
    by (unfold got; rewrite length_app; unfold g2, g1; lia).
  split; [done|]. rewrite Hgot, sub_app, <- !app_assoc. f_equal. rewrite drop_app.
  destruct (decide (g1 = length old)) as [Heq|Hne].
  - rewrite (drop_ge old), (drop_ge old) by lia. cbn [app]. do 2 f_equal. lia.
  - assert (g2 = 0%nat) as -> by (unfold g2, g1 in *; lia).
    rewrite sub_nil, Nat.add_0_r. cbn [app drop].
    by replace (g1 - length old)%nat with 0%nat by (unfold g1; lia).
Qed.

(** Where the buffers of a vector lie. *)
Lemma iovecs_at_in d p bufs b n : iovecs_at d p bufs → (b, n) ∈ bufs →
  0 ≤ b ∧ fits 32 n ∧ b + n ≤ zlen d.
Proof.
  intros Hv [k Hk]%list_elem_of_lookup.
  destruct (proj2 (proj2 (proj2 Hv)) _ _ _ Hk) as (? & ? & ? & _). unfold fits in *. lia.
Qed.

(** One buffer of the vector is filled; what else the guest has is kept. *)
Lemma fill_step fd p bufs c before b n rest s m pos size : bufs = before ++ (b, n) :: rest →
  iovecs_at (data m) p bufs → bufs_apart ((b, n) :: rest) →
  s.(exported) = Some m → at_file s.(host) (u32_of fd) c pos → 0 ≤ size → size + n < 2 ^ 64 →
  let old := sub (data m) (Z.to_nat b) (Z.to_nat n) in
  let g := Nat.min (length old) (length c - pos) in
  ∃ w1 d1, read_iovec fd p (zlen before) size s =
      (Ret (size + Z.of_nat g), with_data (set_host w1 s) m d1) ∧
    at_file w1 (u32_of fd) c (pos + g) ∧ length d1 = length (data m) ∧
    sub d1 (Z.to_nat b) (Z.to_nat n) = sub c pos g ++ drop g old ∧
    gather rest d1 = gather rest (data m) ∧
    ∀ a, Z.of_nat a < b ∨ b + n ≤ Z.of_nat a → d1 !! a = data m !! a.
Proof.
  intros Hbufs Hv [Hap _] Hm Hat H0 Hsz old g.
  assert (Hk : bufs !! length before = Some (b, n)) by (subst; by apply list_lookup_middle).
  destruct (iovecs_at_in (data m) p bufs b n Hv ltac:(by eapply list_elem_of_lookup_2)) as (Hb & Hfn & Hle).
  assert (Hlo : length old = Z.to_nat n) by (unfold old, fits, zlen in *; rewrite length_sub; lia).
  destruct (read_iovec_spec fd p bufs _ b n s m c pos size Hv Hk Hm Hat H0) as (w1 & Hone & Hat1); [lia|].
  fold old in Hone. rewrite <- Hlo in Hone, Hat1. fold g in Hone, Hat1.
  assert (Hle1 := at_file_le _ _ _ _ Hat).
  set (bs := sub c pos g ++ drop g old) in *.
  assert (Hlb : length bs = Z.to_nat n).
  { unfold bs. rewrite length_app, length_drop, length_sub by (unfold g; lia). unfold g. lia. }
  destruct (fill_one (data m) b n bs rest Hlb) as (Hl1 & Hs1 & Hg1 & Ho1);
    [lia|unfold fits in *; lia|done|done| |].
  - intros b' n' Hi. apply (iovecs_at_in (data m) p bufs b' n' Hv). subst.
    rewrite elem_of_app, elem_of_cons. tauto.
  - by exists w1, (list_inserts (Z.to_nat b) bs (data m)).
Qed.

Lemma fill_loop_spec fd p bufs c :
  ∀ rest before, bufs = before ++ rest → ∀ s m pos size,
  iovecs_at (data m) p bufs → bufs_apart rest →
  (∀ b n, (b, n) ∈ bufs → apart b n p (8 * zlen bufs)) →
  s.(exported) = Some m → at_file s.(host) (u32_of fd) c pos →
  0 ≤ size → size + total rest < 2 ^ 64 →
  let got := Nat.min (length (gather rest (data m))) (length c - pos) in
  ∃ w' d', iov_loop (read_iovec fd p) (seqZ (zlen before) (zlen rest)) size s =
      (Ret (size + Z.of_nat got), with_data (set_host w' s) m d') ∧
    at_file w' (u32_of fd) c (pos + got) ∧ length d' = length (data m) ∧
    gather rest d' = sub c pos got ++ drop got (gather rest (data m)) ∧
    ∀ a, outside rest a → d' !! a = data m !! a.
Proof.
  induction rest as [|[b n] rest IH]; intros before Hbufs s m pos size Hv Hap Hpv Hm Hat H0 Hsz got.
  - exists s.(host), (data m). cbn. rewrite Z.add_0_r, Nat.add_0_r. split_and!; try done.
    f_equal. rewrite <- (with_data_same s m Hm) at 1. by destruct s.
  - assert (Hin : (b, n) ∈ bufs) by (subst; rewrite elem_of_app, elem_of_cons; tauto).
    destruct (iovecs_at_in (data m) p bufs b n Hv Hin) as (Hb & Hfn & Hle).
    assert (Htot : total ((b, n) :: rest) = n + total rest) by done. rewrite Htot in Hsz.
    assert (Hrest := iovecs_at_rest (data m) p (before ++ [(b, n)]) rest
      ltac:(by rewrite <- app_assoc; subst)).
    destruct (total_gather _ _ Hrest) as [Ht0 _].
    destruct (fill_step fd p bufs c before b n rest s m pos size)
      as (w1 & d1 & Hone & Hat1 & Hl1 & Hs1 & Hg1 & Ho1); try done; [lia|].
    destruct (fill_two c (sub (data m) (Z.to_nat b) (Z.to_nat n)) (gather rest (data m)) pos
      (at_file_le _ _ _ _ Hat)) as [Hgot Hbytes].
    change (sub (data m) (Z.to_nat b) (Z.to_nat n) ++ gather rest (data m))
      with (gather ((b, n) :: rest) (data m)) in Hgot, Hbytes. fold got in Hgot, Hbytes.
    set (old := sub (data m) (Z.to_nat b) (Z.to_nat n)) in *.
    set (g1 := Nat.min (length old) (length c - pos)) in *.
    set (g2 := Nat.min (length (gather rest (data m))) (length c - (pos + g1))) in *.
    assert (Hd1 : data (set_data m d1) = d1) by by apply data_set.
    assert (Hlo : (length old ≤ Z.to_nat n)%nat) by (unfold old, sub; rewrite length_take; lia).
    destruct (IH (before ++ [(b, n)]) ltac:(by rewrite <- app_assoc) (with_data (set_host w1 s) m d1)
      (set_data m d1) (pos + g1)%nat (size + Z.of_nat g1)) as (w2 & d2 & Hl & Hat2 & Hl2 & Hg2 & Ho2);
      rewrite ?Hd1; try done; [|by apply Hap|lia|unfold fits in *; lia|].
    { apply (iovecs_at_ext (data m)); [done| |done]. intros a Ha. apply Ho1.
      destruct (Hpv b n Hin); lia. }
    rewrite Hd1, Hg1 in *. fold g2 in Hl, Hat2, Hg2.
    assert (Hseq : seqZ (zlen before) (zlen ((b, n) :: rest)) =
      zlen before :: seqZ (zlen (before ++ [(b, n)])) (zlen rest)).
    { unfold zlen. rewrite length_app. cbn [length]. rewrite seqZ_cons by lia. do 2 f_equal; lia. }
    rewrite Hseq. cbn [iov_loop]. rewrite (bind_Ret _ _ _ _ _ Hone).
    exists w2, d2. rewrite Hl. split_and!; [|by rewrite Hgot, Nat.add_assoc|by rewrite Hl2| |].
    + rewrite Hgot, Nat2Z.inj_add, Z.add_assoc. f_equal.
      unfold with_data, set_exported, set_host. cbn. by rewrite set_set.
    + rewrite <- Hbytes. change (gather ((b, n) :: rest) d2)
        with (sub d2 (Z.to_nat b) (Z.to_nat n) ++ gather rest d2).
      rewrite (sub_ext d2 d1), Hs1, Hg2; [done|].
      intros a Ha. apply Ho2. intros b' n' Hi. unfold fits in *. destruct (proj1 Hap b' n' Hi); lia.
    + intros a Ha. rewrite Ho2, Ho1; [done|by apply Ha, list_elem_of_here|].
      intros b' n' Hi. by apply Ha, list_elem_of_further.
Qed.

Lemma fd_write_spec : ∀ s m fd p bufs retptr c pos,
  s.(exported) = Some m → iovecs_at (data m) p bufs →
  at_file s.(host) (u32_of fd) c pos → accepts_all s.(host) (u32_of fd) (pieces bufs (data m)) →
  0 ≤ retptr < 2 ^ 31 → retptr + 4 ≤ zlen (data m) → total bufs < 2 ^ 32 →
  let g := gather bufs (data m) in
  ∃ w', fd_write fd p (zlen bufs) retptr s =
      (Ret (errno Errno.Success), with_data (set_host w' s) m
         (list_inserts (Z.to_nat retptr) (le_encode 4 (zlen g)) (data m))) ∧
    at_file w' (u32_of fd) (take pos c ++ g ++ drop (pos + length g) c) (pos + length g).
Proof.
  intros s m fd p bufs retptr c pos Hm Hv Hat Hacc H0 Hr Ht g.
  destruct (total_gather (data m) bufs (iovecs_at_rest (data m) p [] bufs Hv)) as [Ht0 Hg].
  destruct (write_loop_spec fd p bufs m Hv bufs [] eq_refl s c pos 0 Hm Hat Hacc) as (w' & Hl & Hat');
    [lia|lia|].
  exists w'. split; [|exact Hat'].
  unfold fd_write. rewrite (bind_Ret _ _ _ _ _ (get_memory_eq s m Hm)).
  change (zlen []) with 0 in Hl. rewrite (bind_Ret _ _ _ _ _ Hl), Z.add_0_l, <- Hg. fold g.
  rewrite usize_of_nonneg, u32_of_small by (unfold fits, g in *; lia).
  erewrite bind_Ret by (apply (write_guest_ok _ m); [done|lia|rewrite zlen_le_encode; lia]).
  done.
Qed.

Lemma fd_read_spec : ∀ s m fd p bufs retptr c pos,
  s.(exported) = Some m → iovecs_at (data m) p bufs → bufs_apart bufs →
  (∀ b n, (b, n) ∈ bufs → apart b n p (8 * zlen bufs) ∧ apart b n retptr 4) →
  at_file s.(host) (u32_of fd) c pos →
  0 ≤ retptr < 2 ^ 31 → retptr + 4 ≤ zlen (data m) → total bufs < 2 ^ 32 →
  let got := Nat.min (Z.to_nat (total bufs)) (length c - pos) in
  ∃ w' d', fd_read fd p (zlen bufs) retptr s =
      (Ret (errno Errno.Success), with_data (set_host w' s) m d') ∧
    at_file w' (u32_of fd) c (pos + got) ∧
    gather bufs d' = sub c pos got ++ drop got (gather bufs (data m)) ∧
    le_decode (sub d' (Z.to_nat retptr) 4) = Z.of_nat got ∧
    ∀ a, outside bufs a → (Z.of_nat a < retptr ∨ retptr + 4 ≤ Z.of_nat a) →
      d' !! a = data m !! a.
Proof.
  intros s m fd p bufs retptr c pos Hm Hv Hap Hpv Hat H0 Hr Ht got.
  destruct (total_gather (data m) bufs (iovecs_at_rest (data m) p [] bufs Hv)) as [Ht0 Hg].
  destruct (fill_loop_spec fd p bufs c bufs [] eq_refl s m pos 0 Hv Hap) as
    (w' & d & Hl & Hat' & Hld & Hgd & Hod); [by intros; apply Hpv|done|done|lia|lia|].
  assert (Hgot : Nat.min (length (gather bufs (data m))) (length c - pos) = got)
    by (unfold got; rewrite <- Hg; unfold zlen; by rewrite Nat2Z.id).
  rewrite Hgot in *. change (zlen []) with 0 in Hl.
  assert (Hdd : data (set_data m d) = d) by by apply data_set.
  set (cell := le_encode 4 (Z.of_nat got)).
  assert (Hlc : length cell = 4%nat) by apply length_le_encode.
  set (d' := list_inserts (Z.to_nat retptr) cell d).
  assert (Hout : ∀ a, Z.of_nat a < retptr ∨ retptr + 4 ≤ Z.of_nat a → d' !! a = d !! a).
  { intros a Ha. unfold d', zlen in *. rewrite lookup_inserts by lia. case_decide; [lia|done]. }
  exists w', d'. split_and!.
  - unfold fd_read. rewrite (bind_Ret _ _ _ _ _ (get_memory_eq s m Hm)).
    rewrite (bind_Ret _ _ _ _ _ Hl), Z.add_0_l.
    rewrite usize_of_nonneg, u32_of_small by (unfold fits, got; lia). fold cell.
    erewrite bind_Ret by (apply (write_guest_ok _ (set_data m d));
      [done|lia|rewrite Hdd; unfold zlen in *; lia]).
    rewrite Hdd. fold d'. by rewrite with_data_twice.
  - done.
  - rewrite <- Hgd. apply gather_ext; [by unfold d'; rewrite length_inserts| |].
    + intros b n a Hi _ Ha. apply Hout. destruct (Hpv b n Hi) as [_ []]; lia.
    + intros b n [k Hk]%list_elem_of_lookup. destruct (proj2 (proj2 (proj2 Hv)) k b n Hk) as (Hf & _).
      by destruct Hf.
  - unfold d'. rewrite <- Hlc, sub_inserts_same by (unfold zlen in *; lia). unfold cell.
    apply le_decode_encode_fits. unfold fits, got. lia.
  - intros a Ha Hra. by rewrite Hout, Hod.
Qed.

(** C4: [fd_write] gathers: the bytes of the guest's buffers, in the order of the
    vector, take the place of the file's bytes at its position, which moves
    behind them; the guest finds their number where it asked for it, and the rest
    of its memory as it was. *)
Theorem fd_write_gathers : ∀ s m fd p bufs retptr c pos,
  s.(exported) = Some m → iovecs_at (data m) p bufs →
  at_file s.(host) (u32_of fd) c pos → accepts_all s.(host) (u32_of fd) (pieces bufs (data m)) →
  0 ≤ retptr < 2 ^ 31 → retptr + 4 ≤ zlen (data m) → total bufs < 2 ^ 32 →
  let g := gather bufs (data m) in
  ∃ w', fd_write fd p (zlen bufs) retptr s =
      (Ret (errno Errno.Success), with_data (set_host w' s) m
         (list_inserts (Z.to_nat retptr) (le_encode 4 (zlen g)) (data m))) ∧
    at_file w' (u32_of fd) (take pos c ++ g ++ drop (pos + length g) c) (pos + length g).
Proof. exact fd_write_spec. Qed.

(** C5: [fd_read] scatters: the buffers of the guest's vector, when they overlap
    neither each other nor the vector, are filled in order with the file's bytes
    from its position on, as many as both have; behind those they keep what they
    held.  The guest finds the number of bytes where it asked for it, and the
    rest of its memory as it was. *)
Theorem fd_read_scatters : ∀ s m fd p bufs retptr c pos,
  s.(exported) = Some m → iovecs_at (data m) p bufs → bufs_apart bufs →
  (∀ b n, (b, n) ∈ bufs → apart b n p (8 * zlen bufs) ∧ apart b n retptr 4) →
  at_file s.(host) (u32_of fd) c pos →
  0 ≤ retptr < 2 ^ 31 → retptr + 4 ≤ zlen (data m) → total bufs < 2 ^ 32 →
  let got := Nat.min (Z.to_nat (total bufs)) (length c - pos) in
  ∃ w' d', fd_read fd p (zlen bufs) retptr s =
      (Ret (errno Errno.Success), with_data (set_host w' s) m d') ∧
    at_file w' (u32_of fd) c (pos + got) ∧
    gather bufs d' = sub c pos got ++ drop got (gather bufs (data m)) ∧
    le_decode (sub d' (Z.to_nat retptr) 4) = Z.of_nat got ∧
    ∀ a, outside bufs a → (Z.of_nat a < retptr ∨ retptr + 4 ≤ Z.of_nat a) →
      d' !! a = data m !! a.
Proof. exact fd_read_spec. Qed.

(** [fd_seek] reports success and moves nothing: after a write at the end of a
    file, a guest that seeks back to anywhere in it and reads into its buffers is
    told that no bytes are left, and its buffers keep what they held. *)
Theorem seek_is_ignored : ∀ s m fd p bufs retptr offset whence newoffset c,
  s.(exported) = Some m → iovecs_at (data m) p bufs → bufs_apart bufs →
  (∀ b n, (b, n) ∈ bufs → apart b n p (8 * zlen bufs) ∧ apart b n retptr 4) →
  apart p (8 * zlen bufs) retptr 4 →
  at_file s.(host) (u32_of fd) c (length c) →
  accepts_all s.(host) (u32_of fd) (pieces bufs (data m)) →
  0 ≤ retptr < 2 ^ 31 → retptr + 4 ≤ zlen (data m) → total bufs < 2 ^ 32 →
  let g := gather bufs (data m) in
  ∃ s1 w' d', fd_write fd p (zlen bufs) retptr s = (Ret (errno Errno.Success), s1) ∧
    at_file s1.(host) (u32_of fd) (c ++ g) (length (c ++ g)) ∧
    (fd_seek fd offset whence newoffset ≫= λ _, fd_read fd p (zlen bufs) retptr) s1 =
      (Ret (errno Errno.Success), with_data (set_host w' s1) m d') ∧
    gather bufs d' = g ∧ le_decode (sub d' (Z.to_nat retptr) 4) = 0.
Proof.
  intros s m fd p bufs retptr offset whence newoffset c Hm Hv Hap Hpv Hpr Hat Hacc H0 Hr Ht g.
  destruct (fd_write_spec s m fd p bufs retptr c _ Hm Hv Hat Hacc H0 Hr Ht) as (w1 & Hw & Hat1).
  fold g in Hw, Hat1. rewrite firstn_all, drop_ge, app_nil_r in Hat1 by lia.
  rewrite <- length_app in Hat1.
  set (cell := le_encode 4 (zlen g)) in *. set (d1 := list_inserts (Z.to_nat retptr) cell (data m)) in *.
  assert (Hlc : length cell = 4%nat) by apply length_le_encode.
  assert (Hl1 : length d1 = length (data m)) by apply length_inserts.
  assert (Hd1 : data (set_data m d1) = d1) by by apply data_set.
  assert (Hout : ∀ a, Z.of_nat a < retptr ∨ retptr + 4 ≤ Z.of_nat a → d1 !! a = data m !! a).
  { intros a Ha. unfold d1, zlen in *. rewrite lookup_inserts by lia. case_decide; [lia|done]. }
  assert (Hg1 : gather bufs d1 = g).
  { apply gather_ext; [done| |].
    - intros b n a Hi _ Ha. apply Hout. destruct (Hpv b n Hi) as [_ []]; lia.
    - intros b n [k Hk]%list_elem_of_lookup. destruct (proj2 (proj2 (proj2 Hv)) k b n Hk) as (Hf & _).
      by destruct Hf. }
  exists (with_data (set_host w1 s) m d1).
  destruct (fd_read_spec (with_data (set_host w1 s) m d1) (set_data m d1) fd p bufs retptr (c ++ g)
    (length (c ++ g)) eq_refl) as (w2 & d2 & Hrd & Hat2 & Hg2 & Hn & _); rewrite ?Hd1; try done;
    [|unfold zlen in *; lia|].
  { apply (iovecs_at_ext (data m)); [done| |done]. intros a Ha. apply Hout. destruct Hpr; lia. }
  rewrite Nat.sub_diag, Nat.min_0_r in *. exists w2, d2. split_and!; try done.
  - unfold fd_seek, success. rewrite (bind_Ret _ _ _ (errno Errno.Success) (with_data (set_host w1 s) m d1)) by done.
    rewrite Hrd. f_equal. unfold with_data, set_exported, set_host. cbn. by rewrite set_set.
  - by rewrite Hg2, Hd1, Hg1.
Qed.
End transfers.

(** ** On the descriptor table

    fdtab over fatfs as the host: reading the directory fails, since fdtab does
    not export [readdir] and the visor panics when it is asked for it. *)
Class HostClock (N : Type) : Type := host_clock : prog N (result Z string).

Section on_stack.
Context {FS F N : Type} {FC : FatCrate FS F} {FSp : FatCrateSpec FS F} {HI : HostImage FS}
  {SS : SockService N} {HC : HostClock N}.

#[global] Instance stack_host : WasiHost (FdState (LowerState FS F N)) := {
  h_open := Fdtab.open;
  h_close := Fdtab.close;
  h_read := Fdtab.read;
  h_write := Fdtab.write;
  h_stat := Fdtab.stat;
  h_readdir _ := panic;
  h_get_time := below (in_sock host_clock)
}.

#[global, refine] Instance stack_files : HostFiles (FdState (LowerState FS F N)) := {
  at_file st fd c pos := file_at (mk_stdfile fd) c pos st;
  accepts_data st fd b := accepts (mk_stdfile fd) b st
}.
Proof.
  - intros w fd c pos Hat. apply Hat.
  - intros w fd c pos b Hat Hb. exact (file_read_at (mk_stdfile fd) c pos b w Hat Hb).
  - intros w fd c pos b Hat Ha. exact (file_write_at (mk_stdfile fd) c pos b w Hat Ha).
Defined.

(** the first file a guest opens gets the root directory's descriptor: if the
    descriptor table has no descriptor 3 yet, [path_open] of a file that opens
    hands the guest 3, which [fd_prestat_get] calls a preopened directory and
    [fd_fdstat_get] describes as a directory. *)
Theorem first_file_is_root {Mem} `{WMS : WasmMemorySpec Mem} `{PD : !Padding} :
  ∀ (s s' : WasiState (FdState (LowerState FS F N)) Mem) m
    dir dirflags addr len oflags rights inheriting fdflags retptr,
  s.(exported) = Some m → lookup_fd s.(host).1 3 = None → zlen s.(host).1 + 3 < 2 ^ 32 →
  0 ≤ retptr < 2 ^ 31 → retptr + 8 ≤ zlen (data m) →
  path_open dir dirflags addr len oflags rights inheriting fdflags retptr s =
    (Ret (errno Errno.Success), s') →
  s'.(exported) = Some (set_data m (list_inserts (Z.to_nat retptr) (le_encode 4 3) (data m))) ∧
  is_Some (lookup_fd s'.(host).1 3) ∧
  (fd_prestat_get 3 retptr s').1 = Ret (errno Errno.Success) ∧
  fs_filetype (fdstat_of 3) = 3.
Proof.
  intros s s' m dir dirflags addr len oflags rights inheriting fdflags retptr Hm H3 Hz H0 Hr Hp.
  unfold path_open in Hp. rewrite (bind_Ret _ _ _ _ _ (get_memory_eq s m Hm)) in Hp.
  apply bind_Ret_inv in Hp as (path & s1 & Hrd & Hp).
  apply read_guest_inv in Hrd as [-> _].
  apply bind_Ret_inv in Hp as (str & s1 & Hu & Hp).
  assert (s1 = s) as -> by (destruct (from_utf8 path); [by injection Hu|done]).
  apply bind_Ret_inv in Hp as (r & s1 & Ho & Hp). destruct r as [fd|e]; [|done].
  unfold libos, on in Ho. destruct (h_open str _ _ (host s)) as [o w1] eqn:Hop.
  injection Ho as -> <-. cbn [h_open stack_host] in Hop. unfold Fdtab.open in Hop.
  destruct s.(host) as [t w] eqn:Hh. cbn [fst] in *.
  apply bind_Ret_inv in Hop as (r & st2 & Hb & Hop). destruct r as [raw|e]; [|done].
  apply bind_Ret_inv in Hb as (r & st3 & Hb & Hr2). injection Hr2 as Hr2 <-.
  unfold below, on in Hb. destruct (hc_fatfs_open _ _ _) as [o w3]. injection Hb as -> <-. cbn [fst] in *.
  apply bind_Ret_inv in Hop as (fd' & st4 & Hadd & Hop). injection Hop as -> <-.
  destruct (wp_add_file (mk_file (open_mode_of rights) (FatFS raw)) t w3 Hz)
    as (fd2 & t' & Hadd2 & Hge & _ & _ & Hlow & Hl & _).
  rewrite Hadd in Hadd2. injection Hadd2 as <- ->.
  assert (fd = 3) as ->.
  { destruct (decide (fd = 3)) as [|Hne]; [done|]. destruct (Hlow 3 ltac:(lia)) as [f Hf].
    by rewrite H3 in Hf. }
  rewrite usize_of_nonneg in Hp by lia.
  assert (Hm1 : exported (set_host (t', w3) s) = Some m) by done.
  rewrite (bind_Ret _ _ _ _ _ (write_guest_ok _ m retptr (le_encode 4 3) Hm1 ltac:(lia)
    ltac:(rewrite zlen_le_encode; lia))) in Hp.
  set (d1 := list_inserts (Z.to_nat retptr) (le_encode 4 3) (data m)) in *.
  set (s2 := mk_wasi s.(WASI_STATE) (<[3 := str]> s.(FD2PATH)) s.(JMP_BUF_MAP)
    s.(caller_id) (Some (set_data m d1)) (t', w3)).
  rewrite (bind_Ret _ _ _ () s2) in Hp by done. injection Hp as <-.
  assert (Hm2 : exported s2 = Some (set_data m d1)) by done. split_and!; [done|change (is_Some (lookup_fd t' 3)); rewrite Hl, decide_True; eauto| |done].
  unfold fd_prestat_get. cbn [Z.eqb].
  rewrite (bind_Ret _ _ _ _ _ (get_memory_eq s2 _ Hm2)).
  assert (Hdd : data (set_data m d1) = d1) by (apply data_set, length_inserts).
  cbn [Z.eqb Pos.eqb]. rewrite usize_of_nonneg by lia.
  erewrite bind_Ret; [done|]. apply (write_guest_ok s2 _ _ _ Hm2); [lia|].
  rewrite Hdd. unfold d1. rewrite zlen_inserts. unfold prestat_bytes, zlen in *.
  rewrite !length_app, !length_le_encode, length_padding. lia.
Qed.
End on_stack.

(** ** A concrete guest *)
Module WasiDemo.

(** A memory is its bytes; padding is zero; the clock stands. *)
#[global] Instance list_memory : WasmMemory (list byte) := {|
  data d := d; set_data _ d := d; mem_read m off n := slice m off n;
  mem_write m off bs := splice m off bs
|}.
#[global] Instance list_memory_spec : WasmMemorySpec (list byte).
Proof. split; try done. intros m off bs. cbn. by destruct (splice m off bs). Qed.
#[global] Instance zero_padding : Padding := {|
  padding n := replicate n 0; length_padding n := length_replicate n 0
|}.
#[global] Instance still_clock : HostClock () := mret (Ok 5).

Abbreviation Host := (FdState (LowerState MemFat.Disk MemFat.Cursor ())).
Abbreviation Guest := (WasiState Host (list byte)).

(** Descriptor 3 open on a file with bytes [c] at position [pos]. *)
Definition opened (c : list byte) (pos : nat) : Host :=
  ([Some (mk_file OpenMode_RDWR (FatFS 0))],
   (mk_fatfs [Some (MemFat.mk_cursor pos)] false (Some (MemFat.mk_disk c)), ())).

(** A vector of two buffers at 0, the buffers at 16 and 20, and zeros. *)
Definition vector : list (Z * Z) := [(16, 2); (20, 3)].
Definition guest_memory : list byte :=
  le_encode 4 16 ++ le_encode 4 2 ++ le_encode 4 20 ++ le_encode 4 3 ++
  [1; 2; 0; 0; 3; 4; 5; 0] ++ replicate 40 0.
Definition guest (h : Host) : Guest :=
  mk_wasi {["sort" := ["sort"; "7"]]} ∅ ∅ "sort" (Some guest_memory) h.

Lemma opened_at c pos : (pos ≤ length c)%nat → at_file (opened c pos) 3 c pos.
Proof.
  intros Hle. split; [by split|done|]. exists 0, (MemFat.mk_disk c), (MemFat.mk_cursor pos).
  by repeat split.
Qed.

Lemma vector_at : iovecs_at guest_memory 0 vector.
Proof.
  split; [lia|]. split; [done|]. split; [vm_compute; done|].
  intros [|[|k]] b n Hk; [injection Hk as <- <-; vm_compute; done..|].
  by destruct k.
Qed.

Lemma vector_apart : bufs_apart vector.
Proof.
  split; [|split; [|done]]; intros b n Hin; [|by apply elem_of_nil in Hin].
  apply list_elem_of_singleton in Hin as [= -> ->]. left. lia.
Qed.

Lemma vector_clear b n : (b, n) ∈ vector → apart b n 0 (8 * zlen vector) ∧ apart b n 32 4.
Proof.
  change (8 * zlen vector) with 16. unfold vector, apart.
  intros [[= -> ->]|[[= -> ->]|Hin%elem_of_nil]%elem_of_cons]%elem_of_cons; [lia|lia|done].
Qed.

Lemma opened_accepts c pos b : (pos + length b ≤ MemFat.capacity)%nat → accepts_data (opened c pos) 3 b.
Proof.
  intros Hc h fs f [= <-] (_ & [= <-] & [= <-]). unfold try_bind, mbind, prog_mbind. cbn -[MemFat.capacity].
  rewrite decide_True by done. do 2 eexists. reflexivity.
Qed.

Lemma opened_write c pos b : (pos + length b ≤ MemFat.capacity)%nat →
  (h_write 3 b (opened c pos)).2 =
  opened (take pos c ++ b ++ drop (pos + length b) c) (pos + length b).
Proof.
  intros Hc.
  assert (Hw : fatfs_write 0 b (opened c pos).2.1 =
    (Ret (Ok (zlen b)), (opened (take pos c ++ b ++ drop (pos + length b) c) (pos + length b)).2.1)).
  { assert (Hop : open_slot (opened c pos).2.1 0 (MemFat.mk_disk c) (MemFat.mk_cursor pos)) by by repeat split.
    rewrite (fatfs_write_open _ 0 _ _ b (Ok ())
      (MemFat.mk_disk (take pos c ++ b ++ drop (pos + length b) c)) (MemFat.mk_cursor (pos + length b)) Hop);
      [done|].
    unfold try_bind, mbind, prog_mbind. cbn -[MemFat.capacity]. by rewrite decide_True. }
  assert (Hr := write_fat 3 (opened c pos).1 OpenMode_RDWR 0 b (zlen b) (opened c pos).2
    ((opened (take pos c ++ b ++ drop (pos + length b) c) (pos + length b)).2.1, ())
    ltac:(lia) ltac:(done) eq_refl eq_refl (in_fat_Ret _ _ _ _ _ Hw)).
  exact (f_equal snd Hr).
Qed.

Lemma opened_accepts_vector : accepts_all (opened [9] 1) 3 (pieces vector guest_memory).
Proof.
  change (pieces vector guest_memory) with [[1; 2]; [3; 4; 5]]. split.
  - apply opened_accepts. vm_compute. lia.
  - rewrite opened_write by (vm_compute; lia). split; [|done].
    apply opened_accepts. vm_compute. lia.
Qed.
End WasiDemo.

Lemma fd_write_gathers_witness : ∃ w' d,
  fd_write 3 0 2 32 (WasiDemo.guest (WasiDemo.opened [9] 1)) =
    (Ret 0, set_exported (Some d) (set_host w' (WasiDemo.guest (WasiDemo.opened [9] 1)))) ∧
  at_file w' 3 [9; 1; 2; 3; 4; 5] 6.
Proof.
  destruct (fd_write_gathers (WMS := WasiDemo.list_memory_spec) (WasiDemo.guest (WasiDemo.opened [9] 1)) WasiDemo.guest_memory 3 0
    WasiDemo.vector 32 [9] 1 eq_refl WasiDemo.vector_at (WasiDemo.opened_at [9] 1 (le_n 1))
    WasiDemo.opened_accepts_vector ltac:(lia) ltac:(by vm_compute) ltac:(by vm_compute)) as (w' & H1 & H2).
  exact (ex_intro _ w' (ex_intro _ _ (conj H1 H2))).
Defined.

Lemma fd_read_scatters_witness : ∃ w' d,
  fd_read 3 0 2 32 (WasiDemo.guest (WasiDemo.opened [9; 8; 7; 6] 1)) =
    (Ret 0, set_exported (Some d) (set_host w' (WasiDemo.guest (WasiDemo.opened [9; 8; 7; 6] 1)))) ∧
  gather WasiDemo.vector d = [8; 7; 6; 4; 5] ∧ le_decode (sub d 32 4) = 3.
Proof.
  destruct (fd_read_scatters (WMS := WasiDemo.list_memory_spec) (WasiDemo.guest (WasiDemo.opened [9; 8; 7; 6] 1)) WasiDemo.guest_memory 3 0
    WasiDemo.vector 32 [9; 8; 7; 6] 1 eq_refl WasiDemo.vector_at WasiDemo.vector_apart
    WasiDemo.vector_clear (WasiDemo.opened_at [9; 8; 7; 6] 1 ltac:(cbn; lia))
    ltac:(lia) ltac:(by vm_compute) ltac:(by vm_compute)) as (w' & d & H1 & _ & H2 & H3 & _).
  exact (ex_intro _ w' (ex_intro _ d (conj H1 (conj H2 H3)))).
Defined.

Lemma seek_is_ignored_witness : ∃ s1 w' d,
  fd_write 3 0 2 32 (WasiDemo.guest (WasiDemo.opened [9] 1)) = (Ret 0, s1) ∧
  (fd_seek 3 0 0 40 ≫= λ _, fd_read 3 0 2 32) s1 = (Ret 0, set_exported (Some d) (set_host w' s1)) ∧
  le_decode (sub d 32 4) = 0.
Proof.
  destruct (seek_is_ignored (WMS := WasiDemo.list_memory_spec) (WasiDemo.guest (WasiDemo.opened [9] 1)) WasiDemo.guest_memory 3 0
    WasiDemo.vector 32 0 0 40 [9] eq_refl WasiDemo.vector_at WasiDemo.vector_apart WasiDemo.vector_clear
    ltac:(left; by vm_compute) (WasiDemo.opened_at [9] 1 (le_n 1)) WasiDemo.opened_accepts_vector
    ltac:(lia) ltac:(by vm_compute) ltac:(by vm_compute)) as (s1 & w' & d & H1 & _ & H2 & _ & H3).
  exact (ex_intro _ s1 (ex_intro _ w' (ex_intro _ d (conj H1 (conj H2 H3))))).
Defined.

(** A guest that opens its first file; the path stands at 16. *)
Lemma first_file_is_root_witness : ∃ s' : WasiDemo.Guest,
  path_open 3 0 20 1 1 66 0 0 32 (WasiDemo.guest MemFat.start) = (Ret 0, s') ∧
  (fd_prestat_get 3 32 s').1 = Ret 0.
Proof.
  set (s := WasiDemo.guest MemFat.start).
  set (s' := (path_open 3 0 20 1 1 66 0 0 32 s).2).
  assert (Hp : path_open 3 0 20 1 1 66 0 0 32 s = (Ret 0, s')) by (vm_compute; reflexivity).
  destruct (first_file_is_root s s' WasiDemo.guest_memory 3 0 20 1 1 66 0 0 32 eq_refl eq_refl
    ltac:(by vm_compute) ltac:(lia) ltac:(by vm_compute) Hp) as (_ & _ & H & _).
  exact (ex_intro _ s' (conj Hp H)).
Defined.
