(* ===== verification/WasiCalls.v ===== *)
(** * Arguments, directories, clock and random bytes of the WASI calls

    The round trip of the arguments; directory listings, page by page; and three
    calls that fall short of what their interface asks of them. *)
From S2P Require Import Prelude Bytes Hostcall AsStd Wasi WasiSpec.
Local Open Scope Z_scope.

(** ** Arguments *)
Section arguments.
Context {W Mem : Type} {WM : WasmMemory Mem} {WMS : WasmMemorySpec Mem}.
Implicit Types (s : WasiState W Mem) (m : Mem) (d : list byte) (args : list (list byte)).

(** The bytes the arguments take, each with its terminator. *)
Definition args_size args : Z := foldr (λ a acc, zlen a + 1 + acc) 0 args.
(** Where the [k]-th argument starts. *)
Definition arg_offset args (k : nat) : Z := args_size (take k args).

Lemma args_size_nonneg args : 0 ≤ args_size args.
Proof.
  induction args as [|a args IH]; [done|].
  change (0 ≤ zlen a + 1 + args_size args). unfold zlen. lia.
Qed.

Lemma sum_checked_eq args acc s : 0 ≤ acc → acc + args_size args < 2 ^ 64 →
  sum_checked (map (λ a, zlen a + 1) args) acc s = (Ret (acc + args_size args), s).
Proof.
  revert acc. induction args as [|a args IH]; intros acc H0 Hlt.
  - cbn. by rewrite Z.add_0_r.
  - assert (Hs : args_size (a :: args) = zlen a + 1 + args_size args) by done.
    assert (Hn := args_size_nonneg args). rewrite Hs in *.
    cbn [map sum_checked].
    rewrite (bind_Ret _ _ _ _ _ (checked_fits 64 (acc + (zlen a + 1)) s
      ltac:(unfold fits, zlen in *; lia))).
    rewrite IH by (unfold zlen in *; lia). by rewrite !Z.add_assoc.
Qed.

(** One argument written: its cell holds its address, and its bytes stand there
    with the terminator. *)
Lemma write_arg_spec slot ptr arg s m : s.(exported) = Some m →
  0 ≤ slot → slot + 4 ≤ zlen (data m) → 0 ≤ ptr → ptr + zlen arg + 1 ≤ zlen (data m) →
  zlen (data m) ≤ 2 ^ 32 → apart slot 4 ptr (zlen arg + 1) →
  ∃ d, write_arg slot ptr arg s = (Ret (), with_data s m d) ∧ length d = length (data m) ∧
    sub d (Z.to_nat slot) 4 = le_encode 4 ptr ∧
    sub d (Z.to_nat ptr) (length arg + 1) = arg ++ [0] ∧
    ∀ a, (Z.of_nat a < slot ∨ slot + 4 ≤ Z.of_nat a) →
      (Z.of_nat a < ptr ∨ ptr + zlen arg + 1 ≤ Z.of_nat a) → d !! a = data m !! a.
Proof.
  intros Hm Hs0 Hs Hp0 Hp Hml Hap. assert (Hla := zlen_nonneg arg). unfold write_arg.
  rewrite (u32_of_small ptr) by (unfold fits; lia).
  set (cell := le_encode 4 ptr). assert (Hcell : length cell = 4%nat) by apply length_le_encode.
  set (d1 := list_inserts (Z.to_nat slot) cell (data m)).
  assert (Hl1 : length d1 = length (data m)) by apply length_inserts.
  assert (Hc : slot + zlen cell ≤ zlen (data m)) by (unfold zlen in *; lia).
  rewrite (bind_Ret _ _ _ _ _ (write_guest_ok s m slot cell Hm Hs0 Hc)). fold d1.
  assert (Hd1 : data (set_data m d1) = d1) by by apply data_set.
  set (d2 := list_inserts (Z.to_nat ptr) arg d1).
  assert (Hl2 : length d2 = length (data m)) by (unfold d2; by rewrite length_inserts).
  rewrite (bind_Ret _ _ _ () (with_data s m d2)); last first.
  { rewrite (write_guest_ok _ (set_data m d1)); [|done|lia|rewrite Hd1; unfold zlen in *; lia].
    rewrite Hd1. fold d2. by rewrite with_data_twice. }
  rewrite (bind_Ret _ _ _ _ _ (checked_fits 64 (ptr + zlen arg) (with_data s m d2) ltac:(unfold fits; lia))).
  assert (Hd2 : data (set_data m d2) = d2) by by apply data_set.
  rewrite (write_guest_ok _ (set_data m d2));
    [|done|lia|rewrite Hd2; unfold zlen in *; cbn [length]; lia].
  rewrite Hd2, with_data_twice.
  assert (Heq : list_inserts (Z.to_nat (ptr + zlen arg)) [0] d2 = list_inserts (Z.to_nat ptr) (arg ++ [0]) d1).
  { unfold d2. rewrite inserts_app by (unfold zlen in *; cbn [length]; lia). f_equal. unfold zlen. lia. }
  rewrite Heq. assert (Hla1 : length (arg ++ [0]) = (length arg + 1)%nat) by (by rewrite length_app).
  eexists. split; [done|]. unfold apart, zlen in *. split_and!.
  - by rewrite length_inserts.
  - rewrite sub_inserts_disjoint by lia. rewrite <- Hcell at 1. apply sub_inserts_same. lia.
  - rewrite <- Hla1. apply sub_inserts_same. lia.
  - intros a Ha1 Ha2. unfold d1. rewrite !lookup_inserts by (rewrite ?length_inserts; lia).
    repeat case_decide; [lia..|done].
Qed.

Lemma args_size_cons arg args : args_size (arg :: args) = zlen arg + 1 + args_size args.
Proof. done. Qed.

Lemma args_loop_spec argv argv_buf : 0 ≤ argv < 2 ^ 31 → 0 ≤ argv_buf < 2 ^ 31 →
  ∀ args i offset s m,
  s.(exported) = Some m → 0 ≤ i → 0 ≤ offset →
  argv + 4 * (i + zlen args) ≤ zlen (data m) → argv_buf + offset + args_size args ≤ zlen (data m) →
  apart (argv + 4 * i) (4 * zlen args) (argv_buf + offset) (args_size args) →
  zlen (data m) ≤ 2 ^ 32 →
  ∃ d', args_loop argv argv_buf i offset args s = (Ret (), with_data s m d') ∧
    length d' = length (data m) ∧
    (∀ k a, args !! k = Some a →
      sub d' (Z.to_nat (argv + 4 * (i + Z.of_nat k))) 4 =
        le_encode 4 (argv_buf + offset + arg_offset args k) ∧
      sub d' (Z.to_nat (argv_buf + offset + arg_offset args k)) (length a + 1) = a ++ [0]) ∧
    ∀ a, (Z.of_nat a < argv + 4 * i ∨ argv + 4 * (i + zlen args) ≤ Z.of_nat a) →
      (Z.of_nat a < argv_buf + offset ∨ argv_buf + offset + args_size args ≤ Z.of_nat a) →
      d' !! a = data m !! a.
Proof.
  intros Hargv Hbuf. induction args as [|arg args IH]; intros i offset s m Hm Hi Ho Hpl Hbl Hap Hml.
  - exists (data m). cbn [args_loop]. split_and!; [by rewrite with_data_same|done|done|done].
  - assert (Hn := args_size_nonneg args). assert (Hla := zlen_nonneg arg).
    assert (Hlz : zlen (arg :: args) = 1 + zlen args) by (unfold zlen; cbn [length]; lia).
    rewrite args_size_cons, Hlz in *. assert (Hln := zlen_nonneg args).
    cbn [args_loop]. rewrite !usize_of_nonneg by lia.
    rewrite (bind_Ret _ _ _ _ _ (checked_fits 64 (argv_buf + offset) s ltac:(unfold fits; lia))).
    rewrite (bind_Ret _ _ _ _ _ (checked_fits 64 (argv + i * 4) s ltac:(unfold fits; lia))).
    unfold apart in Hap.
    destruct (write_arg_spec (argv + i * 4) (argv_buf + offset) arg s m Hm) as
      (d & Hw & Hl & Hc & Hb & Ho1); [lia..|unfold apart; lia|].
    rewrite (bind_Ret _ _ _ _ _ Hw).
    rewrite (bind_Ret _ _ _ _ _ (checked_fits 64 (offset + (zlen arg + 1)) (with_data s m d) ltac:(unfold fits; lia))).
    assert (Hd : data (set_data m d) = d) by by apply data_set.
    destruct (IH (i + 1) (offset + (zlen arg + 1)) (with_data s m d) (set_data m d)) as
      (d' & Hr & Hl' & Hk & Hout); rewrite ?Hd; [done|lia|lia|unfold zlen in *; lia|unfold zlen in *; lia| |unfold zlen in *; lia|].
    { unfold apart. lia. }
    rewrite Hd in *. exists d'. rewrite Hr, with_data_twice. split_and!; [done|by rewrite Hl'| |].
    + intros [|k] a Hk'; cbn in Hk'.
      * injection Hk' as <-. unfold arg_offset. change (args_size (take 0 (arg :: args))) with 0.
        change (Z.of_nat 0) with 0. rewrite !Z.add_0_r, <- Hc, <- Hb.
        replace (argv + 4 * i) with (argv + i * 4) by lia.
        split; apply sub_ext; intros x Hx; apply Hout; unfold zlen in *; lia.
      * destruct (Hk k a Hk') as [Hp Hbb]. unfold arg_offset in *. cbn [take]. rewrite args_size_cons.
        replace (argv + 4 * (i + Z.of_nat (S k))) with (argv + 4 * (i + 1 + Z.of_nat k)) by lia.
        by rewrite (Z.add_assoc (argv_buf + offset)), <- (Z.add_assoc argv_buf offset).
    + intros a Ha1 Ha2. rewrite Hout by lia. apply Ho1; lia.
Qed.

Lemma arg_offset_bound args k a : args !! k = Some a →
  0 ≤ arg_offset args k ∧ arg_offset args k + zlen a + 1 ≤ args_size args.
Proof.
  revert k. induction args as [|arg args IH]; intros k Hk; [done|].
  rewrite args_size_cons. assert (Hn := args_size_nonneg args). assert (Hl := zlen_nonneg arg).
  destruct k as [|k].
  - injection Hk as ->. change (arg_offset (a :: args) 0) with 0. lia.
  - assert (Hs : arg_offset (arg :: args) (S k) = zlen arg + 1 + arg_offset args k) by done.
    destruct (IH k Hk). lia.
Qed.

Lemma get_wasi_state_eq s (strs : list string) :
  s.(WASI_STATE) !! s.(caller_id) = Some strs → strs ≠ [] → get_wasi_state s = (Ret strs, s).
Proof.
  intros Hargs Hne. unfold get_wasi_state.
  rewrite (bind_Ret _ _ _ (Some strs) s) by (unfold gets; by rewrite Hargs).
  by destruct strs.
Qed.

Lemma args_sizes_get_spec s m (strs : list string) argc_at size_at :
  s.(exported) = Some m → s.(WASI_STATE) !! s.(caller_id) = Some strs → strs ≠ [] →
  let bs := map bytes_of strs in
  0 ≤ argc_at → argc_at + 4 ≤ size_at < 2 ^ 31 → size_at + 4 ≤ zlen (data m) →
  zlen strs < 2 ^ 32 → args_size bs < 2 ^ 32 →
  ∃ d, args_sizes_get argc_at size_at s = (Ret (errno Errno.Success), with_data s m d) ∧
    le_decode (sub d (Z.to_nat argc_at) 4) = zlen strs ∧
    le_decode (sub d (Z.to_nat size_at) 4) = args_size bs.
Proof.
  intros Hm Hargs Hne bs Ha Hb Hbl Hsl Hsz. assert (Hza := zlen_nonneg strs).
  unfold args_sizes_get. rewrite (bind_Ret _ _ _ _ _ (get_wasi_state_eq s strs Hargs Hne)).
  assert (Hmap : map (λ v, zlen (bytes_of v) + 1) strs = map (λ a, zlen a + 1) bs)
    by (unfold bs; by rewrite map_map).
  rewrite Hmap. assert (Hn := args_size_nonneg bs).
  rewrite (bind_Ret _ _ _ _ _ (sum_checked_eq bs 0 s ltac:(lia) ltac:(lia))), Z.add_0_l.
  rewrite (bind_Ret _ _ _ _ _ (get_memory_eq s m Hm)).
  rewrite !usize_of_nonneg, !u32_of_small by (unfold fits; lia).
  set (c1 := le_encode 4 (zlen strs)). set (c2 := le_encode 4 (args_size bs)).
  assert (Hc1 : length c1 = 4%nat) by apply length_le_encode.
  assert (Hc2 : length c2 = 4%nat) by apply length_le_encode.
  set (d1 := list_inserts (Z.to_nat argc_at) c1 (data m)).
  assert (Hd1 : data (set_data m d1) = d1) by (apply data_set, length_inserts).
  assert (Hl1 : length d1 = length (data m)) by apply length_inserts.
  erewrite bind_Ret by (apply (write_guest_ok s m); [done|lia|unfold zlen in *; lia]). fold d1.
  erewrite bind_Ret by (apply (write_guest_ok _ (set_data m d1)); [done|lia|rewrite Hd1; unfold zlen in *; lia]).
  rewrite Hd1, with_data_twice. eexists. split; [done|].
  rewrite sub_inserts_disjoint by (unfold zlen in *; lia). split.
  - unfold d1. rewrite <- Hc1, sub_inserts_same by (unfold zlen in *; lia).
    apply le_decode_encode_fits. unfold fits. lia.
  - rewrite <- Hc2, sub_inserts_same by (unfold zlen in *; lia).
    apply le_decode_encode_fits. unfold fits. lia.
Qed.

Lemma args_found : ∀ s m (strs : list string) argc_at size_at argv argv_buf,
  s.(exported) = Some m → s.(WASI_STATE) !! s.(caller_id) = Some strs → strs ≠ [] →
  let size := args_size (map bytes_of strs) in
  0 ≤ argc_at → argc_at + 4 ≤ size_at < 2 ^ 31 → size_at + 4 ≤ zlen (data m) →
  0 ≤ argv < 2 ^ 31 → 0 ≤ argv_buf < 2 ^ 31 → zlen (data m) ≤ 2 ^ 32 →
  argv + 4 * zlen strs ≤ zlen (data m) → argv_buf + size ≤ zlen (data m) →
  apart argv (4 * zlen strs) argv_buf size → zlen strs < 2 ^ 32 → size < 2 ^ 32 →
  (∃ d, args_sizes_get argc_at size_at s = (Ret (errno Errno.Success), with_data s m d) ∧
     le_decode (sub d (Z.to_nat argc_at) 4) = zlen strs ∧
     le_decode (sub d (Z.to_nat size_at) 4) = size) ∧
  ∃ d, args_get argv argv_buf s = (Ret (errno Errno.Success), with_data s m d) ∧
    (∀ k str, strs !! k = Some str →
      let at_ := le_decode (sub d (Z.to_nat (argv + 4 * Z.of_nat k)) 4) in
      argv_buf ≤ at_ ∧ at_ + zlen (bytes_of str) + 1 ≤ argv_buf + size ∧
      sub d (Z.to_nat at_) (length (bytes_of str) + 1) = bytes_of str ++ [0]) ∧
    ∀ i, (Z.of_nat i < argv ∨ argv + 4 * zlen strs ≤ Z.of_nat i) →
      (Z.of_nat i < argv_buf ∨ argv_buf + size ≤ Z.of_nat i) → d !! i = data m !! i.
Proof.
  intros s m strs argc_at size_at argv argv_buf Hm Hargs Hne size Ha Hb Hbl Hv Hvb Hml Hvl Hvbl Hap Hsl Hsz.
  split; [by apply args_sizes_get_spec|]. unfold size in *. clear size. set (bs := map bytes_of strs) in *.
  assert (Hlb : zlen bs = zlen strs) by (unfold bs, zlen; by rewrite length_map).
  unfold args_get. rewrite (bind_Ret _ _ _ _ _ (get_wasi_state_eq s strs Hargs Hne)).
  rewrite (bind_Ret _ _ _ _ _ (get_memory_eq s m Hm)). fold bs.
  destruct (args_loop_spec argv argv_buf Hv Hvb bs 0 0 s m Hm) as (d & Hr & Hl & Hk & Ho);
    rewrite ?Z.mul_0_r, ?Z.add_0_r, ?Z.add_0_l, ?Hlb; try done; try lia.
  rewrite (bind_Ret _ _ _ _ _ Hr). exists d. split; [done|].
  rewrite ?Z.mul_0_r, ?Z.add_0_r, ?Z.add_0_l, ?Hlb in Ho. split; [|exact Ho].
  intros k str Hka. cbv zeta. set (at_ := le_decode _). assert (Hkb : bs !! k = Some (bytes_of str))
    by (unfold bs; by rewrite list_lookup_fmap, Hka).
  destruct (Hk k _ Hkb) as [Hp Hbt]. rewrite (Z.add_0_r argv_buf) in Hp, Hbt. rewrite (Z.add_0_l (Z.of_nat k)) in Hp.
  destruct (arg_offset_bound _ _ _ Hkb). assert (Hbl' := zlen_nonneg (bytes_of str)).
  assert (Hat : at_ = argv_buf + arg_offset bs k).
  { unfold at_. rewrite Hp. apply le_decode_encode_fits. unfold fits. lia. }
  rewrite Hat. split_and!; [lia|lia|exact Hbt].
Qed.

(** C6: a guest finds its arguments: in room of the sizes [args_sizes_get] reports,
    which do not overlap, [args_get] leaves a table whose every entry points to
    the bytes of the argument of that number, with a zero behind them; nothing
    else of the memory changes. *)
Theorem args_round_trip : ∀ s m (strs : list string) argc_at size_at argv argv_buf,
  s.(exported) = Some m → s.(WASI_STATE) !! s.(caller_id) = Some strs → strs ≠ [] →
  let size := args_size (map bytes_of strs) in
  0 ≤ argc_at → argc_at + 4 ≤ size_at < 2 ^ 31 → size_at + 4 ≤ zlen (data m) →
  0 ≤ argv < 2 ^ 31 → 0 ≤ argv_buf < 2 ^ 31 → zlen (data m) ≤ 2 ^ 32 →
  argv + 4 * zlen strs ≤ zlen (data m) → argv_buf + size ≤ zlen (data m) →
  apart argv (4 * zlen strs) argv_buf size → zlen strs < 2 ^ 32 → size < 2 ^ 32 →
  (∃ d, args_sizes_get argc_at size_at s = (Ret (errno Errno.Success), with_data s m d) ∧
     le_decode (sub d (Z.to_nat argc_at) 4) = zlen strs ∧
     le_decode (sub d (Z.to_nat size_at) 4) = size) ∧
  ∃ d, args_get argv argv_buf s = (Ret (errno Errno.Success), with_data s m d) ∧
    (∀ k str, strs !! k = Some str →
      let at_ := le_decode (sub d (Z.to_nat (argv + 4 * Z.of_nat k)) 4) in
      argv_buf ≤ at_ ∧ at_ + zlen (bytes_of str) + 1 ≤ argv_buf + size ∧
      sub d (Z.to_nat at_) (length (bytes_of str) + 1) = bytes_of str ++ [0]) ∧
    ∀ i, (Z.of_nat i < argv ∨ argv + 4 * zlen strs ≤ Z.of_nat i) →
      (Z.of_nat i < argv_buf ∨ argv_buf + size ≤ Z.of_nat i) → d !! i = data m !! i.
Proof. exact args_found. Qed.
End arguments.

(** The demo guest's arguments, the table at 32 and the bytes at 40. *)
Lemma args_round_trip_witness : ∃ d d' : list byte,
  let s := WasiDemo.guest (WasiDemo.opened [] 0) in
  args_sizes_get 48 52 s = (Ret 0, with_data s WasiDemo.guest_memory d) ∧
  args_get 32 40 s = (Ret 0, with_data s WasiDemo.guest_memory d') ∧
  sub d' (Z.to_nat (le_decode (sub d' 36 4))) 2 = bytes_of "7" ++ [0].
Proof.
  destruct (args_round_trip (WMS := WasiDemo.list_memory_spec) (WasiDemo.guest (WasiDemo.opened [] 0))
    WasiDemo.guest_memory ["sort"; "7"]%string 48 52 32 40 eq_refl eq_refl ltac:(done)
    ltac:(lia) ltac:(lia) ltac:(by vm_compute) ltac:(lia) ltac:(lia) ltac:(by vm_compute)
    ltac:(by vm_compute) ltac:(by vm_compute) ltac:(left; by vm_compute) ltac:(by vm_compute)
    ltac:(by vm_compute)) as [(d & H1 & _) (d' & H2 & H3 & _)].
  destruct (H3 1%nat "7"%string eq_refl) as (_ & _ & H4).
  exact (ex_intro _ d (ex_intro _ d' (conj H1 (conj H2 H4)))).
Defined.
