(* ===== verification/WasiDir.v ===== *)
(** * Directory listings through [fd_readdir]

    One call leaves in the guest's buffer the part of the sorted listing's byte
    stream that starts at the cookie and fits; the guest reads the entries that are
    whole and goes on from the last one's cookie.  [guest_readdir] is such a guest,
    written here for the theorem: the program has no reader of its own, and the C
    library's ends earlier, at an answer shorter than its buffer. *)
From S2P Require Import Prelude Bytes Hostcall AsStd Wasi WasiSpec.
From stdpp Require Import sorting.
Local Open Scope Z_scope.

(** What the guest reads of an entry: cookie, type and name. *)
Abbreviation Info := (Z * Z * list byte)%type.

Section stream.
Context `{PD : !Padding}.

(** One entry as the guest sees it, and the listing from a cookie on. *)
Definition entry_bytes (next : Z) (e : DirEntry) : list byte :=
  dirent_bytes (dirent_of e next) ++ bytes_of e.(entry_name).
Fixpoint stream (cookie : Z) (es : list DirEntry) : list byte :=
  match es with
  | [] => []
  | e :: es => entry_bytes (cookie + 1) e ++ stream (cookie + 1) es
  end.

(** The name fits the length field with room to spare. *)
Definition name_fits (e : DirEntry) : Prop := zlen (bytes_of e.(entry_name)) < 2 ^ 31 - 24.
Definition entry_len (e : DirEntry) : Z := 24 + zlen (bytes_of e.(entry_name)).

Definition info (next : Z) (e : DirEntry) : Info :=
  (next, (dirent_of e next).(d_type), bytes_of e.(entry_name)).
Fixpoint infos (cookie : Z) (es : list DirEntry) : list Info :=
  match es with
  | [] => []
  | e :: es => info (cookie + 1) e :: infos (cookie + 1) es
  end.

(** The whole entries at the front of the guest's buffer. *)
Fixpoint parse (n : nat) (l : list byte) : list Info :=
  match n with
  | O => []
  | S n =>
      let len := le_decode (sub l 16 4) in
      if (zlen l <? 24) || (zlen l <? 24 + len) then []
      else (le_decode (sub l 0 8), le_decode (sub l 20 1), sub l 24 (Z.to_nat len)) ::
           parse n (drop (24 + Z.to_nat len) l)
  end.

(** How many of the entries fit in [B] bytes. *)
Fixpoint fit_count (B : Z) (es : list DirEntry) : nat :=
  match es with
  | [] => O
  | e :: es => if entry_len e <=? B then S (fit_count (B - entry_len e) es) else O
  end.

Lemma length_dirent d : length (dirent_bytes d) = 24%nat.
Proof. unfold dirent_bytes. by rewrite !length_app, !length_le_encode, length_padding. Qed.

Lemma zlen_entry n e : zlen (entry_bytes n e) = entry_len e.
Proof. unfold entry_bytes. rewrite zlen_app. unfold zlen at 1. by rewrite length_dirent. Qed.

Lemma d_type_small e n : 0 ≤ (dirent_of e n).(d_type) < 256.
Proof. unfold dirent_of. cbn. repeat case_match; lia. Qed.

(** The fields at the front of a buffer. *)
Lemma dirent_fields d l :
  sub (dirent_bytes d ++ l) 0 8 = le_encode 8 d.(d_next) ∧
  sub (dirent_bytes d ++ l) 16 4 = le_encode 4 d.(d_namelen) ∧
  sub (dirent_bytes d ++ l) 20 1 = le_encode 1 d.(d_type).
Proof.
  unfold dirent_bytes. rewrite <- !app_assoc. split_and!.
  - apply (sub_field []); [done|by rewrite length_le_encode].
  - by rewrite (app_assoc (le_encode 8 (d_next d))), sub_field
      by (rewrite ?length_app, ?length_le_encode; done).
  - by rewrite (app_assoc (le_encode 8 (d_next d))), (app_assoc (le_encode 8 (d_next d) ++ _)),
      sub_field by (rewrite ?length_app, ?length_le_encode; done).
Qed.

Lemma parse_entry n next e l : fits 64 next → name_fits e →
  parse (S n) (entry_bytes next e ++ l) = info next e :: parse n l.
Proof.
  intros Hn He. unfold name_fits in He. assert (Hzn := zlen_nonneg (bytes_of (entry_name e))).
  unfold entry_bytes, info. rewrite <- app_assoc. set (name := bytes_of (entry_name e)) in *.
  destruct (dirent_fields (dirent_of e next) (name ++ l)) as (H0 & H16 & H20).
  assert (Hlen := length_dirent (dirent_of e next)). assert (Hl := zlen_nonneg l).
  cbn [parse]. rewrite H0, H16, H20. change (d_namelen (dirent_of e next)) with (u32_of (zlen name)).
  rewrite u32_of_small, (le_decode_encode_fits 4) by (unfold fits; lia).
  rewrite !(proj2 (Z.ltb_ge _ _)) by (rewrite !zlen_app; unfold zlen in *; lia). cbn [orb].
  assert (Hnn : Z.to_nat (zlen name) = length name) by (unfold zlen; lia). rewrite Hnn.
  rewrite (sub_field _ name l 24) by done.
  rewrite app_assoc, drop_app_length' by (rewrite length_app; lia).
  rewrite !le_decode_encode_fits; [done|apply d_type_small|done].
Qed.

Lemma fits_next c e (es : list DirEntry) : fits 64 c → c + zlen (e :: es) < 2 ^ 64 → fits 64 (c + 1).
Proof. unfold fits, zlen. cbn [length]. lia. Qed.

(** The guest reads back exactly the entries that fit. *)
Lemma parse_stream (es : list DirEntry) : ∀ n c B, Forall name_fits es → fits 64 c → c + zlen es < 2 ^ 64 → 0 ≤ B →
  (fit_count B es ≤ n)%nat →
  parse n (take (Z.to_nat B) (stream c es)) = take (fit_count B es) (infos c es).
Proof.
  induction es as [|e es IH]; intros n c B Hes Hc Hce HB Hn.
  - cbn. rewrite take_nil. by destruct n.
  - apply Forall_cons in Hes as [He Hes]. assert (Hc1 := fits_next c e es Hc Hce).
    cbn [stream fit_count infos] in *. assert (Hze := zlen_entry (c + 1) e).
    assert (Hz := zlen_nonneg (bytes_of (entry_name e))).
    destruct (Z.leb_spec (entry_len e) B) as [Hle|Hgt].
    + destruct n as [|n]; [lia|].
      rewrite take_app_ge by (unfold zlen, entry_len in *; lia).
      rewrite parse_entry by done. cbn [take]. f_equal.
      replace (Z.to_nat B - length (entry_bytes (c + 1) e))%nat with (Z.to_nat (B - entry_len e))
        by (unfold zlen in *; lia).
      apply IH; [done|done| |lia|lia]. unfold zlen in *. cbn [length] in Hce. lia.
    + rewrite take_0. destruct n as [|n]; [done|].
      rewrite take_app_le by (unfold zlen in *; lia). cbn [parse].
      set (l := take (Z.to_nat B) (entry_bytes (c + 1) e)).
      assert (Hl : zlen l = B) by (unfold l, zlen in *; rewrite length_take; lia).
      rewrite Hl. destruct (Z.ltb_spec B 24) as [H24|H24]; [done|]. cbn [orb].
      destruct (dirent_fields (dirent_of e (c + 1)) (bytes_of (entry_name e))) as (_ & H16 & _).
      assert (Hsub : sub l 16 4 = sub (entry_bytes (c + 1) e) 16 4).
      { apply sub_ext. intros a Ha. unfold l. apply lookup_take_lt. lia. }
      unfold entry_bytes in Hsub. rewrite Hsub, H16. unfold name_fits in He.
      change (d_namelen _) with (u32_of (zlen (bytes_of (entry_name e)))).
      rewrite u32_of_small, (le_decode_encode_fits 4) by (unfold fits; lia).
      rewrite (proj2 (Z.ltb_lt _ _)) by (unfold entry_len in *; lia). done.
Qed.
End stream.

Section readdir.
Context {W Mem : Type} {WM : WasmMemory Mem} {WMS : WasmMemorySpec Mem} {WH : WasiHost W}
  {PD : Padding}.
Implicit Types (s : WasiState W Mem) (m : Mem) (d : list byte) (es : list DirEntry).

(** Two writes that follow each other are one. *)
Lemma write_guest_two s m off b1 b2 : s.(exported) = Some m →
  0 ≤ off → off + zlen b1 + zlen b2 ≤ zlen (data m) →
  ∃ s1, write_guest off b1 s = (Ret (), s1) ∧ 
    write_guest (off + zlen b1) b2 s1 =
      (Ret (), with_data s m (list_inserts (Z.to_nat off) (b1 ++ b2) (data m))).
Proof.
  intros Hm H0 Hle. assert (Hl2 := zlen_nonneg b2). assert (Hl1 := zlen_nonneg b1).
  eexists. split; [apply (write_guest_ok s m); [done|lia|lia]|].
  set (d1 := list_inserts (Z.to_nat off) b1 (data m)).
  assert (Hd1 : data (set_data m d1) = d1) by (apply data_set, length_inserts).
  rewrite (write_guest_ok _ (set_data m d1)); [|done|lia|rewrite Hd1; unfold d1; rewrite zlen_inserts; lia].
  rewrite Hd1, with_data_twice. unfold d1. rewrite inserts_app by (unfold zlen in *; lia).
  do 4 f_equal. unfold zlen. lia.
Qed.

Section readdir_entry.
Context (B used_at : Z) (HB : 0 ≤ B < 2 ^ 31) (Hua : 0 ≤ used_at < 2 ^ 31).

Lemma readdir_finish s m n : s.(exported) = Some m → used_at + 4 ≤ zlen (data m) →
  (write_guest (usize_of used_at) (le_encode 4 n) ;; mret (errno Errno.Success)) s =
  (Ret (errno Errno.Success), with_data s m (list_inserts (Z.to_nat used_at) (le_encode 4 n) (data m))).
Proof.
  intros Hm Hle. rewrite usize_of_nonneg by lia. erewrite bind_Ret; [done|].
  apply (write_guest_ok s m); [done|lia|by rewrite zlen_le_encode].
Qed.

(** The next entry, where the guest's buffer has [B - used] bytes left at [cur]. *)
Context (e : DirEntry) (es : list DirEntry) (cookie cur used : Z) (s : WasiState W Mem) (m : Mem).
Context (Hm : s.(exported) = Some m) (He : name_fits e) (Hck : 0 ≤ cookie ∧ cookie + 1 < 2 ^ 64)
  (Hu : 0 ≤ used ≤ B) (H0 : 0 ≤ cur) (Hcur : cur + (B - used) ≤ zlen (data m))
  (Hcur2 : cur + (B - used) < 2 ^ 32) (Hul : used_at + 4 ≤ zlen (data m)).
Local Abbreviation bytes := (entry_bytes (cookie + 1) e).

(** It does not fit: as much of it as fits is written, and the loop ends. *)
Lemma readdir_cut : B < used + entry_len e →
  readdir_loop B used_at (e :: es) cookie cur used s =
    (Ret (errno Errno.Success), with_data s m
       (list_inserts (Z.to_nat used_at) (le_encode 4 B)
          (list_inserts (Z.to_nat cur) (take (Z.to_nat (B - used)) bytes) (data m)))).
Proof.
  intros Hov. assert (Hzb := zlen_entry (cookie + 1) e). unfold name_fits, entry_len in *.
  assert (Hzn := zlen_nonneg (bytes_of (entry_name e))). cbn [readdir_loop].
  rewrite (bind_Ret _ _ _ _ _ (checked_fits 64 (cookie + 1) s ltac:(unfold fits; lia))). cbv zeta.
  rewrite (u32_of_small (zlen (bytes_of _))) by (unfold fits; lia). unfold dirent_size.
  rewrite (bind_Ret _ _ _ _ _ (checked_fits 32 (used + 24) s ltac:(unfold fits; lia))).
  rewrite (bind_Ret _ _ _ _ _ (checked_fits 32 (used + 24 + zlen (bytes_of (entry_name e))) s
    ltac:(unfold fits; lia))).
  rewrite (u32_of_small B) by (unfold fits; lia). rewrite (proj2 (Z.ltb_lt _ _)) by lia.
  rewrite (bind_Ret _ _ _ _ _ (checked_fits 32 (B - used) s ltac:(unfold fits; lia))).
  change (dirent_bytes _ ++ bytes_of _) with bytes.
  rewrite slice_ok by lia. unfold unwrap.
  change (sub bytes (Z.to_nat 0) (Z.to_nat (B - used))) with (take (Z.to_nat (B - used)) (drop 0 bytes)).
  rewrite drop_0. set (out := take _ bytes).
  assert (Hzo : zlen out = B - used) by (unfold out, zlen in *; rewrite length_take; lia).
  rewrite (bind_Ret _ _ _ out s) by done.
  set (d1 := list_inserts (Z.to_nat cur) out (data m)).
  assert (Hd1 : data (set_data m d1) = d1) by (apply data_set, length_inserts).
  erewrite bind_Ret by (apply (write_guest_ok s m); [done|lia|lia]). fold d1.
  rewrite (readdir_finish _ (set_data m d1)); [|done|rewrite Hd1; unfold d1; by rewrite zlen_inserts].
  by rewrite Hd1, with_data_twice.
Qed.

(** It fits: it is written, and the loop goes on behind it. *)
Lemma readdir_step : used + entry_len e ≤ B →
  readdir_loop B used_at (e :: es) cookie cur used s =
    readdir_loop B used_at es (cookie + 1) (cur + entry_len e) (used + entry_len e)
      (with_data s m (list_inserts (Z.to_nat cur) bytes (data m))).
Proof.
  intros Hfit. unfold name_fits, entry_len in *.
  assert (Hzn := zlen_nonneg (bytes_of (entry_name e))). cbn [readdir_loop].
  rewrite (bind_Ret _ _ _ _ _ (checked_fits 64 (cookie + 1) s ltac:(unfold fits; lia))). cbv zeta.
  rewrite (u32_of_small (zlen (bytes_of _))) by (unfold fits; lia). unfold dirent_size.
  set (name := bytes_of (entry_name e)) in *.
  set (dirent := dirent_bytes (dirent_of e (cookie + 1))).
  assert (Hdl : zlen dirent = 24) by (unfold zlen, dirent; by rewrite length_dirent).
  rewrite (bind_Ret _ _ _ _ _ (checked_fits 32 (used + 24) s ltac:(unfold fits; lia))).
  rewrite (bind_Ret _ _ _ _ _ (checked_fits 32 (used + 24 + zlen name) s ltac:(unfold fits; lia))).
  rewrite (u32_of_small B) by (unfold fits; lia). rewrite (proj2 (Z.ltb_ge _ _)) by lia.
  destruct (write_guest_two s m cur dirent name Hm H0) as (s1 & Hw1 & Hw2); [lia|].
  rewrite (bind_Ret _ _ _ _ _ Hw1). rewrite Hdl in Hw2.
  rewrite (bind_Ret _ _ _ _ _ (checked_fits 32 (cur + 24) s1 ltac:(unfold fits; lia))).
  rewrite (bind_Ret _ _ _ _ _ (checked_fits 32 (used + 24) s1 ltac:(unfold fits; lia))).
  rewrite (bind_Ret _ _ _ _ _ Hw2). change (dirent ++ name) with bytes.
  set (s2 := with_data s m _).
  rewrite (bind_Ret _ _ _ _ _ (checked_fits 32 (cur + 24 + zlen name) s2 ltac:(unfold fits; lia))).
  rewrite (bind_Ret _ _ _ _ _ (checked_fits 32 (used + 24 + zlen name) s2 ltac:(unfold fits; lia))).
  by rewrite <- !Z.add_assoc.
Qed.
End readdir_entry.

Lemma readdir_loop_spec B used_at : 0 ≤ B < 2 ^ 31 → 0 ≤ used_at < 2 ^ 31 →
  ∀ es cookie cur used s m,
  s.(exported) = Some m → Forall name_fits es →
  0 ≤ cookie → cookie + zlen es < 2 ^ 64 → 0 ≤ used ≤ B →
  0 ≤ cur → cur + (B - used) ≤ zlen (data m) → cur + (B - used) < 2 ^ 32 →
  used_at + 4 ≤ zlen (data m) →
  let out := take (Z.to_nat (B - used)) (stream cookie es) in
  readdir_loop B used_at es cookie cur used s =
    (Ret (errno Errno.Success), with_data s m
       (list_inserts (Z.to_nat used_at) (le_encode 4 (used + zlen out))
          (list_inserts (Z.to_nat cur) out (data m)))).
Proof.
  intros HB Hua. induction es as [|e es IH];
    intros cookie cur used s m Hm Hes Hc0 Hc Hu H0 Hcur Hcur2 Hul out.
  - unfold out. cbn [stream readdir_loop]. rewrite take_nil, inserts_nil, (readdir_finish used_at Hua s m) by done.
    change (zlen []) with 0. by rewrite Z.add_0_r.
  - apply Forall_cons in Hes as [He Hes]. assert (Hzb := zlen_entry (cookie + 1) e).
    assert (Hze : zlen (e :: es) = 1 + zlen es) by (unfold zlen; cbn [length]; lia). rewrite Hze in Hc.
    assert (Hzes := zlen_nonneg es). assert (Hzn := zlen_nonneg (bytes_of (entry_name e))).
    assert (Hlb : Z.of_nat (length (entry_bytes (cookie + 1) e)) = entry_len e) by (apply zlen_entry).
    unfold out. cbn [stream]. destruct (Z.lt_ge_cases B (used + entry_len e)) as [Hov|Hfit].
    + rewrite (readdir_cut B used_at HB Hua e es cookie cur used s m) by (done || lia).
      rewrite take_app_le by lia. do 4 f_equal. unfold zlen. rewrite length_take. lia.
    + rewrite (readdir_step B used_at HB e es cookie cur used s m) by (done || lia).
      set (bs := entry_bytes (cookie + 1) e) in *. set (d1 := list_inserts (Z.to_nat cur) bs (data m)).
      assert (Hd1 : data (set_data m d1) = d1) by (apply data_set, length_inserts).
      assert (Hl1 : zlen d1 = zlen (data m)) by apply zlen_inserts.
      unfold entry_len in *.
      rewrite (IH _ _ _ _ (set_data m d1)); rewrite ?Hd1, ?Hl1; try done; try lia.
      rewrite with_data_twice, take_app_ge by lia.
      replace (Z.to_nat (B - used) - length bs)%nat
        with (Z.to_nat (B - (used + (24 + zlen (bytes_of (entry_name e)))))) by lia.
      set (rest := take _ (stream (cookie + 1) es)).
      assert (Hrl : zlen rest ≤ B - (used + (24 + zlen (bytes_of (entry_name e)))))
        by (unfold rest, zlen at 1; rewrite length_take; lia).
      unfold d1. rewrite (inserts_app _ bs rest) by (unfold zlen in *; lia).
      rewrite zlen_app. do 3 f_equal; [f_equal; unfold zlen in *; lia|]. f_equal. lia.
Qed.

(** ** Listing a directory *)

(** A guest, no code of the program, that asks on from the last whole entry until
    an answer has none. *)
Fixpoint guest_readdir (fuel : nat) (fd buf B cookie used_at : Z) :
    prog (WasiState W Mem) (list Info) :=
  match fuel with
  | O => out_of_fuel
  | S fuel =>
      _ ← fd_readdir fd buf B cookie used_at;
      m ← get_memory;
      let n := Z.to_nat (le_decode (sub (data m) (Z.to_nat used_at) 4)) in
      let es := parse n (sub (data m) (Z.to_nat buf) n) in
      match last es with
      | None => mret []
      | Some (next, _, _) =>
          rest ← guest_readdir fuel fd buf B next used_at;
          mret (es ++ rest)
      end
  end.

Lemma lookup_infos c es k : infos c es !! k = (λ e, info (c + 1 + Z.of_nat k) e) <$> es !! k.
Proof.
  revert c k. induction es as [|e es IH]; intros c [|k]; cbn [infos]; try done.
  - cbn. by rewrite Z.add_0_r.
  - cbn [lookup list_lookup]. rewrite IH. do 2 f_equal.
    replace (c + 1 + 1 + Z.of_nat k) with (c + 1 + Z.of_nat (S k)) by lia. done.
Qed.

Lemma infos_split c es k : (k ≤ length es)%nat →
  infos c es = take k (infos c es) ++ infos (c + Z.of_nat k) (drop k es).
Proof.
  revert c k. induction es as [|e es IH]; intros c k Hk; [by destruct k|].
  destruct k as [|k]; cbn [infos take drop length] in *; [by rewrite Z.add_0_r|].
  cbn [app]. f_equal. rewrite (IH (c + 1) k) at 1 by lia. do 2 f_equal. lia.
Qed.

Lemma length_infos c es : length (infos c es) = length es.
Proof. revert c. induction es as [|e es IH]; intros c; [done|]. cbn. by rewrite IH. Qed.

Lemma fit_count_le B es : (fit_count B es ≤ length es)%nat.
Proof.
  revert B. induction es as [|e es IH]; intros B; cbn; [done|]. case_match; [|lia].
  specialize (IH (B - entry_len e)). lia.
Qed.

(** The entries that fit take at least a byte each. *)
Lemma fit_count_out es : ∀ B c, 0 ≤ B →
  (fit_count B es ≤ length (take (Z.to_nat B) (stream c es)))%nat.
Proof.
  induction es as [|e es IH]; intros B c H0; cbn [fit_count stream]; [lia|].
  destruct (Z.leb_spec (entry_len e) B); [|lia].
  assert (He := zlen_entry (c + 1) e). assert (Hz := zlen_nonneg (bytes_of (entry_name e))).
  specialize (IH (B - entry_len e) (c + 1) ltac:(lia)). rewrite length_take in *.
  rewrite length_app. unfold entry_len, zlen in *. lia.
Qed.

(** The last of the entries read has the cookie to go on from. *)
Lemma last_infos c es k : (k ≤ length es)%nat →
  match last (take k (infos c es)) with
  | Some (next, _, _) => next = c + Z.of_nat k ∧ (0 < k)%nat
  | None => k = O ∨ es = []
  end.
Proof.
  intros Hk. rewrite last_lookup, length_take, length_infos, Nat.min_l by done.
  destruct k as [|k]; [by left|]. cbn [Nat.pred].
  rewrite lookup_take_lt, lookup_infos by lia.
  destruct (lookup_lt_is_Some_2 es k) as [e He]; [lia|]. rewrite He. cbn. split; [lia|lia].
Qed.

(** Every page ends in memory as [readdir_loop_spec] says; nothing else changes. *)
Lemma fd_readdir_page s m fd buf B c used_at path es k :
  s.(exported) = Some m → s.(FD2PATH) !! u32_of fd = Some path → path ≠ ""%string →
  h_readdir path s.(host) = (Ret (Ok es), s.(host)) →
  let listing := with_dots es in
  Forall name_fits listing → zlen listing < 2 ^ 63 → c = Z.of_nat k → (k ≤ length listing)%nat →
  0 ≤ B < 2 ^ 31 → 0 ≤ used_at < 2 ^ 31 → used_at + 4 ≤ zlen (data m) →
  0 ≤ buf < 2 ^ 31 → buf + B ≤ zlen (data m) → apart buf B used_at 4 →
  let out := take (Z.to_nat B) (stream c (drop k listing)) in
  ∃ d, fd_readdir fd buf B c used_at s = (Ret (errno Errno.Success), with_data s m d) ∧
    length d = length (data m) ∧ le_decode (sub d (Z.to_nat used_at) 4) = zlen out ∧
    sub d (Z.to_nat buf) (length out) = out.
Proof.
  intros Hm Hfd Hne Hh listing Hes Hz -> Hk HB Hua Hul Hbuf Hbl Hap out.
  assert (Hlo : (length out ≤ Z.to_nat B)%nat) by (unfold out; rewrite length_take; lia).
  unfold zlen in *. unfold fd_readdir.
  rewrite (bind_Ret _ _ _ _ _ (get_memory_eq s m Hm)).
  rewrite (bind_Ret _ _ _ path s); last first.
  { unfold get_fd2path. rewrite (bind_Ret _ _ _ (Some path) s) by (unfold gets; by rewrite Hfd).
    cbn [unwrap]. rewrite (bind_Ret _ _ _ path s) by done.
    unfold assert. rewrite (proj2 (String.eqb_neq path "")) by done. done. }
  rewrite (bind_Ret _ _ _ (Ok es) s); last first.
  { unfold libos, on. rewrite Hh. by destruct s. }
  cbn [unwrap_ok]. rewrite (bind_Ret _ _ _ es s) by done.
  rewrite usize_of_nonneg, (u32_of_small buf) by (unfold fits; lia). rewrite Nat2Z.id. fold listing.
  rewrite (readdir_loop_spec B used_at HB Hua (drop k listing) (Z.of_nat k) buf 0 s m);
    [|done|by apply Forall_drop|lia|unfold zlen; rewrite length_drop; lia|lia|lia
     |unfold zlen; lia|lia|unfold zlen; lia].
  rewrite Z.sub_0_r. fold out. eexists. split; [done|]. split_and!.
  - by rewrite !length_inserts.
  - match goal with |- context [list_inserts _ (le_encode 4 ?x) _] => set (cell := le_encode 4 x) end.
    assert (Hc : length cell = 4%nat) by apply length_le_encode.
    rewrite <- Hc, sub_inserts_same by (rewrite length_inserts; lia).
    unfold cell. rewrite Z.add_0_l. apply le_decode_encode_fits. unfold fits, zlen. lia.
  - unfold apart in Hap.
    rewrite sub_inserts_disjoint by (rewrite ?length_inserts, ?length_le_encode; lia).
    apply sub_inserts_same. lia.
Qed.

(** The sorted listing is the directory and its two dots, in the order of names. *)
Lemma insert_entry_perm e l : insert_entry e l ≡ₚ e :: l.
Proof.
  induction l as [|e' l IH]; cbn; [done|]. case_match; [done|]. by rewrite IH, Permutation_swap.
Qed.

Lemma sort_entries_perm l : sort_entries l ≡ₚ l.
Proof. induction l as [|e l IH]; [done|]. change (sort_entries (e :: l)) with (insert_entry e (sort_entries l)).
  by rewrite insert_entry_perm, IH. Qed.

Lemma insert_entry_sorted e l : Sorted (λ a b, name_leb a b = true) l →
  Sorted (λ a b, name_leb a b = true) (insert_entry e l).
Proof.
  assert (Htot : ∀ a b, name_leb a b = false → name_leb b a = true).
  { intros a b Hab. unfold name_leb in *.
    destruct (String.leb_total (entry_name a) (entry_name b)) as [H|H]; [|done].
    rewrite H in Hab. done. }
  induction 1 as [|e' l Hs IH Hd]; cbn; [by repeat constructor|].
  destruct (name_leb e e') eqn:Hle; [by repeat constructor|].
  constructor; [done|]. destruct l as [|e2 l]; cbn.
  - constructor. by apply Htot.
  - case_match; constructor; [by apply Htot|]. by inversion Hd.
Qed.

Lemma sort_entries_sorted l : Sorted (λ a b, name_leb a b = true) (sort_entries l).
Proof. induction l as [|e l IH]; [constructor|by apply insert_entry_sorted]. Qed.

Lemma guest_readdir_spec fd buf B used_at path es listing : listing = with_dots es →
  path ≠ ""%string → Forall name_fits listing → Forall (λ e, entry_len e ≤ B) listing →
  zlen listing < 2 ^ 63 → 0 ≤ B < 2 ^ 31 → 0 ≤ used_at < 2 ^ 31 →
  0 ≤ buf < 2 ^ 31 → apart buf B used_at 4 → ∀ fuel k s m,
  s.(exported) = Some m → s.(FD2PATH) !! u32_of fd = Some path →
  h_readdir path s.(host) = (Ret (Ok es), s.(host)) →
  used_at + 4 ≤ zlen (data m) → buf + B ≤ zlen (data m) →
  (k ≤ length listing)%nat → (length listing - k < fuel)%nat →
  ∃ s', guest_readdir fuel fd buf B (Z.of_nat k) used_at s =
    (Ret (infos (Z.of_nat k) (drop k listing)), s').
Proof.
  intros Hls Hne Hes Hlen Hz HB Hua Hbuf Hap.
  induction fuel as [|fuel IH]; intros k s m Hm Hfd Hh Hul Hbl Hk Hf; [lia|].
  destruct (fd_readdir_page s m fd buf B (Z.of_nat k) used_at path es k) as
    (d & Hr & Hl & Hn & Hs); rewrite <- ?Hls; try done. rewrite <- Hls in Hn, Hs.
  set (rest := drop k listing) in *. set (out := take (Z.to_nat B) (stream (Z.of_nat k) rest)) in *.
  assert (Hd : data (set_data m d) = d) by by apply data_set.
  cbn [guest_readdir]. rewrite (bind_Ret _ _ _ _ _ Hr).
  rewrite (bind_Ret _ _ _ _ _ (get_memory_eq (with_data s m d) _ eq_refl)). rewrite Hd, Hn. cbv zeta.
  assert (Hno : Z.to_nat (zlen out) = length out) by (unfold zlen; lia). rewrite Hno, Hs.
  assert (Hrl : zlen rest = zlen listing - Z.of_nat k)
    by (unfold rest, zlen; rewrite length_drop; lia).
  assert (Hrf : Forall name_fits rest) by by apply Forall_drop.
  assert (Hre : Forall (λ e, entry_len e ≤ B) rest) by by apply Forall_drop.
  set (j := fit_count B rest). assert (Hjl : (j ≤ length rest)%nat) by apply fit_count_le.
  assert (Hjo : (j ≤ length out)%nat) by (apply fit_count_out; lia).
  assert (Hzk : Z.of_nat k ≤ zlen listing) by (unfold zlen; lia).
  assert (Hps : parse (length out) out = take j (infos (Z.of_nat k) rest))
    by (apply parse_stream; unfold fits; (done || lia)).
  rewrite Hps.
  assert (Hlast := last_infos (Z.of_nat k) rest j Hjl).
  destruct (last (take j (infos (Z.of_nat k) rest))) as [[[next ty] nm]|].
  - assert (Hjk : (j ≤ length listing - k)%nat) by (unfold rest in Hjl; by rewrite length_drop in Hjl).
    destruct Hlast as [-> Hj]. rewrite <- Nat2Z.inj_add.
    destruct (IH (k + j)%nat (with_data s m d) (set_data m d)) as [s' Hs'];
      rewrite ?Hd; unfold zlen in *; try done; try lia.
    rewrite (bind_Ret _ _ _ _ _ Hs'). exists s'.
    unfold mret, prog_mret.
    assert (Hdr : drop j rest = drop (k + j) listing) by apply drop_drop.
    by rewrite <- Hdr, Nat2Z.inj_add, <- infos_split.
  - eexists. destruct Hlast as [Hj|He]; [|by rewrite He].
    destruct rest as [|e rest']; [done|]. apply Forall_cons in Hre as [He _].
    unfold j in Hj. cbn [fit_count] in Hj. by rewrite (proj2 (Z.leb_le _ _) He) in Hj.
Qed.

(** C3: a guest reads a directory whole: with a buffer that holds the longest entry,
    asking page after page, each from the cookie of the last whole entry of the one
    before, the guest ends up with every entry of the directory and its two dots
    exactly once, in the order of their names, numbered from one; and it ends. *)
Theorem readdir_lists_all : ∀ s m fd buf B used_at path es fuel,
  s.(exported) = Some m → s.(FD2PATH) !! u32_of fd = Some path → path ≠ ""%string →
  h_readdir path s.(host) = (Ret (Ok es), s.(host)) →
  let listing := with_dots es in
  Forall name_fits listing → Forall (λ e, entry_len e ≤ B) listing → zlen listing < 2 ^ 63 →
  0 ≤ B < 2 ^ 31 → 0 ≤ used_at < 2 ^ 31 → used_at + 4 ≤ zlen (data m) →
  0 ≤ buf < 2 ^ 31 → buf + B ≤ zlen (data m) → apart buf B used_at 4 →
  (length listing < fuel)%nat →
  listing ≡ₚ es ++ [mk_dirent "." "." 4; mk_dirent ".." ".." 4] ∧
  Sorted (λ a b, name_leb a b = true) listing ∧
  ∃ s', guest_readdir fuel fd buf B 0 used_at s = (Ret (infos 0 listing), s').
Proof.
  intros s m fd buf B used_at path es fuel Hm Hfd Hne Hh listing Hes Hlen Hz HB Hua Hul Hbuf Hbl Hap Hf.
  split_and!; [apply sort_entries_perm|apply sort_entries_sorted|].
  apply (guest_readdir_spec fd buf B used_at path es listing eq_refl Hne Hes Hlen Hz HB Hua Hbuf Hap
    fuel 0 s m); try done; lia.
Qed.
End readdir.

(** ** A concrete directory *)
Module DirDemo.

(** A host that knows one directory. *)
#[global] Instance one_directory : WasiHost (list DirEntry) := {|
  h_open _ _ _ := mret (Ok 3); h_close _ := mret (Ok ());
  h_read _ buf := mret (Err (NoExistFd 3), buf); h_write _ _ := mret (Err (NoExistFd 3));
  h_stat _ := mret (Err (NoExistFd 3)); h_readdir _ := gets Ok;
  h_get_time := mret (Ok 0)
|}.

Definition files : list DirEntry := [mk_dirent "/" "words" 8; mk_dirent "/" "out" 4].
Definition start : WasiState (list DirEntry) (list byte) :=
  mk_wasi ∅ {[3 := "/"%string]} ∅ "ls" (Some (replicate 48 7)) files.
Definition listing : list Info :=
  [(1, 3, bytes_of "."); (2, 3, bytes_of ".."); (3, 3, bytes_of "out"); (4, 4, bytes_of "words")].

Lemma short_names : Forall name_fits (with_dots files) ∧ Forall (λ e, entry_len e ≤ 30) (with_dots files).
Proof. split; repeat (constructor; [vm_compute; congruence|]); constructor. Qed.
End DirDemo.

(** Pages of thirty bytes hold one entry each. *)
Lemma readdir_lists_all_witness : ∃ s',
  guest_readdir 5 3 0 30 0 40 DirDemo.start = (Ret DirDemo.listing, s').
Proof.
  destruct (readdir_lists_all (WMS := WasiDemo.list_memory_spec) DirDemo.start (replicate 48 7) 3 0 30 40 "/"
    DirDemo.files 5 eq_refl eq_refl ltac:(done) eq_refl (proj1 DirDemo.short_names) (proj2 DirDemo.short_names)
    ltac:(by vm_compute) ltac:(lia) ltac:(lia) ltac:(by vm_compute) ltac:(lia) ltac:(by vm_compute)
    ltac:(left; by vm_compute) ltac:(vm_compute; lia)) as (_ & _ & s' & H).
  exact (ex_intro _ s' H).
Defined.
