(* ===== verification/WasiLimits.v ===== *)
(** * Where the WASI calls fall short of their interface

    The clock writes twice the bytes it is asked for, the random bytes are a fixed
    function of the buffer's address, addresses in the upper half of a guest's
    memory bring the function down, and file times lose their seconds. *)
From S2P Require Import Prelude Bytes Hostcall AsStd Wasi WasiSpec.
Local Open Scope Z_scope.

Section limits.
Context {W Mem : Type} {WM : WasmMemory Mem} {WMS : WasmMemorySpec Mem} {WH : WasiHost W}
  {PD : Padding}.
Implicit Types (s : WasiState W Mem) (m : Mem).

(** ** The clock *)

Lemma le_encode_split x n k : le_encode (n + k) x = le_encode n x ++ le_encode k (x / 2 ^ (8 * Z.of_nat n)).
Proof.
  revert x. induction n as [|n IH]; intros x; cbn [le_encode Nat.add app].
  - change (2 ^ (8 * Z.of_nat 0)) with 1. by rewrite Z.div_1_r.
  - rewrite IH. do 3 f_equal. replace (8 * Z.of_nat (S n)) with (8 + 8 * Z.of_nat n) by lia.
    rewrite Z.pow_add_r, <- Z.div_div by lia. done.
Qed.

Lemma le_encode_zero n : le_encode n 0 = replicate n 0.
Proof. induction n as [|n IH]; [done|]. cbn [le_encode replicate]. f_equal. exact IH. Qed.

(** The nanoseconds go through a [Duration] and come back the same. *)
Lemma duration_nanos {S} t (s : S) : 0 ≤ t < 2 ^ 64 →
  duration_since t 0 s = (Ret (mk_duration (t / 1000000000) (t mod 1000000000)), s).
Proof.
  intros Ht. unfold duration_since. rewrite Z.sub_0_r.
  rewrite (bind_Ret _ _ _ _ _ (checked_fits 128 t s ltac:(unfold fits; lia))).
  assert (Hm := Z.mod_pos_bound t 1000000000 ltac:(lia)).
  assert (Hd := Z.div_mod t 1000000000 ltac:(lia)).
  unfold wrap. rewrite !Z.mod_small by lia. done.
Qed.

(** [clock_time_get] writes sixteen bytes where its interface has a timestamp of
    eight: for any time of the next centuries the guest finds the nanoseconds in
    the first eight, and the eight bytes behind them, whatever they held, are
    zeroed; where fewer than sixteen bytes of memory are left it panics. *)
Theorem clock_time_overruns : ∀ s m id precision time t w',
  s.(exported) = Some m → h_get_time s.(host) = (Ret (Ok t), w') → 0 ≤ t < 2 ^ 64 →
  0 ≤ time < 2 ^ 31 →
  if decide (time + 16 ≤ zlen (data m)) then
    ∃ d, clock_time_get id precision time s =
        (Ret (errno Errno.Success), with_data (set_host w' s) m d) ∧
      le_decode (sub d (Z.to_nat time) 8) = t ∧
      sub d (Z.to_nat (time + 8)) 8 = replicate 8 0 ∧
      ∀ a, Z.of_nat a < time ∨ time + 16 ≤ Z.of_nat a → d !! a = data m !! a
  else (clock_time_get id precision time s).1 = Panic.
Proof.
  intros s m id precision time t w' Hm Hh Ht Htime.
  assert (Hrun : clock_time_get id precision time s =
    (write_guest time (le_encode 8 t ++ replicate 8 0);; mret (errno Errno.Success)) (set_host w' s)).
  { unfold clock_time_get, now. rewrite (bind_Ret _ _ _ _ _ (get_memory_eq s m Hm)).
    rewrite (bind_Ret _ _ _ t (set_host w' s)) by (unfold libos, on, mbind, prog_mbind; by rewrite Hh).
    rewrite (bind_Ret _ _ _ _ _ (duration_nanos t (set_host w' s) Ht)). cbn [secs nanos].
    rewrite Z.mul_comm, <- Z.div_mod, usize_of_nonneg by lia.
    assert (Hz : t / 2 ^ (8 * Z.of_nat 8) = 0) by (apply Z.div_small; cbn; lia).
    assert (Hsp : le_encode 16 t = le_encode 8 t ++ replicate 8 0)
      by (rewrite <- le_encode_zero, <- Hz; exact (le_encode_split t 8 8)).
    by rewrite Hsp. }
  rewrite Hrun. set (bs := le_encode 8 t ++ replicate 8 0).
  assert (Hb : length bs = 16%nat) by (unfold bs; by rewrite length_app, length_le_encode).
  assert (Hm' : exported (set_host w' s) = Some m) by done.
  case_decide as Hle.
  - assert (Hw := write_guest_ok _ m time bs Hm' ltac:(lia) ltac:(unfold zlen at 1; rewrite Hb; exact Hle)).
    rewrite (bind_Ret _ _ _ _ _ Hw). eexists. split; [done|].
    set (d := list_inserts (Z.to_nat time) bs (data m)).
    assert (Hs : sub d (Z.to_nat time) 16 = bs)
      by (rewrite <- Hb; apply sub_inserts_same; unfold zlen in *; lia).
    split_and!.
    + assert (H8 : sub d (Z.to_nat time) 8 = sub bs 0 8)
        by (rewrite <- Hs, sub_sub by lia; by rewrite Nat.add_0_r).
      assert (Hf : sub bs 0 8 = le_encode 8 t)
        by (apply take_app_length'; by rewrite length_le_encode).
      rewrite H8, Hf. apply le_decode_encode_fits. exact Ht.
    + replace (Z.to_nat (time + 8)) with (Z.to_nat time + 8)%nat by lia.
      rewrite <- (sub_sub d (Z.to_nat time) 16 8 8) by lia. rewrite Hs. done.
    + intros a Ha. unfold d. rewrite lookup_inserts by (unfold zlen in *; lia).
      case_decide; [lia|done].
  - unfold mbind, prog_mbind. rewrite write_guest_panic; [done|].
    intros [_ Hle']. apply Hle. specialize (Hle' m Hm'). unfold zlen at 1 in Hle'. rewrite Hb in Hle'. lia.
Qed.

(** ** Random bytes *)

Lemma next_seed_mod x : next_seed x mod 256 = (1664525 * (x mod 256) + 1013904223) mod 256.
Proof.
  unfold next_seed, wrap.
  rewrite Z.mod_mod_divide by (by exists (2 ^ 24)). rewrite Z.mod_mod_divide by (by exists (2 ^ 56)).
  by rewrite <- Z.add_mod_idemp_l, <- Z.mul_mod_idemp_r, Z.add_mod_idemp_l by lia.
Qed.

(** The low byte of the generator's state runs by itself. *)
Lemma lcg_bytes_low n x y : x mod 256 = y mod 256 → lcg_bytes n x = lcg_bytes n y.
Proof.
  revert x y. induction n as [|n IH]; intros x y Hxy; [done|].
  assert (Hn : next_seed x mod 256 = next_seed y mod 256) by (by rewrite !next_seed_mod, Hxy).
  cbn [lcg_bytes]. rewrite Hn. f_equal. by apply IH.
Qed.

Fixpoint iter_seed (n : nat) (x : Z) : Z :=
  match n with O => x | S n => iter_seed n (next_seed x) end.

Lemma drop_lcg k n x : drop k (lcg_bytes (k + n) x) = lcg_bytes n (iter_seed k x).
Proof. revert x. induction k as [|k IH]; intros x; [done|]. cbn [Nat.add lcg_bytes drop iter_seed]. apply IH. Qed.

Lemma iter_seed_low n x y : x mod 256 = y mod 256 → iter_seed n x mod 256 = iter_seed n y mod 256.
Proof.
  revert x y. induction n as [|n IH]; intros x y Hxy; [done|]. apply IH.
  by rewrite !next_seed_mod, Hxy.
Qed.

Lemma iter_seed_cycle_small :
  forallb (λ k, iter_seed 256 (Z.of_nat k) mod 256 =? Z.of_nat k) (seq 0 256) = true.
Proof. vm_compute. reflexivity. Qed.

Lemma iter_seed_cycle x : iter_seed 256 x mod 256 = x mod 256.
Proof.
  assert (Hx := Z.mod_pos_bound x 256 ltac:(lia)).
  rewrite (iter_seed_low 256 x (x mod 256)) by (by rewrite Z.mod_mod by lia).
  assert (Hall := proj1 (forallb_forall _ _) iter_seed_cycle_small (Z.to_nat (x mod 256))).
  cbv beta in Hall. rewrite Z2Nat.id in Hall by lia. apply Z.eqb_eq, Hall, in_seq. lia.
Qed.

Lemma length_lcg n x : length (lcg_bytes n x) = n.
Proof. revert x. induction n as [|n IH]; intros x; [done|]. cbn [lcg_bytes length]. by rewrite IH. Qed.

(** the bytes of [random_get] are a fixed function of the low byte of the
    buffer's address: whatever the state and whenever it is called, two buffers
    of one length at addresses equal modulo 256 receive the same bytes, and the
    bytes repeat after 256. *)
Theorem random_is_fixed : ∀ s1 s2 m1 m2 buf1 buf2 len,
  s1.(exported) = Some m1 → s2.(exported) = Some m2 →
  0 ≤ buf1 < 2 ^ 31 → 0 ≤ buf2 < 2 ^ 31 → buf1 mod 256 = buf2 mod 256 → 0 ≤ len < 2 ^ 31 →
  buf1 + len ≤ zlen (data m1) → buf2 + len ≤ zlen (data m2) →
  ∃ d1 d2, random_get buf1 len s1 = (Ret (errno Errno.Success), with_data s1 m1 d1) ∧
    random_get buf2 len s2 = (Ret (errno Errno.Success), with_data s2 m2 d2) ∧
    sub d1 (Z.to_nat buf1) (Z.to_nat len) = sub d2 (Z.to_nat buf2) (Z.to_nat len) ∧
    ∀ k, Z.of_nat k + 256 < len →
      d1 !! (Z.to_nat buf1 + k)%nat = d1 !! (Z.to_nat buf1 + k + 256)%nat.
Proof.
  intros s1 s2 m1 m2 buf1 buf2 len Hm1 Hm2 Hb1 Hb2 Heq Hlen Hl1 Hl2.
  assert (Hrun : ∀ s m buf, s.(exported) = Some m → 0 ≤ buf < 2 ^ 31 → buf + len ≤ zlen (data m) →
    random_get buf len s = (Ret (errno Errno.Success), with_data s m
      (list_inserts (Z.to_nat buf) (lcg_bytes (Z.to_nat len) buf) (data m))) ∧
    sub (list_inserts (Z.to_nat buf) (lcg_bytes (Z.to_nat len) buf) (data m))
      (Z.to_nat buf) (Z.to_nat len) = lcg_bytes (Z.to_nat len) buf).
  { intros s m buf Hm Hb Hl. unfold random_get. rewrite (bind_Ret _ _ _ _ _ (get_memory_eq s m Hm)).
    rewrite !usize_of_nonneg by lia. unfold assert. rewrite (proj2 (Z.ltb_lt _ _)) by lia.
    rewrite (bind_Ret _ _ _ () s) by done. split.
    - erewrite bind_Ret; [done|]. apply (write_guest_ok s m); [done|lia|].
      unfold zlen at 1. rewrite length_lcg. lia.
    - rewrite <- (length_lcg (Z.to_nat len) buf) at 2. apply sub_inserts_same.
      rewrite length_lcg. unfold zlen in Hl. lia. }
  destruct (Hrun s1 m1 buf1 Hm1 Hb1 Hl1) as [Hr1 Hs1]. destruct (Hrun s2 m2 buf2 Hm2 Hb2 Hl2) as [Hr2 Hs2].
  eexists _, _. split; [exact Hr1|]. split; [exact Hr2|]. rewrite Hs1, Hs2.
  split; [by apply lcg_bytes_low|]. intros k Hk.
  rewrite !lookup_inserts by (rewrite length_lcg; unfold zlen in *; lia).
  rewrite !decide_True by (rewrite length_lcg; lia).
  replace (Z.to_nat buf1 + k + 256 - Z.to_nat buf1)%nat with (256 + k)%nat by lia.
  replace (Z.to_nat buf1 + k - Z.to_nat buf1)%nat with k by lia.
  replace (Z.to_nat len) with (256 + (Z.to_nat len - 256))%nat by lia.
  rewrite <- lookup_drop, drop_lcg, (lcg_bytes_low _ (iter_seed 256 buf1) buf1 (iter_seed_cycle buf1)).
  assert (Hpre : ∀ n j x, (j < n)%nat → lcg_bytes n x !! j = Some (iter_seed (S j) x mod 256)).
  { intros n. induction n as [|n IH]; intros j x Hj; [lia|]. destruct j as [|j]; [done|].
    cbn [lcg_bytes lookup list_lookup]. rewrite IH by lia. done. }
  by rewrite !Hpre by lia.
Qed.

(** ** Addresses in the upper half *)

Definition upper_half (x : Z) : Prop := - 2 ^ 31 ≤ x < 0.

(** The sign-extended address lies behind the end of any memory. *)
Lemma upper_half_usize x : upper_half x → 2 ^ 63 ≤ usize_of x < 2 ^ 64.
Proof. intros Hx. rewrite usize_of_neg by done. unfold upper_half in Hx. lia. Qed.

Lemma write_upper_half s x bs : upper_half x →
  (∀ m, s.(exported) = Some m → zlen (data m) ≤ 2 ^ 32) → s.(exported) ≠ None →
  write_guest (usize_of x) bs s = (Panic, s).
Proof.
  intros Hx Hz Hm. apply write_guest_panic. intros [_ Hle]. destruct (exported s) as [m|]; [|done].
  specialize (Hle m eq_refl). specialize (Hz m eq_refl). assert (Hb := zlen_nonneg bs).
  assert (Hu := upper_half_usize x Hx). lia.
Qed.

Lemma iovec_upper_half s m x : upper_half x → s.(exported) = Some m → zlen (data m) ≤ 2 ^ 32 →
  iovec_at x 0 s = (Panic, s).
Proof.
  intros Hx Hm Hz. assert (Hu := upper_half_usize x Hx). unfold iovec_at, iovec_size.
  rewrite (usize_of_nonneg 0) by lia.
  rewrite (bind_Ret _ _ _ _ _ (checked_fits 64 (0 * 8) s ltac:(unfold fits; lia))).
  rewrite (bind_Ret _ _ _ _ _ (checked_fits 64 (usize_of x + 0 * 8) s ltac:(unfold fits; lia))).
  rewrite (bind_Ret _ _ _ _ _ (get_memory_eq s m Hm)).
  destruct (slice (data m) (usize_of x + 0 * 8) 8) eqn:Hs; [|done].
  apply slice_Some in Hs as (_ & _ & Hle & _). lia.
Qed.

Lemma iov_loop_upper_half s m x n (one : Z → Z → prog (WasiState W Mem) Z) size :
  upper_half x → s.(exported) = Some m → zlen (data m) ≤ 2 ^ 32 → 0 < n →
  (∀ size, one 0 size s = (Panic, s)) → iov_loop one (seqZ 0 n) size s = (Panic, s).
Proof.
  intros Hx Hm Hz Hn Hone. rewrite seqZ_cons by lia. cbn [iov_loop].
  by rewrite (bind_Panic _ _ _ _ (Hone size)).
Qed.

(** C37: in six calls a guest address with the top bit set brings the function down.
    Their code widens the address as a signed number, so one at or above 2 GiB,
    which a memory of up to 4 GiB may well have, panics whatever the memory: the
    address of the vector of buffers in [fd_write] and [fd_read] (with at least one
    buffer), the buffer of [random_get], the result of [fd_fdstat_get], the count
    of [environ_sizes_get] and the path of [path_open].  Nothing is said of the
    other calls: [fd_readdir] converts its buffer's address to [u32] first, and the
    addresses inside a vector are [u32] already, so those work above 2 GiB. *)
Theorem high_addresses_panic : ∀ s m x,
  s.(exported) = Some m → zlen (data m) ≤ 2 ^ 32 → upper_half x →
  (∀ fd n r, 0 < n → (fd_write fd x n r s).1 = Panic ∧ (fd_read fd x n r s).1 = Panic) ∧
  (∀ len, (random_get x len s).1 = Panic) ∧
  (∀ fd, (fd_fdstat_get fd x s).1 = Panic) ∧
  (∀ size, (environ_sizes_get x size s).1 = Panic) ∧
  (∀ dir dirflags len oflags rights inh fdflags r, 
     (path_open dir dirflags x len oflags rights inh fdflags r s).1 = Panic).
Proof.
  intros s m x Hm Hz Hx. assert (Hg := get_memory_eq s m Hm). assert (Hu := upper_half_usize x Hx).
  assert (Hw : ∀ bs, write_guest (usize_of x) bs s = (Panic, s)).
  { intros bs. apply write_upper_half; [done|intros m' Hm'; congruence|congruence]. }
  split_and!.
  - intros fd n r Hn.
    split; unfold fd_write, fd_read; rewrite (bind_Ret _ _ _ _ _ Hg);
      erewrite bind_Panic; try done; apply (iov_loop_upper_half s m x); try done;
      intros size; unfold write_iovec, read_iovec;
      by rewrite (bind_Panic _ _ _ _ (iovec_upper_half s m x Hx Hm Hz)).
  - intros len. unfold random_get. rewrite (bind_Ret _ _ _ _ _ Hg). unfold assert.
    destruct (_ <? _); [|done]. rewrite (bind_Ret _ _ _ () s) by done.
    by rewrite (bind_Panic _ _ _ _ (Hw _)).
  - intros fd. unfold fd_fdstat_get. rewrite (bind_Ret _ _ _ _ _ Hg).
    by rewrite (bind_Panic _ _ _ _ (Hw _)).
  - intros size. unfold environ_sizes_get. rewrite (bind_Ret _ _ _ _ _ Hg).
    by rewrite (bind_Panic _ _ _ _ (Hw _)).
  - intros *. unfold path_open. rewrite (bind_Ret _ _ _ _ _ Hg).
    rewrite (bind_Panic _ _ _ s); [done|]. unfold read_guest, assert.
    destruct (_ <? _) eqn:Hl; [|done]. rewrite (bind_Ret _ _ _ () s), (bind_Ret _ _ _ _ _ Hg) by done.
    rewrite mem_read_eq. destruct (slice _ _ _) eqn:Hs; [|done].
    apply slice_Some in Hs as (_ & H0 & Hle & _). lia.
Qed.

(** ** File status *)

Lemma filestat_fields f :
  length (filestat_bytes f) = 64%nat ∧
  sub (filestat_bytes f) 8 8 = le_encode 8 f.(fst_ino) ∧
  sub (filestat_bytes f) 16 1 = le_encode 1 f.(fst_filetype) ∧
  sub (filestat_bytes f) 32 8 = le_encode 8 f.(fst_size) ∧
  sub (filestat_bytes f) 48 8 = le_encode 8 f.(fst_mtim).
Proof.
  unfold filestat_bytes.
  set (a := le_encode 8 (fst_dev f)). set (b := le_encode 8 (fst_ino f)).
  set (c := le_encode 1 (fst_filetype f)). set (e := le_encode 8 (fst_nlink f)).
  set (g := le_encode 8 (fst_size f)). set (h := le_encode 8 (fst_atim f)).
  set (k := le_encode 8 (fst_mtim f)).
  split; [by rewrite !length_app, !length_le_encode, length_padding|]. split_and!.
  - by apply sub_field.
  - rewrite (app_assoc a b). by apply sub_field.
  - rewrite (app_assoc a b), (app_assoc _ c), (app_assoc _ (padding 7)), (app_assoc _ e).
    apply sub_field; [by rewrite !length_app, length_padding|done].
  - rewrite (app_assoc a b), (app_assoc _ c), (app_assoc _ (padding 7)), (app_assoc _ e),
      (app_assoc _ g), (app_assoc _ h).
    apply sub_field; [by rewrite !length_app, length_padding|done].
Qed.

Lemma filetype_small mode : fits 8 (filetype_of_mode mode).
Proof. unfold filetype_of_mode, fits. repeat case_match; lia. Qed.

(** [path_filestat_get] opens the file, asks for its status, closes it again and
    reports size, type and inode where the interface has them; a path that does
    not open is reported as absent; of the times it reports only the fraction of
    the second. *)
Theorem filestat_reported : ∀ s m dir flags addr len buf path p,
  s.(exported) = Some m → slice (data m) addr len = Some path → from_utf8 path = Some p →
  0 ≤ addr < 2 ^ 31 → 0 ≤ len < 2 ^ 31 → 0 ≤ buf < 2 ^ 31 → buf + 64 ≤ zlen (data m) →
  (∀ e w1, h_open p 0 OpenMode_RD s.(host) = (Ret (Err e), w1) →
     path_filestat_get dir flags addr len buf s = (Ret (errno Errno.Noent), set_host w1 s)) ∧
  (∀ fd st w1 w2 w3, h_open p 0 OpenMode_RD s.(host) = (Ret (Ok fd), w1) →
     h_stat fd w1 = (Ret (Ok st), w2) → h_close fd w2 = (Ret (Ok ()), w3) →
     fits 64 st.(st_ino) → fits 64 st.(st_size) → fits 63 st.(st_mtime).(tv_nsec) →
     ∃ d, path_filestat_get dir flags addr len buf s =
         (Ret (errno Errno.Success), with_data (set_host w3 s) m d) ∧
       le_decode (sub d (Z.to_nat (buf + 8)) 8) = st.(st_ino) ∧
       le_decode (sub d (Z.to_nat (buf + 16)) 1) = filetype_of_mode st.(st_mode) ∧
       le_decode (sub d (Z.to_nat (buf + 32)) 8) = st.(st_size) ∧
       le_decode (sub d (Z.to_nat (buf + 48)) 8) = st.(st_mtime).(tv_nsec)).
Proof.
  intros s m dir flags addr len buf path p Hm Hp Hu Ha Hl Hb Hbl.
  assert (Hstart : path_filestat_get dir flags addr len buf s =
    (r ← libos (h_open p 0 OpenMode_RD);
     match r with
     | Err _ => mret (errno Errno.Noent)
     | Ok path_fd =>
         r ← libos (h_stat path_fd); ruxstat ← unwrap_ok r;
         r ← libos (h_close path_fd); _ ← unwrap_ok r;
         write_guest (usize_of buf) (filestat_bytes (filestat_of ruxstat));;
         mret (errno Errno.Success)
     end) s).
  { unfold path_filestat_get. rewrite (bind_Ret _ _ _ _ _ (get_memory_eq s m Hm)).
    rewrite (bind_Ret _ _ _ path s); last first.
    { unfold read_guest, assert. rewrite !usize_of_nonneg, (proj2 (Z.ltb_lt _ _)) by lia.
      rewrite (bind_Ret _ _ _ () s), (bind_Ret _ _ _ _ _ (get_memory_eq s m Hm)) by done.
      by rewrite mem_read_eq, Hp. }
    rewrite Hu. cbn [unwrap]. by rewrite (bind_Ret _ _ _ p s) by done. }
  rewrite Hstart. split.
  - intros e w1 Ho. rewrite (bind_Ret _ _ _ (Err e) (set_host w1 s)); [done|].
    unfold libos, on. by rewrite Ho.
  - intros fd st w1 w2 w3 Ho Hs Hc Hi Hsz Ht.
    rewrite (bind_Ret _ _ _ (Ok fd) (set_host w1 s)) by (unfold libos, on; by rewrite Ho).
    rewrite (bind_Ret _ _ _ (Ok st) (set_host w2 s)) by (unfold libos, on; cbn; by rewrite Hs).
    cbn [unwrap_ok]. rewrite (bind_Ret _ _ _ st (set_host w2 s)) by done.
    rewrite (bind_Ret _ _ _ (Ok ()) (set_host w3 s)) by (unfold libos, on; cbn; by rewrite Hc).
    cbn [unwrap_ok]. rewrite (bind_Ret _ _ _ () (set_host w3 s)) by done.
    rewrite usize_of_nonneg by lia.
    destruct (filestat_fields (filestat_of st)) as (Hlen & Hino & Hty & Hsize & Hmt).
    set (bs := filestat_bytes (filestat_of st)) in *.
    erewrite bind_Ret by (apply (write_guest_ok (set_host w3 s) m);
      [done|lia|unfold zlen at 1; rewrite Hlen; lia]).
    assert (Hpart : ∀ (j : nat) n, (j + n ≤ 64)%nat →
      sub (list_inserts (Z.to_nat buf) bs (data m)) (Z.to_nat (buf + Z.of_nat j)) n = sub bs j n).
    { intros j n Hj. rewrite Z2Nat.inj_add, Nat2Z.id by lia.
      apply sub_inserts_part; [rewrite Hlen; unfold zlen in Hbl; lia|by rewrite Hlen]. }
    eexists. split; [done|]. cbn [fst_ino fst_filetype fst_size fst_mtim filestat_of] in *.
    rewrite (Hpart 8%nat), (Hpart 16%nat), (Hpart 32%nat), (Hpart 48%nat), Hino, Hty, Hsize, Hmt by lia.
    unfold wrap, fits in *. rewrite !(Z.mod_small _ (2 ^ 64)) by lia.
    rewrite !le_decode_encode_fits by (try apply filetype_small; unfold fits; cbn; lia). done.
Qed.
End limits.

(** ** At the demo guest *)

Lemma clock_time_overruns_witness : ∃ (d : list byte),
  let s := WasiDemo.guest (WasiDemo.opened [] 0) in
  clock_time_get 0 0 16 s = (Ret 0, with_data s WasiDemo.guest_memory d) ∧
  sub WasiDemo.guest_memory 24 1 = [0] ∧ sub d 16 8 = [5; 0; 0; 0; 0; 0; 0; 0].
Proof.
  pose proof (clock_time_overruns (WMS := WasiDemo.list_memory_spec) (WasiDemo.guest (WasiDemo.opened [] 0))
    WasiDemo.guest_memory 0 0 16 5 (WasiDemo.opened [] 0) eq_refl eq_refl ltac:(lia) ltac:(lia)) as H.
  rewrite decide_True in H by (by vm_compute). destruct H as (d & H1 & _).
  assert (Hd : sub d 16 8 = [5; 0; 0; 0; 0; 0; 0; 0]).
  { assert (Hr : clock_time_get 0 0 16 (WasiDemo.guest (WasiDemo.opened [] 0)) = (Ret 0,
      with_data (WasiDemo.guest (WasiDemo.opened [] 0)) WasiDemo.guest_memory
        (list_inserts 16 (le_encode 16 5) WasiDemo.guest_memory))) by (vm_compute; reflexivity).
    rewrite Hr in H1. injection H1 as <-. vm_compute. reflexivity. }
  exact (ex_intro _ d (conj H1 (conj eq_refl Hd))).
Defined.

Lemma random_is_fixed_witness : ∃ d1 d2 : list byte,
  let s1 := WasiDemo.guest (WasiDemo.opened [] 0) in
  let s2 := WasiDemo.guest (WasiDemo.opened [9] 0) in
  random_get 16 8 s1 = (Ret 0, with_data s1 WasiDemo.guest_memory d1) ∧
  random_get 16 8 s2 = (Ret 0, with_data s2 WasiDemo.guest_memory d2) ∧ sub d1 16 8 = sub d2 16 8.
Proof.
  destruct (random_is_fixed (WMS := WasiDemo.list_memory_spec) (WasiDemo.guest (WasiDemo.opened [] 0))
    (WasiDemo.guest (WasiDemo.opened [9] 0)) WasiDemo.guest_memory WasiDemo.guest_memory 16 16 8
    eq_refl eq_refl ltac:(lia) ltac:(lia) eq_refl ltac:(lia) ltac:(by vm_compute) ltac:(by vm_compute))
    as (d1 & d2 & H1 & H2 & H3 & _).
  exact (ex_intro _ d1 (ex_intro _ d2 (conj H1 (conj H2 H3)))).
Defined.

Lemma high_addresses_panic_witness :
  (fd_write 3 (-16) 2 32 (WasiDemo.guest (WasiDemo.opened [] 0))).1 = Panic.
Proof.
  destruct (high_addresses_panic (WMS := WasiDemo.list_memory_spec) (WasiDemo.guest (WasiDemo.opened [] 0))
    WasiDemo.guest_memory (-16) eq_refl ltac:(by vm_compute) ltac:(by vm_compute)) as [H _].
  exact (proj1 (H 3 2 32 ltac:(lia))).
Defined.

(** The file of one byte whose path stands at 20. *)
Lemma filestat_reported_witness : ∃ (d : list byte) (w : WasiDemo.Host),
  let s := WasiDemo.guest (WasiDemo.opened [9] 0) in
  path_filestat_get 3 0 20 1 0 s = (Ret 0, with_data (set_host w s) WasiDemo.guest_memory d) ∧
  le_decode (sub d 32 8) = 1.
Proof.
  set (s := WasiDemo.guest (WasiDemo.opened [9] 0)).
  set (w1 := (h_open (string_of [3]) 0 OpenMode_RD s.(host)).2).
  set (w2 := (h_stat 4 w1).2). set (w3 := (h_close 4 w2).2).
  set (st := match (h_stat 4 w1).1 with Ret (Ok st) => st | _ => mk_stat 0 0 0 0 0 0 0 0 0 0 0
    (mk_timespec 0 0) (mk_timespec 0 0) (mk_timespec 0 0) [] end).
  destruct (filestat_reported (WMS := WasiDemo.list_memory_spec) s WasiDemo.guest_memory 3 0 20 1 0 [3]
    (string_of [3]) eq_refl eq_refl eq_refl ltac:(lia) ltac:(lia) ltac:(lia) ltac:(by vm_compute)) as [_ H].
  destruct (H 4 st w1 w2 w3 ltac:(by vm_compute) ltac:(by vm_compute) ltac:(by vm_compute)
    ltac:(by vm_compute) ltac:(by vm_compute) ltac:(by vm_compute)) as (d & H1 & _ & _ & H2 & _).
  exact (ex_intro _ d (ex_intro _ w3 (conj H1 H2))).
Defined.
