(* ===== verification/WasmBuffer.v ===== *)
(** * Buffers between WebAssembly functions (wasmtime_wasi_api/src/data_buffer.rs)

    A guest does not put its bytes in the buffer but the address they have in its
    own linear memory, so the receiver copies whatever stands there when it asks.
    A guest's memory is the range [g_base, g_base + g_size) of the isolation's
    address space; reading and writing it checks that range.  [reclaim] is what
    the allocator does to the bytes of a block it takes back. *)
From S2P Require Import Prelude Bytes Hostcall Buffers BuffersSpec Wasi WasiSpec.
Local Open Scope Z_scope.

Record Guest : Type := mk_guest { g_base : Z; g_size : Z }.

(** [WasmDataBuffer]: a pointer and a length. *)
Section definitions.
Context {A : Type} `{HC : !HeapCrate A} (hasher : string → Z)
  (reclaim : Z → Z → Memory → Memory).
Local Abbreviation M := (prog (MmState A)).

Definition WasmDataBuffer : FaasData (Z * Z) := {|
  layout := mk_layout 16 8;
  __fingerprint := derive_fingerprint hasher (Unnamed ["* mut u8"; "usize"]);
  repr v := le_encode 8 v.1 ++ le_encode 8 v.2;
  unrepr l := (le_decode (take 8 l), le_decode (drop 8 l))
|}.

#[local] Existing Instance WasmDataBuffer.

(** The address of a range of the guest's memory, if it lies inside. *)
Definition guest_range (g : Guest) (off len : Z) : M Z :=
  assert ((0 <=? off) && (0 <=? len) && (off + len <=? g.(g_size)));;
  mret (g.(g_base) + off).

Definition slot_name (g : Guest) (base size : Z) : M string :=
  assert (usize_of size <? 2 ^ 63);;
  p ← guest_range g (usize_of base) (usize_of size);
  l ← gets (λ s, read_mem s.(memory) p (usize_of size));
  unwrap (from_utf8 l).

Definition wasm_buffer_register (g : Guest) (slot_name_base slot_name_size buffer_offset buffer_size : Z) :
    M () :=
  slot ← slot_name g slot_name_base slot_name_size;
  buffer_base ← guest_range g (usize_of buffer_offset) (usize_of buffer_size);
  wasm_buffer ← with_slot slot;
  assign wasm_buffer (buffer_base, usize_of buffer_size).

(** The empty buffer made when the slot has none: its bytes are freed before they
    are read. *)
Definition missing_buffer (buffer_size : Z) : M (Z * Z) :=
  let l := mk_layout (usize_of buffer_size) 1 in
  content ← on own_heap set_own_heap (allocate_first_fit l);
  content ← unwrap content;
  modify (λ s, set_memory (write_mem s.(memory) content
                             (replicate (Z.to_nat (usize_of buffer_size)) 0)) s);;
  buffer ← Buffers.new;
  assign buffer (content, usize_of buffer_size);;
  on own_heap set_own_heap (deallocate content l);;
  modify (λ s, set_memory (reclaim content (usize_of buffer_size) s.(memory)) s);;
  deref buffer.

Definition wasm_access_buffer (g : Guest) (slot_name_base slot_name_size buffer_offset buffer_size : Z) :
    M () :=
  slot ← slot_name g slot_name_base slot_name_size;
  r ← from_buffer_slot (T := Z * Z) slot;
  wasm_buffer ← match r with Some b => deref b | None => missing_buffer buffer_size end;
  assert (usize_of buffer_size =? wasm_buffer.2);;
  buffer ← gets (λ s, read_mem s.(memory) wasm_buffer.1 wasm_buffer.2);
  p ← guest_range g (usize_of buffer_offset) (zlen buffer);
  modify (λ s, set_memory (write_mem s.(memory) p buffer) s).
End definitions.

(** ** What arrives *)
Section handover.
Context {A : Type} {HC : HeapCrate A} {HCS : HeapCrateSpec A} (hasher : string → Z)
  (reclaim : Z → Z → Memory → Memory).
#[local] Instance wasm_data : FaasData (Z * Z) := WasmDataBuffer hasher.

(** Between the two calls: other slots and buffers, and writes of guests to their
    own memories, which are not where the buffer is. *)
Inductive guest_step (slot : string) (p : Z) : relation (MmState A) :=
  | guest_other s s' : other_step slot p s s' → guest_step slot p s s'
  | guest_write s a bs : apart a (zlen bs) p 16 →
      guest_step slot p s (set_memory (write_mem s.(memory) a bs) s).

Lemma guest_steps_hold slot p fp bs s s' :
  holds_buffer slot p 16 fp bs s → rtc (guest_step slot p) s s' → holds_buffer slot p 16 fp bs s'.
Proof.
  intros Hh. induction 1 as [|s s1 s' Hst _ IH]; [done|]. apply IH. clear IH.
  destruct Hst as [s s1 Ho|s a ws Hap]; [by eapply other_step_holds|].
  destruct Hh as [He Hb Hm Hd]. split; [done|done| |done]. cbn. rewrite <- Hm.
  apply read_mem_ext. intros x Hx. apply write_mem_outside. destruct Hap; lia.
Qed.

Lemma guest_range_eq g off len (s : MmState A) : 0 ≤ off → 0 ≤ len → off + len ≤ g.(g_size) →
  guest_range g off len s = (Ret (g.(g_base) + off), s).
Proof.
  intros H0 H1 H2. unfold guest_range, assert.
  by replace ((0 <=? off) && (0 <=? len) && (off + len <=? g_size g)) with true by lia.
Qed.

(** The slot's name as the guest wrote it. *)
Definition names (g : Guest) (base size : Z) (slot : string) (s : MmState A) : Prop :=
  0 ≤ base < 2 ^ 31 ∧ 0 ≤ size < 2 ^ 31 ∧ base + size ≤ g.(g_size) ∧
  from_utf8 (read_mem s.(memory) (g.(g_base) + base) size) = Some slot.

Lemma slot_name_eq g base size slot (s : MmState A) : names g base size slot s →
  slot_name g base size s = (Ret slot, s).
Proof.
  intros (Hb & Hs & Hle & Hu). unfold slot_name, assert.
  rewrite !usize_of_nonneg, (proj2 (Z.ltb_lt _ _)) by lia.
  rewrite (bind_Ret _ _ _ () s) by done.
  rewrite (bind_Ret _ _ _ _ _ (guest_range_eq g base size s ltac:(lia) ltac:(lia) Hle)).
  rewrite (bind_Ret _ _ _ (read_mem (memory s) (g_base g + base) size) s) by done. by rewrite Hu.
Qed.

(** C33: a guest that asks for a registered buffer receives the bytes the other
    guest's memory holds at that moment: after one guest registered a range of its
    memory under a slot, and any guests wrote to their memories and used other
    slots, a guest asking for the slot with the range's length gets the present
    bytes of that range at the place it names, whether they were changed since or
    not; with another length it panics; and the slot is empty afterwards. *)
Theorem guests_share_memory : ∀ g1 g2 slot (s s1 s2 : MmState A) sb sn off n sb' sn' off' n',
  blocks_disjoint s → names g1 sb sn slot s →
  0 ≤ off < 2 ^ 31 → 0 ≤ n < 2 ^ 31 → off + n ≤ g1.(g_size) → fits 63 g1.(g_base) →
  wasm_buffer_register hasher g1 sb sn off n s = (Ret (), s1) →
  ∃ p, s1.(buffer_register) !! slot = Some (p, __fingerprint (T := Z * Z)) ∧
  (rtc (guest_step slot p) s1 s2 → names g2 sb' sn' slot s2 →
   0 ≤ off' < 2 ^ 31 → 0 ≤ n' < 2 ^ 31 → off' + n' ≤ g2.(g_size) →
   ∃ s3, s3.(buffer_register) = delete slot s2.(buffer_register) ∧
     if decide (n' = n) then
       wasm_access_buffer hasher reclaim g2 sb' sn' off' n' s2 = (Ret (), s3) ∧
       read_mem s3.(memory) (g2.(g_base) + off') n =
         read_mem s2.(memory) (g1.(g_base) + off) n
     else wasm_access_buffer hasher reclaim g2 sb' sn' off' n' s2 = (Panic, s3)).
Proof.
  intros g1 g2 slot s s1 s2 sb sn off n sb' sn' off' n' Hd Hn1 Ho Hn Hle Hb Hreg.
  unfold fits in Hb. unfold wasm_buffer_register in Hreg.
  change (WasmDataBuffer hasher) with wasm_data in Hreg.
  rewrite (bind_Ret _ _ _ _ _ (slot_name_eq g1 sb sn slot s Hn1)) in Hreg.
  rewrite !usize_of_nonneg in Hreg by lia.
  rewrite (bind_Ret _ _ _ _ _ (guest_range_eq g1 off n s ltac:(lia) ltac:(lia) Hle)) in Hreg.
  apply bind_Ret_inv in Hreg as (b & s0 & Hws & Has).
  assert (Hhold : (b ← with_slot (T := Z * Z) slot; assign b (g_base g1 + off, n);; mret b) s = (Ret b, s1)).
  { rewrite (bind_Ret _ _ _ _ _ Hws). unfold mbind, prog_mbind. by rewrite Has. }
  apply with_slot_holds in Hhold as [_ Hh]; [|done|done|done].
  exists (inner b). split; [apply Hh|]. intros Hsteps Hn2 Ho' Hn' Hle'.
  assert (Hh2 := guest_steps_hold _ _ _ _ _ _ Hh Hsteps).
  set (s2' := set_register (delete slot s2.(buffer_register)) s2).
  assert (Hacc : from_buffer_slot (T := Z * Z) slot s2 = (Ret (Some (mk_buffer (inner b) false)), s2')).
  { rewrite (from_buffer_slot_eq _ _ _ _ _ _ Hh2). by rewrite Z.eqb_refl. }
  assert (Hder : deref (T := Z * Z) (mk_buffer (inner b) false) s2' = (Ret (g_base g1 + off, n), s2')).
  { unfold deref, gets. cbn [layout l_size wasm_data WasmDataBuffer inner].
    change (memory s2') with (memory s2). rewrite (hb_bytes _ _ _ _ _ _ Hh2).
    cbn [unrepr repr wasm_data WasmDataBuffer fst snd].
    rewrite take_app_length', drop_app_length' by (by rewrite length_le_encode).
    rewrite !le_decode_encode_fits by (unfold fits; cbn; lia). done. }
  assert (Hstart : wasm_access_buffer hasher reclaim g2 sb' sn' off' n' s2 =
    (assert (n' =? n);;
     buffer ← gets (λ s, read_mem s.(memory) (g_base g1 + off) n);
     p ← guest_range g2 off' (zlen buffer);
     modify (λ s, set_memory (write_mem s.(memory) p buffer) s)) s2').
  { unfold wasm_access_buffer. rewrite (bind_Ret _ _ _ _ _ (slot_name_eq g2 sb' sn' slot s2 Hn2)).
    change (WasmDataBuffer hasher) with wasm_data. rewrite (bind_Ret _ _ _ _ _ Hacc).
    rewrite (bind_Ret _ _ _ _ _ Hder). cbn [fst snd]. by rewrite !usize_of_nonneg by lia. }
  rewrite Hstart. case_decide as Heq.
  - subst n'. set (bytes := read_mem s2.(memory) (g_base g1 + off) n).
    assert (Hlb : zlen bytes = n) by (unfold bytes, zlen; rewrite length_read_mem; lia).
    exists (set_memory (write_mem s2.(memory) (g_base g2 + off') bytes) s2'). split; [done|].
    unfold assert. rewrite Z.eqb_refl. rewrite (bind_Ret _ _ _ () s2') by done.
    rewrite (bind_Ret _ _ _ bytes s2') by done.
    rewrite (bind_Ret _ _ _ _ _ (guest_range_eq g2 off' (zlen bytes) s2' ltac:(lia) ltac:(lia) ltac:(lia))).
    split; [done|]. cbn [memory set_memory]. rewrite <- Hlb at 1. apply read_write_same.
  - exists s2'. split; [done|]. unfold assert. by rewrite (proj2 (Z.eqb_neq _ _)).
Qed.
End handover.

(** ** Two guests *)
Module GuestDemo.
(** The slot's name "a" stands at 0 of both memories; the first guest's bytes at
    8 are changed between the two calls. *)
Definition first : Guest := mk_guest 1000 64.
Definition second : Guest := mk_guest 2000 64.
Definition start : MmState (gmap Z Z) :=
  mk_mm ∅ ∅ ∅ (write_mem (write_mem (λ _, 0) 1000 [97; 0; 0; 0; 0; 0; 0; 0; 1; 2]) 2000 [97]).
Definition registered : MmState (gmap Z Z) := (wasm_buffer_register (λ _, 7) first 0 1 8 2 start).2.
Definition changed : MmState (gmap Z Z) :=
  set_memory (write_mem registered.(memory) 1008 [5]) registered.

Lemma guests_disjoint : blocks_disjoint start.
Proof. intros p n q k Hp. change ((∅ : gmap Z Z) !! p = Some n) in Hp. by rewrite lookup_empty in Hp. Qed.
End GuestDemo.

Lemma guests_share_memory_witness : ∃ s3,
  wasm_access_buffer (λ _, 7) (λ _ _ m, m) GuestDemo.second 0 1 16 2 GuestDemo.changed = (Ret (), s3) ∧
  read_mem s3.(memory) 2016 2 = [5; 2].
Proof.
  destruct (guests_share_memory (λ _, 7) (λ _ _ m, m) GuestDemo.first GuestDemo.second "a"
    GuestDemo.start GuestDemo.registered GuestDemo.changed 0 1 8 2 0 1 16 2 GuestDemo.guests_disjoint
    ltac:(by vm_compute) ltac:(lia) ltac:(lia) ltac:(by vm_compute) ltac:(by vm_compute)
    ltac:(vm_compute; reflexivity)) as (p & Hp & H).
  assert (p = 1) as -> by (vm_compute in Hp; by injection Hp).
  destruct H as (s3 & _ & H); [|by vm_compute|lia|lia|by vm_compute|].
  - eapply rtc_once. apply guest_write. right. by vm_compute.
  - rewrite decide_True in H by done. destruct H as [H1 H2].
    assert (Hr : read_mem (memory GuestDemo.changed) 1008 2 = [5; 2]) by (vm_compute; reflexivity).
    exact (ex_intro _ s3 (conj H1 (eq_trans H2 Hr))).
Defined.
