(* ===== verification/WasiCuts.v ===== *)
(** * How guests cut their data into buffers

    [fd_write] takes a vector of buffers; what it leaves in the file does not
    depend on where the guest cut its data. *)
From S2P Require Import Prelude Bytes Hostcall Fdtab Fatfs FileStack AsStd AsStdSpec Wasi WasiSpec.
Local Open Scope Z_scope.

Section cuts.
Context {W Mem : Type} {WM : WasmMemory Mem} {WMS : WasmMemorySpec Mem} {WH : WasiHost W}
  {HF : HostFiles W}.
Implicit Types s : WasiState W Mem.

(** cutting does not matter: two guests that write the same bytes to a file,
    one from any vector of buffers and the other from any other vector, for
    instance a single buffer, are told the same number of bytes and leave the file
    with the same contents and the position at the same place. *)
Theorem writes_equivalent s1 s2 m1 m2 fd p1 p2 bufs1 bufs2 ret1 ret2 c pos :
  s1.(exported) = Some m1 → iovecs_at (data m1) p1 bufs1 →
  s2.(exported) = Some m2 → iovecs_at (data m2) p2 bufs2 →
  gather bufs1 (data m1) = gather bufs2 (data m2) → total bufs1 < 2 ^ 32 → total bufs2 < 2 ^ 32 →
  at_file s1.(host) (u32_of fd) c pos → accepts_all s1.(host) (u32_of fd) (pieces bufs1 (data m1)) →
  at_file s2.(host) (u32_of fd) c pos → accepts_all s2.(host) (u32_of fd) (pieces bufs2 (data m2)) →
  0 ≤ ret1 < 2 ^ 31 → ret1 + 4 ≤ zlen (data m1) → 0 ≤ ret2 < 2 ^ 31 → ret2 + 4 ≤ zlen (data m2) →
  ∃ s1' s2' m1' m2' c' pos',
    fd_write fd p1 (zlen bufs1) ret1 s1 = (Ret (errno Errno.Success), s1') ∧
    fd_write fd p2 (zlen bufs2) ret2 s2 = (Ret (errno Errno.Success), s2') ∧
    s1'.(exported) = Some m1' ∧ s2'.(exported) = Some m2' ∧
    sub (data m1') (Z.to_nat ret1) 4 = sub (data m2') (Z.to_nat ret2) 4 ∧
    at_file s1'.(host) (u32_of fd) c' pos' ∧ at_file s2'.(host) (u32_of fd) c' pos'.
Proof.
  intros Hm1 Hv1 Hm2 Hv2 Hg Ht1 Ht2 Hat1 Hacc1 Hat2 Hacc2 H1 Hr1 H2 Hr2.
  destruct (fd_write_spec s1 m1 fd p1 bufs1 ret1 c pos Hm1 Hv1 Hat1 Hacc1 H1 Hr1 Ht1) as (w1 & E1 & A1).
  destruct (fd_write_spec s2 m2 fd p2 bufs2 ret2 c pos Hm2 Hv2 Hat2 Hacc2 H2 Hr2 Ht2) as (w2 & E2 & A2).
  rewrite <- Hg in E2, A2.
  do 6 eexists. split; [exact E1|]. split; [exact E2|]. split; [done|]. split; [done|].
  split; [|split; [exact A1|exact A2]].
  rewrite !data_set by apply length_inserts.
  assert (∀ (l : list byte) r, 0 ≤ r → r + 4 ≤ zlen l → ∀ k : list byte, length k = 4%nat →
    sub (list_inserts (Z.to_nat r) k l) (Z.to_nat r) 4 = k) as Hsub.
  { intros l r Hr Hle k Hk. rewrite <- Hk. apply sub_inserts_same. unfold zlen in Hle. lia. }
  rewrite !Hsub; [done|lia|done|by rewrite length_le_encode|lia|done|by rewrite length_le_encode].
Qed.
End cuts.

(** ** Two guests with the same bytes *)
Module CutsDemo.
(** The bytes of [WasiDemo.vector] in one buffer. *)
Definition one_vector : list (Z * Z) := [(16, 5)].
Definition one_memory : list byte :=
  le_encode 4 16 ++ le_encode 4 5 ++ replicate 8 0 ++ [1; 2; 3; 4; 5; 0] ++ replicate 40 0.
Definition one_guest (h : WasiDemo.Host) : WasiDemo.Guest :=
  mk_wasi {["sort" := ["sort"; "7"]]} ∅ ∅ "sort" (Some one_memory) h.

Lemma one_vector_at : iovecs_at one_memory 0 one_vector.
Proof.
  split; [lia|]. split; [done|]. split; [vm_compute; done|].
  intros [|k] b n Hk; [injection Hk as <- <-; vm_compute; done|by destruct k].
Qed.

Lemma one_accepts : accepts_all (WasiDemo.opened [9] 1) 3 (pieces one_vector one_memory).
Proof.
  change (pieces one_vector one_memory) with [[1; 2; 3; 4; 5]]. split; [|done].
  apply WasiDemo.opened_accepts. vm_compute. lia.
Qed.

Lemma same_gather : gather WasiDemo.vector WasiDemo.guest_memory = gather one_vector one_memory.
Proof. reflexivity. Qed.

Lemma writes_equivalent_witness : ∃ (s1' s2' : WasiDemo.Guest) c' pos',
  fd_write 3 0 2 32 (WasiDemo.guest (WasiDemo.opened [9] 1)) = (Ret 0, s1') ∧
  fd_write 3 0 1 32 (one_guest (WasiDemo.opened [9] 1)) = (Ret 0, s2') ∧
  at_file s1'.(host) 3 c' pos' ∧ at_file s2'.(host) 3 c' pos'.
Proof.
  destruct (writes_equivalent (WMS := WasiDemo.list_memory_spec)
    (WasiDemo.guest (WasiDemo.opened [9] 1)) (one_guest (WasiDemo.opened [9] 1))
    WasiDemo.guest_memory one_memory 3 0 0 WasiDemo.vector one_vector 32 32 [9] 1
    eq_refl WasiDemo.vector_at eq_refl one_vector_at same_gather ltac:(by vm_compute) ltac:(by vm_compute)
    (WasiDemo.opened_at [9] 1 (le_n 1)) WasiDemo.opened_accepts_vector
    (WasiDemo.opened_at [9] 1 (le_n 1)) one_accepts
    ltac:(lia) ltac:(by vm_compute) ltac:(lia) ltac:(by vm_compute))
    as (s1' & s2' & _ & _ & c' & pos' & H1 & H2 & _ & _ & _ & H3 & H4).
  exact (ex_intro _ s1' (ex_intro _ s2' (ex_intro _ c' (ex_intro _ pos' (conj H1 (conj H2 (conj H3 H4))))))).
Defined.
End CutsDemo.
