(* ===== verification/WasmFuncs.v ===== *)
(** * Functions that run a WebAssembly module (the wasmtime functions of user)

    Each of these functions is a dynamic library with a compiled module in it:
    [main] reads its arguments, and [func_body] prepares a guest and calls its
    [_start].  A body is the list of its statements, run one at a time, since the
    instances of a function in a group share the library's statics: the arguments
    and jump buffers of wasmtime_wasi_api, and whether the root was opened.  The
    module is what wasmtime makes of its bytes, a parameter; [Guest] is the code of
    a guest between its calls of imported functions.  Printing is left out, reading
    the clock for it is not. *)
From Stdlib Require Import Ascii String.
From S2P Require Import Prelude Bytes Hostcall Ipv4 Text AsStd Wasi WasiLink Visor Contracts.
Local Open Scope Z_scope.

(** ** Modules *)

Inductive Guest (Mem : Type) : Type :=
  | Return
  | Trap (e : string)
  | Local (f : option Mem → option Mem) (k : option Mem → Guest Mem)
  | Import (name : string) (args : list Z) (k : Z → Guest Mem).
Arguments Return {Mem}.
Arguments Trap {Mem} e.
Arguments Local {Mem} f k.
Arguments Import {Mem} name args k.

(** What wasmtime does with the bytes of a module. *)
Record CWasm (Mem : Type) : Type := mk_cwasm {
  deserialize : bool;
  instantiate : Linker → result (option Mem) string;   (* the export [memory] *)
  grow : Mem → Z → option Mem;
  get_start : result () string;
  start : Guest Mem
}.
Arguments deserialize {Mem}.
Arguments instantiate {Mem}.
Arguments grow {Mem}.
Arguments get_start {Mem}.
Arguments start {Mem}.
Arguments mk_cwasm {Mem}.

(** ** Bodies *)

Inductive Stmt : Type :=
  | SetJmp                             (* [if setjmp(..) != 0 { return Ok } else { insert }] *)
  | SetWasiArgs (args : list string)
  | OpenRoot                           (* [*MUST_OPEN_ROOT] *)
  | BuildWasm                          (* under [INIT_LOCK] *)
  | Instantiate
  | GrowMemory (pages : Z)
  | GetStart
  | CallStart
  | PrintTime
  | Panics.

(** A call of a function: the id of its [LibosCtx] and what it runs. *)
Record Body : Type := mk_body { ctx_id : string; stmts : list Stmt }.

(** The arguments [main] needs, or a panic. *)
Definition with_args (o : option Body) : Body := default (mk_body "" [Panics]) o.

Module wasmtime_sorter.
Definition func_body (my_id : string) (sorter_num merger_num : Z) : Body :=
  mk_body my_id
    [SetWasiArgs ["fake system path!"; my_id; pretty sorter_num; pretty merger_num]; OpenRoot;
     BuildWasm; Instantiate; GrowMemory 20000; GetStart; PrintTime; CallStart].
Definition main (args : list (string * string)) : Body :=
  let body := with_args (
    my_id ← arg args "id"; sorter_num ← arg_num 64 args "sorter_num";
    merger_num ← arg_num 64 args "merger_num"; Some (func_body my_id sorter_num merger_num)) in
  mk_body body.(ctx_id) (PrintTime :: body.(stmts)).
End wasmtime_sorter.

Module wasmtime_spliter.
Definition func_body (my_id : string) (sorter_num merger_num : Z) : Body :=
  mk_body my_id
    [SetWasiArgs ["fake system path!"; my_id; pretty sorter_num; pretty merger_num]; OpenRoot;
     BuildWasm; Instantiate; GrowMemory 20000; GetStart; CallStart].
Definition main (args : list (string * string)) : Body :=
  with_args (
    my_id ← arg args "id"; sorter_num ← arg_num 64 args "sorter_num";
    merger_num ← arg_num 64 args "merger_num"; Some (func_body my_id sorter_num merger_num)).
End wasmtime_spliter.

Module wasmtime_merger.
Definition func_body (my_id : string) (sorter_num merger_num : Z) : Body :=
  mk_body my_id
    [SetWasiArgs ["fake system path!"; my_id; pretty sorter_num; pretty merger_num]; OpenRoot;
     BuildWasm; Instantiate; GrowMemory 20000; GetStart; CallStart].
Definition main (args : list (string * string)) : Body :=
  with_args (
    my_id ← arg args "id"; sorter_num ← arg_num 64 args "sorter_num";
    merger_num ← arg_num 64 args "merger_num"; Some (func_body my_id sorter_num merger_num)).
End wasmtime_merger.

Module wasmtime_checker.
Definition func_body (my_id : string) (sorter_num merger_num : Z) : Body :=
  mk_body my_id
    [SetWasiArgs ["fake system path!"; my_id; pretty sorter_num; pretty merger_num]; OpenRoot;
     BuildWasm; Instantiate; GrowMemory 20000; GetStart; CallStart; PrintTime].
Definition main (args : list (string * string)) : Body :=
  with_args (
    my_id ← arg args "id"; sorter_num ← arg_num 64 args "sorter_num";
    merger_num ← arg_num 64 args "merger_num"; Some (func_body my_id sorter_num merger_num)).
End wasmtime_checker.

Module wasmtime_mapper.
Definition func_body (my_id : string) (reducer_num : Z) : Body :=
  mk_body my_id
    [SetWasiArgs ["fake system path!"; my_id; pretty reducer_num]; OpenRoot;
     BuildWasm; Instantiate; GrowMemory 20000; GetStart; CallStart].
Definition main (args : list (string * string)) : Body :=
  with_args (
    my_id ← arg args "id"; reducer_num ← arg_num 64 args "reducer_num";
    Some (func_body my_id reducer_num)).
End wasmtime_mapper.

Module wasmtime_reducer.
Definition func_body (my_id : string) (mapper_num : Z) : Body :=
  mk_body my_id
    [SetWasiArgs ["fake system path!"; my_id; pretty mapper_num]; OpenRoot;
     BuildWasm; Instantiate; GrowMemory 20000; GetStart; CallStart].
Definition main (args : list (string * string)) : Body :=
  with_args (
    my_id ← arg args "id"; mapper_num ← arg_num 64 args "mapper_num";
    Some (func_body my_id mapper_num)).
End wasmtime_reducer.

Module wasmtime_trans_data.
Definition main (args : list (string * string)) : Body :=
  mk_body "0" [OpenRoot; BuildWasm; Instantiate; GrowMemory 20000; GetStart; CallStart].
End wasmtime_trans_data.

Module wasmtime_write.
Definition main (args : list (string * string)) : Body :=
  with_args (id ← arg args "id"; Some (mk_body id [BuildWasm; Instantiate; GetStart; CallStart])).
End wasmtime_write.

(** The functions that run Python, which leaves by [proc_exit]. *)
Module wasmtime_cpython.
Definition func_body (my_id pyfile_path : string) : Body :=
  mk_body my_id
    [SetJmp; SetWasiArgs ["python.wasm"; pyfile_path]; OpenRoot; BuildWasm; Instantiate; GetStart; CallStart].
Definition main (args : list (string * string)) : Body :=
  with_args (
    my_id ← arg args "id"; pyfile_path ← arg args "pyfile_path"; Some (func_body my_id pyfile_path)).
End wasmtime_cpython.

Module wasmtime_cpython_func.
Definition func_body (pyfile_path : string) (func_num : Z) : Body :=
  mk_body (numbered "func_" func_num)
    [SetJmp; SetWasiArgs ["python.wasm"; pyfile_path; pretty func_num]; OpenRoot; BuildWasm; Instantiate;
     GetStart; CallStart].
Definition main (args : list (string * string)) : Body :=
  with_args (
    pyfile_path ← arg args "pyfile_path"; func_num ← arg_num 64 args "func_num";
    Some (func_body pyfile_path func_num)).
End wasmtime_cpython_func.

Module wasmtime_cpython_mapper.
Definition func_body (my_id pyfile_path : string) (reducer_num : Z) : Body :=
  mk_body ("mapper_" +:+ my_id)
    [SetJmp; SetWasiArgs ["python.wasm"; pyfile_path; my_id; pretty reducer_num]; OpenRoot; BuildWasm;
     Instantiate; GetStart; CallStart].
Definition main (args : list (string * string)) : Body :=
  with_args (
    my_id ← arg args "id"; pyfile_path ← arg args "pyfile_path";
    reducer_num ← arg_num 64 args "reducer_num"; Some (func_body my_id pyfile_path reducer_num)).
End wasmtime_cpython_mapper.

Module wasmtime_cpython_reducer.
Definition func_body (my_id pyfile_path : string) (mapper_num : Z) : Body :=
  mk_body ("reducer_" +:+ my_id)
    [SetJmp; SetWasiArgs ["python.wasm"; pyfile_path; my_id; pretty mapper_num]; OpenRoot; BuildWasm;
     Instantiate; GetStart; CallStart].
Definition main (args : list (string * string)) : Body :=
  with_args (
    my_id ← arg args "id"; pyfile_path ← arg args "pyfile_path";
    mapper_num ← arg_num 64 args "mapper_num"; Some (func_body my_id pyfile_path mapper_num)).
End wasmtime_cpython_reducer.

Module wasmtime_cpython_wordcount.
Definition func_body (my_id pyfile_path : string) (reducer_num mapper_num : Z) : Body :=
  mk_body ("wordcount_" +:+ my_id)
    [SetJmp; SetWasiArgs ["python.wasm"; pyfile_path; my_id; pretty reducer_num; pretty mapper_num]; OpenRoot;
     BuildWasm; Instantiate; GetStart; CallStart].
Definition main (args : list (string * string)) : Body :=
  with_args (
    my_id ← arg args "id"; pyfile_path ← arg args "pyfile_path"; reducer_num ← arg_num 64 args "reducer_num";
    mapper_num ← arg_num 64 args "mapper_num"; Some (func_body my_id pyfile_path reducer_num mapper_num)).
End wasmtime_cpython_wordcount.

Module wasmtime_cpython_parallel_sort.
Definition func_body (my_id pyfile_path : string) (sorter_num merger_num : Z) : Body :=
  mk_body ("func_" +:+ my_id)
    [SetJmp; SetWasiArgs ["python.wasm"; pyfile_path; my_id; pretty sorter_num; pretty merger_num]; OpenRoot;
     BuildWasm; Instantiate; GetStart; PrintTime; CallStart].
Definition main (args : list (string * string)) : Body :=
  with_args (
    my_id ← arg args "id"; pyfile_path ← arg args "pyfile_path"; sorter_num ← arg_num 64 args "sorter_num";
    merger_num ← arg_num 64 args "merger_num"; Some (func_body my_id pyfile_path sorter_num merger_num)).
End wasmtime_cpython_parallel_sort.

(** ** Running *)
Section run.
Context {W Mem : Type} `{WM : !WasmMemory Mem} `{WH : !WasiHost W}
  `{WB : !WasiBuffers W} `{PD : !Padding}.

(** The statics of a function's library, and the host. *)
Record Library : Type := mk_library { wasi : WasiState W Mem; MUST_OPEN_ROOT : LazyCell }.
Definition set_wasi (w : WasiState W Mem) (l : Library) : Library := mk_library w l.(MUST_OPEN_ROOT).
Definition set_root (c : LazyCell) (l : Library) : Library := mk_library l.(wasi) c.
Local Abbreviation M := (prog Library).
Definition on_wasi {A} (m : prog (WasiState W Mem) A) : M A := on wasi set_wasi m.

(** The library as a guest's calls see it: their [LibosCtx] and the guest's memory. *)
Definition as_caller (id : string) (mem : option Mem) (s : WasiState W Mem) : WasiState W Mem :=
  mk_wasi s.(WASI_STATE) s.(FD2PATH) s.(JMP_BUF_MAP) id mem s.(Wasi.host).

(** Where an instance is: at a statement, with the linker and the instance made so
    far, or in its guest, or done. *)
Inductive Instance : Type :=
  | AtStmt (todo : list Stmt) (linker : Linker) (mem : option Mem)
  | InGuest (g : Guest Mem) (mem : option Mem) (todo : list Stmt)
  | Ended (o : outcome (result () string)).

Definition open_root : M () :=
  force MUST_OPEN_ROOT set_root (on_wasi (r ← libos (h_open "/" 0 OpenMode_RD); _ ← unwrap_ok r; mret ())).

Definition build_wasm (c : CWasm Mem) : M Linker :=
  assert c.(deserialize);;
  match import_all [] with (Ret _, linker) => mret linker | _ => panic end.

(** One statement of [func_body], and where it goes on. *)
Definition exec_stmt (c : CWasm Mem) (id : string) (st : Stmt) (todo : list Stmt) (linker : Linker)
    (mem : option Mem) : M Instance :=
  let next := AtStmt todo linker mem in
  match st with
  | SetJmp =>
      on_wasi (modify (λ s, mk_wasi s.(WASI_STATE) s.(FD2PATH) ({[id]} ∪ s.(JMP_BUF_MAP)) s.(caller_id)
                              s.(exported) s.(Wasi.host)));;
      mret next
  | SetWasiArgs args => on_wasi (set_wasi_state id args);; mret next
  | OpenRoot => open_root;; mret next
  | BuildWasm => linker ← build_wasm c; mret (AtStmt todo linker mem)
  | Instantiate =>
      mret (match c.(instantiate) linker with
            | Ok mem => AtStmt todo linker mem
            | Err e => Ended (Ret (Err e))
            end)
  | GrowMemory pages =>
      memory ← unwrap mem;
      memory ← unwrap (c.(grow) memory pages);
      mret (AtStmt todo linker (Some memory))
  | GetStart => mret (match c.(get_start) with Ok _ => next | Err e => Ended (Ret (Err e)) end)
  | CallStart => mret (InGuest c.(start) mem todo)
  | PrintTime => on_wasi (t ← now; duration_since t 0);; mret next
  | Panics => panic
  end.

(** The guest's next step.  An import runs on the library as its caller; [proc_exit]
    jumps back to where [setjmp] returned, and the body returns. *)
Definition exec_guest (id : string) (g : Guest Mem) (mem : option Mem) (todo : list Stmt) : M Instance :=
  match g with
  | Return => mret (AtStmt todo [] mem)
  | Trap e => mret (Ended (Ret (Err e)))
  | Local f k => mret (InGuest (k (f mem)) (f mem) todo)
  | Import name args k => λ l,
      let s := as_caller id mem l.(wasi) in
      match call_import name args s with
      | (Ret r, s') =>
          (Ret (if String.eqb name "proc_exit" then Ended (Ret (Ok ()))
                else InGuest (k r) s'.(exported) todo), set_wasi s' l)
      | (Panic, s') => (Panic, set_wasi s' l)
      | (Deadlock, s') => (Deadlock, set_wasi s' l)
      | (NoFuel, s') => (NoFuel, set_wasi s' l)
      end
  end.

Definition exec (c : CWasm Mem) (id : string) (i : Instance) : M Instance :=
  match i with
  | AtStmt [] _ _ => mret (Ended (Ret (Ok ())))
  | AtStmt (st :: todo) linker mem => exec_stmt c id st todo linker mem
  | InGuest g mem todo => exec_guest id g mem todo
  | Ended o => mret (Ended o)
  end.

(** Instances of a function, each with its id, under a schedule; a panic or a
    deadlock ends one. *)
Definition step (c : CWasm Mem) (id : string) (i : Instance) (l : Library) : Instance * Library :=
  match exec c id i l with
  | (Ret i', l') => (i', l')
  | (Panic, l') => (Ended Panic, l')
  | (Deadlock, l') => (Ended Deadlock, l')
  | (NoFuel, l') => (Ended NoFuel, l')
  end.
Fixpoint run_instances (c : CWasm Mem) (sched : list nat) (insts : list (string * Instance)) (l : Library) :
    list (string * Instance) * Library :=
  match sched with
  | [] => (insts, l)
  | k :: sched =>
      match insts !! k with
      | None => run_instances c sched insts l
      | Some (id, i) => let '(i', l') := step c id i l in run_instances c sched (<[k := (id, i')]> insts) l'
      end
  end.
Definition enter (b : Body) : string * Instance := (b.(ctx_id), AtStmt b.(stmts) [] None).
End run.
Arguments Library : clear implicits.
Arguments Instance : clear implicits.
