(* ===== verification/WasmFuncsSpec.v ===== *)
(** * What the guests of a function's instances see

    The instances of a function share the arguments and the jump buffers of its
    library, by the ids of their contexts.  No call a guest makes changes them
    ([call_import_still]), so under every interleaving of instances with different
    ids a guest finds its own arguments. *)
From Stdlib Require Import Ascii String.
From S2P Require Import Prelude Bytes Hostcall Ipv4 Text AsStd AsStdSpec Wasi WasiLink WasiSpec WasiCalls WasiCuts Visor Contracts.
From S2P Require Import WasmFuncs.
Local Open Scope Z_scope.

(** ** Calls leave arguments and jump buffers alone *)
Section still.
Context {W Mem : Type} {WM : WasmMemory Mem} {WH : WasiHost W}
  {WB : WasiBuffers W} {PD : Padding}.
Local Abbreviation M := (prog (WasiState W Mem)).

Class Still {A} (m : M A) : Prop := still : ∀ s,
  (m s).2.(WASI_STATE) = s.(WASI_STATE) ∧ (m s).2.(JMP_BUF_MAP) = s.(JMP_BUF_MAP).

#[global] Instance still_ret {A} (a : A) : Still (mret a).
Proof. done. Qed.
#[global] Instance still_gets {A} (f : WasiState W Mem → A) : Still (gets f).
Proof. done. Qed.
#[global] Instance still_panic {A} : Still (panic : M A).
Proof. done. Qed.
#[global] Instance still_unwrap {A} (o : option A) : Still (unwrap o : M A).
Proof. destruct o; apply _. Qed.
#[global] Instance still_unwrap_ok {A E} (r : result A E) : Still (unwrap_ok r : M A).
Proof. destruct r; apply _. Qed.
#[global] Instance still_assert b : Still (assert b : M ()).
Proof. destruct b; apply _. Qed.
#[global] Instance still_checked w x : Still (checked w x : M Z).
Proof. unfold checked. destruct (fitsb w x); apply _. Qed.
#[global] Instance still_libos {A} (m : prog W A) : Still (libos m : M A).
Proof. intros s. unfold libos, on. by destruct (m (Wasi.host s)). Qed.
#[global] Instance still_put_memory m : Still (put_memory m : M ()).
Proof. done. Qed.
#[global] Instance still_set_fd2path fd path : Still (set_fd2path fd path : M ()).
Proof. done. Qed.
#[global] Instance still_bind {A B} (m : M A) (k : A → M B) :
  Still m → (∀ a, Still (k a)) → Still (m ≫= k).
Proof.
  intros Hm Hk s. unfold mbind, prog_mbind. destruct (Hm s) as [H1 H2].
  destruct (m s) as [[a| | |] s']; cbn [snd] in *; try done. destruct (Hk a s') as [-> ->]. done.
Qed.
#[global] Instance still_get_memory : Still (get_memory : M Mem).
Proof. unfold get_memory. apply _. Qed.
#[global] Instance still_write_guest off bs : Still (write_guest off bs : M ()).
Proof. unfold write_guest. apply _. Qed.
#[global] Instance still_read_guest off len : Still (read_guest off len : M _).
Proof. unfold read_guest. apply _. Qed.
#[global] Instance still_now : Still (now : M Z).
Proof. unfold now. apply _. Qed.
#[global] Instance still_duration t t0 : Still (duration_since t t0 : M Duration).
Proof. unfold duration_since. apply _. Qed.
#[global] Instance still_args_loop argv argv_buf i offset args : Still (args_loop argv argv_buf i offset args : M ()).
Proof. revert i offset. induction args; intros; cbn [args_loop]; unfold write_arg; apply _. Qed.
#[global] Instance still_sum l acc : Still (sum_checked l acc : M Z).
Proof. revert acc. induction l; intros; cbn [sum_checked]; apply _. Qed.
#[global] Instance still_iovec_at p i : Still (iovec_at p i : M _).
Proof. unfold iovec_at. apply _. Qed.
#[global] Instance still_read_iovec fd p i n : Still (read_iovec fd p i n : M Z).
Proof. unfold read_iovec. repeat (apply still_bind; [apply _|intros ?]); repeat case_match; apply _. Qed.
#[global] Instance still_write_iovec fd p i n : Still (write_iovec fd p i n : M Z).
Proof. unfold write_iovec. apply _. Qed.
#[global] Instance still_iov_loop one ks n : (∀ k n, Still (one k n : M Z)) → Still (iov_loop one ks n).
Proof. intros H. revert n. induction ks; intros; cbn [iov_loop]; apply _. Qed.
#[global] Instance still_get_wasi_state : Still (get_wasi_state : M _).
Proof. unfold get_wasi_state. apply _. Qed.
#[global] Instance still_get_fd2path fd : Still (get_fd2path fd : M _).
Proof. unfold get_fd2path. apply _. Qed.
#[global] Instance still_readdir_loop len used entries cookie cur n :
  Still (readdir_loop len used entries cookie cur n : M Z).
Proof.
  revert cookie cur n. induction entries; intros; cbn [readdir_loop]; [apply _|].
  repeat (apply still_bind; [apply _|intros ?]). case_match; apply _.
Qed.

#[global] Instance still_env_slot_name a n : Still (env_slot_name a n : M _).
Proof. unfold env_slot_name. apply _. Qed.
#[global] Instance still_env_buffer_register a n b k : Still (env_buffer_register a n b k : M ()).
Proof. unfold env_buffer_register. apply _. Qed.
#[global] Instance still_env_access_buffer a n b k : Still (env_access_buffer a n b k : M ()).
Proof. unfold env_access_buffer. repeat (apply still_bind; [apply _|intros ?]). case_match. apply _. Qed.

(** Every imported function, for all arguments. *)
Fixpoint all_still (l : list ValType) : curried (W := W) (Mem := Mem) l → Prop :=
  match l with
  | [] => λ f, Still f
  | _ :: l => λ f, ∀ a, all_still l (f a)
  end.

Lemma apply_args_still l (f : curried l) args : all_still l f → Still (apply_args l f args).
Proof.
  revert f args. induction l as [|ty l IH]; intros f [|a args] Hf; cbn [apply_args]; try apply _; [exact Hf|].
  apply IH, Hf.
Qed.

Lemma imports_still : Forall (λ i, all_still i.(i_params) i.(i_func)) (env_imports ++ wasi_imports).
Proof.
  unfold env_imports, wasi_imports, process_imports, fd_imports, path_imports, other_imports.
  repeat apply Forall_app_2; repeat apply Forall_cons_2; try apply Forall_nil_2;
    cbn [all_still i_params i_func func proc curried]; intros; try apply still_ret;
    unfold Wasi.args_get, args_sizes_get, clock_time_get, environ_sizes_get, fd_close, fd_fdstat_get,
      fd_prestat_get, fd_prestat_dir_name, fd_read, fd_readdir, fd_write, path_filestat_get, path_open,
      proc_exit, random_get;
    repeat first [apply _ | apply still_bind; [apply _|intros ?] | case_match].
Qed.

Lemma call_import_still name args : Still (call_import name args).
Proof.
  unfold call_import. destruct (List.find _ (env_imports ++ wasi_imports)) as [i|] eqn:E; [|apply _].
  apply find_some in E as [Hin%list_elem_of_In _]. apply apply_args_still.
  assert (H := imports_still). rewrite Forall_forall in H. by apply H.
Qed.
End still.

(** ** Instances under a schedule *)
Section instances.
Context {W Mem : Type} {WM : WasmMemory Mem} {WH : WasiHost W}
  {WB : WasiBuffers W} {PD : Padding}.
Context (c : CWasm Mem).
Local Abbreviation Lib := (Library W Mem).
Implicit Types (l : Lib) (i : Instance Mem) (b : Body).

(** What the statements run so far have left in the library. *)
Record done_by (id : string) (pre : list Stmt) (l : Lib) : Prop := mk_done_by {
  args_set : ∀ args, SetWasiArgs args ∈ pre → l.(wasi).(WASI_STATE) !! id = Some args;
  jmp_set : SetJmp ∈ pre → id ∈ l.(wasi).(JMP_BUF_MAP);
  root_open : OpenRoot ∈ pre → l.(MUST_OPEN_ROOT) = Ready
}.
Definition progress (b : Body) (i : Instance Mem) (l : Lib) : Prop :=
  match i with
  | AtStmt todo _ _ => ∃ pre, b.(stmts) = pre ++ todo ∧ done_by b.(ctx_id) pre l
  | InGuest _ _ todo => ∃ pre, b.(stmts) = pre ++ CallStart :: todo ∧ done_by b.(ctx_id) pre l
  | Ended _ => True
  end.
(** The arguments are set once. *)
Definition one_args (b : Body) : Prop := ∀ a a',
  SetWasiArgs a ∈ b.(stmts) → SetWasiArgs a' ∈ b.(stmts) → a = a'.

(** What a step of an instance may change. *)
Record moves (b : Body) (l l' : Lib) : Prop := mk_moves {
  others_args : ∀ id, id ≠ b.(ctx_id) → l'.(wasi).(WASI_STATE) !! id = l.(wasi).(WASI_STATE) !! id;
  more_bufs : l.(wasi).(JMP_BUF_MAP) ⊆ l'.(wasi).(JMP_BUF_MAP);
  no_bufs : SetJmp ∉ b.(stmts) → l'.(wasi).(JMP_BUF_MAP) = l.(wasi).(JMP_BUF_MAP);
  root_stays : l.(MUST_OPEN_ROOT) = Ready → l'.(MUST_OPEN_ROOT) = Ready
}.
Lemma other_done id b pre l l' : id ≠ b.(ctx_id) → moves b l l' → done_by id pre l → done_by id pre l'.
Proof. intros Hne [H1 H2 _ H3] [D1 D2 D3]. split; [intros; rewrite H1; auto|auto|auto]. Qed.
(** A step that sets no arguments. *)
Record rests (l l' : Lib) : Prop := mk_rests {
  same_args : l'.(wasi).(WASI_STATE) = l.(wasi).(WASI_STATE);
  same_bufs : l'.(wasi).(JMP_BUF_MAP) = l.(wasi).(JMP_BUF_MAP);
  same_root : l.(MUST_OPEN_ROOT) = Ready → l'.(MUST_OPEN_ROOT) = Ready
}.
Lemma rests_refl l : rests l l.
Proof. done. Qed.
Lemma rests_moves b l l' : rests l l' → moves b l l'.
Proof. intros [H1 H2 H3]. split; [intros; by rewrite H1|by rewrite H2|done|done]. Qed.
Lemma rests_done id pre l l' : rests l l' → done_by id pre l → done_by id pre l'.
Proof. intros [H1 H2 H3] [D1 D2 D3]. split; [intros; rewrite H1; auto|rewrite H2; auto|auto]. Qed.

Lemma on_wasi_rests {A} (m : prog (WasiState W Mem) A) l : Still m → rests l (on_wasi m l).2.
Proof.
  intros Hm. destruct (Hm l.(wasi)) as [H1 H2]. unfold on_wasi, on.
  destruct (m (wasi l)) as [o w]. by split.
Qed.
Lemma open_root_rests l : rests l (open_root l).2 ∧
  ∀ a, (open_root l).1 = Ret a → (open_root l).2.(MUST_OPEN_ROOT) = Ready.
Proof.
  unfold open_root, force. destruct (MUST_OPEN_ROOT l) eqn:E; [|by split|by split].
  set (m := on_wasi _). assert (Hr : rests l (m l).2) by (apply on_wasi_rests; apply _).
  destruct (m l) as [[a| | |] l1]; cbn in *; (split; [|done]); destruct Hr; by split; cbn; [| |congruence].
Qed.
Lemma done_snoc id pre st l : done_by id pre l →
  match st with
  | SetWasiArgs args => l.(wasi).(WASI_STATE) !! id = Some args
  | SetJmp => id ∈ l.(wasi).(JMP_BUF_MAP)
  | OpenRoot => l.(MUST_OPEN_ROOT) = Ready
  | _ => True
  end → done_by id (pre ++ [st]) l.
Proof.
  intros [D1 D2 D3] H. split; [intros args|..]; intros [?|Hin]%elem_of_app; auto;
    apply list_elem_of_singleton in Hin; by subst st.
Qed.

Lemma next_progress b pre st todo linker mem l : b.(stmts) = pre ++ st :: todo →
  done_by b.(ctx_id) (pre ++ [st]) l → progress b (AtStmt todo linker mem) l.
Proof. intros H Hd. exists (pre ++ [st]). by rewrite <- app_assoc. Qed.
(** A statement that leaves arguments, buffers and an open root as they are. *)
Lemma rest_progress b pre st todo linker mem l l' : b.(stmts) = pre ++ st :: todo →
  done_by b.(ctx_id) pre l → rests l l' →
  match st with SetWasiArgs _ | SetJmp => False | OpenRoot => l'.(MUST_OPEN_ROOT) = Ready | _ => True end →
  progress b (AtStmt todo linker mem) l' ∧ moves b l l'.
Proof.
  intros Hb Hd Hr Hst. split; [|by apply rests_moves]. apply (next_progress b pre st); [done|].
  apply done_snoc; [by apply (rests_done _ _ l)|]. by destruct st.
Qed.

Lemma stmt_progress b pre st todo linker mem l : b.(stmts) = pre ++ st :: todo → one_args b →
  done_by b.(ctx_id) pre l →
  let '(i', l') := step c b.(ctx_id) (AtStmt (st :: todo) linker mem) l in
  progress b i' l' ∧ moves b l l'.
Proof.
  intros Hb Hone Hd. assert (Hstay := rests_moves b l l (rests_refl l)).
  destruct st as [|args| | | |pages| | | |]; unfold step, exec, exec_stmt.
  - cbn -[union]. split.
    + apply (next_progress b pre SetJmp); [done|].
      destruct Hd as [D1 D2 D3]. split; cbn -[union].
      * intros args [?|?%list_elem_of_singleton]%elem_of_app; [auto|done].
      * set_solver.
      * intros [?|?%list_elem_of_singleton]%elem_of_app; [auto|done].
    + split; cbn -[union]; [done|set_solver| |done]. intros Hno. destruct Hno. rewrite Hb. set_solver.
  - cbn -[insert]. split.
    + apply (next_progress b pre (SetWasiArgs args)); [done|]. destruct Hd as [D1 D2 D3].
      split; cbn -[insert]; [|by intros [?|?%list_elem_of_singleton]%elem_of_app; [auto|]..].
      intros a Ha. assert (a = args) as ->; [|by rewrite lookup_insert_eq].
      apply Hone; rewrite Hb; [|set_solver]. apply elem_of_app in Ha as [?|?%list_elem_of_singleton]; set_solver.
    + split; cbn -[insert]; [|done..]. intros id Hid. by rewrite lookup_insert_ne.
  - destruct (open_root_rests l) as [Hr Hready]. unfold mbind, prog_mbind.
    destruct (open_root l) as [[[]| | |] l1]; cbn [fst snd] in *; try by split; [|apply rests_moves].
    eapply rest_progress; [done|done|done|]. by eapply Hready.
  - unfold build_wasm, mbind, prog_mbind. destruct (deserialize c); [|done]. cbn [assert mret prog_mret].
    destruct (import_all []) as [[] lk]; try done. by apply (rest_progress b pre BuildWasm _ _ _ l).
  - cbn. destruct (instantiate c linker) as [m|e]; [|done]. by apply (rest_progress b pre Instantiate _ _ _ l).
  - unfold mbind, prog_mbind. destruct mem as [m|]; [|done]. cbn [unwrap mret prog_mret].
    destruct (grow c m pages) as [m'|]; [|done]. by apply (rest_progress b pre (GrowMemory pages) _ _ _ l).
  - cbn. destruct (get_start c); [|done]. by apply (rest_progress b pre GetStart _ _ _ l).
  - cbn. split; [by exists pre|done].
  - assert (Hr := on_wasi_rests (t ← now; duration_since t 0) l _). unfold mbind at 1, prog_mbind at 1.
    destruct (on_wasi _ l) as [[d| | |] l1]; cbn [fst snd] in *; try by split; [|apply rests_moves].
    by apply (rest_progress b pre PrintTime _ _ _ l).
  - done.
Qed.

Lemma guest_progress b pre g mem todo l : b.(stmts) = pre ++ CallStart :: todo →
  done_by b.(ctx_id) pre l →
  let '(i', l') := step c b.(ctx_id) (InGuest g mem todo) l in
  progress b i' l' ∧ moves b l l'.
Proof.
  intros Hb Hd. assert (Hstay := rests_moves b l l (rests_refl l)).
  destruct g as [|e|f k|name args k]; unfold step, exec, exec_guest.
  - by apply (rest_progress b pre CallStart _ _ _ l).
  - done.
  - cbn. split; [by exists pre|done].
  - set (s := as_caller _ _ _). destruct (call_import_still name args s) as [H1 H2].
    assert (Hr : rests l (set_wasi (call_import name args s).2 l)).
    { by split; cbn; [rewrite H1|rewrite H2|]. }
    destruct (call_import name args s) as [[r| | |] s']; cbn [snd] in Hr; cbn [fst snd];
      (split; [|by apply rests_moves]); try done.
    destruct (String.eqb name "proc_exit"); [done|]. exists pre. split; [done|]. by apply (rests_done _ _ l).
Qed.

Lemma step_progress b i l : one_args b → progress b i l →
  let '(i', l') := step c b.(ctx_id) i l in progress b i' l' ∧ moves b l l'.
Proof.
  intros Hone. destruct i as [[|st todo] linker mem|g mem todo|o].
  - done.
  - intros (pre & Hb & Hd). by apply (stmt_progress b pre).
  - intros (pre & Hb & Hd). by apply (guest_progress b pre).
  - done.
Qed.
Lemma other_progress b b' i l l' : b.(ctx_id) ≠ b'.(ctx_id) → moves b' l l' → progress b i l → progress b i l'.
Proof.
  intros Hne Hm. destruct i as [todo lk mem|g mem todo|o]; cbn; [| |done];
    intros (pre & Hb & Hd); exists pre; (split; [done|]); by eapply other_done.
Qed.

(** All instances, when their ids differ. *)
Definition all_progress (bodies : list Body) (insts : list (string * Instance Mem)) (l : Lib) : Prop :=
  Forall2 (λ b p, p.1 = b.(ctx_id) ∧ progress b p.2 l) bodies insts.

Lemma run_instances_progress bodies (R : relation Lib) : PreOrder R →
  (∀ b l l', b ∈ bodies → moves b l l' → R l l') → NoDup (map ctx_id bodies) → Forall one_args bodies →
  ∀ sched insts l, all_progress bodies insts l →
  all_progress bodies (run_instances c sched insts l).1 (run_instances c sched insts l).2 ∧
  R l (run_instances c sched insts l).2.
Proof.
  intros HR Hmoves Hnd Hone. induction sched as [|k sched IH]; intros insts l H; [done|]. cbn [run_instances].
  destruct (insts !! k) as [[id i]|] eqn:Ek; [|by apply IH].
  destruct (Forall2_lookup_r _ _ _ _ _ H Ek) as (b & Eb & Hid & Hp). cbn in Hid, Hp. subst id.
  assert (Hs := step_progress b i l (Forall_lookup_1 _ _ _ _ Hone Eb) Hp).
  destruct (step c (ctx_id b) i l) as [i' l']. destruct Hs as [Hp' Hm].
  enough (Hi : all_progress bodies (<[k := (ctx_id b, i')]> insts) l').
  { destruct (IH _ _ Hi) as [H1 H2]. split; [done|]. etrans; [|exact H2].
    apply (Hmoves b); [by eapply list_elem_of_lookup_2|done]. }
  apply Forall2_same_length_lookup_2; [rewrite length_insert; by eapply Forall2_length|].
  intros j b' [id' i''] Hb' Hj. destruct (decide (k = j)) as [<-|Hne].
  - rewrite list_lookup_insert_eq in Hj by by eapply lookup_lt_Some. rewrite Eb in Hb'. by simplify_eq.
  - rewrite list_lookup_insert_ne in Hj by done.
    destruct (Forall2_lookup_lr _ _ _ _ _ _ H Hb' Hj) as [-> Hq]. split; [done|].
    apply (other_progress _ b _ l l'); [|done|done]. intros E.
    apply Hne. apply (NoDup_lookup (map ctx_id bodies) k j (ctx_id b)); [done|..]; rewrite list_lookup_fmap;
      [by rewrite Eb|by rewrite Hb'; cbn; rewrite E].
Qed.

Lemma run_instances_length sched insts l : length (run_instances c sched insts l).1 = length insts.
Proof.
  revert insts l. induction sched as [|k sched IH]; intros insts l; [done|]. cbn [run_instances].
  destruct (insts !! k) as [[id i]|]; [|done]. destruct (step c id i l) as [i' l'].
  by rewrite IH, length_insert.
Qed.
Lemma enter_progress bodies l : all_progress bodies (map enter bodies) l.
Proof.
  apply Forall2_same_length_lookup_2; [by rewrite length_map|]. intros j b p Hb Hp.
  rewrite list_lookup_fmap, Hb in Hp. injection Hp as <-. split; [done|]. exists []. split; [done|].
  split; [intros args|..]; by intros ?%not_elem_of_nil.
Qed.

(** Where an instance's guest runs, what was stated before its call holds. *)
Lemma guest_reached bodies sched l k b id g mem todo : NoDup (map ctx_id bodies) → Forall one_args bodies →
  bodies !! k = Some b → (run_instances c sched (map enter bodies) l).1 !! k = Some (id, InGuest g mem todo) →
  id = b.(ctx_id) ∧ ∃ pre, b.(stmts) = pre ++ CallStart :: todo ∧
    done_by id pre (run_instances c sched (map enter bodies) l).2.
Proof.
  intros Hnd Hone Hb Hk.
  destruct (run_instances_progress bodies (λ _ _, True) ltac:(done) ltac:(done) Hnd Hone sched _ l (enter_progress bodies l))
    as [H _].
  destruct (Forall2_lookup_lr _ _ _ _ _ _ H Hb Hk) as [E Hp]. cbn in E, Hp. by subst id.
Qed.
(** Bodies that set no jump buffer leave the buffers as they are. *)
Lemma bufs_unchanged bodies sched l : NoDup (map ctx_id bodies) → Forall one_args bodies →
  (∀ b, b ∈ bodies → SetJmp ∉ b.(stmts)) →
  (run_instances c sched (map enter bodies) l).2.(wasi).(JMP_BUF_MAP) = l.(wasi).(JMP_BUF_MAP).
Proof.
  intros Hnd Hone Hno.
  apply (run_instances_progress bodies (λ l l', l'.(wasi).(JMP_BUF_MAP) = l.(wasi).(JMP_BUF_MAP))); try done.
  - split; [done|]. intros l1 l2 l3 H1 H2. congruence.
  - intros b l1 l2 Hb Hm. by apply Hm, Hno.
  - apply enter_progress.
Qed.
End instances.

(** ** The functions of a workflow *)

(** What a guest finds when it asks for its arguments: the texts [strs], wherever it
    has room for them. *)
Definition finds_args {W Mem} {WM : WasmMemory Mem} {WH : WasiHost W}
  {WB : WasiBuffers W} {PD : Padding}
    (strs : list string) (s : WasiState W Mem) (m : Mem) : Prop :=
  ∀ argc_at size_at argv argv_buf, let size := args_size (map bytes_of strs) in
  0 ≤ argc_at → argc_at + 4 ≤ size_at < 2 ^ 31 → size_at + 4 ≤ zlen (data m) →
  0 ≤ argv < 2 ^ 31 → 0 ≤ argv_buf < 2 ^ 31 → zlen (data m) ≤ 2 ^ 32 →
  argv + 4 * zlen strs ≤ zlen (data m) → argv_buf + size ≤ zlen (data m) →
  WasiSpec.apart argv (4 * zlen strs) argv_buf size → zlen strs < 2 ^ 32 → size < 2 ^ 32 →
  (∃ d, call_import "args_sizes_get" [argc_at; size_at] s = (Ret (errno Errno.Success), with_data s m d) ∧
     le_decode (sub d (Z.to_nat argc_at) 4) = zlen strs ∧
     le_decode (sub d (Z.to_nat size_at) 4) = size) ∧
  ∃ d, call_import "args_get" [argv; argv_buf] s = (Ret (errno Errno.Success), with_data s m d) ∧
    ∀ k str, strs !! k = Some str →
      let at_ := le_decode (sub d (Z.to_nat (argv + 4 * Z.of_nat k)) 4) in
      sub d (Z.to_nat at_) (length (bytes_of str) + 1) = bytes_of str ++ [0].

Section functions.
Context {W Mem : Type} {WM : WasmMemory Mem} {WMS : WasmMemorySpec Mem} {WH : WasiHost W}
  {WB : WasiBuffers W} {PD : Padding}.

Lemma registered_found strs (s : WasiState W Mem) m : s.(exported) = Some m →
  s.(WASI_STATE) !! s.(caller_id) = Some strs → strs ≠ [] → finds_args strs s m.
Proof.
  intros Hm Hs Hne argc_at size_at argv argv_buf size H1 H2 H3 H4 H5 H6 H7 H8 H9 H10 H11.
  destruct (args_found s m strs argc_at size_at argv argv_buf Hm Hs Hne) as [Hsz (d & E & Hd & _)]; try done.
  split; [exact Hsz|]. exists d. split; [exact E|]. intros k str Hk. by apply Hd.
Qed.

(** The statements before the call, and the arguments set. *)
Fixpoint before_call (l : list Stmt) : list Stmt :=
  match l with [] | CallStart :: _ => [] | st :: l => st :: before_call l end.
Definition args_of (l : list Stmt) : list (list string) :=
  omap (λ st, match st with SetWasiArgs a => Some a | _ => None end) l.
Lemma before_call_in l pre todo st : l = pre ++ CallStart :: todo → st ∈ before_call l → st ∈ pre.
Proof.
  intros ->. induction pre as [|st' pre IH]; cbn; [by intros ?%not_elem_of_nil|].
  destruct st'; intros H; try by apply not_elem_of_nil in H.
  all: apply elem_of_cons in H as [->|H]; [apply list_elem_of_here|by apply list_elem_of_further, IH].
Qed.
Lemma args_of_in a l : SetWasiArgs a ∈ l → a ∈ args_of l.
Proof. intros H. apply list_elem_of_omap. by exists (SetWasiArgs a). Qed.
Lemma one_args_of b a : args_of b.(stmts) = [a] → one_args b.
Proof.
  intros H x y Hx%args_of_in Hy%args_of_in. rewrite H in Hx, Hy.
  by apply list_elem_of_singleton in Hx as ->, Hy as ->.
Qed.

(** The parallel sort's functions, as they are started in a group of [k]. *)
Definition sort_mains : list (list (string * string) → Body) :=
  [wasmtime_sorter.main; wasmtime_spliter.main; wasmtime_merger.main; wasmtime_checker.main].
Definition sort_bodies (main : list (string * string) → Body) (k : nat) (name : string) (n m : Z) : list Body :=
  map (λ a, main (btree_items a.(Config.args)))
    (Config.group_to_isolation (Config.mk_group (replicate k (Config.Name name))
       {["sorter_num" := pretty n; "merger_num" := pretty m]})).
Definition sort_args (i : nat) (n m : Z) : list string :=
  ["fake system path!"; pretty (Z.of_nat i); pretty n; pretty m].

Lemma sort_body main k name n m i b : main ∈ sort_mains → fits 64 n → fits 64 m →
  sort_bodies main k name n m !! i = Some b →
  b.(ctx_id) = pretty (Z.of_nat i) ∧ one_args b ∧ (SetJmp ∉ b.(stmts)) ∧
  ∀ pre todo, b.(stmts) = pre ++ CallStart :: todo → SetWasiArgs (sort_args i n m) ∈ pre.
Proof.
  intros Hmain Hn Hm Hb. apply list_lookup_fmap_Some in Hb as (a & -> & Ha).
  apply in_group in Ha as (Hi & _ & Hid & Hargs); [|done].
  assert (Hsn : arg_num 64 (btree_items a.(Config.args)) "sorter_num" = Some n).
  { apply arg_num_lookup; [done|]. by rewrite Hargs. }
  assert (Hmn : arg_num 64 (btree_items a.(Config.args)) "merger_num" = Some m).
  { apply arg_num_lookup; [done|]. by rewrite Hargs. }
  assert (Hia : arg (btree_items a.(Config.args)) "id" = Some (pretty (Z.of_nat i))) by by rewrite arg_lookup.
  assert (H : ∃ b, main (btree_items a.(Config.args)) = b ∧ b.(ctx_id) = pretty (Z.of_nat i) ∧
    args_of b.(stmts) = [sort_args i n m] ∧ SetWasiArgs (sort_args i n m) ∈ before_call b.(stmts) ∧
    existsb (λ st, match st with SetJmp => true | _ => false end) b.(stmts) = false).
  { repeat (apply elem_of_cons in Hmain as [->|Hmain]); [..|by apply not_elem_of_nil in Hmain];
      (eexists; split;
        [unfold wasmtime_sorter.main, wasmtime_spliter.main, wasmtime_merger.main, wasmtime_checker.main;
         rewrite Hia, Hsn, Hmn; reflexivity|]); cbn; (split; [done|]; split; [done|]; split; [|done]); set_solver. }
  destruct H as (b & -> & Hb & Ha & Hbc & Hj). split; [done|]. split; [by eapply one_args_of|]. split.
  - intros Hin. enough (existsb (λ st, match st with SetJmp => true | _ => false end) b.(stmts) = true) by congruence.
    apply existsb_exists. exists SetJmp. by rewrite <- list_elem_of_In.
  - intros pre todo E. exact (before_call_in _ _ _ _ E Hbc).
Qed.

Lemma sort_ids main k name n m : main ∈ sort_mains → fits 64 n → fits 64 m →
  NoDup (map ctx_id (sort_bodies main k name n m)) ∧ Forall one_args (sort_bodies main k name n m).
Proof.
  intros Hmain Hn Hm. split.
  - apply NoDup_alt. intros i j id Hi Hj. apply list_lookup_fmap_Some in Hi as (b & -> & Hi).
    apply list_lookup_fmap_Some in Hj as (b' & E & Hj).
    destruct (sort_body _ _ _ _ _ _ _ Hmain Hn Hm Hi) as [Ei _].
    destruct (sort_body _ _ _ _ _ _ _ Hmain Hn Hm Hj) as [Ej _]. rewrite Ei, Ej in E.
    apply (inj pretty) in E. lia.
  - apply Forall_lookup. intros i b Hi.
    by destruct (sort_body _ _ _ _ _ _ _ Hmain Hn Hm Hi) as (_ & ? & _).
Qed.

(** C7: the guests of the WebAssembly parallel sort find their arguments: in a group of
    sorters, splitters, mergers or checkers, under every interleaving and whatever
    the guests of the others do, the guest of the [i]-th function that asks for its
    arguments gets its own number and the numbers of the configuration, behind the
    name of the program. *)
Theorem wasm_sort_arguments main k name n m (c : CWasm Mem) sched l i id g mem todo :
  main ∈ sort_mains → fits 64 n → fits 64 m →
  let r := run_instances c sched (map enter (sort_bodies main k name n m)) l in
  r.1 !! i = Some (id, InGuest g (Some mem) todo) →
  finds_args (sort_args i n m) (as_caller id (Some mem) r.2.(wasi)) mem.
Proof.
  intros Hmain Hn Hm. destruct (sort_ids main k name n m Hmain Hn Hm) as [Hnd Hone].
  intros r Hi.
  destruct (lookup_lt_is_Some_2 (sort_bodies main k name n m) i) as [b Hb].
  { apply lookup_lt_Some in Hi. unfold r in Hi. by rewrite run_instances_length, length_map in Hi. }
  destruct (guest_reached c _ sched l i b id g (Some mem) todo Hnd Hone Hb Hi) as (-> & pre & Epre & Hd).
  destruct (sort_body _ _ _ _ _ _ _ Hmain Hn Hm Hb) as (_ & _ & _ & Hin).
  apply registered_found; [done| |done]. by apply (args_set _ _ _ Hd), (Hin _ todo).
Qed.
End functions.

(** ** Leaving a guest by [proc_exit] *)
Section exit.
Context {W Mem : Type} {WM : WasmMemory Mem} {WH : WasiHost W}
  {WB : WasiBuffers W} {PD : Padding}.

Lemma exit_step (c : CWasm Mem) id code cont mem todo (l : Library W Mem) :
  (step c id (InGuest (Import "proc_exit" [code] cont) mem todo) l).1 =
  if (code =? 0) && bool_decide (id ∈ l.(wasi).(JMP_BUF_MAP)) then Ended (Ret (Ok ())) else Ended Panic.
Proof.
  unfold step, exec, exec_guest. set (s := as_caller id mem (wasi l)).
  assert (call_import "proc_exit" [code] s = (r ← proc_exit code; mret 0) s) as -> by reflexivity.
  unfold proc_exit, mbind, prog_mbind, gets. destruct (code =? 0); [|done]. cbn [caller_id as_caller s andb JMP_BUF_MAP].
  by case_bool_decide.
Qed.

(** A guest that exits with 0 ends its function well only if the function set a
    jump buffer: then it returns [Ok], as the functions that run Python do; in a
    library whose functions set none, as those of the parallel sort and of the word
    count, the exit panics, and any other code always does. *)
Theorem exit_needs_buffer bodies (c : CWasm Mem) sched (l : Library W Mem) i b id code cont mem todo :
  NoDup (map ctx_id bodies) → Forall one_args bodies → bodies !! i = Some b →
  let r := run_instances c sched (map enter bodies) l in
  let g := InGuest (Import "proc_exit" [code] cont) mem todo in
  r.1 !! i = Some (id, g) →
  (SetJmp ∈ before_call b.(stmts) → code = 0 → (step c id g r.2).1 = Ended (Ret (Ok ()))) ∧
  ((∀ b', b' ∈ bodies → SetJmp ∉ b'.(stmts)) → l.(wasi).(JMP_BUF_MAP) = ∅ → (step c id g r.2).1 = Ended Panic) ∧
  (code ≠ 0 → (step c id g r.2).1 = Ended Panic).
Proof.
  intros Hnd Hone Hb r g Hi. unfold g.
  rewrite exit_step. split; [|split].
  - intros Hin ->. destruct (guest_reached c _ sched l i b id (Import "proc_exit" [0] cont) mem todo Hnd Hone Hb Hi)
      as (-> & pre & Epre & Hd). cbn [andb Z.eqb].
    rewrite bool_decide_eq_true_2; [done|]. by apply (jmp_set _ _ _ Hd), (before_call_in _ _ _ _ Epre).
  - intros Hno Hl. assert (Hj := bufs_unchanged c bodies sched l Hnd Hone Hno). rewrite Hl in Hj.
    unfold r. rewrite Hj, bool_decide_eq_false_2 by set_solver. by rewrite andb_false_r.
  - intros Hc. by rewrite (proj2 (Z.eqb_neq _ _) Hc).
Qed.
End exit.

(** ** Guests of a small module *)
Module FuncsDemo.
Export WasiDemo.
(** A service below whose files hold sevens. *)
#[global] Instance sevens_host : WasiHost () := {
  h_open _ _ _ := mret (Ok 5);
  h_close _ := mret (Ok ());
  h_read _ b := mret (Ok (zlen b), replicate (length b) 7);
  h_write _ b := mret (Ok (zlen b));
  h_stat fd := mret (Err (NoExistFd fd));
  h_readdir _ := mret (Ok [mk_dirent "a" "a" 8]);
  h_get_time := mret (Ok 5)
}.
(** Slots that are always empty. *)
#[global] Instance no_slots : WasiBuffers () := {
  h_with_slot _ _ _ := mret ();
  h_take_slot _ n := mret (n, replicate (Z.to_nat n) 0)
}.
(** A module whose guest asks for its arguments and exits. *)
Definition memory : list byte := replicate 128 0.
Definition wasm : CWasm (list byte) :=
  mk_cwasm true (λ _, Ok (Some memory)) (λ m _, Some m) (Ok ())
    (Import "args_sizes_get" [0; 4] (λ _, Import "proc_exit" [0] (λ _, Return))).
Definition library : Library () (list byte) := mk_library (mk_wasi ∅ ∅ ∅ "" None ()) Uninit.
Definition turns (k : nat) : list nat := concat (replicate k [0; 1]%nat).
Definition sorters : list (string * Instance (list byte)) * Library () (list byte) :=
  run_instances wasm (turns 9) (map enter (sort_bodies wasmtime_sorter.main 2 "sorter" 2 3)) library.
End FuncsDemo.

Lemma sorters_run : FuncsDemo.sorters.1 !! 1%nat =
  Some ("1", InGuest (start FuncsDemo.wasm) (Some FuncsDemo.memory) []).
Proof. vm_compute. reflexivity. Qed.

Lemma wasm_sort_arguments_witness :
  let s := as_caller "1" (Some FuncsDemo.memory) FuncsDemo.sorters.2.(wasi) in
  ∃ d d' : list byte,
  call_import "args_sizes_get" [0; 4] s = (Ret 0, with_data s FuncsDemo.memory d) ∧
  le_decode (sub d 0 4) = 4 ∧
  call_import "args_get" [16; 40] s = (Ret 0, with_data s FuncsDemo.memory d') ∧
  sub d' (Z.to_nat (le_decode (sub d' 28 4))) 2 = bytes_of "3" ++ [0].
Proof.
  destruct (wasm_sort_arguments (WMS := WasiDemo.list_memory_spec) wasmtime_sorter.main 2 "sorter" 2 3
    FuncsDemo.wasm (FuncsDemo.turns 9) FuncsDemo.library 1 "1" (start FuncsDemo.wasm) FuncsDemo.memory []
    (list_elem_of_here _ _) ltac:(split; [done|reflexivity]) ltac:(split; [done|reflexivity]) sorters_run 0 4 16 40)
    as [(d & H1 & H2 & _) (d' & H3 & H4)];
    [lia|lia|vm_compute; discriminate|lia|lia|vm_compute; discriminate|vm_compute; discriminate
    |vm_compute; discriminate|left; vm_compute; discriminate|reflexivity|reflexivity|].
  exact (ex_intro _ d (ex_intro _ d' (conj H1 (conj H2 (conj H3 (H4 3%nat "3" eq_refl)))))).
Defined.

(** A guest that exits, in a sorter and in a function that runs Python. *)
Definition exiting : Guest (list byte) := Import "proc_exit" [0] (λ _, Return).
Definition exit_wasm : CWasm (list byte) :=
  mk_cwasm true (λ _, Ok (Some FuncsDemo.memory)) (λ m _, Some m) (Ok ()) exiting.
Definition sorter_bodies : list Body := [wasmtime_sorter.func_body "0" 2 3; wasmtime_sorter.func_body "1" 2 3].
Definition python_bodies : list Body := [wasmtime_cpython.func_body "0" "f.py"; wasmtime_cpython.func_body "1" "g.py"].
Lemma demo_ids bodies : map ctx_id bodies = ["0"; "1"] → NoDup (map ctx_id bodies).
Proof. intros ->. repeat constructor; set_solver. Qed.
Lemma sorters_args : Forall one_args sorter_bodies.
Proof. repeat constructor; eapply one_args_of; reflexivity. Qed.
Lemma python_args : Forall one_args python_bodies.
Proof. repeat constructor; eapply one_args_of; reflexivity. Qed.
Lemma sorters_set_none b : b ∈ sorter_bodies → SetJmp ∉ b.(stmts).
Proof.
  intros Hb. repeat (apply elem_of_cons in Hb as [->|Hb]); [..|by apply not_elem_of_nil in Hb];
    cbn; intros H; repeat (apply elem_of_cons in H as [?|H]; [done|]); by apply not_elem_of_nil in H.
Qed.

Lemma sorters_exit : (run_instances exit_wasm (FuncsDemo.turns 8) (map enter sorter_bodies) FuncsDemo.library).1 !! 0%nat =
  Some ("0", InGuest exiting (Some FuncsDemo.memory) []).
Proof. vm_compute. reflexivity. Qed.
Lemma python_exit : (run_instances exit_wasm (FuncsDemo.turns 7) (map enter python_bodies) FuncsDemo.library).1 !! 0%nat =
  Some ("0", InGuest exiting (Some FuncsDemo.memory) []).
Proof. vm_compute. reflexivity. Qed.

Lemma exit_needs_buffer_witness :
  (step exit_wasm "0" (InGuest exiting (Some FuncsDemo.memory) [])
     (run_instances exit_wasm (FuncsDemo.turns 8) (map enter sorter_bodies) FuncsDemo.library).2).1 = Ended Panic ∧
  (step exit_wasm "0" (InGuest exiting (Some FuncsDemo.memory) [])
     (run_instances exit_wasm (FuncsDemo.turns 7) (map enter python_bodies) FuncsDemo.library).2).1 = Ended (Ret (Ok ())).
Proof.
  split.
  - exact (proj1 (proj2 (exit_needs_buffer sorter_bodies exit_wasm (FuncsDemo.turns 8) FuncsDemo.library 0
      (wasmtime_sorter.func_body "0" 2 3) "0" 0 (λ _, Return) (Some FuncsDemo.memory) [] (demo_ids sorter_bodies eq_refl)
      sorters_args eq_refl sorters_exit))
      sorters_set_none eq_refl).
  - exact (proj1 (exit_needs_buffer python_bodies exit_wasm (FuncsDemo.turns 7) FuncsDemo.library 0
      (wasmtime_cpython.func_body "0" "f.py") "0" 0 (λ _, Return) (Some FuncsDemo.memory) [] (demo_ids python_bodies eq_refl)
      python_args eq_refl python_exit)
      (list_elem_of_here _ _) eq_refl).
Defined.

(** Two functions of wasmtime_cpython_func with one [func_num] have one id: the guest
    of the first runs the file of the second. *)
Example same_number_same_args :
  let r := run_instances exit_wasm (FuncsDemo.turns 7)
    (map enter [wasmtime_cpython_func.func_body "f.py" 0; wasmtime_cpython_func.func_body "g.py" 0]) FuncsDemo.library in
  r.1 !! 0%nat = Some ("func_0", InGuest exiting (Some FuncsDemo.memory) []) ∧
  r.2.(wasi).(WASI_STATE) !! "func_0" = Some ["python.wasm"; "g.py"; "0"].
Proof. vm_compute. by split. Qed.
